(** * KiroGate request-path core: a shallow embedding and its properties

    The gateway translates OpenAI / Anthropic chat requests into the
    upstream payload, schedules credentials, decodes the upstream event
    stream and re-encodes it as Server-Sent Events.  This development
    embeds the TypeScript functions of the request path as Rocq functions
    and proves (or refutes, at concrete inputs) the properties claimed for
    them.

    Conventions of the embedding
    - a JavaScript string is the list of its UTF-16 code units ([jsstring]);
    - a JavaScript [Map] whose iteration order is observed is an association
      list updated in place; one that is only looked up is a [gmap];
    - a JavaScript [Set] of strings is a [gset];
    - [Date.now()], [Math.random()] and [crypto.randomUUID()] are read from
      explicit arguments;
    - token counts and timestamps are integers ([Z]). *)

From Stdlib Require Import ZArith NArith Lia List String Ascii Bool.
From stdpp Require Import base decidable option list gmap.
Import ListNotations.
Local Open Scope Z_scope.
Set Warnings "-register-all,-notation-for-abbreviation".

(* ===================================================================== *)
(** ** JavaScript strings *)
(* ===================================================================== *)

Module Js.

(** A string is a sequence of UTF-16 code units. *)
Definition jsstring := list N.

Definition of_ascii (c : ascii) : N := N_of_ascii c.

Fixpoint lit (s : string) : jsstring :=
  match s with
  | EmptyString => []
  | String c r => of_ascii c :: lit r
  end.

(** Literals of JSON text are written with apostrophes standing for the
    double quotes. *)
Definition litq (s : string) : jsstring :=
  map (fun c => if (c =? 39)%N then 34%N else c) (lit s).

Definition eqb (a b : jsstring) : bool := bool_decide (a = b).

Definition len (s : jsstring) : Z := Z.of_nat (length s).

(** [!s] for a string: the empty string is the only falsy one. *)
Definition truthy (s : jsstring) : bool :=
  match s with [] => false | _ => true end.

(** [a || b] on strings. *)
Definition or_else (a b : jsstring) : jsstring := if truthy a then a else b.

(** WhiteSpace and LineTerminator code units, as [String.prototype.trim]
    and the regular-expression class [\s] see them. *)
Definition isWhitespace (c : N) : bool :=
  ((9 <=? c) && (c <=? 13) || (c =? 32) || (c =? 160) || (c =? 5760)
   || (8192 <=? c) && (c <=? 8202) || (c =? 8232) || (c =? 8233)
   || (c =? 8239) || (c =? 8287) || (c =? 12288) || (c =? 65279))%N.

Fixpoint trimStart (s : jsstring) : jsstring :=
  match s with
  | c :: r => if isWhitespace c then trimStart r else s
  | [] => []
  end.

Definition trimEnd (s : jsstring) : jsstring := rev (trimStart (rev s)).

Definition trim (s : jsstring) : jsstring := trimEnd (trimStart s).

(** [s.startsWith(p)] *)
Fixpoint startsWith (p s : jsstring) : bool :=
  match p, s with
  | [], _ => true
  | a :: p', b :: s' => (a =? b)%N && startsWith p' s'
  | _ :: _, [] => false
  end.

(** [s.slice(n)] and [s.slice(0, n)] for [0 <= n]. *)
Definition sliceFrom (n : nat) (s : jsstring) : jsstring := skipn n s.
Definition sliceTo (n : nat) (s : jsstring) : jsstring := firstn n s.

(** [s.indexOf(p, from)]: the least position [>= from] at which [p]
    occurs, [None] for [-1]. *)
Fixpoint indexOfAux (p s : jsstring) (pos : nat) : option nat :=
  if startsWith p s then Some pos
  else match s with
       | [] => None
       | _ :: r => indexOfAux p r (S pos)
       end.

Definition indexOf (p s : jsstring) (from : nat) : option nat :=
  if Nat.ltb (length s) from then
    (if Nat.eqb (length p) 0 then Some (length s) else None)
  else indexOfAux p (skipn from s) from.

(** [s.includes(p)] *)
Definition includes (p s : jsstring) : bool :=
  match indexOf p s 0 with Some _ => true | None => false end.

(** [parts.join(sep)] *)
Fixpoint join (sep : jsstring) (parts : list jsstring) : jsstring :=
  match parts with
  | [] => []
  | [x] => x
  | x :: r => x ++ sep ++ join sep r
  end.

(** Decimal rendering of an integer, as template literals print it. *)
Fixpoint digitsAux (fuel : nat) (n : N) (acc : jsstring) : jsstring :=
  match fuel with
  | O => acc
  | S f =>
      let acc' := (48 + n mod 10)%N :: acc in
      if (n / 10 =? 0)%N then acc' else digitsAux f (n / 10)%N acc'
  end.

Definition showZ (z : Z) : jsstring :=
  let n := Z.to_N (Z.abs z) in
  let d := digitsAux (S (N.to_nat (N.log2 n))) n [] in
  if z <? 0 then 45%N :: d else d.

End Js.

Abbreviation jsstring := Js.jsstring.
Notation "'js' s" := (Js.lit s%string) (at level 1, only parsing).
Notation "'jsq' s" := (Js.litq s%string) (at level 1, only parsing).

Example js_trim_ex : Js.trim (js "  a b
 ") = js "a b".
Proof. reflexivity. Qed.

Example js_indexOf_ex : Js.indexOf (js "lo") (js "hello") 0 = Some 3%nat.
Proof. reflexivity. Qed.

Example js_showZ_ex : Js.showZ 200000 = js "200000" /\ Js.showZ (-7) = js "-7".
Proof. split; reflexivity. Qed.

(* ===================================================================== *)
(** ** Circuit breaker (fault layer) *)
(* ===================================================================== *)

Module CircuitBreaker.

Inductive CircuitState := CLOSED | OPEN | HALF_OPEN.

(** The three constructor arguments. *)
Record Config := {
  failureThreshold : Z;
  resetTimeoutMs : Z;
  halfOpenMaxAttempts : Z
}.

Definition defaultConfig : Config :=
  {| failureThreshold := 5; resetTimeoutMs := 30000; halfOpenMaxAttempts := 3 |}.

(** The private fields of the class. *)
Record t := {
  state : CircuitState;
  failureCount : Z;
  successCount : Z;
  lastFailTime : Z
}.

Definition init : t :=
  {| state := CLOSED; failureCount := 0; successCount := 0; lastFailTime := 0 |}.

Section WithConfig.
Variable cfg : Config.

(** [canExecute()]; [now] is the value of [Date.now()]. *)
Definition canExecute (now : Z) (b : t) : bool * t :=
  match state b with
  | CLOSED => (true, b)
  | OPEN =>
      if resetTimeoutMs cfg <=? now - lastFailTime b then
        (true, {| state := HALF_OPEN; failureCount := failureCount b;
                  successCount := 0; lastFailTime := lastFailTime b |})
      else (false, b)
  | HALF_OPEN => (true, b)
  end.

Definition recordSuccess (b : t) : t :=
  match state b with
  | HALF_OPEN =>
      let sc := successCount b + 1 in
      if halfOpenMaxAttempts cfg <=? sc then
        {| state := CLOSED; failureCount := 0; successCount := sc;
           lastFailTime := lastFailTime b |}
      else
        {| state := HALF_OPEN; failureCount := failureCount b; successCount := sc;
           lastFailTime := lastFailTime b |}
  | CLOSED =>
      {| state := CLOSED; failureCount := Z.max 0 (failureCount b - 1);
         successCount := successCount b; lastFailTime := lastFailTime b |}
  | OPEN => b
  end.

Definition recordFailure (now : Z) (b : t) : t :=
  match state b with
  | CLOSED =>
      let fc := failureCount b + 1 in
      {| state := if failureThreshold cfg <=? fc then OPEN else CLOSED;
         failureCount := fc; successCount := successCount b; lastFailTime := now |}
  | HALF_OPEN =>
      {| state := OPEN; failureCount := failureCount b;
         successCount := successCount b; lastFailTime := now |}
  | OPEN =>
      {| state := OPEN; failureCount := failureCount b;
         successCount := successCount b; lastFailTime := now |}
  end.

Definition reset (_ : t) : t := init.

(** The calls a client can make, each with the clock reading it observes. *)
Inductive op :=
| OpCanExecute (now : Z)
| OpRecordSuccess
| OpRecordFailure (now : Z)
| OpReset.

Definition step (b : t) (o : op) : t :=
  match o with
  | OpCanExecute now => snd (canExecute now b)
  | OpRecordSuccess => recordSuccess b
  | OpRecordFailure now => recordFailure now b
  | OpReset => reset b
  end.

(** The state reached from a fresh breaker by a history of calls. *)
Definition run (ops : list op) : t := fold_left step ops init.

(** The clock reading of the most recent [recordFailure] of a history. *)
Definition lastFailure (ops : list op) : option Z :=
  fold_left (fun acc o => match o with OpRecordFailure now => Some now | _ => acc end)
            ops None.

(** A burst of [canExecute] calls: the answers and the final state. *)
Fixpoint canExecuteAll (ts : list Z) (b : t) : list bool * t :=
  match ts with
  | [] => ([], b)
  | now :: r =>
      let '(ok, b1) := canExecute now b in
      let '(oks, b2) := canExecuteAll r b1 in
      (ok :: oks, b2)
  end.

Definition halfOpened (b : t) : t :=
  {| state := HALF_OPEN; failureCount := failureCount b;
     successCount := 0; lastFailTime := lastFailTime b |}.

(** In every reachable OPEN state the stored [lastFailTime] is the time of
    the last recorded failure. *)
Lemma open_lastFailTime (ops : list op) :
  state (run ops) = OPEN -> lastFailure ops = Some (lastFailTime (run ops)).
Proof.
  unfold run, lastFailure.
  induction ops as [|o ops IH] using rev_ind; [discriminate|].
  rewrite !fold_left_app; cbn [fold_left].
  set (b := fold_left step ops init) in *.
  destruct o as [now| |now|]; cbn [step].
  - unfold canExecute. destruct (state b) eqn:Hs; cbn [snd].
    + rewrite Hs. discriminate.
    + destruct (resetTimeoutMs cfg <=? now - lastFailTime b); cbn [snd state].
      * discriminate.
      * intros _. apply IH. reflexivity.
    + rewrite Hs. discriminate.
  - unfold recordSuccess. destruct (state b) eqn:Hs.
    + discriminate.
    + intros _. apply IH. reflexivity.
    + destruct (halfOpenMaxAttempts cfg <=? successCount b + 1); discriminate.
  - intros _. unfold recordFailure. destruct (state b); reflexivity.
  - discriminate.
Qed.

Lemma canExecuteAll_closed_window (ts : list Z) (b : t) :
  state b = OPEN ->
  Forall (fun now => now - lastFailTime b < resetTimeoutMs cfg) ts ->
  canExecuteAll ts b = (map (fun _ => false) ts, b).
Proof.
  intros Hs. induction 1 as [|now r Hlt _ IH]; [reflexivity|].
  cbn [canExecuteAll map]. unfold canExecute at 1. rewrite Hs.
  destruct (Z.leb_spec (resetTimeoutMs cfg) (now - lastFailTime b)); [lia|].
  rewrite IH. reflexivity.
Qed.

(** C5. In every state reached by a history of calls: if the breaker is OPEN
    then its window is anchored at the last recorded failure [tf]; every
    [canExecute] made while less than [resetTimeoutMs] has elapsed since
    [tf] answers false and changes nothing, and the first one made at or
    after [tf + resetTimeoutMs] answers true and moves the breaker to
    HALF_OPEN.  If the breaker is CLOSED or HALF_OPEN, [canExecute] answers
    true and changes nothing. *)
Theorem canExecute_open_window (ops : list op) :
  (state (run ops) = OPEN ->
     exists tf, lastFailure ops = Some tf /\
       forall (early : list Z) (late : Z),
         Forall (fun now => now - tf < resetTimeoutMs cfg) early ->
         resetTimeoutMs cfg <= late - tf ->
         canExecuteAll early (run ops) = (map (fun _ => false) early, run ops) /\
         canExecute late (run ops) = (true, halfOpened (run ops)))
  /\ (state (run ops) <> OPEN ->
        forall now, canExecute now (run ops) = (true, run ops)).
Proof.
  split.
  - intros Hs. exists (lastFailTime (run ops)). split.
    + apply open_lastFailTime, Hs.
    + intros early late Hearly Hlate. split.
      * apply canExecuteAll_closed_window; assumption.
      * unfold canExecute. rewrite Hs.
        destruct (Z.leb_spec (resetTimeoutMs cfg) (late - lastFailTime (run ops)));
          [reflexivity | lia].
  - intros Hs now. unfold canExecute. destruct (state (run ops)); congruence.
Qed.

End WithConfig.

(** Five failures at times 1..5 open the default breaker; it refuses at
    30004 and lets the probe through at 30005. *)
Definition fiveFailures : list op :=
  [OpRecordFailure 1; OpRecordFailure 2; OpRecordFailure 3;
   OpRecordFailure 4; OpRecordFailure 5].

Example fiveFailures_open : state (run defaultConfig fiveFailures) = OPEN.
Proof. reflexivity. Qed.

Lemma canExecute_open_window_witness :
  canExecuteAll defaultConfig [6; 30004] (run defaultConfig fiveFailures)
    = ([false; false], run defaultConfig fiveFailures)
  /\ canExecute defaultConfig 30005 (run defaultConfig fiveFailures)
    = (true, halfOpened (run defaultConfig fiveFailures)).
Proof.
  destruct (canExecute_open_window defaultConfig fiveFailures) as [Hopen _].
  destruct (Hopen eq_refl) as [tf [Htf Hwin]].
  assert (tf = 5) as -> by (vm_compute in Htf; congruence).
  apply (Hwin [6; 30004] 30005).
  - repeat constructor; cbn; lia.
  - cbn; lia.
Defined.

End CircuitBreaker.

(* ===================================================================== *)
(** ** JSON values, [JSON.parse] and [JSON.stringify] *)
(* ===================================================================== *)

Module Json.

(** A number keeps the text of its literal; the conversion to a double is
    not modelled. *)
Inductive t :=
| JNull
| JBool (b : bool)
| JNumber (literal : jsstring)
| JString (s : jsstring)
| JArray (xs : list t)
| JObject (members : list (jsstring * t)).

Definition emptyObject : t := JObject [].

(** [obj[k] = v] on the member list: an existing key keeps its place. *)
Fixpoint setMember (k : jsstring) (v : t) (ms : list (jsstring * t)) : list (jsstring * t) :=
  match ms with
  | [] => [(k, v)]
  | (k', v') :: r => if Js.eqb k k' then (k, v) :: r else (k', v') :: setMember k v r
  end.

Definition isWs (c : N) : bool := ((c =? 32) || (c =? 9) || (c =? 10) || (c =? 13))%N.

Fixpoint skipWs (s : jsstring) : jsstring :=
  match s with
  | c :: r => if isWs c then skipWs r else s
  | [] => []
  end.

Definition isDigit (c : N) : bool := ((48 <=? c) && (c <=? 57))%N.

Definition hexVal (c : N) : option N :=
  if isDigit c then Some (c - 48)%N
  else if ((97 <=? c) && (c <=? 102))%N then Some (c - 87)%N
  else if ((65 <=? c) && (c <=? 70))%N then Some (c - 55)%N
  else None.

Fixpoint takeDigits (s : jsstring) : jsstring * jsstring :=
  match s with
  | c :: r => if isDigit c then let '(d, rest) := takeDigits r in (c :: d, rest) else ([], s)
  | [] => ([], [])
  end.

(** The characters of a string literal after its opening quote. *)
Fixpoint stringBody (s acc : jsstring) : option (jsstring * jsstring) :=
  match s with
  | [] => None
  | c :: r =>
      if (c =? 34)%N then Some (rev acc, r)
      else if (c =? 92)%N then
        match r with
        | e :: r1 =>
            if (e =? 117)%N then
              match r1 with
              | h1 :: h2 :: h3 :: h4 :: r2 =>
                  match hexVal h1, hexVal h2, hexVal h3, hexVal h4 with
                  | Some a, Some b, Some c', Some d =>
                      stringBody r2 ((a * 4096 + b * 256 + c' * 16 + d)%N :: acc)
                  | _, _, _, _ => None
                  end
              | _ => None
              end
            else
              let simple (u : N) := stringBody r1 (u :: acc) in
              if (e =? 34)%N then simple 34%N
              else if (e =? 92)%N then simple 92%N
              else if (e =? 47)%N then simple 47%N
              else if (e =? 98)%N then simple 8%N
              else if (e =? 102)%N then simple 12%N
              else if (e =? 110)%N then simple 10%N
              else if (e =? 114)%N then simple 13%N
              else if (e =? 116)%N then simple 9%N
              else None
        | [] => None
        end
      else if (c <? 32)%N then None
      else stringBody r (c :: acc)
  end.

(** A number literal: an optional minus sign, an integer part without
    leading zero, an optional fraction and an optional exponent. *)
Definition numberLit (s : jsstring) : option (jsstring * jsstring) :=
  let '(sign, s1) :=
    match s with c :: r => if (c =? 45)%N then ([c], r) else ([], s) | [] => ([], s) end in
  let '(int, s2) := takeDigits s1 in
  match int with
  | [] => None
  | d0 :: ds =>
      if (d0 =? 48)%N && negb (Nat.eqb (length ds) 0) then None
      else
        let frac :=
          match s2 with
          | c :: r =>
              if (c =? 46)%N then
                let '(fd, s3) := takeDigits r in
                match fd with [] => None | _ => Some (c :: fd, s3) end
              else Some ([], s2)
          | [] => Some ([], s2)
          end in
        match frac with
        | None => None
        | Some (f, s3) =>
            match s3 with
            | c :: r =>
                if ((c =? 101) || (c =? 69))%N then
                  let '(es, r1) :=
                    match r with
                    | g :: r' => if ((g =? 43) || (g =? 45))%N then ([g], r') else ([], r)
                    | [] => ([], r)
                    end in
                  let '(ed, s4) := takeDigits r1 in
                  match ed with
                  | [] => None
                  | _ => Some (sign ++ int ++ f ++ c :: es ++ ed, s4)
                  end
                else Some (sign ++ int ++ f, s3)
            | [] => Some (sign ++ int ++ f, s3)
            end
        end
  end.

Definition expect (word : jsstring) (v : t) (s : jsstring) : option (t * jsstring) :=
  if Js.startsWith word s then Some (v, skipn (length word) s) else None.

(** Recursive descent; [fuel] bounds the number of nested calls. *)
Fixpoint value (fuel : nat) (s : jsstring) : option (t * jsstring) :=
  match fuel with
  | O => None
  | S f =>
      match skipWs s with
      | [] => None
      | c :: r =>
          if (c =? 123)%N then
            match skipWs r with
            | d :: r' => if (d =? 125)%N then Some (JObject [], r') else members f (d :: r') []
            | [] => None
            end
          else if (c =? 91)%N then
            match skipWs r with
            | d :: r' => if (d =? 93)%N then Some (JArray [], r') else elements f (d :: r') []
            | [] => None
            end
          else if (c =? 34)%N then
            match stringBody r [] with
            | Some (str, rest) => Some (JString str, rest)
            | None => None
            end
          else if (c =? 116)%N then expect (js "true") (JBool true) (c :: r)
          else if (c =? 102)%N then expect (js "false") (JBool false) (c :: r)
          else if (c =? 110)%N then expect (js "null") JNull (c :: r)
          else
            match numberLit (c :: r) with
            | Some (l, rest) => Some (JNumber l, rest)
            | None => None
            end
      end
  end
with elements (fuel : nat) (s : jsstring) (acc : list t) : option (t * jsstring) :=
  match fuel with
  | O => None
  | S f =>
      match value f s with
      | Some (v, rest) =>
          match skipWs rest with
          | c :: r =>
              if (c =? 44)%N then elements f r (v :: acc)
              else if (c =? 93)%N then Some (JArray (rev (v :: acc)), r)
              else None
          | [] => None
          end
      | None => None
      end
  end
with members (fuel : nat) (s : jsstring) (acc : list (jsstring * t)) : option (t * jsstring) :=
  match fuel with
  | O => None
  | S f =>
      match skipWs s with
      | q :: r =>
          if (q =? 34)%N then
            match stringBody r [] with
            | Some (k, rest) =>
                match skipWs rest with
                | c :: r1 =>
                    if (c =? 58)%N then
                      match value f r1 with
                      | Some (v, rest1) =>
                          match skipWs rest1 with
                          | d :: r2 =>
                              if (d =? 44)%N then members f r2 (setMember k v acc)
                              else if (d =? 125)%N then Some (JObject (setMember k v acc), r2)
                              else None
                          | [] => None
                          end
                      | None => None
                      end
                    else None
                | [] => None
                end
            | None => None
            end
          else None
      | [] => None
      end
  end.

(** [JSON.parse(text)]; [None] stands for the [SyntaxError]. *)
Definition parse (text : jsstring) : option t :=
  match value (2 * S (length text)) text with
  | Some (v, rest) => match skipWs rest with [] => Some v | _ => None end
  | None => None
  end.

Definition hexDigit (n : N) : N := if (n <? 10)%N then (48 + n)%N else (87 + n)%N.

Definition quoteChar (c : N) : jsstring :=
  if (c =? 34)%N then [92; 34]%N else
  if (c =? 92)%N then js "\\" else
  if (c =? 10)%N then js "\n" else
  if (c =? 13)%N then js "\r" else
  if (c =? 9)%N then js "\t" else
  if (c =? 8)%N then js "\b" else
  if (c =? 12)%N then js "\f" else
  if (c <? 32)%N then js "\u00" ++ [hexDigit (c / 16); hexDigit (c mod 16)]
  else [c].

Definition quote (s : jsstring) : jsstring :=
  34%N :: concat (map quoteChar s) ++ [34%N].

(** [JSON.stringify(v)] without indentation. *)
Fixpoint stringify (v : t) : jsstring :=
  match v with
  | JNull => js "null"
  | JBool true => js "true"
  | JBool false => js "false"
  | JNumber l => l
  | JString s => quote s
  | JArray xs => js "[" ++ Js.join (js ",") (map stringify xs) ++ js "]"
  | JObject ms =>
      js "{" ++ Js.join (js ",") (map (fun kv => quote (fst kv) ++ js ":" ++ stringify (snd kv)) ms)
         ++ js "}"
  end.

End Json.

Example json_parse_ex :
  Json.parse (jsq "{ 'a' : [1, -2.5e3, true, null], 'b':{'c':'x\ny'} }")
  = Some (Json.JObject
      [(js "a", Json.JArray [Json.JNumber (js "1"); Json.JNumber (js "-2.5e3");
                              Json.JBool true; Json.JNull]);
       (js "b", Json.JObject [(js "c", Json.JString [120; 10; 121]%N)])]).
Proof. vm_compute. reflexivity. Qed.

Example json_parse_truncated : Json.parse (jsq "{'a':1") = None.
Proof. vm_compute. reflexivity. Qed.

Example json_stringify_ex :
  Json.stringify (Json.JObject [(js "a", Json.JArray [Json.JNumber (js "1"); Json.JString (js "x")])])
  = jsq "{'a':[1,'x']}".
Proof. vm_compute. reflexivity. Qed.

(* ===================================================================== *)
(** ** Upstream event-stream decoder (kiroApi): tool buffers, JSON repair,
       end-of-stream completion, token estimate *)
(* ===================================================================== *)

Module KiroApi.

Record KiroToolUse := {
  toolUseId : jsstring;
  name : jsstring;
  input : Json.t
}.

Record KiroToolUseStream := {
  s_toolUseId : jsstring;
  s_name : option jsstring;
  s_inputFragment : option jsstring;
  s_isStart : bool;
  s_isStop : bool
}.

(** *** [countTokens] of the decoder

    The source adds 2, 1.5 or 0.25 per code unit and takes the ceiling.  The
    three weights are multiples of a quarter, so the sum is kept in quarters
    (it is exact in double precision as well). *)
Definition quarterWeight (code : N) : Z :=
  if ((19968 <? code) && (code <? 40959))%N then 8
  else if (127 <? code)%N then 6
  else 1.

Definition quarterSum (text : jsstring) : Z :=
  fold_left (fun count code => count + quarterWeight code) text 0.

(** [Math.ceil(q / 4)] *)
Definition ceilQuarter (q : Z) : Z := (q + 3) / 4.

Definition countTokens (text : jsstring) : Z :=
  if Js.truthy text then ceilQuarter (quarterSum text) else 0.

(** *** [tryRepairTruncatedJson] *)

Definition isHighSurrogate (c : N) : bool := ((55296 <=? c) && (c <=? 56319))%N.
Definition isLowSurrogate (c : N) : bool := ((56320 <=? c) && (c <=? 57343))%N.

(** The [while] loop that drops trailing high surrogates, on the reversed
    string. *)
Fixpoint dropHighSurrogates (revs : jsstring) : jsstring :=
  match revs with
  | c :: r => if isHighSurrogate c then dropHighSurrogates r else revs
  | [] => []
  end.

Definition stripTrailingHighSurrogates (s : jsstring) : jsstring :=
  rev (dropHighSurrogates (rev s)).

Record ScanState := {
  braceCount : Z;
  bracketCount : Z;
  inString : bool;
  escape : bool
}.

(** One iteration of [for (const char of result)] on a character that is a
    single code unit. *)
Definition scanUnit (c : N) (st : ScanState) : ScanState :=
  if escape st then
    {| braceCount := braceCount st; bracketCount := bracketCount st;
       inString := inString st; escape := false |}
  else if (c =? 92)%N then
    {| braceCount := braceCount st; bracketCount := bracketCount st;
       inString := inString st; escape := true |}
  else if (c =? 34)%N then
    {| braceCount := braceCount st; bracketCount := bracketCount st;
       inString := negb (inString st); escape := false |}
  else if negb (inString st) then
    if (c =? 123)%N then
      {| braceCount := braceCount st + 1; bracketCount := bracketCount st;
         inString := false; escape := false |}
    else if (c =? 125)%N then
      {| braceCount := braceCount st - 1; bracketCount := bracketCount st;
         inString := false; escape := false |}
    else if (c =? 91)%N then
      {| braceCount := braceCount st; bracketCount := bracketCount st + 1;
         inString := false; escape := false |}
    else if (c =? 93)%N then
      {| braceCount := braceCount st; bracketCount := bracketCount st - 1;
         inString := false; escape := false |}
    else st
  else st.

(** The same iteration on a surrogate pair: only a pending escape reacts. *)
Definition scanPair (st : ScanState) : ScanState :=
  if escape st then
    {| braceCount := braceCount st; bracketCount := bracketCount st;
       inString := inString st; escape := false |}
  else st.

(** The string iterator yields code points: a high surrogate followed by a
    low surrogate is one character. *)
Fixpoint scan (s : jsstring) (st : ScanState) : ScanState :=
  match s with
  | [] => st
  | c :: r =>
      match r with
      | d :: r2 =>
          if isHighSurrogate c && isLowSurrogate d then scan r2 (scanPair st)
          else scan r (scanUnit c st)
      | [] => scan r (scanUnit c st)
      end
  end.

Definition scanStart : ScanState :=
  {| braceCount := 0; bracketCount := 0; inString := false; escape := false |}.

Definition repeatUnit (c : N) (n : Z) : jsstring := repeat c (Z.to_nat n).

(** The text handed to the second [JSON.parse]. *)
Definition closeBrackets (repaired : jsstring) : jsstring :=
  let st := scan repaired scanStart in
  (if inString st then repaired ++ [34%N] else repaired)
    ++ repeatUnit 93 (bracketCount st) ++ repeatUnit 125 (braceCount st).

Definition repairedFlag : jsstring * Json.t := (js "_repaired", Json.JBool true).

Definition tryRepairTruncatedJson (truncated : jsstring) : option Json.t :=
  if Nat.ltb (length truncated) 2 then None
  else
    match Json.parse truncated with
    | Some v => Some v
    | None =>
        let repaired := stripTrailingHighSurrogates (Js.trim truncated) in
        match Json.parse (closeBrackets repaired) with
        | Some (Json.JObject ms) =>
            Some (Json.JObject (Json.setMember (fst repairedFlag) (snd repairedFlag) ms))
        | Some (Json.JArray xs) => Some (Json.JArray xs)
        | _ => None
        end
    end.

(** *** [ToolBufferManager] *)

Record ToolUseState := {
  b_toolUseId : jsstring;
  b_name : jsstring;
  inputBuffer : jsstring;
  startTime : Z
}.

(** The [Map] of buffers in insertion order ([getIncomplete] iterates it). *)
Definition Buffers := list (jsstring * ToolUseState).

Definition maxBufferSize : Z := 1024 * 1024.

Fixpoint get (id : jsstring) (m : Buffers) : option ToolUseState :=
  match m with
  | [] => None
  | (k, v) :: r => if Js.eqb id k then Some v else get id r
  end.

Fixpoint set (id : jsstring) (v : ToolUseState) (m : Buffers) : Buffers :=
  match m with
  | [] => [(id, v)]
  | (k, w) :: r => if Js.eqb id k then (k, v) :: r else (k, w) :: set id v r
  end.

Definition delete (id : jsstring) (m : Buffers) : Buffers :=
  List.filter (fun kv => negb (Js.eqb id (fst kv))) m.

Definition has (id : jsstring) (m : Buffers) : bool :=
  match get id m with Some _ => true | None => false end.

Definition getOrCreate (now : Z) (id nm : jsstring) (m : Buffers) : Buffers :=
  match get id m with
  | Some _ => m
  | None => set id {| b_toolUseId := id; b_name := nm; inputBuffer := []; startTime := now |} m
  end.

Definition withInput (s : ToolUseState) (i : jsstring) : ToolUseState :=
  {| b_toolUseId := b_toolUseId s; b_name := b_name s; inputBuffer := i;
     startTime := startTime s |}.

Definition appendInput (id i : jsstring) (m : Buffers) : Buffers :=
  match get id m with
  | None => m
  | Some s =>
      if maxBufferSize <? Js.len (inputBuffer s) + Js.len i then m
      else set id (withInput s (inputBuffer s ++ i)) m
  end.

Definition setInput (id i : jsstring) (m : Buffers) : Buffers :=
  match get id m with
  | None => m
  | Some s => set id (withInput s i) m
  end.

Definition getIncomplete (m : Buffers) : list ToolUseState := map snd m.

(** *** The decoder state of [parseEventStream] and its callbacks *)

Record Usage := {
  inputTokens : Z;
  outputTokens : Z;
  credits : Z;
  cacheReadTokens : Z;
  cacheWriteTokens : Z;
  reasoningTokens : Z;
  contextWindowExceeded : bool
}.

Record ThinkingParserState := {
  inThinking : bool;
  t_buffer : jsstring;
  thinkingLength : Z
}.

Record Decoder := {
  toolBuffers : Buffers;
  processedIds : gset jsstring;
  thinkingState : ThinkingParserState;
  usage : Usage;
  totalOutputText : jsstring
}.

(** What the callbacks receive, in call order. *)
Inductive Callback :=
| OnChunk (text : jsstring) (toolUse : option KiroToolUse)
          (isThinking : option bool) (toolUseStream : option KiroToolUseStream)
| OnComplete (u : Usage)
| OnError (message : jsstring).

(** The [input] field of a [toolUseEvent]: a string fragment, an object, or
    anything else (absent, number, ...). *)
Inductive ToolInput :=
| InputString (fragment : jsstring)
| InputObject (o : Json.t)
| InputOther.

Definition startUsage (inputPayload : jsstring) : Usage :=
  {| inputTokens := countTokens inputPayload; outputTokens := 0; credits := 0;
     cacheReadTokens := 0; cacheWriteTokens := 0; reasoningTokens := 0;
     contextWindowExceeded := false |}.

Definition start (inputPayload : jsstring) : Decoder :=
  {| toolBuffers := []; processedIds := ∅;
     thinkingState := {| inThinking := false; t_buffer := []; thinkingLength := 0 |};
     usage := startUsage inputPayload; totalOutputText := [] |}.

Definition withBuffers (d : Decoder) (m : Buffers) : Decoder :=
  {| toolBuffers := m; processedIds := processedIds d; thinkingState := thinkingState d;
     usage := usage d; totalOutputText := totalOutputText d |}.

Definition markProcessed (d : Decoder) (id : jsstring) : Decoder :=
  {| toolBuffers := toolBuffers d; processedIds := {[id]} ∪ processedIds d;
     thinkingState := thinkingState d; usage := usage d;
     totalOutputText := totalOutputText d |}.

Definition isProcessed (d : Decoder) (id : jsstring) : bool :=
  bool_decide (id ∈ processedIds d).

Definition streamChunk (id : jsstring) (nm frag : option jsstring) (isStart isStop : bool)
  : Callback :=
  OnChunk [] None None
    (Some {| s_toolUseId := id; s_name := nm; s_inputFragment := frag;
             s_isStart := isStart; s_isStop := isStop |}).

Definition toolChunk (id nm : jsstring) (i : Json.t) : Callback :=
  OnChunk [] (Some {| toolUseId := id; name := nm; input := i |}) None None.

(** The input of a tool use that ends with [stop]: parse, else repair, else
    the empty object. *)
Definition stopInput (buffer : jsstring) : Json.t :=
  if Js.truthy buffer then
    match Json.parse buffer with
    | Some v => v
    | None =>
        match tryRepairTruncatedJson buffer with
        | Some rep => rep
        | None => Json.emptyObject
        end
    end
  else Json.emptyObject.

(** The input of a tool use still open when the stream ends: parse, else
    the empty object. *)
Definition finalInput (buffer : jsstring) : Json.t :=
  if Js.truthy buffer then
    match Json.parse buffer with
    | Some v => v
    | None => Json.emptyObject
    end
  else Json.emptyObject.

(** The [toolUseEvent] branch of the dispatch.  An absent [toolUseId] or
    [name] is the empty string (both are falsy). *)
Definition onToolUseEvent (now : Z) (tuId tuName : jsstring) (inp : ToolInput)
    (isStop : bool) (d : Decoder) : list Callback * Decoder :=
  if isProcessed d tuId then ([], d)
  else
    let inputFrag := match inp with InputString f => f | _ => [] end in
    let inputObj := match inp with InputObject o => Some o | _ => None end in
    let hasId := Js.truthy tuId in
    let isNew := hasId && Js.truthy tuName && negb (has tuId (toolBuffers d)) in
    let m1 := if hasId && Js.truthy tuName
              then getOrCreate now tuId tuName (toolBuffers d) else toolBuffers d in
    let c1 := if isNew then [streamChunk tuId (Some tuName) None true false] else [] in
    let '(c2, m2) :=
      if hasId && Js.truthy inputFrag
      then ([streamChunk tuId None (Some inputFrag) false false], appendInput tuId inputFrag m1)
      else ([], m1) in
    let '(c3, m3) :=
      match inputObj with
      | Some o =>
          if hasId then
            let text := Json.stringify o in
            ([streamChunk tuId None (Some text) false false], setInput tuId text m2)
          else ([], m2)
      | None => ([], m2)
      end in
    if isStop && hasId then
      match get tuId m3 with
      | Some st =>
          let fi := stopInput (inputBuffer st) in
          (c1 ++ c2 ++ c3 ++
             [streamChunk (b_toolUseId st) None None false true;
              toolChunk (b_toolUseId st) (b_name st) fi],
           markProcessed (withBuffers d (delete tuId m3)) (b_toolUseId st))
      | None => (c1 ++ c2 ++ c3, withBuffers d m3)
      end
    else (c1 ++ c2 ++ c3, withBuffers d m3).

(** The loop over [toolBuffers.getIncomplete()] after the last frame. *)
Fixpoint flushIncomplete (states : list ToolUseState) (seen : gset jsstring)
  : list Callback :=
  match states with
  | [] => []
  | st :: r =>
      if bool_decide (b_toolUseId st ∈ seen) then flushIncomplete r seen
      else toolChunk (b_toolUseId st) (b_name st) (finalInput (inputBuffer st))
             :: flushIncomplete r ({[b_toolUseId st]} ∪ seen)
  end.

Definition flushThinking (thinkingEnabled : bool) (ts : ThinkingParserState)
  : list Callback :=
  if Js.truthy (t_buffer ts)
  then [OnChunk (t_buffer ts) None (Some (inThinking ts && thinkingEnabled)) None]
  else [].

Definition finalUsage (d : Decoder) : Usage :=
  let u := usage d in
  if (outputTokens u =? 0) && Js.truthy (totalOutputText d) then
    {| inputTokens := inputTokens u; outputTokens := countTokens (totalOutputText d);
       credits := credits u; cacheReadTokens := cacheReadTokens u;
       cacheWriteTokens := cacheWriteTokens u; reasoningTokens := reasoningTokens u;
       contextWindowExceeded := contextWindowExceeded u |}
  else u.

(** Everything [parseEventStream] does once the reader reports [done]. *)
Definition endOfStream (thinkingEnabled : bool) (d : Decoder) : list Callback :=
  flushIncomplete (getIncomplete (toolBuffers d)) (processedIds d)
    ++ flushThinking thinkingEnabled (thinkingState d)
    ++ [OnComplete (finalUsage d)].

Definition isComplete (c : Callback) : bool :=
  match c with OnComplete _ => true | _ => false end.

(** A stream of tool-use events followed by the end of the stream. *)
Fixpoint runToolEvents (now : Z) (evs : list (jsstring * jsstring * ToolInput * bool))
    (d : Decoder) : list Callback * Decoder :=
  match evs with
  | [] => ([], d)
  | (id, nm, inp, stop) :: r =>
      let '(c, d1) := onToolUseEvent now id nm inp stop d in
      let '(cs, d2) := runToolEvents now r d1 in
      (c ++ cs, d2)
  end.

(** *** Properties *)

Lemma flushIncomplete_no_complete states seen :
  List.filter isComplete (flushIncomplete states seen) = [].
Proof.
  revert seen. induction states as [|st r IH]; intros seen; cbn; [reflexivity|].
  destruct (bool_decide _); cbn; apply IH.
Qed.

(** Completion fires once, last, whatever the decoder state. *)
Lemma endOfStream_completes_once thinkingEnabled d :
  List.filter isComplete (endOfStream thinkingEnabled d) = [OnComplete (finalUsage d)]
  /\ last (endOfStream thinkingEnabled d) = Some (OnComplete (finalUsage d)).
Proof.
  unfold endOfStream. split.
  - rewrite !List.filter_app, flushIncomplete_no_complete.
    unfold flushThinking. destruct (Js.truthy _); reflexivity.
  - rewrite app_assoc. apply last_snoc.
Qed.

(** The residue of the thinking parser is handed to [onChunk]. *)
Lemma endOfStream_flushes_thinking thinkingEnabled d :
  t_buffer (thinkingState d) <> [] ->
  In (OnChunk (t_buffer (thinkingState d)) None
        (Some (inThinking (thinkingState d) && thinkingEnabled)) None)
     (endOfStream thinkingEnabled d).
Proof.
  intros Hne. unfold endOfStream, flushThinking.
  destruct (t_buffer (thinkingState d)) eqn:Hb; [congruence|].
  cbn [Js.truthy]. apply in_or_app. right. left. reflexivity.
Qed.

(** The upstream opens tool use [t1] with a truncated argument text and
    the stream ends without a [stop] event. *)
Definition truncatedToolStream : list (jsstring * jsstring * ToolInput * bool) :=
  [(js "t1", js "f", InputString (jsq "{'a':1"), false)].

(** The same fragments closed by a [stop] event. *)
Definition stoppedToolStream : list (jsstring * jsstring * ToolInput * bool) :=
  [(js "t1", js "f", InputString (jsq "{'a':1"), false);
   (js "t1", [], InputOther, true)].

Definition repairedA1 : Json.t :=
  Json.JObject [(js "a", Json.JNumber (js "1")); (js "_repaired", Json.JBool true)].

(** C4 (the code departs from the claim).  On the stop path the truncated
    buffer [{"a":1] is repaired to [{"a":1,"_repaired":true}]; at the end of
    the stream the same buffer is flushed with the empty object as input:
    [tryRepairTruncatedJson] is not applied there.  The single [onComplete]
    still fires last. *)
Theorem endOfStream_flush_skips_repair :
  let d := snd (runToolEvents 0 truncatedToolStream (start [])) in
  endOfStream false d
    = [toolChunk (js "t1") (js "f") Json.emptyObject; OnComplete (startUsage [])]
  /\ last (fst (runToolEvents 0 stoppedToolStream (start [])))
    = Some (toolChunk (js "t1") (js "f") repairedA1)
  /\ stopInput (jsq "{'a':1") = repairedA1
  /\ finalInput (jsq "{'a':1") = Json.emptyObject.
Proof. vm_compute. repeat split; reflexivity. Qed.

End KiroApi.

(* ===================================================================== *)
(** ** Credential pool and scheduler (accountPool) *)
(* ===================================================================== *)

Module AccountPool.

(** A credential.  [accessToken] stands for the opaque fields (e-mail,
    refresh token, region, ...) that every pool operation copies unchanged;
    optional fields are options. *)
Record ProxyAccount := {
  id : jsstring;
  accessToken : jsstring;
  subscriptionType : option jsstring;
  expiresAt : option Z;
  lastUsed : option Z;
  requestCount : option Z;
  errorCount : option Z;
  isAvailable : option bool;
  cooldownUntil : option Z;
  quotaExhausted : option bool;
  disabled : option bool
}.

Record AccountStats := {
  requests : Z;
  tokens : Z;
  errors : Z;
  s_lastUsed : Z;
  totalResponseTime : Z;
  (** [totalResponseTime / requests] of the last success, as a fraction *)
  avgResponseTime : Z * Z
}.

Record AccountHealth := {
  score : Z;
  (** [(totalRequests - totalErrors) / totalRequests], as a fraction *)
  successRate : Z * Z;
  h_avgResponseTime : Z * Z;
  recentErrors : Z;
  lastSuccessTime : Z
}.

Record AccountPoolConfig := {
  cooldownMs : Z;
  maxErrorCount : Z;
  autoResetIntervalMs : Z;
  healthScoreDecay : Z;
  healthScoreRecovery : Z
}.

Definition DEFAULT_CONFIG : AccountPoolConfig :=
  {| cooldownMs := 60000; maxErrorCount := 5; autoResetIntervalMs := 300000;
     healthScoreDecay := 20; healthScoreRecovery := 10 |}.

Inductive LoadBalancingMode := priority | balanced | smart.

(** The fields of the class.  [accounts] keeps the insertion order of the
    [Map], which [Array.from(this.accounts.values())] exposes. *)
Record Pool := {
  accounts : list (jsstring * ProxyAccount);
  accountStats : gmap jsstring AccountStats;
  accountHealth : gmap jsstring AccountHealth;
  inflightRequests : gmap jsstring Z;
  recentRequestWindows : gmap jsstring (list Z);
  lastAutoReset : Z;
  loadBalancingMode : LoadBalancingMode
}.

(** [x || 0], truthiness of an optional number or flag *)
Definition orZero (o : option Z) : Z := default 0 o.
Definition truthyZ (o : option Z) : bool :=
  match o with Some n => negb (n =? 0) | None => false end.
Definition truthyB (o : option bool) : bool := default false o.

(** *** The ordered [Map] of accounts *)

Fixpoint getAccount (k : jsstring) (m : list (jsstring * ProxyAccount)) : option ProxyAccount :=
  match m with
  | [] => None
  | (k', v) :: r => if Js.eqb k k' then Some v else getAccount k r
  end.

Fixpoint setAccount (k : jsstring) (v : ProxyAccount) (m : list (jsstring * ProxyAccount))
  : list (jsstring * ProxyAccount) :=
  match m with
  | [] => [(k, v)]
  | (k', w) :: r => if Js.eqb k k' then (k', v) :: r else (k', w) :: setAccount k v r
  end.

Definition values (m : list (jsstring * ProxyAccount)) : list ProxyAccount := map snd m.

Definition withAccounts (p : Pool) (m : list (jsstring * ProxyAccount)) : Pool :=
  {| accounts := m; accountStats := accountStats p; accountHealth := accountHealth p;
     inflightRequests := inflightRequests p; recentRequestWindows := recentRequestWindows p;
     lastAutoReset := lastAutoReset p; loadBalancingMode := loadBalancingMode p |}.

Definition withHealth (p : Pool) (h : gmap jsstring AccountHealth) : Pool :=
  {| accounts := accounts p; accountStats := accountStats p; accountHealth := h;
     inflightRequests := inflightRequests p; recentRequestWindows := recentRequestWindows p;
     lastAutoReset := lastAutoReset p; loadBalancingMode := loadBalancingMode p |}.

Definition withStats (p : Pool) (s : gmap jsstring AccountStats) : Pool :=
  {| accounts := accounts p; accountStats := s; accountHealth := accountHealth p;
     inflightRequests := inflightRequests p; recentRequestWindows := recentRequestWindows p;
     lastAutoReset := lastAutoReset p; loadBalancingMode := loadBalancingMode p |}.

Definition withInflight (p : Pool) (f : gmap jsstring Z) : Pool :=
  {| accounts := accounts p; accountStats := accountStats p; accountHealth := accountHealth p;
     inflightRequests := f; recentRequestWindows := recentRequestWindows p;
     lastAutoReset := lastAutoReset p; loadBalancingMode := loadBalancingMode p |}.

Definition withWindows (p : Pool) (w : gmap jsstring (list Z)) : Pool :=
  {| accounts := accounts p; accountStats := accountStats p; accountHealth := accountHealth p;
     inflightRequests := inflightRequests p; recentRequestWindows := w;
     lastAutoReset := lastAutoReset p; loadBalancingMode := loadBalancingMode p |}.

Definition withLastAutoReset (p : Pool) (t : Z) : Pool :=
  {| accounts := accounts p; accountStats := accountStats p; accountHealth := accountHealth p;
     inflightRequests := inflightRequests p; recentRequestWindows := recentRequestWindows p;
     lastAutoReset := t; loadBalancingMode := loadBalancingMode p |}.

(** *** Record updates written with the spread operator *)

(** [{ ...a, isAvailable: true, errorCount: ec, cooldownUntil: undefined }] *)
Definition revive (a : ProxyAccount) (ec : Z) : ProxyAccount :=
  {| id := id a; accessToken := accessToken a; subscriptionType := subscriptionType a;
     expiresAt := expiresAt a; lastUsed := lastUsed a; requestCount := requestCount a;
     errorCount := Some ec; isAvailable := Some true; cooldownUntil := None;
     quotaExhausted := quotaExhausted a; disabled := disabled a |}.

(** [{ ...a, isAvailable: true, cooldownUntil: undefined }] *)
Definition clearCooldown (a : ProxyAccount) : ProxyAccount :=
  {| id := id a; accessToken := accessToken a; subscriptionType := subscriptionType a;
     expiresAt := expiresAt a; lastUsed := lastUsed a; requestCount := requestCount a;
     errorCount := errorCount a; isAvailable := Some true; cooldownUntil := None;
     quotaExhausted := quotaExhausted a; disabled := disabled a |}.

(** The update of [recordSuccess]. *)
Definition succeeded (a : ProxyAccount) (now : Z) : ProxyAccount :=
  {| id := id a; accessToken := accessToken a; subscriptionType := subscriptionType a;
     expiresAt := expiresAt a; lastUsed := Some now;
     requestCount := Some (orZero (requestCount a) + 1);
     errorCount := Some 0; isAvailable := Some true; cooldownUntil := None;
     quotaExhausted := quotaExhausted a; disabled := disabled a |}.

Section WithConfig.
Variable config : AccountPoolConfig.

(** The scoring and the [Math.random()] draw of [selectBySmart] among two
    or more candidates. *)
Variable smartDraw : Pool -> list ProxyAccount -> Z -> ProxyAccount.

Definition toLowerAscii (s : jsstring) : jsstring :=
  map (fun c => if ((65 <=? c) && (c <=? 90))%N then (c + 32)%N else c) s.

(** [supportsModel]: Free accounts do not serve Opus.  Only ASCII letters
    lower-case to the letters of [opus]. *)
Definition supportsModel (a : ProxyAccount) (model : option jsstring) : bool :=
  match model with
  | None => true
  | Some m =>
      if negb (Js.truthy m) then true
      else if negb (Js.includes (js "opus") (toLowerAscii m)) then true
      else match subscriptionType a with
           | Some t => negb (Js.eqb t (js "Free"))
           | None => true
           end
  end.

(** [checkAccountAvailability(account, now).available] *)
Definition available (a : ProxyAccount) (now : Z) : bool :=
  if truthyB (disabled a) then false
  else if truthyB (quotaExhausted a) then false
  else if truthyZ (cooldownUntil a) && (now <? orZero (cooldownUntil a)) then false
  else if maxErrorCount config <=? orZero (errorCount a) then false
  else if truthyZ (expiresAt a) && (orZero (expiresAt a) <? now)
          && (30000 <? now - orZero (expiresAt a)) then false
  else match isAvailable a with
       | Some false => false
       | _ => true
       end.

Definition getInflight (p : Pool) (k : jsstring) : Z :=
  orZero (inflightRequests p !! k).

(** [recordRequestToWindow] *)
Definition recordRequestToWindow (k : jsstring) (now : Z) (p : Pool) : Pool :=
  let window := default [] (recentRequestWindows p !! k) ++ [now] in
  let window' :=
    if Nat.ltb 200 (length window)
    then List.filter (fun t => now - 300000 <? t) window else window in
  withWindows p (<[k := window']> (recentRequestWindows p)).

Definition acquireAccount (k : jsstring) (now : Z) (p : Pool) : Pool :=
  recordRequestToWindow k now
    (withInflight p (<[k := getInflight p k + 1]> (inflightRequests p))).

Definition releaseAccount (k : jsstring) (p : Pool) : Pool :=
  withInflight p (<[k := Z.max 0 (getInflight p k - 1)]> (inflightRequests p)).

(** [getRecentRequestCount]: the count, and the pool with the pruned
    window. *)
Definition getRecentRequestCount (k : jsstring) (now : Z) (p : Pool) : Z * Pool :=
  match recentRequestWindows p !! k with
  | None => (0, p)
  | Some [] => (0, p)
  | Some window =>
      let recent := List.filter (fun t => now - 300000 <? t) window in
      (Z.of_nat (length recent),
       if Nat.eqb (length recent) (length window) then p
       else withWindows p (<[k := recent]> (recentRequestWindows p)))
  end.

Definition selectByPriority (avail : list ProxyAccount) (dflt : ProxyAccount) : ProxyAccount :=
  hd dflt avail.

(** [selectByLeastUsed]: the first account of least
    [inflight * 1000 + recentRequests]; [None] is the initial [Infinity]. *)
Fixpoint leastUsedLoop (avail : list ProxyAccount) (now : Z) (p : Pool)
    (best : option Z) (selected : ProxyAccount) : ProxyAccount * Pool :=
  match avail with
  | [] => (selected, p)
  | a :: r =>
      let '(recent, p1) := getRecentRequestCount (id a) now p in
      let sc := getInflight p1 (id a) * 1000 + recent in
      match best with
      | Some b => if sc <? b then leastUsedLoop r now p1 (Some sc) a
                  else leastUsedLoop r now p1 best selected
      | None => leastUsedLoop r now p1 (Some sc) a
      end
  end.

Definition selectByLeastUsed (avail : list ProxyAccount) (dflt : ProxyAccount)
    (now : Z) (p : Pool) : ProxyAccount * Pool :=
  leastUsedLoop avail now p None (hd dflt avail).

Definition selectBySmart (avail : list ProxyAccount) (dflt : ProxyAccount)
    (now : Z) (p : Pool) : ProxyAccount :=
  if Nat.ltb 1 (length avail) then smartDraw p avail now else hd dflt avail.

(** [getAccountWithShortestCooldown]: the first account of least
    [max(0, (cooldownUntil || 0) - now)]. *)
Definition waitOf (now : Z) (a : ProxyAccount) : Z :=
  Z.max 0 (orZero (cooldownUntil a) - now).

Fixpoint shortestLoop (l : list ProxyAccount) (now : Z)
    (best : option (Z * ProxyAccount)) : option (Z * ProxyAccount) :=
  match l with
  | [] => best
  | a :: r =>
      match best with
      | Some (w, _) =>
          if waitOf now a <? w then shortestLoop r now (Some (waitOf now a, a))
          else shortestLoop r now best
      | None => shortestLoop r now (Some (waitOf now a, a))
      end
  end.

Definition getAccountWithShortestCooldown (l : list ProxyAccount) (now : Z)
  : option ProxyAccount :=
  option_map snd (shortestLoop l now None).

(** [Array.prototype.sort] with the comparator
    [(a, b) => (a.errorCount || 0) - (b.errorCount || 0)]; the sort is
    stable. *)
Fixpoint insertByErrors (a : ProxyAccount) (sorted : list ProxyAccount) : list ProxyAccount :=
  match sorted with
  | [] => [a]
  | b :: r =>
      if orZero (errorCount b) <=? orZero (errorCount a)
      then b :: insertByErrors a r else a :: sorted
  end.

Definition sortByErrors (l : list ProxyAccount) : list ProxyAccount :=
  fold_left (fun sorted a => insertByErrors a sorted) l [].

Definition usable (a : ProxyAccount) : bool :=
  negb (truthyB (disabled a)) && negb (truthyB (quotaExhausted a)).

Definition leastErrorsCandidate (a : ProxyAccount) : bool :=
  usable a && (orZero (errorCount a) <? maxErrorCount config + 2).

(** Which of the three priorities of [zeroDowntimeFallback] applies. *)
Inductive FallbackChoice :=
| ShortestCooldown (a : ProxyAccount)
| LeastErrors (a : ProxyAccount)
| Forced (a : ProxyAccount).


Definition fallbackChoice (accountList : list ProxyAccount) (dflt : ProxyAccount) (now : Z)
  : FallbackChoice :=
  let byCooldown :=
    match getAccountWithShortestCooldown accountList now with
    | Some s =>
        if truthyZ (cooldownUntil s) && (orZero (cooldownUntil s) - now <? 5000)
        then Some s else None
    | None => None
    end in
  match byCooldown with
  | Some s => ShortestCooldown s
  | None =>
      match sortByErrors (List.filter leastErrorsCandidate accountList) with
      | a :: _ => LeastErrors a
      | [] =>
          match List.filter usable accountList with
          | a :: _ => Forced a
          | [] => Forced (hd dflt accountList)
          end
      end
  end.

(** [zeroDowntimeFallback] on a non-empty list whose head is [dflt]. *)
Definition zeroDowntimeFallback (accountList : list ProxyAccount) (dflt : ProxyAccount)
    (now : Z) (p : Pool) : ProxyAccount * Pool :=
  match fallbackChoice accountList dflt now with
  | ShortestCooldown s =>
      (s, withAccounts p (setAccount (id s) (clearCooldown s) (accounts p)))
  | LeastErrors a =>
      (a, withAccounts p (setAccount (id a)
                            (revive a (Z.max 0 (orZero (errorCount a) - 1))) (accounts p)))
  | Forced a =>
      (a, withAccounts p (setAccount (id a) (revive a 0) (accounts p)))
  end.

(** [selfHeal] *)
Definition errorDisabled (a : ProxyAccount) : bool :=
  usable a && (maxErrorCount config <=? orZero (errorCount a)).

Definition healOne (p : Pool) (a : ProxyAccount) : Pool :=
  let p1 := withAccounts p (setAccount (id a) (revive a (orZero (errorCount a) / 2)) (accounts p)) in
  match accountHealth p1 !! id a with
  | Some h =>
      withHealth p1 (<[id a := {| score := Z.max 50 (score h); successRate := successRate h;
                                   h_avgResponseTime := h_avgResponseTime h;
                                   recentErrors := recentErrors h / 2;
                                   lastSuccessTime := lastSuccessTime h |}]> (accountHealth p1))
  | None => p1
  end.

Definition selfHeal (now : Z) (p : Pool) : bool * Pool :=
  let accountList := values (accounts p) in
  match accountList with
  | [] => (false, p)
  | _ =>
      let unavailable := List.filter (fun a => negb (available a now)) accountList in
      if Nat.ltb (length unavailable) (length accountList) then (false, p)
      else
        match List.filter errorDisabled accountList with
        | [] => (false, p)
        | eds => (true, fold_left healOne eds p)
        end
  end.

(** [reset] *)
Definition resetOne (p : Pool) (kv : jsstring * ProxyAccount) : Pool :=
  let p1 := withAccounts p (setAccount (fst kv) (revive (snd kv) 0) (accounts p)) in
  match accountHealth p1 !! fst kv with
  | Some h =>
      withHealth p1 (<[fst kv := {| score := 80; successRate := successRate h;
                                     h_avgResponseTime := h_avgResponseTime h;
                                     recentErrors := 0;
                                     lastSuccessTime := lastSuccessTime h |}]> (accountHealth p1))
  | None => p1
  end.

Definition reset (p : Pool) : Pool := fold_left resetOne (accounts p) p.

(** [checkAutoReset] *)
Definition checkAutoReset (now : Z) (p : Pool) : Pool :=
  if now - lastAutoReset p <? autoResetIntervalMs config then p
  else
    let accountList := values (accounts p) in
    let availableCount := length (List.filter (fun a => available a now) accountList) in
    if Nat.eqb availableCount 0 && Nat.ltb 0 (length accountList) then
      let '(healed, p1) := selfHeal now p in
      withLastAutoReset (if healed then p1 else reset p1) now
    else p.

(** [getNextAccount(model)].  The account list is read once, before
    [checkAutoReset]; the objects in it are not updated by the later
    [this.accounts.set] calls. *)
Definition getNextAccount (model : option jsstring) (now : Z) (p : Pool)
  : option ProxyAccount * Pool :=
  match values (accounts p) with
  | [] => (None, p)
  | [account] =>
      if available account now then (Some account, acquireAccount (id account) now p)
      else
        let p1 := withAccounts p
                    (setAccount (id account)
                       (revive account (Z.max 0 (orZero (errorCount account) - 1)))
                       (accounts p)) in
        (Some account, acquireAccount (id account) now p1)
  | (first :: _) as accountList =>
      let p1 := checkAutoReset now p in
      let availableAccounts :=
        List.filter (fun a => available a now && supportsModel a model) accountList in
      match availableAccounts with
      | [] =>
          let '(fallback, p2) := zeroDowntimeFallback accountList first now p1 in
          (Some fallback, acquireAccount (id fallback) now p2)
      | a0 :: _ =>
          let '(selected, p2) :=
            match loadBalancingMode p1 with
            | priority => (selectByPriority availableAccounts a0, p1)
            | balanced => selectByLeastUsed availableAccounts a0 now p1
            | smart => (selectBySmart availableAccounts a0 now p1, p1)
            end in
          (Some selected, acquireAccount (id selected) now p2)
      end
  end.

(** [recordSuccess(accountId, tokens, responseTime)] *)
Definition recordSuccess (accountId : jsstring) (tokens' responseTime now : Z) (p : Pool) : Pool :=
  let p0 := releaseAccount accountId p in
  let p1 :=
    match getAccount accountId (accounts p0) with
    | Some account => withAccounts p0 (setAccount accountId (succeeded account now) (accounts p0))
    | None => p0
    end in
  let stats := accountStats p1 !! accountId in
  let p2 :=
    match stats with
    | Some st =>
        let newTotalTime := totalResponseTime st + responseTime in
        let newRequests := requests st + 1 in
        withStats p1 (<[accountId := {| requests := newRequests; tokens := tokens st + tokens';
                                         errors := errors st; s_lastUsed := now;
                                         totalResponseTime := newTotalTime;
                                         avgResponseTime := (newTotalTime, newRequests) |}]>
                        (accountStats p1))
    | None => p1
    end in
  match accountHealth p2 !! accountId with
  | Some h =>
      let totalRequests := match stats with Some st => requests st | None => 0 end + 1 in
      let totalErrors := match stats with Some st => errors st | None => 0 end in
      let avg :=
        match stats with
        | Some st => if snd (avgResponseTime st) =? 0 then (responseTime, 1)
                     else if fst (avgResponseTime st) =? 0 then (responseTime, 1)
                     else avgResponseTime st
        | None => (responseTime, 1)
        end in
      withHealth p2 (<[accountId := {| score := Z.min 100 (score h + healthScoreRecovery config);
                                        successRate := (totalRequests - totalErrors, totalRequests);
                                        h_avgResponseTime := avg;
                                        recentErrors := Z.max 0 (recentErrors h - 1);
                                        lastSuccessTime := now |}]> (accountHealth p2))
  | None => p2
  end.

(** *** Properties of the ordered map *)

Lemma getAccount_setAccount_eq k v m : getAccount k (setAccount k v m) = Some v.
Proof.
  induction m as [|[k' w] r IH]; cbn.
  - unfold Js.eqb. rewrite bool_decide_eq_true_2; reflexivity.
  - destruct (Js.eqb k k') eqn:E; cbn; rewrite E; [reflexivity | exact IH].
Qed.

Lemma getAccount_setAccount_ne k k' v m :
  k' <> k -> getAccount k' (setAccount k v m) = getAccount k' m.
Proof.
  intros Hne. induction m as [|[k0 w] r IH]; cbn.
  - unfold Js.eqb. rewrite bool_decide_eq_false_2; [reflexivity | exact Hne].
  - destruct (Js.eqb k k0) eqn:E; cbn.
    + apply bool_decide_eq_true_1 in E. subst k0.
      unfold Js.eqb. rewrite bool_decide_eq_false_2; [reflexivity | exact Hne].
    + rewrite IH. reflexivity.
Qed.

Lemma setAccount_keys k v m :
  getAccount k m <> None -> map fst (setAccount k v m) = map fst m.
Proof.
  induction m as [|[k' w] r IH]; cbn; [congruence|].
  destruct (Js.eqb k k'); cbn; [reflexivity|].
  intros H. rewrite IH; [reflexivity | exact H].
Qed.

(** C9. After [recordSuccess] on a credential of the pool, that credential
    has error count 0, no cooldown and [isAvailable = true], its inflight
    counter is the old one minus one, floored at zero, and every other
    credential keeps its account record, inflight counter, statistics, health
    record and request window; the order of the pool is unchanged. *)
Theorem recordSuccess_frame (accountId : jsstring) (tokens' responseTime now : Z)
    (p : Pool) (a : ProxyAccount) :
  getAccount accountId (accounts p) = Some a ->
  let p' := recordSuccess accountId tokens' responseTime now p in
  (exists a', getAccount accountId (accounts p') = Some a'
      /\ errorCount a' = Some 0 /\ cooldownUntil a' = None /\ isAvailable a' = Some true)
  /\ getInflight p' accountId = Z.max 0 (getInflight p accountId - 1)
  /\ map fst (accounts p') = map fst (accounts p)
  /\ forall k, k <> accountId ->
       getAccount k (accounts p') = getAccount k (accounts p)
       /\ inflightRequests p' !! k = inflightRequests p !! k
       /\ accountStats p' !! k = accountStats p !! k
       /\ accountHealth p' !! k = accountHealth p !! k
       /\ recentRequestWindows p' !! k = recentRequestWindows p !! k.
Proof.
  intros Ha p'. subst p'. unfold recordSuccess.
  cbn [releaseAccount withInflight accounts]. rewrite Ha.
  set (p1 := withAccounts _ _).
  assert (Hacc : accounts p1 = setAccount accountId (succeeded a now) (accounts p)) by reflexivity.
  assert (Hinf : inflightRequests p1
                 = <[accountId := Z.max 0 (getInflight p accountId - 1)]> (inflightRequests p))
    by reflexivity.
  assert (Hst : accountStats p1 = accountStats p) by reflexivity.
  assert (Hhl : accountHealth p1 = accountHealth p) by reflexivity.
  assert (Hwin : recentRequestWindows p1 = recentRequestWindows p) by reflexivity.
  rewrite Hst.
  set (p2 := match accountStats p !! accountId with Some _ => _ | None => _ end).
  assert (H2 : accounts p2 = accounts p1 /\ inflightRequests p2 = inflightRequests p1
               /\ accountHealth p2 = accountHealth p1
               /\ recentRequestWindows p2 = recentRequestWindows p1
               /\ forall k, k <> accountId -> accountStats p2 !! k = accountStats p !! k).
  { subst p2. destruct (accountStats p !! accountId); cbn; repeat split; try reflexivity.
    intros k Hk. rewrite lookup_insert_ne by congruence. reflexivity. }
  destruct H2 as (Ha2 & Hi2 & Hh2 & Hw2 & Hs2).
  set (p3 := match accountHealth p2 !! accountId with Some _ => _ | None => _ end).
  assert (H3 : accounts p3 = accounts p2 /\ inflightRequests p3 = inflightRequests p2
               /\ accountStats p3 = accountStats p2
               /\ recentRequestWindows p3 = recentRequestWindows p2
               /\ forall k, k <> accountId -> accountHealth p3 !! k = accountHealth p2 !! k).
  { subst p3. destruct (accountHealth p2 !! accountId); cbn; repeat split; try reflexivity.
    intros k Hk. apply lookup_insert_ne. congruence. }
  destruct H3 as (Ha3 & Hi3 & Hs3 & Hw3 & Hh3).
  repeat split.
  - exists (succeeded a now). rewrite Ha3, Ha2, Hacc, getAccount_setAccount_eq.
    repeat split; reflexivity.
  - unfold getInflight at 1. rewrite Hi3, Hi2, Hinf, lookup_insert_eq. reflexivity.
  - rewrite Ha3, Ha2, Hacc. apply setAccount_keys. congruence.
  - rewrite Ha3, Ha2, Hacc. apply getAccount_setAccount_ne. assumption.
  - rewrite Hi3, Hi2, Hinf. apply lookup_insert_ne. congruence.
  - rewrite Hs3. apply Hs2. assumption.
  - rewrite Hh3, Hh2, Hhl by assumption. reflexivity.
  - rewrite Hw3, Hw2, Hwin. reflexivity.
Qed.

(** *** The zero-downtime fallback *)

Lemma filter_none {A} (f : A -> bool) (l : list A) :
  (forall a, In a l -> f a = false) -> List.filter f l = [].
Proof.
  induction l as [|x r IH]; intros H; cbn; [reflexivity|].
  rewrite (H x (or_introl eq_refl)). apply IH. intros a Ha. apply H. right. exact Ha.
Qed.


Lemma shortestLoop_spec (now : Z) (l : list ProxyAccount) :
  forall best w s,
    (forall wb b, best = Some (wb, b) -> wb = waitOf now b) ->
    shortestLoop l now best = Some (w, s) ->
    w = waitOf now s
    /\ (In s l \/ best = Some (w, s))
    /\ (forall b, In b l -> w <= waitOf now b)
    /\ (forall wb b, best = Some (wb, b) -> w <= wb).
Proof.
  induction l as [|a r IH]; intros best w s Hbest Hres; cbn in Hres.
  - subst best. repeat split.
    + apply (Hbest w s eq_refl).
    + right; reflexivity.
    + intros b [].
    + intros wb b [= -> _]. lia.
  - destruct best as [[wb0 b0]|].
    + destruct (Z.ltb_spec (waitOf now a) wb0) as [Hlt|Hge].
      * apply IH in Hres; [|intros ? ? [= <- <-]; reflexivity].
        destruct Hres as (Hw & Hin & Hmin & Hb). repeat split.
        -- exact Hw.
        -- left. destruct Hin as [Hin|[= _ ->]]; [right; exact Hin | left; reflexivity].
        -- intros b [<-|Hb']; [apply (Hb _ _ eq_refl) | apply Hmin, Hb'].
        -- intros wb b [= <- <-]. specialize (Hb _ _ eq_refl). lia.
      * apply IH in Hres; [|exact Hbest].
        destruct Hres as (Hw & Hin & Hmin & Hb). repeat split.
        -- exact Hw.
        -- destruct Hin as [Hin|Hin]; [left; right; exact Hin | right; exact Hin].
        -- intros b [<-|Hb']; [specialize (Hb _ _ eq_refl); lia | apply Hmin, Hb'].
        -- exact Hb.
    + apply IH in Hres; [|intros ? ? [= <- <-]; reflexivity].
      destruct Hres as (Hw & Hin & Hmin & Hb). repeat split.
      * exact Hw.
      * left. destruct Hin as [Hin|[= _ ->]]; [right; exact Hin | left; reflexivity].
      * intros b [<-|Hb']; [apply (Hb _ _ eq_refl) | apply Hmin, Hb'].
      * intros wb b [=].
Qed.


Lemma shortestCooldown_spec (now : Z) (l : list ProxyAccount) (s : ProxyAccount) :
  getAccountWithShortestCooldown l now = Some s ->
  In s l /\ forall b, In b l -> waitOf now s <= waitOf now b.
Proof.
  unfold getAccountWithShortestCooldown.
  destruct (shortestLoop l now None) as [[w s']|] eqn:E; [|discriminate].
  intros [= <-]. apply shortestLoop_spec in E; [|intros ? ? [=]].
  destruct E as (-> & Hin & Hmin & _). split.
  - destruct Hin as [Hin|[=]]; exact Hin.
  - exact Hmin.
Qed.

Lemma insertByErrors_In (a x : ProxyAccount) (sorted : list ProxyAccount) :
  In x (insertByErrors a sorted) <-> x = a \/ In x sorted.
Proof.
  induction sorted as [|b r IH]; cbn.
  - intuition congruence.
  - destruct (orZero (errorCount b) <=? orZero (errorCount a)); cbn.
    + rewrite IH. intuition congruence.
    + intuition congruence.
Qed.

Definition headLeast (sorted : list ProxyAccount) : Prop :=
  match sorted with
  | [] => True
  | h :: _ => forall b, In b sorted -> orZero (errorCount h) <= orZero (errorCount b)
  end.

Lemma insertByErrors_headLeast (a : ProxyAccount) (sorted : list ProxyAccount) :
  headLeast sorted -> headLeast (insertByErrors a sorted).
Proof.
  destruct sorted as [|h r]; cbn.
  - intros _ b [<-|[]]. lia.
  - intros Hh. destruct (Z.leb_spec (orZero (errorCount h)) (orZero (errorCount a))); cbn.
    + intros b [<-|Hb]; [lia|]. apply insertByErrors_In in Hb.
      destruct Hb as [->|Hb]; [lia | apply Hh; right; exact Hb].
    + intros b [<-|Hb]; [lia|]. specialize (Hh b Hb). lia.
Qed.

Lemma sortByErrors_loop (l : list ProxyAccount) :
  forall sorted, headLeast sorted ->
    headLeast (fold_left (fun acc a => insertByErrors a acc) l sorted)
    /\ forall x, In x (fold_left (fun acc a => insertByErrors a acc) l sorted)
                 <-> In x l \/ In x sorted.
Proof.
  induction l as [|a r IH]; intros sorted Hs; cbn.
  - split; [exact Hs | intuition].
  - destruct (IH (insertByErrors a sorted) (insertByErrors_headLeast a sorted Hs)) as [H1 H2].
    split; [exact H1|]. intros x. rewrite H2, insertByErrors_In. intuition.
Qed.

Lemma sortByErrors_head (l : list ProxyAccount) (a : ProxyAccount) (r : list ProxyAccount) :
  sortByErrors l = a :: r ->
  In a l /\ forall b, In b l -> orZero (errorCount a) <= orZero (errorCount b).
Proof.
  intros H. destruct (sortByErrors_loop l [] I) as [H1 H2].
  unfold sortByErrors in H. rewrite H in H1, H2. split.
  - destruct (proj1 (H2 a) (or_introl eq_refl)) as [Hin|[]]. exact Hin.
  - intros b Hb. apply H1. apply H2. left. exact Hb.
Qed.

Lemma sortByErrors_nil (l : list ProxyAccount) : sortByErrors l = [] -> l = [].
Proof.
  intros H. destruct l as [|a r]; [reflexivity|].
  destruct (sortByErrors_loop (a :: r) [] I) as [_ H2].
  unfold sortByErrors in H. rewrite H in H2.
  destruct (proj2 (H2 a) (or_introl (or_introl eq_refl))).
Qed.











Lemma healOne_inflight p a : inflightRequests (healOne p a) = inflightRequests p.
Proof. unfold healOne. cbn. destruct (accountHealth p !! id a); reflexivity. Qed.

Lemma resetOne_inflight p kv : inflightRequests (resetOne p kv) = inflightRequests p.
Proof. unfold resetOne. cbn. destruct (accountHealth p !! kv.1); reflexivity. Qed.

Lemma fold_inflight {A} (f : Pool -> A -> Pool) (l : list A) :
  (forall p a, inflightRequests (f p a) = inflightRequests p) ->
  forall p, inflightRequests (fold_left f l p) = inflightRequests p.
Proof.
  intros Hf. induction l as [|a r IH]; intros p; cbn; [reflexivity|].
  rewrite IH. apply Hf.
Qed.

Lemma checkAutoReset_inflight now p :
  inflightRequests (checkAutoReset now p) = inflightRequests p.
Proof.
  unfold checkAutoReset.
  destruct (now - lastAutoReset p <? autoResetIntervalMs config); [reflexivity|].
  destruct (_ && _); [|reflexivity].
  destruct (selfHeal now p) as [healed p1] eqn:Hh.
  assert (Hp1 : inflightRequests p1 = inflightRequests p).
  { unfold selfHeal in Hh. destruct (values (accounts p)) as [|a r]; [congruence|].
    destruct (Nat.ltb _ _); [congruence|].
    destruct (List.filter errorDisabled (a :: r)); [congruence|].
    injection Hh as _ <-. exact (fold_inflight healOne (_ :: _) healOne_inflight p). }
  destruct healed; cbn; [exact Hp1|].
  unfold reset. rewrite fold_inflight by apply resetOne_inflight. exact Hp1.
Qed.






End WithConfig.

(** *** A pool of two credentials that both exceeded the error threshold *)

Definition credential (k : jsstring) (ec : Z) : ProxyAccount :=
  {| id := k; accessToken := js "token"; subscriptionType := None; expiresAt := None;
     lastUsed := Some 0; requestCount := Some 0; errorCount := Some ec;
     isAvailable := Some true; cooldownUntil := None; quotaExhausted := None;
     disabled := None |}.

Definition credA : ProxyAccount := credential (js "a") 6.
Definition credB : ProxyAccount := credential (js "b") 6.

Definition tiredPool : Pool :=
  {| accounts := [(js "a", credA); (js "b", credB)];
     accountStats := ∅; accountHealth := ∅;
     inflightRequests := {[ js "a" := 1 ]}; recentRequestWindows := ∅;
     lastAutoReset := 1000000; loadBalancingMode := smart |}.

Definition firstDraw (_ : Pool) (l : list ProxyAccount) (_ : Z) : ProxyAccount := hd credA l.

Definition errorCountIn (p : Pool) (k : jsstring) : option Z :=
  match getAccount k (accounts p) with
  | Some a => errorCount a
  | None => None
  end.




(** When every credential is disabled the third priority still hands one
    out: the first of the pool. *)
Definition disabledCred (k : jsstring) : ProxyAccount :=
  {| id := k; accessToken := js "token"; subscriptionType := None; expiresAt := None;
     lastUsed := Some 0; requestCount := Some 0; errorCount := Some 0;
     isAvailable := Some false; cooldownUntil := None; quotaExhausted := Some true;
     disabled := Some true |}.

Definition bannedPool : Pool :=
  {| accounts := [(js "a", disabledCred (js "a")); (js "b", disabledCred (js "b"))];
     accountStats := ∅; accountHealth := ∅; inflightRequests := ∅;
     recentRequestWindows := ∅; lastAutoReset := 1000000; loadBalancingMode := smart |}.

Example fallback_forces_disabled :
  fst (getNextAccount DEFAULT_CONFIG firstDraw None 1000000 bannedPool)
    = Some (disabledCred (js "a"))
  /\ disabled (disabledCred (js "a")) = Some true.
Proof. vm_compute. split; reflexivity. Qed.

Lemma recordSuccess_frame_witness :
  errorCountIn (recordSuccess DEFAULT_CONFIG (js "a") 10 250 2000000 tiredPool) (js "a") = Some 0
  /\ getInflight (recordSuccess DEFAULT_CONFIG (js "a") 10 250 2000000 tiredPool) (js "a") = 0
  /\ getAccount (js "b") (accounts (recordSuccess DEFAULT_CONFIG (js "a") 10 250 2000000 tiredPool))
     = Some credB.
Proof.
  destruct (recordSuccess_frame DEFAULT_CONFIG (js "a") 10 250 2000000 tiredPool credA eq_refl)
    as ((a' & Ha' & Hec & _ & _) & Hinf & _ & Hother).
  split; [|split].
  - unfold errorCountIn. rewrite Ha'. exact Hec.
  - rewrite Hinf. reflexivity.
  - destruct (Hother (js "b")) as [Hb _]; [discriminate|]. rewrite Hb. reflexivity.
Defined.

End AccountPool.

(* ===================================================================== *)
(** ** The canonical payload and its history sanitizer (kiroApi) *)
(* ===================================================================== *)

Module Payload.

Export KiroApi(KiroToolUse, toolUseId, name, input).

Inductive ToolStatus := success | error.

Record KiroToolResult := {
  r_content : list jsstring;
  r_status : ToolStatus;
  r_toolUseId : jsstring
}.

Record KiroImage := { format : jsstring; bytes : jsstring }.

(** [{ toolSpecification: { name, description, inputSchema: { json } } }] *)
Record KiroToolWrapper := {
  spec_name : jsstring;
  spec_description : jsstring;
  spec_schema : Json.t
}.

Record Context := {
  toolResults : option (list KiroToolResult);
  tools : option (list KiroToolWrapper)
}.

Record KiroUserInputMessage := {
  content : jsstring;
  modelId : option jsstring;
  origin : jsstring;
  images : option (list KiroImage);
  userInputMessageContext : option Context
}.

Record KiroAssistantResponseMessage := {
  a_content : jsstring;
  toolUses : option (list KiroToolUse)
}.

(** Both fields are optional in the interface. *)
Record KiroHistoryMessage := {
  userInputMessage : option KiroUserInputMessage;
  assistantResponseMessage : option KiroAssistantResponseMessage
}.

Definition userMsg (u : KiroUserInputMessage) : KiroHistoryMessage :=
  {| userInputMessage := Some u; assistantResponseMessage := None |}.

Definition assistantMsg (a : KiroAssistantResponseMessage) : KiroHistoryMessage :=
  {| userInputMessage := None; assistantResponseMessage := Some a |}.

Definition plainUser (text : jsstring) : KiroUserInputMessage :=
  {| content := text; modelId := None; origin := js "AI_EDITOR"; images := None;
     userInputMessageContext := None |}.

Definition HELLO_MESSAGE : KiroHistoryMessage := userMsg (plainUser (js "Hello")).
Definition CONTINUE_MESSAGE : KiroHistoryMessage := userMsg (plainUser (js "Continue")).
Definition UNDERSTOOD_MESSAGE : KiroHistoryMessage :=
  assistantMsg {| a_content := js "understood"; toolUses := None |}.

Definition createFailedToolUseMessage (toolUseIds : list jsstring) : KiroHistoryMessage :=
  userMsg {| content := []; modelId := None; origin := js "AI_EDITOR"; images := None;
             userInputMessageContext :=
               Some {| toolResults :=
                         Some (map (fun i => {| r_content := [js "Tool execution failed"];
                                                r_status := error; r_toolUseId := i |})
                                   toolUseIds);
                       tools := None |} |}.

Definition isUserInputMessage (msg : KiroHistoryMessage) : bool :=
  match userInputMessage msg with Some _ => true | None => false end.

Definition isAssistantResponseMessage (msg : KiroHistoryMessage) : bool :=
  match assistantResponseMessage msg with Some _ => true | None => false end.

(** [msg.userInputMessage?.userInputMessageContext?.toolResults] *)
Definition resultsOf (msg : KiroHistoryMessage) : option (list KiroToolResult) :=
  match userInputMessage msg with
  | Some u => match userInputMessageContext u with
              | Some c => toolResults c
              | None => None
              end
  | None => None
  end.

(** [msg.assistantResponseMessage?.toolUses] *)
Definition usesOf (msg : KiroHistoryMessage) : option (list KiroToolUse) :=
  match assistantResponseMessage msg with
  | Some a => toolUses a
  | None => None
  end.

Definition nonEmpty {A} (o : option (list A)) : bool :=
  match o with Some (_ :: _) => true | _ => false end.

Definition hasToolResults (msg : KiroHistoryMessage) : bool := nonEmpty (resultsOf msg).
Definition hasToolUses (msg : KiroHistoryMessage) : bool := nonEmpty (usesOf msg).

Definition idSet (ids : list jsstring) : gset jsstring := list_to_set ids.

Definition hasMatchingToolResults (uses : option (list KiroToolUse))
    (results : option (list KiroToolResult)) : bool :=
  if negb (nonEmpty uses) then true
  else if negb (nonEmpty results) then false
  else
    let resultIds := idSet (map r_toolUseId (default [] results)) in
    forallb (fun tu => bool_decide (toolUseId tu ∈ resultIds)) (default [] uses).

(** *** Orphaned tool uses *)

(** The ids of all tool results of a conversation. *)
Definition resultIdsOf (messages : list KiroHistoryMessage) : gset jsstring :=
  idSet (flat_map (fun m => map r_toolUseId (default [] (resultsOf m))) messages).

(** The second loop of [findOrphanedToolUseIds]: the last message is
    exempt. *)
Fixpoint orphanedFrom (resultIds : gset jsstring) (messages : list KiroHistoryMessage)
  : list jsstring :=
  match messages with
  | [] => []
  | m :: r =>
      match r with
      | [] => []
      | _ :: _ =>
          List.filter (fun i => negb (bool_decide (i ∈ resultIds)))
                      (map toolUseId (default [] (usesOf m)))
            ++ orphanedFrom resultIds r
      end
  end.

Definition findOrphanedToolUseIds (messages : list KiroHistoryMessage) : gset jsstring :=
  idSet (orphanedFrom (resultIdsOf messages) messages).

Definition stripOrphans (orphanedIds : gset jsstring) (msg : KiroHistoryMessage)
  : KiroHistoryMessage :=
  match assistantResponseMessage msg with
  | Some a =>
      match toolUses a with
      | Some tus =>
          let filtered :=
            List.filter (fun tu => negb (bool_decide (toolUseId tu ∈ orphanedIds))) tus in
          if Nat.eqb (length filtered) (length tus) then msg
          else {| userInputMessage := userInputMessage msg;
                  assistantResponseMessage :=
                    Some {| a_content := a_content a;
                            toolUses := match filtered with [] => None | _ => Some filtered end |} |}
      | None => msg
      end
  | None => msg
  end.

Definition removeOrphanedToolUses (messages : list KiroHistoryMessage)
  : list KiroHistoryMessage :=
  let orphanedIds := findOrphanedToolUseIds messages in
  if Nat.eqb (size orphanedIds) 0 then messages
  else map (stripOrphans orphanedIds) messages.

(** *** [sanitizeConversation] *)

(** The test that drops an empty user message once a user message was
    seen. *)
Definition skipped (firstUserSeen : bool) (msg : KiroHistoryMessage) : bool :=
  match userInputMessage msg with
  | Some u => firstUserSeen && negb (Js.truthy (Js.trim (content u))) && negb (hasToolResults msg)
  | None => false
  end.

(** The filler pushed between two messages of the same role. *)
Definition filler (result : list KiroHistoryMessage) (msg : KiroHistoryMessage)
  : list KiroHistoryMessage :=
  match last result with
  | Some prev =>
      if isUserInputMessage prev && isUserInputMessage msg then [UNDERSTOOD_MESSAGE]
      else if isAssistantResponseMessage prev && isAssistantResponseMessage msg
           then [CONTINUE_MESSAGE]
      else []
  | None => []
  end.

(** The next message answers every tool use of [msg]. *)
Definition answeredBy (msg : KiroHistoryMessage) (next : option KiroHistoryMessage) : bool :=
  match next with
  | Some n => isUserInputMessage n && hasToolResults n
              && hasMatchingToolResults (usesOf msg) (resultsOf n)
  | None => false
  end.

(** The synthetic failure results pushed after an unanswered tool use. *)
Definition failureFor (msg : KiroHistoryMessage) (next : option KiroHistoryMessage)
  : list KiroHistoryMessage :=
  if isAssistantResponseMessage msg && hasToolUses msg && negb (answeredBy msg next)
  then [createFailedToolUseMessage (map toolUseId (default [] (usesOf msg)))]
  else [].

(** The [for] loop; [messages] is what remains to be read, [result] the
    array built so far. *)
Fixpoint sanitizeLoop (messages result : list KiroHistoryMessage) (firstUserSeen : bool)
  : list KiroHistoryMessage :=
  match messages with
  | [] => result
  | msg :: rest =>
      if skipped firstUserSeen msg then sanitizeLoop rest result firstUserSeen
      else
        sanitizeLoop rest
          (result ++ filler result msg ++ [msg] ++ failureFor msg (head rest))
          (firstUserSeen || isUserInputMessage msg)
  end.

Definition ensureEnds (result : list KiroHistoryMessage) : list KiroHistoryMessage :=
  let r1 := match result with
            | [] => [HELLO_MESSAGE]
            | m :: _ => if isUserInputMessage m then result else HELLO_MESSAGE :: result
            end in
  match last r1 with
  | Some l => if isUserInputMessage l then r1 else r1 ++ [CONTINUE_MESSAGE]
  | None => r1 ++ [CONTINUE_MESSAGE]
  end.

Definition sanitizeConversation (messages : list KiroHistoryMessage)
  : list KiroHistoryMessage :=
  match messages with
  | [] => [HELLO_MESSAGE]
  | _ => removeOrphanedToolUses (ensureEnds (sanitizeLoop messages [] false))
  end.

(** *** [buildKiroPayload] *)

Definition DEFAULT_THINKING_BUDGET : Z := 200000.
Definition MAX_THINKING_BUDGET : Z := 200000.

Definition AGENTIC_SYSTEM_PROMPT : jsstring :=
  js "File operations limit: max 600 lines per write. For larger files, use chunked writes (400-500 lines each). Use Edit for modifications instead of full rewrites.
When the Write or Edit tool has content size limits, always comply silently. Never suggest bypassing these limits via alternative tools. Never ask the user whether to switch approaches. Complete all chunked operations without commentary.".

(** ['enabled' | 'adaptive' | null] *)
Inductive ThinkingType := TEnabled | TAdaptive | TNull.

Definition nl2 : jsstring := [10; 10]%N.

Definition buildThinkingModePrompt (budgetTokens : Z) (thinkingType : ThinkingType)
    (effortOverride : option jsstring) : jsstring :=
  let budget := Z.min budgetTokens MAX_THINKING_BUDGET in
  match thinkingType with
  | TAdaptive =>
      let override := Js.truthy (default [] effortOverride) in
      let effort :=
        if override then default [] effortOverride
        else if budget <=? 1280 then js "low"
        else if budget <=? 2048 then js "medium"
        else js "high" in
      js "<thinking_mode>adaptive</thinking_mode>" ++ [10%N]
        ++ js "<thinking_effort>" ++ effort ++ js "</thinking_effort>"
  | _ =>
      js "<thinking_mode>enabled</thinking_mode>" ++ [10%N]
        ++ js "<max_thinking_length>" ++ Js.showZ budget ++ js "</max_thinking_length>"
  end.

(** [injectSystemPrompts]; [ts] is the UTC time stamp the function formats
    from [new Date()]. *)
Definition injectSystemPrompts (ts : jsstring) (text : jsstring) (isAgentic thinkingEnabled : bool)
    (thinkingBudget : Z) (thinkingType : ThinkingType) (effortOverride : option jsstring)
  : jsstring :=
  let r1 := if thinkingEnabled
            then buildThinkingModePrompt thinkingBudget thinkingType effortOverride ++ nl2 ++ text
            else text in
  let r2 := if isAgentic then AGENTIC_SYSTEM_PROMPT ++ nl2 ++ r1 else r1 in
  js "Current time: " ++ ts ++ nl2 ++ r2.

Definition toolUseIdsOf (history : list KiroHistoryMessage) : gset jsstring :=
  idSet (flat_map (fun m => map toolUseId (default [] (usesOf m))) history).

Definition validateToolResults (results : list KiroToolResult)
    (history : list KiroHistoryMessage) : list KiroToolResult :=
  match results with
  | [] => results
  | _ =>
      let allToolUseIds := toolUseIdsOf history in
      let pairedResultIds := resultIdsOf history in
      List.filter (fun r => bool_decide (r_toolUseId r ∈ allToolUseIds)
                            && negb (bool_decide (r_toolUseId r ∈ pairedResultIds)))
                  results
  end.

Record KiroPayload := {
  conversationId : jsstring;
  currentMessage : KiroUserInputMessage;
  history : option (list KiroHistoryMessage)
}.

Section Build.
(** [String.prototype.toLowerCase] *)
Variable toLowerCase : jsstring -> jsstring.

(** The [Set] of missing names, in insertion order. *)
Fixpoint addMissing (currentNames : gset jsstring) (uses : list KiroToolUse)
    (missing : list jsstring) : list jsstring :=
  match uses with
  | [] => missing
  | tu :: r =>
      if negb (bool_decide (toLowerCase (name tu) ∈ currentNames))
         && negb (existsb (Js.eqb (name tu)) missing)
      then addMissing currentNames r (missing ++ [name tu])
      else addMissing currentNames r missing
  end.

Definition ensureHistoryToolsDefined (tls : list KiroToolWrapper)
    (hist : list KiroHistoryMessage) : list KiroToolWrapper :=
  let currentNames := idSet (map (fun t => toLowerCase (spec_name t)) tls) in
  let missing :=
    fold_left (fun acc m => addMissing currentNames (default [] (usesOf m)) acc) hist [] in
  match missing with
  | [] => tls
  | _ =>
      tls ++ map (fun n => {| spec_name := n; spec_description := js "Tool: " ++ n;
                              spec_schema :=
                                Json.JObject [(js "type", Json.JString (js "object"));
                                              (js "properties", Json.JObject [])] |})
                 missing
  end.

Definition optList {A} (l : list A) : option (list A) :=
  match l with [] => None | _ => Some l end.

(** [buildKiroPayload] without [profileArn] and [inferenceConfig], which
    are copied to the payload and touch neither the history nor the current
    message.  [ts] is the clock reading, [convId] the conversation id
    (given, or drawn by [crypto.randomUUID()]). *)
Definition buildKiroPayload (ts convId : jsstring) (text : jsstring) (model : jsstring)
    (orig : jsstring) (hist : list KiroHistoryMessage) (tls : list KiroToolWrapper)
    (results : list KiroToolResult) (imgs : list KiroImage) (thinkingEnabled : bool)
    (thinkingBudget : option Z) (thinkingType : ThinkingType)
    (effortOverride : option jsstring) : KiroPayload :=
  let isAgentic := negb (Nat.eqb (length tls) 0) in
  let contentWithPrompts :=
    injectSystemPrompts ts text isAgentic thinkingEnabled
      (default DEFAULT_THINKING_BUDGET thinkingBudget) thinkingType effortOverride in
  let finalContent :=
    Js.or_else (Js.trim contentWithPrompts)
               (match results with [] => js "Continue" | _ => [] end) in
  let validatedToolResults := validateToolResults results hist in
  let ctx :=
    match tls, validatedToolResults with
    | [], [] => None
    | _, _ => Some {| toolResults := optList validatedToolResults; tools := optList tls |}
    end in
  let currentUserInputMessage :=
    {| content := finalContent; modelId := Some model; origin := orig;
       images := optList imgs; userInputMessageContext := ctx |} in
  let allMessages := hist ++ [userMsg currentUserInputMessage] in
  let sanitizedMessages := sanitizeConversation allMessages in
  let sanitizedHistory := removelast sanitizedMessages in
  let finalCurrent :=
    match last sanitizedMessages with
    | Some m =>
        match userInputMessage m with
        | Some u => u
        | None => {| content := Js.or_else finalContent (js "Continue"); modelId := Some model;
                     origin := orig; images := None; userInputMessageContext := None |}
        end
    | None => currentUserInputMessage
    end in
  let finalCurrent' :=
    match tls with
    | [] => finalCurrent
    | _ =>
        let allTools := ensureHistoryToolsDefined tls sanitizedHistory in
        {| content := content finalCurrent; modelId := modelId finalCurrent;
           origin := origin finalCurrent; images := images finalCurrent;
           userInputMessageContext :=
             Some {| toolResults :=
                       match userInputMessageContext finalCurrent with
                       | Some c => toolResults c
                       | None => None
                       end;
                     tools := Some allTools |} |}
    end in
  {| conversationId := convId; currentMessage := finalCurrent';
     history := optList sanitizedHistory |}.

End Build.

(** The messages of a payload in order: the history, then the current
    message. *)
Definition turns (pl : KiroPayload) : list KiroHistoryMessage :=
  default [] (history pl) ++ [userMsg (currentMessage pl)].

(** *** The invariants of a sanitized conversation *)

(** A message carries exactly one of the two fields. *)
Definition oneRole (m : KiroHistoryMessage) : bool :=
  xorb (isUserInputMessage m) (isAssistantResponseMessage m).

(** The tool uses of [m], if any, are all answered by the message that
    follows it. *)
Definition okNext (m : KiroHistoryMessage) (next : option KiroHistoryMessage) : bool :=
  if isAssistantResponseMessage m && hasToolUses m then answeredBy m next else true.

(** Every assistant message with tool uses is directly followed by a user
    message holding a result for each of its tool-use ids; [after] is what
    follows the list. *)
Fixpoint answered (l : list KiroHistoryMessage) (after : option KiroHistoryMessage) : bool :=
  match l with
  | [] => true
  | m :: r => okNext m (match r with [] => after | n :: _ => Some n end) && answered r after
  end.

(** Neighbours have different roles. *)
Fixpoint alternates (l : list KiroHistoryMessage) : bool :=
  match l with
  | [] => true
  | m :: r =>
      match r with
      | [] => true
      | n :: _ => xorb (isUserInputMessage m) (isUserInputMessage n)
      end && alternates r
  end.

Definition pending (o : option KiroHistoryMessage) : bool :=
  match o with
  | Some p => isAssistantResponseMessage p && hasToolUses p
  | None => false
  end.

Lemma answered_snoc l m o : answered (l ++ [m]) o = answered l (Some m) && okNext m o.
Proof.
  induction l as [|a r IH]; cbn [app answered].
  - rewrite andb_true_r. reflexivity.
  - rewrite IH. destruct r; cbn [app]; rewrite andb_assoc; reflexivity.
Qed.

Lemma answered_not_pending l o o' :
  pending (last l) = false -> answered l o = answered l o'.
Proof.
  induction l as [|a r IH]; [reflexivity|].
  destruct r as [|b r'].
  - cbn. unfold okNext. intros ->. reflexivity.
  - rewrite last_cons_cons. intros H. specialize (IH H).
    change (answered (a :: b :: r') o) with (okNext a (Some b) && answered (b :: r') o).
    change (answered (a :: b :: r') o') with (okNext a (Some b) && answered (b :: r') o').
    rewrite IH. reflexivity.
Qed.

Lemma answered_unanswerable l n o :
  answered l (Some n) = true ->
  isUserInputMessage n && hasToolResults n = false ->
  answered l o = true.
Proof.
  intros Ha Hn. rewrite (answered_not_pending l o (Some n)); [exact Ha|].
  destruct (pending (last l)) eqn:Hp; [|reflexivity]. exfalso.
  destruct (last l) as [p|] eqn:Hl; [|discriminate].
  apply last_Some in Hl. destruct Hl as [l' ->].
  rewrite answered_snoc in Ha. apply andb_true_iff in Ha. destruct Ha as [_ Ha].
  unfold okNext in Ha. cbn [pending] in Hp. rewrite Hp in Ha.
  unfold answeredBy in Ha. rewrite Hn in Ha. discriminate.
Qed.

Lemma answered_None_any l o : answered l None = true -> answered l o = true.
Proof.
  intros H. destruct (pending (last l)) eqn:Hp.
  - exfalso. destruct (last l) as [p|] eqn:Hl; [|discriminate].
    apply last_Some in Hl. destruct Hl as [l' ->].
    rewrite answered_snoc in H. apply andb_true_iff in H. destruct H as [_ H].
    unfold okNext in H. cbn [pending] in Hp. rewrite Hp in H. discriminate.
  - rewrite (answered_not_pending l o None Hp). exact H.
Qed.

Lemma alternates_snoc l m :
  alternates (l ++ [m])
  = alternates l && match last l with
                    | Some p => xorb (isUserInputMessage p) (isUserInputMessage m)
                    | None => true
                    end.
Proof.
  induction l as [|a r IH]; [reflexivity|].
  destruct r as [|b r'].
  - cbn. rewrite !andb_true_r. reflexivity.
  - rewrite last_cons_cons.
    change (alternates ((a :: b :: r') ++ [m]))
      with (xorb (isUserInputMessage a) (isUserInputMessage b) && alternates ((b :: r') ++ [m])).
    change (alternates (a :: b :: r'))
      with (xorb (isUserInputMessage a) (isUserInputMessage b) && alternates (b :: r')).
    rewrite IH, andb_assoc. reflexivity.
Qed.

Lemma oneRole_user m : oneRole m = true -> isUserInputMessage m = true ->
  isAssistantResponseMessage m = false.
Proof.
  unfold oneRole. intros H Hu. rewrite Hu in H.
  destruct (isAssistantResponseMessage m); [discriminate|reflexivity].
Qed.

Lemma oneRole_assistant m : oneRole m = true -> isAssistantResponseMessage m = true ->
  isUserInputMessage m = false.
Proof.
  unfold oneRole. intros H Ha. rewrite Ha in H.
  destruct (isUserInputMessage m); [discriminate|reflexivity].
Qed.

Lemma oneRole_not_user m : oneRole m = true -> isUserInputMessage m = false ->
  isAssistantResponseMessage m = true.
Proof.
  unfold oneRole. intros H Hu. rewrite Hu in H.
  destruct (isAssistantResponseMessage m); [reflexivity|discriminate].
Qed.

(** The synthetic failure message answers the tool uses it was built for. *)
Lemma failure_answers m :
  hasToolUses m = true ->
  answeredBy m (Some (createFailedToolUseMessage (map toolUseId (default [] (usesOf m)))))
  = true.
Proof.
  unfold hasToolUses, answeredBy, hasToolResults, hasMatchingToolResults.
  destruct (usesOf m) as [[|tu tus]|] eqn:Hu; cbn [nonEmpty]; try discriminate.
  intros _. cbn -[idSet]. apply andb_true_iff. split; [apply bool_decide_eq_true_2; set_solver|].
  apply forallb_forall. intros x Hx. apply bool_decide_eq_true_2.
  unfold idSet. apply elem_of_list_to_set. rewrite !map_map. cbn.
  apply list_elem_of_In. right. apply in_map_iff. exists x. split; [reflexivity | exact Hx].
Qed.

(** The three invariants carried by the loop. *)
Definition wellFormed (l : list KiroHistoryMessage) (after : option KiroHistoryMessage) : Prop :=
  Forall (fun m => oneRole m = true) l
  /\ alternates l = true
  /\ answered l after = true.

Lemma filler_step result msg :
  oneRole msg = true ->
  wellFormed result (Some msg) ->
  Forall (fun m => oneRole m = true) (result ++ filler result msg)
  /\ alternates ((result ++ filler result msg) ++ [msg]) = true
  /\ answered (result ++ filler result msg) (Some msg) = true.
Proof.
  intros Hmsg (Hroles & Halt & Hans). unfold filler.
  destruct (last result) as [prev|] eqn:Hl.
  - assert (Hprev : oneRole prev = true).
    { apply last_Some in Hl. destruct Hl as [l' ->].
      apply Forall_app in Hroles. destruct Hroles as [_ H]. inversion H; assumption. }
    destruct (isUserInputMessage prev) eqn:Hpu; destruct (isUserInputMessage msg) eqn:Hmu;
      cbn [andb].
    + (* user after user: "understood" goes in between *)
      split; [apply Forall_app; split; [exact Hroles | repeat constructor]|].
      split.
      * rewrite !alternates_snoc, Halt, Hl, last_snoc, Hpu, Hmu. reflexivity.
      * rewrite answered_snoc. apply andb_true_iff. split; [|reflexivity].
        rewrite (answered_not_pending result _ (Some msg)); [exact Hans|].
        rewrite Hl. cbn. rewrite (oneRole_user prev Hprev Hpu). reflexivity.
    + rewrite (oneRole_user prev Hprev Hpu). cbn [andb]. rewrite app_nil_r.
      split; [exact Hroles|]. split; [|exact Hans].
      rewrite alternates_snoc, Halt, Hl, Hpu, Hmu. reflexivity.
    + rewrite (oneRole_user msg Hmsg Hmu), andb_false_r. rewrite app_nil_r.
      split; [exact Hroles|]. split; [|exact Hans].
      rewrite alternates_snoc, Halt, Hl, Hpu, Hmu. reflexivity.
    + (* assistant after assistant: "Continue" goes in between *)
      rewrite (oneRole_not_user prev Hprev Hpu), (oneRole_not_user msg Hmsg Hmu). cbn [andb].
      split; [apply Forall_app; split; [exact Hroles | repeat constructor]|].
      split.
      * rewrite !alternates_snoc, Halt, Hl, last_snoc, Hpu, Hmu. reflexivity.
      * rewrite answered_snoc. apply andb_true_iff. split; [|reflexivity].
        apply (answered_unanswerable result msg); [exact Hans|]. rewrite Hmu. reflexivity.
  - apply last_None in Hl. subst result. cbn. repeat split; constructor.
Qed.

Lemma failure_step R msg next :
  oneRole msg = true ->
  Forall (fun m => oneRole m = true) R ->
  alternates (R ++ [msg]) = true ->
  answered R (Some msg) = true ->
  wellFormed (R ++ [msg] ++ failureFor msg next) next.
Proof.
  intros Hmsg Hroles Halt Hans. unfold wellFormed, failureFor.
  destruct (isAssistantResponseMessage msg && hasToolUses msg) eqn:Hp; cbn [andb].
  - destruct (answeredBy msg next) eqn:Hab; cbn [negb].
    + rewrite app_nil_r.
      split; [apply Forall_app; split; [exact Hroles | repeat constructor; exact Hmsg]|].
      split; [exact Halt|].
      rewrite answered_snoc, Hans. unfold okNext. rewrite Hp. exact Hab.
    + apply andb_true_iff in Hp. destruct Hp as [Hma Hmt].
      split; [apply Forall_app; split; [exact Hroles | repeat constructor; exact Hmsg]|].
      rewrite app_assoc. split.
      * rewrite alternates_snoc, Halt, last_snoc, (oneRole_assistant msg Hmsg Hma). reflexivity.
      * rewrite !answered_snoc, Hans. unfold okNext at 1. rewrite Hma, Hmt. cbn [andb].
        rewrite (failure_answers msg Hmt). reflexivity.
  - rewrite app_nil_r.
    split; [apply Forall_app; split; [exact Hroles | repeat constructor; exact Hmsg]|].
    split; [exact Halt|].
    rewrite answered_snoc, Hans. unfold okNext. rewrite Hp. reflexivity.
Qed.

Lemma skipped_spec f msg :
  skipped f msg = true -> isUserInputMessage msg && hasToolResults msg = false.
Proof.
  unfold skipped, isUserInputMessage. destruct (userInputMessage msg); [|discriminate].
  intros H. apply andb_true_iff in H. destruct H as [_ H].
  apply negb_true_iff in H. rewrite H. reflexivity.
Qed.

Lemma sanitizeLoop_wellFormed messages :
  forall result f,
    Forall (fun m => oneRole m = true) messages ->
    wellFormed result (head messages) ->
    wellFormed (sanitizeLoop messages result f) None.
Proof.
  induction messages as [|msg rest IH]; intros result f Hmsgs Hwf; cbn [sanitizeLoop].
  - exact Hwf.
  - inversion Hmsgs as [|? ? Hmsg Hrest]; subst. cbn [head] in Hwf.
    destruct (skipped f msg) eqn:Hskip.
    + apply IH; [exact Hrest|]. destruct Hwf as (H1 & H2 & H3).
      repeat split; try assumption.
      apply (answered_unanswerable result msg); [exact H3 | apply (skipped_spec f), Hskip].
    + apply IH; [exact Hrest|].
      destruct (filler_step result msg Hmsg Hwf) as (F1 & F2 & F3).
      rewrite app_assoc. apply failure_step; assumption.
Qed.

Lemma ensureEnds_wellFormed result :
  wellFormed result None ->
  wellFormed (ensureEnds result) None
  /\ (exists u r, ensureEnds result = u :: r /\ isUserInputMessage u = true)
  /\ (exists l u, ensureEnds result = l ++ [u] /\ isUserInputMessage u = true).
Proof.
  intros (Hroles & Halt & Hans). unfold ensureEnds.
  set (r1 := match result with [] => _ | m :: _ => _ end).
  assert (H1 : wellFormed r1 None /\ exists u r, r1 = u :: r /\ isUserInputMessage u = true).
  { subst r1. destruct result as [|m r].
    - split; [repeat split; repeat constructor | exists HELLO_MESSAGE, []; split; reflexivity].
    - destruct (isUserInputMessage m) eqn:Hm.
      + split; [repeat split; assumption | exists m, r; split; [reflexivity | exact Hm]].
      + split; [|exists HELLO_MESSAGE, (m :: r); split; reflexivity].
        repeat split.
        * constructor; [reflexivity | exact Hroles].
        * change (alternates (HELLO_MESSAGE :: m :: r))
            with (xorb true (isUserInputMessage m) && alternates (m :: r)).
          rewrite Hm, Halt. reflexivity.
        * change (answered (HELLO_MESSAGE :: m :: r) None)
            with (okNext HELLO_MESSAGE (Some m) && answered (m :: r) None).
          rewrite Hans. reflexivity. }
  destruct H1 as [(R1 & R2 & R3) (u & r & Hr1 & Hu)].
  destruct (last r1) as [l|] eqn:Hl.
  - destruct (isUserInputMessage l) eqn:Hlu.
    + split; [repeat split; assumption|]. split; [exists u, r; split; assumption|].
      apply last_Some in Hl. destruct Hl as [l' ->]. exists l', l. split; [reflexivity | exact Hlu].
    + split; [|split].
      * repeat split.
        -- apply Forall_app. split; [exact R1 | repeat constructor].
        -- rewrite alternates_snoc, R2, Hl, Hlu. reflexivity.
        -- rewrite answered_snoc. apply andb_true_iff. split; [|reflexivity].
           apply answered_None_any. exact R3.
      * rewrite Hr1. exists u, (r ++ [CONTINUE_MESSAGE]). split; [reflexivity | exact Hu].
      * exists r1, CONTINUE_MESSAGE. split; reflexivity.
  - apply last_None in Hl. congruence.
Qed.

Lemma orphanedFrom_answered (S : gset jsstring) l :
  (forall m r, In m l -> In r (default [] (resultsOf m)) -> r_toolUseId r ∈ S) ->
  answered l None = true ->
  orphanedFrom S l = [].
Proof.
  induction l as [|m r IH]; intros HS Hans; [reflexivity|].
  destruct r as [|n r']; [reflexivity|].
  change (answered (m :: n :: r') None)
    with (okNext m (Some n) && answered (n :: r') None) in Hans.
  apply andb_true_iff in Hans. destruct Hans as [Hm Hrest].
  change (orphanedFrom S (m :: n :: r'))
    with (List.filter (fun i => negb (bool_decide (i ∈ S)))
            (map toolUseId (default [] (usesOf m))) ++ orphanedFrom S (n :: r')).
  rewrite IH; [|intros m' r0 Hin; apply HS; right; exact Hin | exact Hrest].
  rewrite app_nil_r. apply AccountPool.filter_none. intros i Hi.
  apply negb_false_iff, bool_decide_eq_true_2.
  apply in_map_iff in Hi. destruct Hi as (tu & <- & Htu).
  unfold okNext, answeredBy, hasToolUses, hasMatchingToolResults in Hm.
  assert (Ha : isAssistantResponseMessage m = true).
  { unfold isAssistantResponseMessage. unfold usesOf in Htu.
    destruct (assistantResponseMessage m); [reflexivity | destruct Htu]. }
  rewrite Ha in Hm. cbn [andb] in Hm.
  destruct (usesOf m) as [[|t0 ts]|] eqn:Hu; try (destruct Htu; fail).
  cbn [nonEmpty negb default] in Hm.
  apply andb_true_iff in Hm. destruct Hm as [Hn Hm].
  apply andb_true_iff in Hn. destruct Hn as [_ Hn]. unfold hasToolResults in Hn.
  rewrite Hn in Hm. cbn [negb] in Hm.
  rewrite forallb_forall in Hm. specialize (Hm tu Htu).
  apply bool_decide_eq_true_1 in Hm. unfold idSet in Hm.
  apply elem_of_list_to_set, list_elem_of_In, in_map_iff in Hm.
  destruct Hm as (res & <- & Hres). apply (HS n); [right; left; reflexivity | exact Hres].
Qed.

(** On a conversation whose tool uses are all answered,
    [removeOrphanedToolUses] finds nothing to remove. *)
Lemma removeOrphanedToolUses_answered l :
  answered l None = true -> removeOrphanedToolUses l = l.
Proof.
  intros Hans. unfold removeOrphanedToolUses, findOrphanedToolUseIds.
  rewrite orphanedFrom_answered; [reflexivity| |exact Hans].
  intros m r Hm Hr. unfold resultIdsOf, idSet.
  apply elem_of_list_to_set, list_elem_of_In, in_flat_map.
  exists m. split; [exact Hm|]. apply in_map. exact Hr.
Qed.

(** The sanitizer on messages that each carry one role: the output
    alternates, starts and ends with a user message, and every assistant
    tool use is answered by the user message right after it. *)
Theorem sanitizeConversation_wellFormed messages :
  Forall (fun m => oneRole m = true) messages ->
  wellFormed (sanitizeConversation messages) None
  /\ (exists u r, sanitizeConversation messages = u :: r /\ isUserInputMessage u = true)
  /\ (exists l u, sanitizeConversation messages = l ++ [u] /\ isUserInputMessage u = true).
Proof.
  intros Hmsgs. unfold sanitizeConversation. destruct messages as [|m0 ms].
  - split; [repeat split; repeat constructor|].
    split; [exists HELLO_MESSAGE, [] | exists [], HELLO_MESSAGE]; split; reflexivity.
  - assert (Hloop : wellFormed (sanitizeLoop (m0 :: ms) [] false) None).
    { apply sanitizeLoop_wellFormed; [exact Hmsgs | repeat split; constructor]. }
    destruct (ensureEnds_wellFormed _ Hloop) as (Hwf & Hhead & Hlast).
    rewrite removeOrphanedToolUses_answered; [|apply Hwf].
    repeat split; try apply Hwf; assumption.
Qed.

(** *** The current message stays last *)

Lemma sanitizeLoop_keeps_last cur :
  isAssistantResponseMessage cur = false ->
  (forall f, skipped f cur = false) ->
  forall msgs result f, exists R, sanitizeLoop (msgs ++ [cur]) result f = R ++ [cur].
Proof.
  intros Hc Hs msgs. induction msgs as [|m r IH]; intros result f; cbn [app sanitizeLoop].
  - rewrite Hs. unfold failureFor. rewrite Hc. cbn [andb].
    exists (result ++ filler result cur). rewrite app_assoc. reflexivity.
  - destruct (skipped f m); apply IH.
Qed.

Lemma ensureEnds_keeps_last R cur :
  isUserInputMessage cur = true ->
  exists R', ensureEnds (R ++ [cur]) = R' ++ [cur].
Proof.
  intros Hu. unfold ensureEnds.
  set (r1 := match R ++ [cur] with [] => _ | m :: _ => _ end).
  assert (H : exists R', r1 = R' ++ [cur]).
  { subst r1. destruct (R ++ [cur]) as [|m r] eqn:E; [destruct R; discriminate|].
    destruct (isUserInputMessage m); rewrite <- E; [exists R | exists (HELLO_MESSAGE :: R)];
      reflexivity. }
  destruct H as [R' ->]. rewrite last_snoc, Hu. exists R'. reflexivity.
Qed.

Lemma trimStart_snoc l c :
  Js.isWhitespace c = false -> exists l', Js.trimStart (l ++ [c]) = l' ++ [c].
Proof.
  intros Hc. induction l as [|a r IH]; cbn.
  - rewrite Hc. exists []. reflexivity.
  - destruct (Js.isWhitespace a); [exact IH | exists (a :: r); reflexivity].
Qed.

Lemma trim_keeps_head c r :
  Js.isWhitespace c = false -> exists r', Js.trim (c :: r) = c :: r'.
Proof.
  intros Hc. unfold Js.trim, Js.trimEnd. cbn [Js.trimStart]. rewrite Hc.
  cbn [rev]. destruct (trimStart_snoc (rev r) c Hc) as [l' ->].
  rewrite rev_app_distr. exists (rev l'). reflexivity.
Qed.

Lemma answered_ext R m m' :
  isUserInputMessage m = isUserInputMessage m' ->
  resultsOf m = resultsOf m' ->
  answered R (Some m) = answered R (Some m').
Proof.
  intros Hu Hr. induction R as [|a r IH]; [reflexivity|].
  destruct r as [|b r'].
  - cbn. unfold okNext, answeredBy, hasToolResults. rewrite Hu, Hr. reflexivity.
  - change (answered (a :: b :: r') (Some m))
      with (okNext a (Some b) && answered (b :: r') (Some m)).
    change (answered (a :: b :: r') (Some m'))
      with (okNext a (Some b) && answered (b :: r') (Some m')).
    rewrite IH. reflexivity.
Qed.

Section BuildProperties.
Variable toLowerCase : jsstring -> jsstring.

(** For every history whose messages carry one role each, the payload that
    [buildKiroPayload] assembles reads, history first and current message
    last: a user turn first, strictly alternating roles, an assistant turn
    at the end of the history, and every assistant tool use answered by the
    user turn that follows it. *)
Theorem buildKiroPayload_turns ts convId text model orig hist tls results imgs
    thinkingEnabled thinkingBudget thinkingType effortOverride :
  Forall (fun m => oneRole m = true) hist ->
  let pl := buildKiroPayload toLowerCase ts convId text model orig hist tls results imgs
              thinkingEnabled thinkingBudget thinkingType effortOverride in
  Forall (fun m => oneRole m = true) (turns pl)
  /\ alternates (turns pl) = true
  /\ answered (turns pl) None = true
  /\ (exists u r, turns pl = u :: r /\ isUserInputMessage u = true)
  /\ (forall m, head (default [] (history pl)) = Some m -> isUserInputMessage m = true)
  /\ (forall m, last (default [] (history pl)) = Some m ->
                isAssistantResponseMessage m = true).
Proof.
  intros Hhist pl. subst pl. unfold buildKiroPayload.
  set (finalContent := Js.or_else _ _).
  set (ctx := match tls, validateToolResults results hist with [], [] => None | _, _ => _ end).
  set (cu := {| content := finalContent; modelId := Some model; origin := orig;
                images := optList imgs; userInputMessageContext := ctx |}).
  assert (Hfc : exists r, finalContent = 67%N :: r).
  { subst finalContent. unfold injectSystemPrompts.
    change (js "Current time: ") with (67%N :: js "urrent time: ").
    rewrite <- app_comm_cons.
    destruct (trim_keeps_head 67%N
                (js "urrent time: " ++ ts ++ nl2 ++
                 (if negb (Nat.eqb (length tls) 0)
                  then AGENTIC_SYSTEM_PROMPT ++ nl2 ++
                       (if thinkingEnabled
                        then buildThinkingModePrompt
                               (default DEFAULT_THINKING_BUDGET thinkingBudget)
                               thinkingType effortOverride ++ nl2 ++ text
                        else text)
                  else if thinkingEnabled
                       then buildThinkingModePrompt
                              (default DEFAULT_THINKING_BUDGET thinkingBudget)
                              thinkingType effortOverride ++ nl2 ++ text
                       else text)) eq_refl) as [r' Hr'].
    rewrite Hr'. exists r'. reflexivity. }
  destruct Hfc as [fc Hfc].
  assert (Hskip : forall f, skipped f (userMsg cu) = false).
  { intros f. unfold skipped. cbn [userMsg userInputMessage]. unfold cu. cbn [content].
    rewrite Hfc. destruct (trim_keeps_head 67%N fc eq_refl) as [r' ->].
    cbn [Js.truthy negb]. rewrite andb_false_r. reflexivity. }
  destruct (sanitizeLoop_keeps_last (userMsg cu) eq_refl Hskip hist [] false) as [R HR].
  destruct (ensureEnds_keeps_last R (userMsg cu) eq_refl) as [R' HR'].
  assert (Hall : Forall (fun m => oneRole m = true) (hist ++ [userMsg cu])).
  { apply Forall_app. split; [exact Hhist | repeat constructor]. }
  assert (Hsan : sanitizeConversation (hist ++ [userMsg cu]) = R' ++ [userMsg cu]).
  { unfold sanitizeConversation. destruct (hist ++ [userMsg cu]) eqn:E;
      [destruct hist; discriminate|]. rewrite <- E in *.
    assert (Hloop : wellFormed (sanitizeLoop (hist ++ [userMsg cu]) [] false) None).
    { apply sanitizeLoop_wellFormed; [exact Hall | repeat split; constructor]. }
    destruct (ensureEnds_wellFormed _ Hloop) as ((_ & _ & Hans) & _).
    rewrite removeOrphanedToolUses_answered by exact Hans.
    rewrite HR, HR'. reflexivity. }
  destruct (sanitizeConversation_wellFormed _ Hall)
    as ((W1 & W2 & W3) & (u0 & r0 & Hhd & Hu0) & _).
  rewrite Hsan in *. rewrite removelast_last, last_snoc. cbn [userInputMessage userMsg].
  set (cu' := match tls with [] => cu | _ :: _ => _ end).
  assert (Hcu' : resultsOf (userMsg cu') = resultsOf (userMsg cu)).
  { subst cu'. destruct tls; [reflexivity|]. cbn. destruct ctx; reflexivity. }
  unfold turns. cbn [history currentMessage].
  assert (Hopt : default [] (optList R') = R') by (destruct R'; reflexivity).
  rewrite Hopt.
  apply Forall_app in W1. destruct W1 as [W1 _].
  rewrite alternates_snoc in W2. apply andb_true_iff in W2. destruct W2 as [W2 W2'].
  rewrite answered_snoc in W3. apply andb_true_iff in W3. destruct W3 as [W3 _].
  split; [apply Forall_app; split; [exact W1 | repeat constructor]|].
  split; [rewrite alternates_snoc, W2; exact W2'|].
  split; [rewrite answered_snoc, (answered_ext R' (userMsg cu') (userMsg cu) eq_refl Hcu'), W3; reflexivity|].
  split; [|split].
  - destruct R' as [|a R'']; [exists (userMsg cu'), []; split; reflexivity|].
    exists a, (R'' ++ [userMsg cu']). split; [reflexivity|].
    cbn in Hhd. injection Hhd as -> _. exact Hu0.
  - intros m Hm. destruct R' as [|a R'']; [discriminate|].
    cbn in Hm, Hhd. injection Hm as <-. injection Hhd as -> _. exact Hu0.
  - intros m Hm. rewrite Hm in W2'. cbn in W2'.
    apply last_Some in Hm. destruct Hm as [l' ->].
    apply Forall_app in W1. destruct W1 as [_ W1]. inversion W1; subst.
    apply oneRole_not_user; [assumption|].
    destruct (isUserInputMessage m); [discriminate | reflexivity].
Qed.

End BuildProperties.

End Payload.

(* ===================================================================== *)
(** ** Format translator: OpenAI / Anthropic requests to the payload,
       and the non-streaming OpenAI response *)
(* ===================================================================== *)

Module Translator.

Import Payload.

(** *** Request types *)

Inductive OpenAIRole := r_system | r_user | r_assistant | r_tool.

Inductive PartType := pt_text | pt_image_url.

Record OpenAIContentPart := {
  p_type : PartType;
  p_text : option jsstring;
  p_image_url : option jsstring
}.

(** [string | OpenAIContentPart[]], or anything else a client may send *)
Inductive OpenAIContent :=
| ContentString (s : jsstring)
| ContentParts (parts : list OpenAIContentPart)
| ContentNull.

Record OpenAIToolCall := {
  tc_id : jsstring;
  tc_isFunction : bool;
  tc_name : jsstring;
  tc_arguments : jsstring
}.

Record OpenAIMessage := {
  o_role : OpenAIRole;
  o_content : OpenAIContent;
  tool_calls : option (list OpenAIToolCall);
  tool_call_id : option jsstring
}.

Inductive ClaudeRole := c_user | c_assistant.

Inductive BlockType := b_text | b_image | b_tool_use | b_tool_result | b_thinking.

(** The [content] of a [tool_result] block: a string, or blocks of which only
    the [text] fields are read. *)
Inductive ResultContent :=
| ResultString (s : jsstring)
| ResultBlocks (texts : list (option jsstring))
| ResultNone.

Record ClaudeContentBlock := {
  b_type : BlockType;
  b_textField : option jsstring;
  b_source : option (jsstring * jsstring);   (* media_type, data *)
  b_id : option jsstring;
  b_nameField : option jsstring;
  b_input : option Json.t;
  b_tool_use_id : option jsstring;
  b_content : ResultContent
}.

Inductive ClaudeContent :=
| CString (s : jsstring)
| CBlocks (blocks : list ClaudeContentBlock)
| CNull.

Record ClaudeMessage := {
  c_role : ClaudeRole;
  c_content : ClaudeContent
}.

Definition opt (o : option jsstring) : jsstring := default [] o.

(** *** Images *)

Definition isWordChar (c : N) : bool :=
  ((48 <=? c) && (c <=? 57) || (65 <=? c) && (c <=? 90)
   || (97 <=? c) && (c <=? 122) || (c =? 95))%N.

Fixpoint takeWord (s : jsstring) : jsstring * jsstring :=
  match s with
  | c :: r => if isWordChar c then let '(w, rest) := takeWord r in (c :: w, rest) else ([], s)
  | [] => ([], [])
  end.

Definition isLineTerminator (c : N) : bool :=
  ((c =? 10) || (c =? 13) || (c =? 8232) || (c =? 8233))%N.

Definition toLowerAscii (s : jsstring) : jsstring :=
  map (fun c => if ((65 <=? c) && (c <=? 90))%N then (c + 32)%N else c) s.

Definition normalizeImageFormat (fmt : jsstring) : jsstring :=
  let f := toLowerAscii fmt in
  if Js.eqb f (js "jpg") then js "jpeg"
  else if Js.eqb f (js "jpeg") then js "jpeg"
  else if Js.eqb f (js "png") then js "png"
  else if Js.eqb f (js "gif") then js "gif"
  else if Js.eqb f (js "webp") then js "webp"
  else js "png".

(** [parseImageUrl]: the regular expression
    [^data:image\/(\w+);base64,(.+)$]. *)
Definition parseImageUrl (url : jsstring) : option KiroImage :=
  if Js.startsWith (js "data:image/") url then
    let '(fmt, rest) := takeWord (skipn 11 url) in
    match fmt with
    | [] => None
    | _ =>
        if Js.startsWith (js ";base64,") rest then
          let data := skipn 8 rest in
          if Js.truthy data && negb (existsb isLineTerminator data)
          then Some {| format := normalizeImageFormat fmt; bytes := data |}
          else None
        else None
    end
  else None.

(** *** OpenAI to Kiro *)

Definition extractOpenAIContent (msg : OpenAIMessage) : jsstring * list KiroImage :=
  match o_content msg with
  | ContentString s => (s, [])
  | ContentParts parts =>
      fold_left
        (fun '(text, imgs) part =>
           match p_type part with
           | pt_text =>
               if Js.truthy (opt (p_text part)) then (text ++ opt (p_text part), imgs)
               else (text, imgs)
           | pt_image_url =>
               if Js.truthy (opt (p_image_url part)) then
                 match parseImageUrl (opt (p_image_url part)) with
                 | Some image => (text, imgs ++ [image])
                 | None => (text, imgs)
                 end
               else (text, imgs)
           end)
        parts ([], [])
  | ContentNull => ([], [])
  end.

Definition partJson (p : OpenAIContentPart) : Json.t :=
  Json.JObject
    ([(js "type", Json.JString (match p_type p with pt_text => js "text"
                                                  | pt_image_url => js "image_url" end))]
     ++ match p_text p with Some t => [(js "text", Json.JString t)] | None => [] end
     ++ match p_image_url p with
        | Some u => [(js "image_url", Json.JObject [(js "url", Json.JString u)])]
        | None => []
        end).

(** [typeof c === 'string' ? c : JSON.stringify(c)] *)
Definition contentText (c : OpenAIContent) : jsstring :=
  match c with
  | ContentString s => s
  | ContentParts parts => Json.stringify (Json.JArray (map partJson parts))
  | ContentNull => js "null"
  end.

Definition systemText (prompt : jsstring) (msg : OpenAIMessage) : jsstring :=
  let add (p piece : jsstring) := p ++ (if Js.truthy p then [10%N] else []) ++ piece in
  match o_content msg with
  | ContentString s => add prompt s
  | ContentParts parts =>
      fold_left
        (fun p part =>
           match p_type part with
           | pt_text => if Js.truthy (opt (p_text part)) then add p (opt (p_text part)) else p
           | pt_image_url => p
           end)
        parts prompt
  | ContentNull => prompt
  end.

Definition isSystem (msg : OpenAIMessage) : bool :=
  match o_role msg with r_system => true | _ => false end.

Definition isTool (msg : OpenAIMessage) : bool :=
  match o_role msg with r_tool => true | _ => false end.

Definition toToolUse (tc : OpenAIToolCall) : KiroToolUse :=
  {| toolUseId := tc_id tc; name := tc_name tc;
     input := default Json.emptyObject (Json.parse (tc_arguments tc)) |}.

(** The variables of the message loop. *)
Record OpenAILoop := {
  l_history : list KiroHistoryMessage;
  l_toolResults : list KiroToolResult;
  l_currentContent : jsstring;
  l_images : list KiroImage
}.

Section OpenAI.
Variable toLowerCase : jsstring -> jsstring.
(** the mapped model id and the origin tag *)
Variables (model orig : jsstring).

Definition userTurn (text : jsstring) (imgs : list KiroImage) (ctx : option Context)
  : KiroHistoryMessage :=
  userMsg {| content := text; modelId := Some model; origin := orig;
             images := optList imgs; userInputMessageContext := ctx |}.

(** One iteration of the loop over [nonSystemMessages]; [rest] holds the
    messages after [msg]. *)
Definition openaiStep (st : OpenAILoop) (msg : OpenAIMessage) (rest : list OpenAIMessage)
  : OpenAILoop :=
  let isLast := match rest with [] => true | _ => false end in
  match o_role msg with
  | r_user =>
      let '(userContent, userImages) := extractOpenAIContent msg in
      let mergedContent := Js.or_else userContent (js "Continue") in
      if isLast then
        {| l_history := l_history st; l_toolResults := l_toolResults st;
           l_currentContent := mergedContent; l_images := l_images st ++ userImages |}
      else
        {| l_history := l_history st ++ [userTurn mergedContent userImages None];
           l_toolResults := l_toolResults st;
           l_currentContent := l_currentContent st; l_images := l_images st |}
  | r_assistant =>
      let text := match o_content msg with ContentString s => s | _ => [] end in
      let calls := default [] (tool_calls msg) in
      let blank := negb (Js.truthy (Js.trim text)) in
      let assistantContent :=
        if blank && negb (Nat.eqb (length calls) 0) then js " "
        else if blank then js "I understand."
        else text in
      let uses := map toToolUse (List.filter tc_isFunction calls) in
      {| l_history := l_history st
                      ++ [assistantMsg {| a_content := assistantContent;
                                          toolUses := optList uses |}];
         l_toolResults := l_toolResults st;
         l_currentContent := l_currentContent st; l_images := l_images st |}
  | r_tool =>
      let results :=
        if Js.truthy (opt (tool_call_id msg)) then
          l_toolResults st ++ [{| r_content := [contentText (o_content msg)];
                                  r_status := success;
                                  r_toolUseId := opt (tool_call_id msg) |}]
        else l_toolResults st in
      let shouldFlush := match rest with [] => true | n :: _ => negb (isTool n) end in
      if shouldFlush && negb (Nat.eqb (length results) 0) && negb isLast then
        {| l_history := l_history st
                        ++ [userTurn (js "Tool results provided.") []
                              (Some {| toolResults := Some results; tools := None |})];
           l_toolResults := [];
           l_currentContent := l_currentContent st; l_images := l_images st |}
      else
        {| l_history := l_history st; l_toolResults := results;
           l_currentContent := l_currentContent st; l_images := l_images st |}
  | r_system => st
  end.

Fixpoint openaiLoop (msgs : list OpenAIMessage) (st : OpenAILoop) : OpenAILoop :=
  match msgs with
  | [] => st
  | msg :: rest => openaiLoop rest (openaiStep st msg rest)
  end.

Definition REASONING_EFFORT_BUDGET (effort : jsstring) : option Z :=
  if Js.eqb effort (js "low") then Some 1280
  else if Js.eqb effort (js "medium") then Some 2048
  else if Js.eqb effort (js "high") then Some 4096
  else None.

Definition getThinkingBudgetFromRequest (reasoningEffort : option jsstring)
    (reasoningMaxTokens : option Z) : option Z :=
  match reasoningMaxTokens with
  | Some n => if 0 <? n then Some n
              else if Js.truthy (opt reasoningEffort)
                   then REASONING_EFFORT_BUDGET (toLowerCase (opt reasoningEffort))
                   else None
  | None => if Js.truthy (opt reasoningEffort)
            then REASONING_EFFORT_BUDGET (toLowerCase (opt reasoningEffort))
            else None
  end.

Definition isThinkingModel (m : jsstring) : bool :=
  Js.includes (js "thinking") (toLowerCase m).

Definition systemPair (systemPrompt : jsstring) : list KiroHistoryMessage :=
  if Js.truthy systemPrompt then
    [userTurn systemPrompt [] None;
     assistantMsg {| a_content := js "Understood. I will follow these instructions.";
                     toolUses := None |}]
  else [].

Definition lastIsAssistant (h : list KiroHistoryMessage) : bool :=
  match last h with
  | Some m => isAssistantResponseMessage m
  | None => false
  end.

(** The history, pending tool results, current text and images that
    [openaiToKiro] hands to [buildKiroPayload]. *)
Definition openaiParts (messages : list OpenAIMessage) : OpenAILoop :=
  let systemPrompt := fold_left systemText (List.filter isSystem messages) [] in
  let nonSystemMessages := List.filter (fun m => negb (isSystem m)) messages in
  let st := openaiLoop nonSystemMessages
              {| l_history := systemPair systemPrompt; l_toolResults := [];
                 l_currentContent := []; l_images := [] |} in
  let c1 := if lastIsAssistant (l_history st) && negb (Js.truthy (l_currentContent st))
            then js "Continue." else l_currentContent st in
  let c2 := if negb (Js.truthy c1) && negb (Nat.eqb (length (l_toolResults st)) 0)
            then js "Tool results provided." else c1 in
  {| l_history := l_history st; l_toolResults := l_toolResults st;
     l_currentContent := Js.or_else c2 (js "Continue."); l_images := l_images st |}.

(** [openaiToKiro].  [requestModel] is the model name as sent, [kiroTools]
    the value of [convertOpenAITools(request.tools)], [ts] and [convId] the
    clock reading and the conversation id. *)
Definition openaiToKiro (ts convId : jsstring) (requestModel : jsstring)
    (messages : list OpenAIMessage) (kiroTools : list KiroToolWrapper)
    (reasoningEffort : option jsstring) (reasoningMaxTokens : option Z)
    (thinkingEnabledOverride : option bool) : KiroPayload :=
  let parts := openaiParts messages in
  let budgetFromParams := getThinkingBudgetFromRequest reasoningEffort reasoningMaxTokens in
  let thinkingEnabled :=
    match thinkingEnabledOverride with Some true => true | _ => false end
    || isThinkingModel requestModel
    || match budgetFromParams with Some _ => true | None => false end in
  buildKiroPayload toLowerCase ts convId (l_currentContent parts) model orig
    (l_history parts) kiroTools (l_toolResults parts) (l_images parts)
    thinkingEnabled budgetFromParams TEnabled None.

End OpenAI.

(** *** Anthropic to Kiro *)

(** [s.split('/')] *)
Fixpoint splitSlash (s cur : jsstring) : list jsstring :=
  match s with
  | [] => [rev cur]
  | c :: r => if (c =? 47)%N then rev cur :: splitSlash r [] else splitSlash r (c :: cur)
  end.

Definition mediaFormat (mediaType : jsstring) : jsstring :=
  Js.or_else (nth 1 (splitSlash mediaType []) []) (js "png").

(** Truthiness of a JSON value, for [block.input || {}]. *)
Definition jsonTruthy (v : Json.t) : bool :=
  match v with
  | Json.JNull => false
  | Json.JBool b => b
  | Json.JNumber l =>
      let mantissa :=
        (fix upToExp (s : jsstring) : jsstring :=
           match s with
           | [] => []
           | c :: r => if ((c =? 101) || (c =? 69))%N then [] else c :: upToExp r
           end) l in
      existsb (fun c => ((49 <=? c) && (c <=? 57))%N) mantissa
  | Json.JString s => Js.truthy s
  | Json.JArray _ => true
  | Json.JObject _ => true
  end.

Definition resultText (c : ResultContent) : jsstring :=
  match c with
  | ResultString s => s
  | ResultBlocks texts => concat (map opt texts)
  | ResultNone => []
  end.

Record UserExtract := {
  x_content : jsstring;
  x_images : list KiroImage;
  x_toolResults : list KiroToolResult
}.

Definition extractClaudeBlock (acc : UserExtract) (block : ClaudeContentBlock) : UserExtract :=
  let isText := match b_type block with b_text => true | _ => false end in
  let isImage := match b_type block with b_image => true | _ => false end in
  let isResult := match b_type block with b_tool_result => true | _ => false end in
  if isText && Js.truthy (opt (b_textField block)) then
    {| x_content := x_content acc ++ opt (b_textField block);
       x_images := x_images acc; x_toolResults := x_toolResults acc |}
  else
    match b_source block with
    | Some (mediaType, data) =>
        if isImage then
          {| x_content := x_content acc;
             x_images := x_images acc ++ [{| format := mediaFormat mediaType; bytes := data |}];
             x_toolResults := x_toolResults acc |}
        else if isResult && Js.truthy (opt (b_tool_use_id block)) then
          {| x_content := x_content acc; x_images := x_images acc;
             x_toolResults := x_toolResults acc
                              ++ [{| r_content := [resultText (b_content block)];
                                     r_status := success;
                                     r_toolUseId := opt (b_tool_use_id block) |}] |}
        else acc
    | None =>
        if isResult && Js.truthy (opt (b_tool_use_id block)) then
          {| x_content := x_content acc; x_images := x_images acc;
             x_toolResults := x_toolResults acc
                              ++ [{| r_content := [resultText (b_content block)];
                                     r_status := success;
                                     r_toolUseId := opt (b_tool_use_id block) |}] |}
        else acc
    end.

Definition extractClaudeContent (msg : ClaudeMessage) : UserExtract :=
  match c_content msg with
  | CString s => {| x_content := s; x_images := []; x_toolResults := [] |}
  | CBlocks blocks =>
      fold_left extractClaudeBlock blocks
        {| x_content := []; x_images := []; x_toolResults := [] |}
  | CNull => {| x_content := []; x_images := []; x_toolResults := [] |}
  end.

Definition extractAssistantBlock (acc : jsstring * list KiroToolUse)
    (block : ClaudeContentBlock) : jsstring * list KiroToolUse :=
  let isText := match b_type block with b_text => true | _ => false end in
  let isUse := match b_type block with b_tool_use => true | _ => false end in
  if isText && Js.truthy (opt (b_textField block)) then
    (fst acc ++ opt (b_textField block), snd acc)
  else if isUse && Js.truthy (opt (b_id block)) && Js.truthy (opt (b_nameField block)) then
    (fst acc,
     snd acc ++ [{| toolUseId := opt (b_id block); name := opt (b_nameField block);
                    input := match b_input block with
                             | Some v => if jsonTruthy v then v else Json.emptyObject
                             | None => Json.emptyObject
                             end |}])
  else acc.

Definition extractClaudeAssistantContent (msg : ClaudeMessage) : jsstring * list KiroToolUse :=
  let '(text, uses) :=
    match c_content msg with
    | CString s => (s, [])
    | CBlocks blocks => fold_left extractAssistantBlock blocks ([], [])
    | CNull => ([], [])
    end in
  if negb (Js.truthy (Js.trim text)) && negb (Nat.eqb (length uses) 0)
  then (js " ", uses) else (text, uses).

Record ClaudeLoop := {
  k_history : list KiroHistoryMessage;
  k_currentToolResults : list KiroToolResult;
  k_currentContent : jsstring;
  k_images : list KiroImage;
  pendingUserContent : jsstring;
  pendingUserImages : list KiroImage;
  pendingToolResults : list KiroToolResult
}.

Inductive ClaudeSystem :=
| SysString (s : jsstring)
| SysBlocks (texts : list jsstring)
| SysNone.

(** The [thinking] field, when it is an object. *)
Record ClaudeThinking := {
  th_type : option jsstring;
  th_budget_tokens : option Z
}.

Section Claude.
Variable toLowerCase : jsstring -> jsstring.
Variables (model orig : jsstring).

Definition joinPending (pending text : jsstring) : jsstring :=
  if Js.truthy pending then pending ++ [10%N] ++ text else text.

Definition hasAny (text : jsstring) (imgs : list KiroImage) (results : list KiroToolResult)
  : bool :=
  Js.truthy (Js.trim text) || negb (Nat.eqb (length imgs) 0)
  || negb (Nat.eqb (length results) 0).

(** The user turn pushed to the history for accumulated user content. *)
Definition pendingTurn (text : jsstring) (imgs : list KiroImage)
    (results : list KiroToolResult) : KiroHistoryMessage :=
  userTurn model orig
    (Js.or_else text (match results with [] => js "Continue"
                                       | _ => js "Tool results provided." end))
    imgs
    (match results with
     | [] => None
     | _ => Some {| toolResults := Some results; tools := None |}
     end).

Definition isAssistantRole (msg : ClaudeMessage) : bool :=
  match c_role msg with c_assistant => true | c_user => false end.

Definition claudeStep (st : ClaudeLoop) (msg : ClaudeMessage) (rest : list ClaudeMessage)
  : ClaudeLoop :=
  match c_role msg with
  | c_user =>
      let x := extractClaudeContent msg in
      match rest with
      | [] =>
          {| k_history := k_history st;
             k_currentToolResults := pendingToolResults st ++ x_toolResults x;
             k_currentContent := joinPending (pendingUserContent st) (x_content x);
             k_images := k_images st ++ pendingUserImages st ++ x_images x;
             pendingUserContent := []; pendingUserImages := []; pendingToolResults := [] |}
      | nextMsg :: _ =>
          if isAssistantRole nextMsg then
            let finalUserContent := joinPending (pendingUserContent st) (x_content x) in
            let finalUserImages := pendingUserImages st ++ x_images x in
            let finalToolResults := pendingToolResults st ++ x_toolResults x in
            {| k_history :=
                 if hasAny finalUserContent finalUserImages finalToolResults
                 then k_history st ++ [pendingTurn finalUserContent finalUserImages finalToolResults]
                 else k_history st;
               k_currentToolResults := k_currentToolResults st;
               k_currentContent := k_currentContent st; k_images := k_images st;
               pendingUserContent := []; pendingUserImages := []; pendingToolResults := [] |}
          else
            {| k_history := k_history st;
               k_currentToolResults := k_currentToolResults st;
               k_currentContent := k_currentContent st; k_images := k_images st;
               pendingUserContent := joinPending (pendingUserContent st) (x_content x);
               pendingUserImages := pendingUserImages st ++ x_images x;
               pendingToolResults := pendingToolResults st ++ x_toolResults x |}
      end
  | c_assistant =>
      let '(assistantContent, uses) := extractClaudeAssistantContent msg in
      let flush := hasAny (pendingUserContent st) (pendingUserImages st) (pendingToolResults st) in
      {| k_history :=
           (if flush
            then k_history st ++ [pendingTurn (pendingUserContent st) (pendingUserImages st)
                                    (pendingToolResults st)]
            else k_history st)
           ++ [assistantMsg {| a_content := assistantContent; toolUses := optList uses |}];
         k_currentToolResults := k_currentToolResults st;
         k_currentContent := k_currentContent st; k_images := k_images st;
         pendingUserContent := if flush then [] else pendingUserContent st;
         pendingUserImages := if flush then [] else pendingUserImages st;
         pendingToolResults := if flush then [] else pendingToolResults st |}
  end.

Fixpoint claudeLoop (msgs : list ClaudeMessage) (st : ClaudeLoop) : ClaudeLoop :=
  match msgs with
  | [] => st
  | msg :: rest => claudeLoop rest (claudeStep st msg rest)
  end.

Definition systemPromptOf (system : ClaudeSystem) : jsstring :=
  match system with
  | SysString s => s
  | SysBlocks texts => Js.join [10%N] texts
  | SysNone => []
  end.

Definition firstIsAssistant (h : list KiroHistoryMessage) : bool :=
  match h with
  | m :: _ => isAssistantResponseMessage m
  | [] => false
  end.

(** The history, tool results, text and images handed to
    [buildKiroPayload]. *)
Definition claudeParts (system : ClaudeSystem) (messages : list ClaudeMessage) : ClaudeLoop :=
  let st := claudeLoop messages
              {| k_history := []; k_currentToolResults := []; k_currentContent := [];
                 k_images := []; pendingUserContent := []; pendingUserImages := [];
                 pendingToolResults := [] |} in
  let leftover := hasAny (pendingUserContent st) (pendingUserImages st) (pendingToolResults st) in
  let currentContent :=
    if leftover
    then pendingUserContent st
         ++ (if Js.truthy (k_currentContent st) then [10%N] ++ k_currentContent st else [])
    else k_currentContent st in
  let imgs := if leftover then pendingUserImages st ++ k_images st else k_images st in
  let results := if leftover then pendingToolResults st ++ k_currentToolResults st
                 else k_currentToolResults st in
  let systemPrompt := systemPromptOf system in
  let hist :=
    if Js.truthy systemPrompt then systemPair model orig systemPrompt ++ k_history st
    else if firstIsAssistant (k_history st)
         then userTurn model orig (js "Begin conversation") [] None :: k_history st
    else k_history st in
  {| k_history := hist; k_currentToolResults := results;
     k_currentContent :=
       Js.or_else currentContent
         (match results with [] => js "Continue" | _ => js "Tool results provided." end);
     k_images := imgs;
     pendingUserContent := []; pendingUserImages := []; pendingToolResults := [] |}.

Definition thinkingTypeName (thinking : option ClaudeThinking) : option jsstring :=
  match thinking with
  | Some t => match th_type t with Some ty => Some (toLowerCase ty) | None => None end
  | None => None
  end.

Definition isClaudeThinkingEnabled (thinking : option ClaudeThinking) : bool :=
  match thinkingTypeName thinking with
  | Some ty => Js.eqb ty (js "enabled") || Js.eqb ty (js "adaptive")
  | None => false
  end.

Definition getClaudeThinkingType (thinking : option ClaudeThinking) : ThinkingType :=
  match thinkingTypeName thinking with
  | Some ty => if Js.eqb ty (js "enabled") then TEnabled
               else if Js.eqb ty (js "adaptive") then TAdaptive else TNull
  | None => TNull
  end.

Definition getClaudeThinkingBudget (thinking : option ClaudeThinking) : option Z :=
  match thinking with
  | Some t => match th_budget_tokens t with
              | Some n => if 0 <? n then Some n else None
              | None => None
              end
  | None => None
  end.

(** [claudeToKiro]; [kiroTools] is the value of
    [convertClaudeTools(request.tools)]. *)
Definition claudeToKiro (ts convId : jsstring) (system : ClaudeSystem)
    (messages : list ClaudeMessage) (kiroTools : list KiroToolWrapper)
    (thinking : option ClaudeThinking) (effort : option jsstring)
    (thinkingEnabledOverride : option bool) : KiroPayload :=
  let parts := claudeParts system messages in
  let thinkingEnabled :=
    match thinkingEnabledOverride with
    | Some b => b
    | None => isClaudeThinkingEnabled thinking
    end in
  buildKiroPayload toLowerCase ts convId (k_currentContent parts) model orig
    (k_history parts) kiroTools (k_currentToolResults parts) (k_images parts)
    thinkingEnabled (getClaudeThinkingBudget thinking) (getClaudeThinkingType thinking)
    effort.

End Claude.

(** *** Every history message built by the translators has one role *)

Ltac one_role :=
  repeat match goal with
         | |- Forall _ (_ ++ _) => apply Forall_app; split
         | |- Forall _ (_ :: _) => constructor
         | |- Forall _ [] => constructor
         | |- Forall _ (if ?b then _ else _) => destruct b
         | |- oneRole _ = true => reflexivity
         | H : Forall _ ?l |- Forall _ ?l => exact H
         end.

Section Histories.
Variable toLowerCase : jsstring -> jsstring.
Variables (model orig : jsstring).

Lemma openaiStep_oneRole st msg rest :
  Forall (fun m => oneRole m = true) (l_history st) ->
  Forall (fun m => oneRole m = true) (l_history (openaiStep model orig st msg rest)).
Proof.
  intros H. unfold openaiStep.
  destruct (o_role msg).
  - exact H.
  - destruct (extractOpenAIContent msg) as [uc ui]. destruct rest; cbn; one_role.
  - cbn. one_role.
  - destruct (_ && _ && _); cbn; one_role.
Qed.

Lemma openaiLoop_oneRole msgs :
  forall st, Forall (fun m => oneRole m = true) (l_history st) ->
             Forall (fun m => oneRole m = true) (l_history (openaiLoop model orig msgs st)).
Proof.
  induction msgs as [|msg rest IH]; intros st H; cbn; [exact H|].
  apply IH, openaiStep_oneRole, H.
Qed.

Lemma openaiParts_oneRole messages :
  Forall (fun m => oneRole m = true) (l_history (openaiParts model orig messages)).
Proof.
  unfold openaiParts. cbn [l_history]. apply openaiLoop_oneRole. cbn [l_history].
  unfold systemPair. one_role.
Qed.

Lemma claudeStep_oneRole st msg rest :
  Forall (fun m => oneRole m = true) (k_history st) ->
  Forall (fun m => oneRole m = true) (k_history (claudeStep model orig st msg rest)).
Proof.
  intros H. unfold claudeStep.
  destruct (c_role msg).
  - destruct rest as [|n r]; [exact H|]. destruct (isAssistantRole n); cbn; one_role.
  - destruct (extractClaudeAssistantContent msg) as [ac uses]. cbn. one_role.
Qed.

Lemma claudeLoop_oneRole msgs :
  forall st, Forall (fun m => oneRole m = true) (k_history st) ->
             Forall (fun m => oneRole m = true) (k_history (claudeLoop model orig msgs st)).
Proof.
  induction msgs as [|msg rest IH]; intros st H; cbn; [exact H|].
  apply IH, claudeStep_oneRole, H.
Qed.

Lemma claudeParts_oneRole system messages :
  Forall (fun m => oneRole m = true) (k_history (claudeParts model orig system messages)).
Proof.
  unfold claudeParts. cbn [k_history].
  assert (H : Forall (fun m => oneRole m = true)
                (k_history (claudeLoop model orig messages
                   {| k_history := []; k_currentToolResults := []; k_currentContent := [];
                      k_images := []; pendingUserContent := []; pendingUserImages := [];
                      pendingToolResults := [] |})))
    by (apply claudeLoop_oneRole; constructor).
  unfold systemPair. one_role.
Qed.

(** The shape of the conversation a payload carries, history first and
    current message last. *)
Definition canonicalTurns (pl : KiroPayload) : Prop :=
  Forall (fun m => oneRole m = true) (turns pl)
  /\ alternates (turns pl) = true
  /\ answered (turns pl) None = true
  /\ (exists u r, turns pl = u :: r /\ isUserInputMessage u = true)
  /\ (forall m, head (default [] (history pl)) = Some m -> isUserInputMessage m = true)
  /\ (forall m, last (default [] (history pl)) = Some m ->
                isAssistantResponseMessage m = true).

(** For every list of OpenAI messages, and for every list of Anthropic
    messages, the payload built by the forward translator starts with a user
    turn, strictly alternates, has a history that ends with an assistant
    turn before the current user message, and answers every assistant tool
    use in the user turn that follows it. *)
Theorem forward_translation_turns :
  (forall ts convId requestModel messages kiroTools effort maxTokens override,
      canonicalTurns (openaiToKiro toLowerCase model orig ts convId requestModel messages
                        kiroTools effort maxTokens override))
  /\ (forall ts convId system messages kiroTools thinking effort override,
        canonicalTurns (claudeToKiro toLowerCase model orig ts convId system messages
                          kiroTools thinking effort override)).
Proof.
  split; intros; unfold canonicalTurns, openaiToKiro, claudeToKiro;
    apply buildKiroPayload_turns; [apply openaiParts_oneRole | apply claudeParts_oneRole].
Qed.

End Histories.

(** *** Orphan tool results *)

(** The ids of the tool results that no earlier assistant turn asked for;
    [seen] collects the tool-use ids met so far. *)
Fixpoint orphanResultIds (l : list KiroHistoryMessage) (seen : gset jsstring) : list jsstring :=
  match l with
  | [] => []
  | m :: r =>
      List.filter (fun i => negb (bool_decide (i ∈ seen)))
                  (map r_toolUseId (default [] (resultsOf m)))
        ++ orphanResultIds r (idSet (map toolUseId (default [] (usesOf m))) ∪ seen)
  end.

(** An OpenAI conversation whose first message is a tool result that no
    assistant message asked for (for instance the tail of a longer
    conversation). *)
Definition strayToolResult : list OpenAIMessage :=
  [{| o_role := r_tool; o_content := ContentString (js "42"); tool_calls := None;
      tool_call_id := Some (js "call_1") |};
   {| o_role := r_user; o_content := ContentString (js "hi"); tool_calls := None;
      tool_call_id := None |}].

Definition strayPayload : KiroPayload :=
  openaiToKiro toLowerAscii (js "claude-sonnet-4.5") (js "AI_EDITOR")
    (js "2026-01-01T00:00Z") (js "conv-1") (js "claude-sonnet-4.5")
    strayToolResult [] None None None.

(** C1 (the code departs from the claim).  The tool result [call_1] has no
    assistant tool use before it, and the payload still carries it in the
    first history turn: [validateToolResults] filters only the results of
    the current message. *)
Theorem history_keeps_orphan_tool_result :
  map (fun m => (isUserInputMessage m, map r_toolUseId (default [] (resultsOf m))))
      (default [] (history strayPayload))
    = [(true, [js "call_1"]); (false, [])]
  /\ orphanResultIds (turns strayPayload) ∅ = [js "call_1"].
Proof. vm_compute. split; reflexivity. Qed.

(** *** Kiro to OpenAI, non-streaming *)

Record ResponseUsage := {
  u_inputTokens : Z;
  u_outputTokens : Z;
  u_cacheReadTokens : option Z;
  u_cacheWriteTokens : option Z;
  u_reasoningTokens : option Z
}.

Record OpenAIUsage := {
  prompt_tokens : Z;
  completion_tokens : Z;
  total_tokens : Z;
  (** [prompt_tokens_details.cached_tokens] *)
  cached_tokens : option Z;
  prompt_cache_hit_tokens : option Z;
  (** [completion_tokens_details.reasoning_tokens] *)
  reasoning_tokens : option Z
}.

Record ToolCallOut := {
  out_id : jsstring;
  out_name : jsstring;
  out_arguments : jsstring
}.

Inductive FinishReason := fr_stop | fr_tool_calls.

(** The single choice of the response; [None] for [content] is [null]. *)
Record OpenAIChatResponse := {
  resp_id : jsstring;
  created : Z;
  resp_model : jsstring;
  message_content : option jsstring;
  message_tool_calls : option (list ToolCallOut);
  finish_reason : FinishReason;
  usage : OpenAIUsage
}.

(** [x && {...}] spreads nothing when [x] is absent or zero. *)
Definition whenNonZero (o : option Z) : option Z :=
  match o with
  | Some n => if n =? 0 then None else Some n
  | None => None
  end.

(** [kiroToOpenaiResponse]; [uuid] and [now] are the draws of
    [crypto.randomUUID()] and [Date.now()]. *)
Definition kiroToOpenaiResponse (uuid : jsstring) (now : Z) (text : jsstring)
    (uses : list KiroToolUse) (u : ResponseUsage) (mdl : jsstring) : OpenAIChatResponse :=
  let hasTools := negb (Nat.eqb (length uses) 0) in
  {| resp_id := js "chatcmpl-" ++ uuid;
     created := now / 1000;
     resp_model := mdl;
     message_content := if hasTools then None else Some text;
     message_tool_calls :=
       if hasTools
       then Some (map (fun tu => {| out_id := toolUseId tu; out_name := name tu;
                                    out_arguments := Json.stringify (input tu) |}) uses)
       else None;
     finish_reason := if hasTools then fr_tool_calls else fr_stop;
     usage := {| prompt_tokens := u_inputTokens u;
                 completion_tokens := u_outputTokens u;
                 total_tokens := u_inputTokens u + u_outputTokens u;
                 cached_tokens := whenNonZero (u_cacheReadTokens u);
                 prompt_cache_hit_tokens := whenNonZero (u_cacheReadTokens u);
                 reasoning_tokens := whenNonZero (u_reasoningTokens u) |} |}.

(** C10. With at least one tool use the message content is null whatever
    text was accumulated, the tool calls are listed and the finish reason is
    [tool_calls]; with none the content is the accumulated text and the
    finish reason is [stop]; in both cases [total_tokens] is
    [prompt_tokens + completion_tokens]. *)
Theorem kiroToOpenaiResponse_content uuid now text uses u mdl :
  let r := kiroToOpenaiResponse uuid now text uses u mdl in
  (uses <> [] ->
     message_content r = None
     /\ finish_reason r = fr_tool_calls
     /\ option_map (map out_id) (message_tool_calls r) = Some (map toolUseId uses))
  /\ (uses = [] ->
        message_content r = Some text
        /\ finish_reason r = fr_stop
        /\ message_tool_calls r = None)
  /\ total_tokens (usage r) = prompt_tokens (usage r) + completion_tokens (usage r).
Proof.
  cbn zeta. split; [|split].
  - intros Hne. destruct uses as [|tu r]; [congruence|]. cbn.
    rewrite map_map. repeat split; reflexivity.
  - intros ->. cbn. repeat split; reflexivity.
  - reflexivity.
Qed.

Definition sampleToolUse : KiroToolUse :=
  {| toolUseId := js "u1"; name := js "t";
     input := Json.JObject [(js "x", Json.JNumber (js "1"))] |}.

Definition sampleUsage : ResponseUsage :=
  {| u_inputTokens := 10; u_outputTokens := 5; u_cacheReadTokens := None;
     u_cacheWriteTokens := None; u_reasoningTokens := None |}.

Lemma kiroToOpenaiResponse_content_witness :
  message_content (kiroToOpenaiResponse (js "id") 1000 (js "thinking aloud") [sampleToolUse]
                     sampleUsage (js "claude-sonnet-4.5")) = None
  /\ message_content (kiroToOpenaiResponse (js "id") 1000 (js "answer") []
                        sampleUsage (js "claude-sonnet-4.5")) = Some (js "answer").
Proof.
  split.
  - destruct (kiroToOpenaiResponse_content (js "id") 1000 (js "thinking aloud") [sampleToolUse]
                sampleUsage (js "claude-sonnet-4.5")) as [H _].
    destruct H as [H _]; [discriminate | exact H].
  - destruct (kiroToOpenaiResponse_content (js "id") 1000 (js "answer") []
                sampleUsage (js "claude-sonnet-4.5")) as [_ [H _]].
    destruct H as [H _]; [reflexivity | exact H].
Defined.

(** Scenario S1 of the specification. *)
Example scenario_S1 :
  let r := kiroToOpenaiResponse (js "id") 1000 [] [sampleToolUse] sampleUsage
             (js "claude-sonnet-4-5") in
  finish_reason r = fr_tool_calls
  /\ message_tool_calls r
     = Some [{| out_id := js "u1"; out_name := js "t"; out_arguments := jsq "{'x':1}" |}]
  /\ total_tokens (usage r) = 15.
Proof. vm_compute. repeat split; reflexivity. Qed.

End Translator.

(* ===================================================================== *)
(** ** Token estimators *)
(* ===================================================================== *)

Module TokenCount.

(** *** [countTokens] of the SSE encoders (stream)

    The source accumulates [tokens] in IEEE-754 binary64 doubles.  Every
    double this function computes is 0, a multiple of 0.5, or at least 1
    - hence a multiple of 2^-52 - and is kept as the integer number of its
    2^-52 units: [one] stands for 1.0.  The sums stay far below the
    overflow threshold, so the exponent range plays no part. *)

Definition one : Z := Eval cbv in 2 ^ 52.
Definition half : Z := Eval cbv in 2 ^ 51.

(** The double written [1.2]: 0x3FF3333333333333, the multiple of 2^-52
    nearest to 6/5. *)
Definition onePointTwo : Z := 5404319552844595.

(** The double nearest to [n] units.  Below 2.0 every multiple of 2^-52 is
    a double.  From there on [n] is rounded to 53 significant bits: the
    low [s] bits are dropped, to the nearest, and to the even significand
    when they are exactly half. *)
Definition fl (n : Z) : Z :=
  if n <? 2 ^ 53 then n
  else
    let s := Z.log2 n - 52 in
    let q := n / 2 ^ s in
    let r := n mod 2 ^ s in
    let h := 2 ^ (s - 1) in
    (if (h <? r) || ((r =? h) && Z.odd q) then q + 1 else q) * 2 ^ s.

(** [x + y] on doubles *)
Definition add (x y : Z) : Z := fl (x + y).

(** [n * d] for an integer [n] and a double [d] *)
Definition times (n d : Z) : Z := fl (n * d).

(** An integer as a double (exact below 2^53). *)
Definition ofInt (n : Z) : Z := n * one.

(** The double [3.5] *)
Definition threePointFive : Z := 7 * half.

(** [n / d] for an integer [n] and a double [d], where the quotient is at
    least 1: the exact quotient [n * one * one / d] rounded to 53
    significant bits, to the nearest and to the even significand at a
    tie. *)
Definition quotient (n d : Z) : Z :=
  let num := n * one * one in
  let s := Z.log2 (num / d) - 52 in
  let step := d * 2 ^ s in
  let q := num / step in
  let r := num mod step in
  (if (step <? 2 * r) || ((2 * r =? step) && Z.odd q) then q + 1 else q) * 2 ^ s.

(** [Math.ceil(t)], an integer *)
Definition mathCeil (t : Z) : Z := (t + one - 1) / one.

(** [Math.round(t)]: the floor of [t + 0.5], without rounding error. *)
Definition mathRound (t : Z) : Z := (t + half) / one.

(** The class of the segmenting regular expression. *)
Definition isCjkClass (c : N) : bool :=
  ((19968 <=? c) && (c <=? 40959) || (13312 <=? c) && (c <=? 19903)
   || (12288 <=? c) && (c <=? 12351) || (65280 <=? c) && (c <=? 65519))%N.

(** [一-鿿㐀-䶿] *)
Definition isHanzi (c : N) : bool :=
  ((19968 <=? c) && (c <=? 40959) || (13312 <=? c) && (c <=? 19903))%N.

(** [text.match(/[K]+|[^K]+/g)]: the maximal runs of one class. *)
Fixpoint segmentsAux (s : jsstring) (cur : jsstring) (cls : bool) : list jsstring :=
  match s with
  | [] => match cur with [] => [] | _ => [rev cur] end
  | c :: r =>
      if Bool.eqb (isCjkClass c) cls then segmentsAux r (c :: cur) cls
      else match cur with
           | [] => segmentsAux r [c] (isCjkClass c)
           | _ => rev cur :: segmentsAux r [c] (isCjkClass c)
           end
  end.

Definition segments (text : jsstring) : list jsstring := segmentsAux text [] false.

(** [seg.split(/\s+/).filter(w => w.length > 0)]: the lengths of the maximal
    runs without whitespace; and the number of matches of [/\s+/g]. *)
Fixpoint wordsAux (s : jsstring) (cur : nat) : list nat :=
  match s with
  | [] => match cur with O => [] | _ => [cur] end
  | c :: r =>
      if Js.isWhitespace c
      then match cur with O => wordsAux r O | _ => cur :: wordsAux r O end
      else wordsAux r (S cur)
  end.

Fixpoint whitespaceRuns (s : jsstring) (inRun : bool) : Z :=
  match s with
  | [] => 0
  | c :: r =>
      if Js.isWhitespace c
      then (if inRun then 0 else 1) + whitespaceRuns r true
      else whitespaceRuns r false
  end.

(** [w.length <= 4 ? 1 : Math.ceil(w.length / 3.5)] *)
Definition wordTokens (len : nat) : Z :=
  if Nat.leb len 4 then 1 else mathCeil (quotient (Z.of_nat len) threePointFive).

(** The body of the loop over the segments: [tokens] after [seg]. *)
Definition addSegment (tokens : Z) (seg : jsstring) : Z :=
  match seg with
  | [] => tokens
  | c0 :: _ =>
      if isHanzi c0 then
        let hanzi := Z.of_nat (length (List.filter isHanzi seg)) in
        add tokens (add (times hanzi onePointTwo) (times (Js.len seg - hanzi) half))
      else
        let tokens := fold_left (fun t w => add t (ofInt (wordTokens w))) (wordsAux seg O)
                        tokens in
        add tokens (times (whitespaceRuns seg false) half)
  end.

Definition countTokens (text : jsstring) : Z :=
  if Js.truthy text then Z.max 1 (mathRound (fold_left addSegment (segments text) 0))
  else 0.

Example countTokens_words : countTokens (js "hello brave new world") = 9.
Proof. vm_compute. reflexivity. Qed.

Example countTokens_hanzi : countTokens [20320; 22909; 33; 33]%N = 3.
Proof. vm_compute. reflexivity. Qed.

(** *** The sum [countTokens] approximates

    The same amounts added without rounding, in tenths of a token: 12 per
    ideograph and 5 per other character of a segment that starts with an
    ideograph; elsewhere 10 per word of at most four characters,
    [10 * ceil(length / 3.5)] per longer word, and 5 per run of
    whitespace. *)
(** The ceiling of [n / 3.5], which is [2n / 7]. *)
Definition ceilDiv3_5 (n : Z) : Z := (2 * n + 6) / 7.

Definition wordTenths (len : nat) : Z :=
  if Nat.leb len 4 then 10 else 10 * ceilDiv3_5 (Z.of_nat len).

Definition segmentTenths (seg : jsstring) : Z :=
  match seg with
  | [] => 0
  | c0 :: _ =>
      if isHanzi c0 then
        let hanzi := Z.of_nat (length (List.filter isHanzi seg)) in
        hanzi * 12 + (Js.len seg - hanzi) * 5
      else
        fold_left (fun acc w => acc + wordTenths w) (wordsAux seg O) 0
          + whitespaceRuns seg false * 5
  end.

Definition claimedTenths (text : jsstring) : Z :=
  fold_left (fun acc seg => acc + segmentTenths seg) (segments text) 0.

(** Five ideographs, three words of one letter and five runs of
    whitespace: 11.5 tokens by the formula. *)
Definition halfwayText : jsstring :=
  [25105; 29233; 20320; 32; 97; 32; 98; 32; 20320; 32; 99; 32; 20320]%N.

(** The doubles add up to 11.499999999999998, which rounds to 11. *)
Example countTokens_halfway :
  claimedTenths halfwayText = 115
  /\ fold_left addSegment (segments halfwayText) 0 = 51791395714760696
  /\ 51791395714760696 < 11 * one + half
  /\ countTokens halfwayText = 11.
Proof. vm_compute. repeat split; reflexivity. Qed.

(** **** The rounding error of the sum *)

Lemma fl_bounds (n : Z) :
  0 <= n < 2 ^ 75 -> n - 2 ^ 22 <= fl n <= n + 2 ^ 22 /\ 0 <= fl n.
Proof.
  intros Hn. unfold fl. destruct (Z.ltb_spec n (2 ^ 53)) as [Hlt|Hge]; [lia|].
  assert (Hpos : 0 < n) by lia.
  assert (Hlo : 53 <= Z.log2 n) by (apply Z.log2_le_pow2; lia).
  assert (Hhi : Z.log2 n < 75) by (apply Z.log2_lt_pow2; lia).
  set (s := Z.log2 n - 52). assert (Hs : 1 <= s <= 22) by (subst s; lia).
  assert (HP : 0 < 2 ^ s) by (apply Z.pow_pos_nonneg; lia).
  assert (HP' : 2 ^ s <= 2 ^ 22) by (apply Z.pow_le_mono_r; lia).
  pose proof (Z.div_mod n (2 ^ s) ltac:(lia)) as Hdm.
  pose proof (Z.mod_pos_bound n (2 ^ s) HP) as Hmod.
  assert (Hq : 0 <= n / 2 ^ s) by (apply Z.div_pos; lia).
  cbv zeta. generalize dependent (n / 2 ^ s). generalize dependent (n mod 2 ^ s).
  generalize dependent (2 ^ s). intros P HP HP' r Hr q Hdm Hq.
  destruct ((2 ^ (s - 1) <? r) || ((r =? 2 ^ (s - 1)) && Z.odd q)); nia.
Qed.

Lemma add_bounds (x y : Z) :
  0 <= x -> 0 <= y -> x + y < 2 ^ 75 ->
  x + y - 2 ^ 22 <= add x y <= x + y + 2 ^ 22 /\ 0 <= add x y.
Proof. intros. apply fl_bounds. lia. Qed.

(** [tokens] is within [e] tenths of a unit of the exact sum [s], which
    is at most [b]. *)
Definition near (tokens s b e : Z) : Prop :=
  0 <= tokens /\ 0 <= s <= b /\ - e <= 10 * tokens - one * s <= e.

Lemma near_small tokens s b e :
  near tokens s b e -> b <= 15 * 2 ^ 20 -> e <= 2 ^ 48 -> 0 <= tokens < 2 ^ 73.
Proof. unfold near, one. lia. Qed.

(** The quotient [2n / 7] is an integer or at least a seventh away from
    one, and the division rounds it by far less: the ceiling of the double
    is the ceiling of the exact quotient. *)
Lemma quotient_ceil (n : Z) :
  5 <= n <= 2 ^ 21 -> mathCeil (quotient n threePointFive) = ceilDiv3_5 n.
Proof.
  intros Hn. unfold quotient, mathCeil, ceilDiv3_5, threePointFive.
  set (num := n * one * one). set (d := 7 * half).
  assert (Hd : 0 < d) by (subst d; unfold half; lia).
  assert (Hlo : 2 ^ 52 <= num / d).
  { apply Z.div_le_lower_bound; [exact Hd|]. subst num d. unfold one, half. lia. }
  assert (Hhi : num / d < 2 ^ 72).
  { apply Z.div_lt_upper_bound; [exact Hd|]. subst num d. unfold one, half. lia. }
  assert (H52 : 52 <= Z.log2 (num / d)) by (apply Z.log2_le_pow2; lia).
  assert (H72 : Z.log2 (num / d) < 72) by (apply Z.log2_lt_pow2; lia).
  set (s := Z.log2 (num / d) - 52). assert (Hs : 0 <= s <= 19) by (subst s; lia).
  assert (HU : 0 < 2 ^ s) by (apply Z.pow_pos_nonneg; lia).
  assert (HU' : 2 ^ s <= 2 ^ 19) by (apply Z.pow_le_mono_r; lia).
  assert (Hone : one = 2 ^ s * 2 ^ (52 - s)).
  { rewrite <- Z.pow_add_r by lia. replace (s + (52 - s)) with 52 by lia. reflexivity. }
  assert (Hm : 0 < 2 ^ (52 - s)) by (apply Z.pow_pos_nonneg; lia).
  cbv zeta.
  pose proof (Z.div_mod (2 * n + 6) 7 ltac:(lia)) as Hc.
  pose proof (Z.mod_pos_bound (2 * n + 6) 7 ltac:(lia)) as Hc'.
  set (c := (2 * n + 6) / 7) in *.
  assert (Hstep : 0 < d * 2 ^ s) by lia.
  match goal with |- (?t + one - 1) / one = _ => set (R := t) end.
  cut ((c - 1) * one < R <= c * one).
  { intros Hr. clearbody R.
    pose proof (Z.div_mod (R + one - 1) one ltac:(unfold one; lia)) as Hdm.
    pose proof (Z.mod_pos_bound (R + one - 1) one ltac:(unfold one; lia)) as Hmod.
    unfold one in *. lia. }
  subst R.
  destruct (Z.eq_dec (7 * c) (2 * n)) as [Hex|Hnex].
  - assert (Hnum : num = c * 2 ^ (52 - s) * (d * 2 ^ s)).
    { subst num d. rewrite Hone at 2. unfold one, half in *. nia. }
    rewrite Hnum, Z.mod_mul, Z.div_mul by lia.
    replace (d * 2 ^ s <? 2 * 0) with false by (symmetry; apply Z.ltb_ge; lia).
    replace (2 * 0 =? d * 2 ^ s) with false by (symmetry; apply Z.eqb_neq; lia).
    cbn [orb andb]. rewrite Hone. nia.
  - pose proof (Z.div_mod num (d * 2 ^ s) ltac:(lia)) as Hdm.
    pose proof (Z.mod_pos_bound num (d * 2 ^ s) Hstep) as Hmod.
    assert (Hgap : d * ((c - 1) * one) + half * one <= num /\ num + half * one <= d * (c * one)).
    { subst num d. unfold one, half. lia. }
    generalize dependent (num / (d * 2 ^ s)). generalize dependent (num mod (d * 2 ^ s)).
    intros r Hmod q Hdm.
    assert (Hsmall : d * 2 ^ s < half * one) by (subst d; unfold one, half; lia).
    clear Hone. 
    destruct ((d * 2 ^ s <? 2 * r) || ((2 * r =? d * 2 ^ s) && Z.odd q)).
    + assert (Hr : d * ((c - 1) * one) < d * ((q + 1) * 2 ^ s) < d * (c * one)) by nia.
      split; [apply (Z.mul_lt_mono_pos_l d); lia|].
      apply Z.lt_le_incl, (Z.mul_lt_mono_pos_l d); lia.
    + assert (Hr : d * ((c - 1) * one) < d * (q * 2 ^ s) < d * (c * one)) by nia.
      split; [apply (Z.mul_lt_mono_pos_l d); lia|].
      apply Z.lt_le_incl, (Z.mul_lt_mono_pos_l d); lia.
Qed.

Lemma wordTokens_bounds (w : nat) :
  (1 <= w)%nat -> Z.of_nat w <= 2 ^ 21 ->
  1 <= wordTokens w <= Z.of_nat w /\ wordTenths w = 10 * wordTokens w.
Proof.
  intros Hw Hle. unfold wordTokens, wordTenths.
  destruct (Nat.leb_spec w 4); [lia|]. rewrite quotient_ceil by lia.
  unfold ceilDiv3_5.
  pose proof (Z.div_mod (2 * Z.of_nat w + 6) 7 ltac:(lia)).
  pose proof (Z.mod_pos_bound (2 * Z.of_nat w + 6) 7 ltac:(lia)). lia.
Qed.

Definition total (ws : list nat) : Z := Z.of_nat (list_sum ws).

Lemma words_near (ws : list nat) :
  forall tokens s b e,
    near tokens s b e ->
    List.Forall (fun w => (1 <= w)%nat) ws ->
    b + 10 * total ws <= 15 * 2 ^ 20 ->
    e + 10 * 2 ^ 22 * Z.of_nat (length ws) <= 2 ^ 48 ->
    near (fold_left (fun t w => add t (ofInt (wordTokens w))) ws tokens)
         (fold_left (fun acc w => acc + wordTenths w) ws s)
         (b + 10 * total ws) (e + 10 * 2 ^ 22 * Z.of_nat (length ws)).
Proof.
  unfold total.
  induction ws as [|w r IH]; intros tokens s b e Hn Hall Hb He; cbn [fold_left].
  - change (list_sum []) with O. cbn [length].
    replace (b + 10 * Z.of_nat 0) with b by lia.
    replace (e + 10 * 2 ^ 22 * Z.of_nat 0) with e by lia. exact Hn.
  - inversion Hall as [|? ? Hw Hr]; subst.
    change (list_sum (w :: r)) with (w + list_sum r)%nat in *. cbn [length] in *.
    rewrite Nat2Z.inj_add, Nat2Z.inj_succ in *.
    pose proof Hn as Hn'. unfold near in Hn'.
    destruct (wordTokens_bounds w Hw ltac:(lia)) as [Hk Hten].
    pose proof (near_small _ _ _ _ Hn ltac:(lia) ltac:(lia)) as Ht.
    destruct (add_bounds tokens (ofInt (wordTokens w))) as [Ha Ha0];
      [lia | unfold ofInt, one; lia | unfold ofInt, one; lia |].
    specialize (IH (add tokens (ofInt (wordTokens w))) (s + wordTenths w)
                   (b + 10 * Z.of_nat w) (e + 10 * 2 ^ 22)).
    replace (b + 10 * (Z.of_nat w + Z.of_nat (list_sum r)))
      with (b + 10 * Z.of_nat w + 10 * Z.of_nat (list_sum r)) by lia.
    replace (e + 10 * 2 ^ 22 * Z.succ (Z.of_nat (length r)))
      with (e + 10 * 2 ^ 22 + 10 * 2 ^ 22 * Z.of_nat (length r)) by lia.
    apply IH; [|exact Hr|lia|lia].
    unfold near in *. unfold ofInt, one in *. rewrite Hten. lia.
Qed.

Lemma wordsAux_positive (s : jsstring) :
  forall cur, List.Forall (fun w => (1 <= w)%nat) (wordsAux s cur).
Proof.
  induction s as [|c r IH]; intros cur; cbn [wordsAux].
  - destruct cur; [constructor|]. constructor; [lia | constructor].
  - destruct (Js.isWhitespace c); [|apply IH].
    destruct cur; [apply IH|]. constructor; [lia | apply IH].
Qed.

Lemma wordsAux_total (s : jsstring) :
  forall cur, (list_sum (wordsAux s cur) <= cur + length s)%nat.
Proof.
  induction s as [|c r IH]; intros cur; cbn [wordsAux length].
  - destruct cur; cbn; lia.
  - destruct (Js.isWhitespace c).
    + pose proof (IH O) as H. destruct cur; unfold list_sum in *; cbn [fold_right]; lia.
    + pose proof (IH (S cur)). lia.
Qed.

Lemma positive_length (ws : list nat) :
  List.Forall (fun w => (1 <= w)%nat) ws -> (length ws <= list_sum ws)%nat.
Proof. induction 1; unfold list_sum in *; cbn [fold_right length]; lia. Qed.

Lemma whitespaceRuns_bounds (s : jsstring) :
  forall inRun, 0 <= whitespaceRuns s inRun <= Js.len s.
Proof.
  unfold Js.len. induction s as [|c r IH]; intros inRun; cbn [whitespaceRuns length].
  - lia.
  - destruct (Js.isWhitespace c); [pose proof (IH true); destruct inRun | pose proof (IH false)];
      lia.
Qed.

Lemma fold_tenths {A} (f : A -> Z) (l : list A) :
  forall a, fold_left (fun acc x => acc + f x) l a
            = a + fold_left (fun acc x => acc + f x) l 0.
Proof.
  induction l as [|x r IH]; intros a; cbn [fold_left]; [lia|].
  rewrite (IH (a + f x)), (IH (0 + f x)). lia.
Qed.

(** One segment costs at most [2^28] tenths of a unit of error for each of
    its characters. *)
Lemma addSegment_near (seg : jsstring) (tokens s b e : Z) :
  seg <> [] ->
  near tokens s b e ->
  b + 15 * Js.len seg <= 15 * 2 ^ 20 ->
  e + Js.len seg * 2 ^ 28 <= 2 ^ 48 ->
  near (addSegment tokens seg) (s + segmentTenths seg)
       (b + 15 * Js.len seg) (e + Js.len seg * 2 ^ 28).
Proof.
  intros Hne Hn Hb He. destruct seg as [|c0 r]; [congruence|].
  assert (Hlen : 1 <= Js.len (c0 :: r)) by (unfold Js.len; cbn [length]; lia).
  pose proof (near_small _ _ _ _ Hn ltac:(lia) ltac:(lia)) as Ht.
  pose proof Hn as Hn'. unfold near in Hn'.
  unfold addSegment, segmentTenths. destruct (isHanzi c0) eqn:Hc0.
  - set (hanzi := Z.of_nat (length (List.filter isHanzi (c0 :: r)))).
    assert (Hh : 1 <= hanzi <= Js.len (c0 :: r)).
    { subst hanzi. unfold Js.len. pose proof (List.filter_length_le isHanzi (c0 :: r)).
      cbn [List.filter] in *. rewrite Hc0 in *. cbn [length] in *. lia. }
    generalize dependent (Js.len (c0 :: r)). intros len Hb He Hlen Hh.
    cbv zeta. unfold times.
    destruct (fl_bounds (hanzi * onePointTwo)) as [H1 H1'];
      [unfold onePointTwo; lia|].
    destruct (fl_bounds ((len - hanzi) * half)) as [H2 H2']; [unfold half; lia|].
    destruct (add_bounds (fl (hanzi * onePointTwo)) (fl ((len - hanzi) * half)))
      as [H3 H3']; [lia | lia | unfold onePointTwo, half in *; lia |].
    destruct (add_bounds tokens
                (add (fl (hanzi * onePointTwo)) (fl ((len - hanzi) * half))))
      as [H4 H4']; [lia | lia | unfold onePointTwo, half in *; lia |].
    unfold near in *. unfold onePointTwo, half, one in *. lia.
  - set (ws := wordsAux (c0 :: r) O).
    assert (Hpos : List.Forall (fun w => (1 <= w)%nat) ws) by apply wordsAux_positive.
    assert (Htot : total ws <= Js.len (c0 :: r)).
    { unfold total, Js.len. pose proof (wordsAux_total (c0 :: r) O). fold ws in H. lia. }
    assert (Hcount : Z.of_nat (length ws) <= total ws).
    { unfold total. pose proof (positive_length ws Hpos). lia. }
    pose proof (whitespaceRuns_bounds (c0 :: r) false) as Hruns.
    assert (Htot0 : 0 <= total ws) by (unfold total; lia).
    pose proof (words_near ws tokens s b e Hn Hpos ltac:(lia) ltac:(lia)) as Hw.
    rewrite fold_tenths in Hw.
    generalize dependent (fold_left (fun t w => add t (ofInt (wordTokens w))) ws tokens).
    generalize dependent (fold_left (fun acc w => acc + wordTenths w) ws 0).
    generalize dependent (whitespaceRuns (c0 :: r) false).
    generalize dependent (Js.len (c0 :: r)). generalize dependent (total ws).
    generalize dependent (Z.of_nat (length ws)).
    intros count tot Hcount Htot0 len Hb He Hlen Htot runs Hruns sw tw Hw.
    cbv zeta. unfold times.
    pose proof (near_small _ _ _ _ Hw ltac:(lia) ltac:(lia)) as Htw.
    destruct (fl_bounds (runs * half)) as [H1 H1']; [unfold half; lia|].
    destruct (add_bounds tw (fl (runs * half))) as [H2 H2'];
      [lia | lia | unfold half in *; lia |].
    unfold near in *. unfold half, one in *. lia.
Qed.

Lemma segments_near (segs : list jsstring) :
  forall tokens s c,
    List.Forall (fun seg => seg <> []) segs ->
    0 <= c ->
    near tokens s (15 * c) (c * 2 ^ 28) ->
    c + Js.len (concat segs) <= 2 ^ 20 ->
    near (fold_left addSegment segs tokens)
         (fold_left (fun acc seg => acc + segmentTenths seg) segs s)
         (15 * (c + Js.len (concat segs))) ((c + Js.len (concat segs)) * 2 ^ 28).
Proof.
  unfold Js.len.
  induction segs as [|seg r IH]; intros tokens s c Hall Hc Hn Hlen; cbn [fold_left concat].
  - cbn [length]. replace (c + Z.of_nat 0) with c by lia. exact Hn.
  - inversion Hall as [|? ? Hseg Hr]; subst. cbn [concat] in Hlen.
    rewrite length_app, Nat2Z.inj_add in *.
    pose proof (addSegment_near seg tokens s (15 * c) (c * 2 ^ 28) Hseg Hn) as Hstep.
    unfold Js.len in Hstep.
    specialize (IH (addSegment tokens seg) (s + segmentTenths seg)
                   (c + Z.of_nat (length seg)) Hr ltac:(lia)).
    replace (c + (Z.of_nat (length seg) + Z.of_nat (length (concat r))))
      with (c + Z.of_nat (length seg) + Z.of_nat (length (concat r))) by lia.
    apply IH; [|lia].
    replace (15 * (c + Z.of_nat (length seg))) with (15 * c + 15 * Z.of_nat (length seg))
      by lia.
    replace ((c + Z.of_nat (length seg)) * 2 ^ 28)
      with (c * 2 ^ 28 + Z.of_nat (length seg) * 2 ^ 28) by lia.
    apply Hstep; lia.
Qed.

Lemma segmentsAux_spec (s : jsstring) :
  forall cur cls,
    concat (segmentsAux s cur cls) = rev cur ++ s
    /\ List.Forall (fun seg => seg <> []) (segmentsAux s cur cls).
Proof.
  induction s as [|c r IH]; intros cur cls; cbn [segmentsAux].
  - destruct cur as [|x cur'].
    + split; [reflexivity | constructor].
    + split; [cbn [concat]; rewrite app_nil_r; reflexivity|].
      constructor; [|constructor]. cbn [rev]. intros H. apply app_eq_nil in H.
      destruct H as [_ H]. discriminate H.
  - destruct (Bool.eqb (isCjkClass c) cls).
    + destruct (IH (c :: cur) cls) as [H1 H2]. split; [|exact H2].
      rewrite H1. cbn [rev]. rewrite <- app_assoc. reflexivity.
    + destruct (IH [c] (isCjkClass c)) as [H1 H2]. destruct cur as [|x cur'].
      * split; [rewrite H1; reflexivity | exact H2].
      * split; [cbn [concat]; rewrite H1; reflexivity|].
        constructor; [|exact H2]. cbn [rev]. intros H. apply app_eq_nil in H.
        destruct H as [_ H]. discriminate H.
Qed.

(** The estimate is an integer nearest to the exact sum, for a text of at
    most 2^20 code units. *)
Lemma countTokens_nearest (text : jsstring) :
  text <> [] ->
  Js.len text <= 2 ^ 20 ->
  exists n,
    countTokens text = Z.max 1 n
    /\ 10 * n - 5 <= claimedTenths text <= 10 * n + 5.
Proof.
  intros Hne Hlen. unfold countTokens, claimedTenths, segments.
  destruct text as [|c r]; [congruence|]. cbn [Js.truthy].
  destruct (segmentsAux_spec (c :: r) [] false) as [Hcat Hall]. cbn [rev app] in Hcat.
  pose proof (segments_near (segmentsAux (c :: r) [] false) 0 0 0 Hall ltac:(lia)) as H.
  rewrite Hcat in H.
  assert (H0 : near 0 0 (15 * 0) (0 * 2 ^ 28)) by (unfold near; lia).
  specialize (H H0 ltac:(lia)).
  generalize dependent (fold_left addSegment (segmentsAux (c :: r) [] false) 0).
  generalize dependent
    (fold_left (fun acc seg => acc + segmentTenths seg) (segmentsAux (c :: r) [] false) 0).
  intros s tokens H. exists (mathRound tokens). split; [reflexivity|].
  unfold mathRound. unfold near in H.
  pose proof (Z.div_mod (tokens + half) one ltac:(unfold one; lia)) as Hdm.
  pose proof (Z.mod_pos_bound (tokens + half) one ltac:(unfold one; lia)) as Hmod.
  generalize dependent ((tokens + half) / one). generalize dependent ((tokens + half) mod one).
  intros m Hmod n Hdm. unfold one, half in *. lia.
Qed.

(** *** The estimate used when the upstream reports no output tokens *)

Import KiroApi.

Definition isCjkStrict (c : N) : bool := ((19968 <? c) && (c <? 40959))%N.
Definition isOtherNonAscii (c : N) : bool := negb (isCjkStrict c) && (127 <? c)%N.
Definition isAsciiUnit (c : N) : bool := negb (isCjkStrict c) && negb (127 <? c)%N.

Definition count (f : N -> bool) (text : jsstring) : Z :=
  Z.of_nat (length (List.filter f text)).

Lemma quarterSum_from text : forall acc,
  fold_left (fun n code => n + quarterWeight code) text acc
  = acc + (8 * count isCjkStrict text + 6 * count isOtherNonAscii text
           + count isAsciiUnit text).
Proof.
  unfold count. induction text as [|c r IH]; intros acc; cbn [fold_left List.filter].
  - cbn. lia.
  - rewrite IH. unfold quarterWeight, isOtherNonAscii, isAsciiUnit, isCjkStrict.
    destruct ((19968 <? c) && (c <? 40959))%N; cbn [negb andb];
      [|destruct (127 <? c)%N; cbn [negb]]; cbn [length]; lia.
Qed.

Lemma count_total text :
  count isCjkStrict text + count isOtherNonAscii text + count isAsciiUnit text
  = Js.len text.
Proof.
  unfold count, Js.len. induction text as [|c r IH]; [reflexivity|].
  cbn [List.filter]. unfold isOtherNonAscii, isAsciiUnit in *.
  destruct (isCjkStrict c); cbn [negb andb]; [|destruct (127 <? c)%N; cbn [negb]];
    cbn [length]; lia.
Qed.

(** When the upstream reported no output tokens and some text was emitted,
    the reported estimate is the ceiling of 2 per code unit strictly between
    U+4E00 and U+9FFF, 1.5 per other code unit above 127 and 0.25 per
    remaining code unit; it is at least 1, at least a quarter of the length
    and at most twice the length.  An empty text counts 0. *)
Lemma estimate_when_unreported (d : Decoder) :
  outputTokens (usage d) = 0 ->
  totalOutputText d <> [] ->
  let text := totalOutputText d in
  let quarters := 8 * count isCjkStrict text + 6 * count isOtherNonAscii text
                  + count isAsciiUnit text in
  outputTokens (finalUsage d) = (quarters + 3) / 4
  /\ 1 <= outputTokens (finalUsage d)
  /\ Js.len text <= 4 * outputTokens (finalUsage d)
  /\ outputTokens (finalUsage d) <= 2 * Js.len text
  /\ KiroApi.countTokens [] = 0.
Proof.
  intros Hzero Hne text quarters. unfold finalUsage. rewrite Hzero.
  destruct (totalOutputText d) as [|c r] eqn:Ht; [congruence|].
  cbn [Z.eqb andb Js.truthy outputTokens]. fold text.
  unfold KiroApi.countTokens. subst text. cbn [Js.truthy].
  unfold quarterSum, ceilQuarter. rewrite quarterSum_from. rewrite Z.add_0_l.
  fold quarters.
  pose proof (count_total (c :: r)) as Htot.
  assert (Hlen : 1 <= Js.len (c :: r)) by (unfold Js.len; cbn [length]; lia).
  assert (H1 : 0 <= count isCjkStrict (c :: r)) by (unfold count; lia).
  assert (H2 : 0 <= count isOtherNonAscii (c :: r)) by (unfold count; lia).
  assert (H3 : 0 <= count isAsciiUnit (c :: r)) by (unfold count; lia).
  assert (Hq : Js.len (c :: r) <= quarters <= 8 * Js.len (c :: r)) by (subst quarters; lia).
  split; [reflexivity|].
  assert (Hdiv : quarters <= 4 * ((quarters + 3) / 4) <= quarters + 3).
  { pose proof (Z.div_mod (quarters + 3) 4 ltac:(lia)).
    pose proof (Z.mod_pos_bound (quarters + 3) 4 ltac:(lia)). lia. }
  repeat split; try reflexivity; lia.
Qed.

(** C6 (as the code has it).  The program has two token estimators.
    [countTokens] of the stream encoders follows the formula of the claim -
    1.2 per ideograph and 0.5 per other character of a segment that starts
    with an ideograph; elsewhere 1 per word of at most four characters,
    [ceil(length / 3.5)] per longer word and 0.5 per run of whitespace -
    summed in doubles and rounded: for a non-empty text of at most 2^20 code
    units the result is [max 1 n] for an integer [n] nearest to the exact
    sum, which is [Math.round] of the exact sum unless that sum lies
    halfway between two integers; it is at least 1 for every non-empty text
    and 0 for the empty one.  The estimate reported when the upstream
    reports no output tokens is not this one but the decoder's: the ceiling
    of 2 per code unit strictly between U+4E00 and U+9FFF, 1.5 per other
    code unit above 127 and 0.25 per remaining code unit, at least 1 for a
    non-empty text and 0 for the empty one. *)
Theorem token_estimates (text : jsstring) (d : Decoder) :
  (text <> [] -> 1 <= TokenCount.countTokens text)
  /\ (text <> [] -> Js.len text <= 2 ^ 20 ->
      let s := claimedTenths text in
      (exists n, TokenCount.countTokens text = Z.max 1 n
                 /\ 10 * n - 5 <= s <= 10 * n + 5)
      /\ (s mod 10 <> 5 -> TokenCount.countTokens text = Z.max 1 ((s + 5) / 10)))
  /\ TokenCount.countTokens [] = 0
  /\ (outputTokens (usage d) = 0 ->
      totalOutputText d <> [] ->
      let out := totalOutputText d in
      let quarters := 8 * count isCjkStrict out + 6 * count isOtherNonAscii out
                      + count isAsciiUnit out in
      outputTokens (finalUsage d) = (quarters + 3) / 4
      /\ 1 <= outputTokens (finalUsage d)
      /\ Js.len out <= 4 * outputTokens (finalUsage d)
      /\ outputTokens (finalUsage d) <= 2 * Js.len out
      /\ KiroApi.countTokens [] = 0).
Proof.
  split.
  { intros Hne. unfold TokenCount.countTokens. destruct text; [congruence|].
    cbn [Js.truthy]. lia. }
  split.
  { intros Hne Hlen s.
    destruct (countTokens_nearest text Hne Hlen) as (n & Hn & Hs). fold s in Hs.
    split; [exists n; split; assumption|].
    intros Htie. rewrite Hn. f_equal.
    pose proof (Z.div_mod s 10 ltac:(lia)) as Hdm.
    pose proof (Z.mod_pos_bound s 10 ltac:(lia)) as Hmod.
    pose proof (Z.div_mod (s + 5) 10 ltac:(lia)) as Hdm'.
    pose proof (Z.mod_pos_bound (s + 5) 10 ltac:(lia)) as Hmod'.
    lia. }
  split; [reflexivity|].
  intros Hzero Hne. apply (estimate_when_unreported d Hzero Hne).
Qed.

Definition sixteenLetters : jsstring := js "abcdefghijklmnop".

Definition reportedNothing : Decoder :=
  {| toolBuffers := []; processedIds := ∅;
     thinkingState := {| inThinking := false; t_buffer := []; thinkingLength := 0 |};
     usage := startUsage []; totalOutputText := sixteenLetters |}.

Lemma token_estimates_witness :
  TokenCount.countTokens sixteenLetters = 5
  /\ outputTokens (finalUsage reportedNothing) = 4.
Proof.
  destruct (token_estimates sixteenLetters reportedNothing) as (_ & Hstream & _ & Hdecoder).
  split.
  - destruct Hstream as [_ H].
    + discriminate.
    + apply Z.leb_le. reflexivity.
    + rewrite H; [reflexivity|]. vm_compute. discriminate.
  - destruct Hdecoder as [H _].
    + reflexivity.
    + discriminate.
    + rewrite H. reflexivity.
Defined.

(** The estimate the claim describes for a single non-CJK word without
    whitespace: 1 token up to four characters, else [ceil(length / 3.5)]. *)
Definition claimedWordEstimate (len : Z) : Z :=
  if len <=? 4 then 1 else ceilDiv3_5 len.

(** C6 as stated fails.  For a word of sixteen letters the claim's formula
    (which is the one of the encoders' [countTokens]) gives 5 tokens, and
    the estimate reported when the upstream is silent is 4.  And where the
    formula gives 11.5 tokens, the encoders' [countTokens] gives 11: its
    doubles add up to just below the half. *)
Lemma silent_upstream_estimate_differs :
  outputTokens (finalUsage reportedNothing) = 4
  /\ claimedWordEstimate (Js.len sixteenLetters) = 5
  /\ TokenCount.countTokens sixteenLetters = 5
  /\ outputTokens (finalUsage reportedNothing) <> claimedWordEstimate (Js.len sixteenLetters)
  /\ claimedTenths halfwayText = 115
  /\ TokenCount.countTokens halfwayText = 11.
Proof. vm_compute. repeat split; try reflexivity. discriminate. Qed.

End TokenCount.

(* ===================================================================== *)
(** ** Context compressor: batch summaries *)
(* ===================================================================== *)

Module Compressor.

Import Translator.

Record CompressorConfig := {
  batchMessages : nat;
  batchChars : Z
}.

Definition DEFAULT_CONFIG : CompressorConfig :=
  {| batchMessages := 8; batchChars := 40000 |}.

(** [extractMessageText] *)
Definition blockText (block : ClaudeContentBlock) : list jsstring :=
  match b_type block with
  | b_text => if Js.truthy (opt (b_textField block)) then [opt (b_textField block)] else []
  | b_tool_use =>
      if Js.truthy (opt (b_nameField block))
      then [js "[Tool: " ++ opt (b_nameField block) ++ js "]"] else []
  | b_tool_result =>
      match b_content block with
      | ResultString s => [js "[Result: " ++ firstn 200 s ++ js "]"]
      | ResultBlocks texts =>
          flat_map (fun t => if Js.truthy (opt t)
                             then [js "[Result: " ++ firstn 200 (opt t) ++ js "]"] else [])
                   texts
      | ResultNone => []
      end
  | _ => []
  end.

Definition extractMessageText (msg : ClaudeMessage) : jsstring :=
  match c_content msg with
  | CString s => s
  | CBlocks blocks => Js.join [10%N] (flat_map blockText blocks)
  | CNull => []
  end.

Definition endsWithToolUse (msg : ClaudeMessage) : bool :=
  match c_role msg, c_content msg with
  | c_assistant, CBlocks blocks =>
      existsb (fun b => match b_type b with b_tool_use => true | _ => false end) blocks
  | _, _ => false
  end.

Section WithConfig.
Variable config : CompressorConfig.

(** [splitIntoBatches]; [current] is the batch being filled. *)
Fixpoint splitLoop (messages current : list ClaudeMessage) (currentChars : Z)
  : list (list ClaudeMessage) :=
  match messages with
  | [] => match current with [] => [] | _ => [current] end
  | msg :: rest =>
      let current' := current ++ [msg] in
      let chars := currentChars + Js.len (extractMessageText msg) in
      if (Nat.leb (batchMessages config) (length current')
          || (batchChars config <=? chars))
         && negb (endsWithToolUse msg)
      then current' :: splitLoop rest [] 0
      else splitLoop rest current' chars
  end.

Definition splitIntoBatches (messages : list ClaudeMessage) : list (list ClaudeMessage) :=
  splitLoop messages [] 0.

(** [Math.ceil(batchText.length * config.compressionRatio)], a double
    computation, is read from [targetLen]. *)
Variable targetLen : nat -> nat.

(** The answer of the upstream to the [n]-th summarization call with a given
    prompt: [None] when [claudeToKiro] or [callKiroApi] throws, else the
    response text. *)
Variable upstream : nat -> jsstring -> option jsstring.

Definition roleName (r : ClaudeRole) : jsstring :=
  match r with c_user => js "user" | c_assistant => js "assistant" end.

Definition batchTextOf (batch : list ClaudeMessage) : jsstring :=
  Js.join (js "
---
")
    (map (fun m => js "[" ++ roleName (c_role m) ++ js "]: "
                   ++ firstn 1000 (extractMessageText m)) batch).

Definition promptHead (target : nat) : jsstring :=
  js "Summarize this conversation segment concisely (target ~"
    ++ Js.showZ (Z.of_nat target)
    ++ js " chars). Preserve: key decisions, file paths, tool actions, technical details, and user intent."
    ++ [10; 10]%N.

Definition previousContext (existingSummary : option jsstring) : jsstring :=
  if Js.truthy (opt existingSummary)
  then js "Previous context:" ++ [10%N] ++ opt existingSummary ++ [10; 10]%N
  else [].

Definition promptOf (batch : list ClaudeMessage) (existingSummary : option jsstring)
  : jsstring :=
  promptHead (targetLen (length (batchTextOf batch)))
    ++ previousContext existingSummary
    ++ js "Conversation:" ++ [10%N] ++ batchTextOf batch.

(** [generateBatchSummary]: the summary, or the truncated batch text when
    the call fails or answers nothing. *)
Definition generateBatchSummary (batch : list ClaudeMessage) (batchIndex : nat)
    (existingSummary : option jsstring) : jsstring :=
  let fallback :=
    firstn (targetLen (length (batchTextOf batch))) (batchTextOf batch) ++ js "..." in
  match upstream batchIndex (promptOf batch existingSummary) with
  | Some text => if Js.truthy (Js.trim text) then Js.trim text else fallback
  | None => fallback
  end.

(** One summarization call as it is issued. *)
Record Call := {
  callIndex : nat;
  callBatch : list ClaudeMessage;
  existingSummary : option jsstring
}.

Definition CONCURRENCY : nat := 3.

(** The calls of one chunk.  [chunk.map] runs to completion before any of
    its promises settles, so each [prevSummary] is read from [summaries] as
    the previous chunk left it. *)
Fixpoint chunkCalls (i : nat) (chunk : list (list ClaudeMessage)) (summaries : list jsstring)
  : list Call :=
  match chunk with
  | [] => []
  | batch :: r =>
      {| callIndex := i; callBatch := batch;
         existingSummary := match i with
                            | O => None
                            | S k => Some (nth k summaries [])
                            end |}
        :: chunkCalls (S i) r summaries
  end.

Definition runCall (c : Call) : jsstring :=
  generateBatchSummary (callBatch c) (callIndex c) (existingSummary c).

(** [summaries[i + j] = results[j]] *)
Definition storeResults (calls : list Call) (summaries : list jsstring) : list jsstring :=
  fold_left (fun s c => <[callIndex c := runCall c]> s) calls summaries.

(** The [for (let i = 0; i < batches.length; i += CONCURRENCY)] loop; [rest]
    holds [batches.slice(i)]. *)
Fixpoint batchLoop (fuel i : nat) (rest : list (list ClaudeMessage))
    (summaries : list jsstring) : list Call * list jsstring :=
  match fuel, rest with
  | S f, _ :: _ =>
      let calls := chunkCalls i (firstn CONCURRENCY rest) summaries in
      let '(later, final) :=
        batchLoop f (i + CONCURRENCY) (skipn CONCURRENCY rest) (storeResults calls summaries) in
      (calls ++ later, final)
  | _, _ => ([], summaries)
  end.

(** The calls issued for a list of batches, and the summaries array. *)
Definition summarizeBatches (batches : list (list ClaudeMessage)) : list Call * list jsstring :=
  batchLoop (length batches) 0 batches (repeat [] (length batches)).

Lemma batchLoop_step f i b rest summaries :
  batchLoop (S f) i (b :: rest) summaries
  = let calls := chunkCalls i (firstn CONCURRENCY (b :: rest)) summaries in
    let next := batchLoop f (i + CONCURRENCY) (skipn CONCURRENCY (b :: rest))
                  (storeResults calls summaries) in
    (calls ++ fst next, snd next).
Proof. cbn [batchLoop]. destruct (batchLoop f _ _ _). reflexivity. Qed.

(** A summary is never empty. *)
Lemma generateBatchSummary_nonempty batch idx existing :
  generateBatchSummary batch idx existing <> [].
Proof.
  unfold generateBatchSummary.
  destruct (upstream idx _) as [text|].
  - destruct (Js.truthy (Js.trim text)) eqn:E.
    + intros H. rewrite H in E. discriminate.
    + intros H. apply app_eq_nil in H. destruct H. discriminate.
  - intros H. apply app_eq_nil in H. destruct H. discriminate.
Qed.

(** C8 (the code departs from the claim).  Whatever the conversation and
    the upstream answers, with two or more batches the call for the second
    batch is handed the empty string, not the first batch's summary, and its
    prompt has no previous-context part; the summary of the first batch only
    reaches the array afterwards. *)
Theorem second_batch_lacks_previous_summary (b0 b1 : list ClaudeMessage)
    (more : list (list ClaudeMessage)) :
  let run := summarizeBatches (b0 :: b1 :: more) in
  exists c1,
    nth_error (fst run) 1 = Some c1
    /\ callIndex c1 = 1%nat
    /\ callBatch c1 = b1
    /\ existingSummary c1 = Some []
    /\ promptOf b1 (existingSummary c1)
       = promptHead (targetLen (length (batchTextOf b1)))
           ++ js "Conversation:" ++ [10%N] ++ batchTextOf b1
    /\ existingSummary c1 <> Some (generateBatchSummary b0 0 None).
Proof.
  cbn zeta. unfold summarizeBatches. cbn [length].
  rewrite batchLoop_step. cbn [fst].
  cbn [firstn CONCURRENCY chunkCalls repeat nth app nth_error].
  eexists. split; [reflexivity|].
  cbn [callIndex callBatch existingSummary].
  split; [reflexivity|]. split; [reflexivity|]. split; [reflexivity|].
  split; [reflexivity|].
  intros H. injection H as H. symmetry in H.
  exact (generateBatchSummary_nonempty b0 0%nat None H).
Qed.

End WithConfig.

(** Nine short user messages make two batches with the default limits; an
    upstream that answers every call with [ok]. *)
Definition nineMessages : list ClaudeMessage :=
  repeat {| c_role := c_user; c_content := CString (js "note") |} 9.

Definition okUpstream (_ : nat) (_ : jsstring) : option jsstring := Some (js "ok").

Example nineMessages_batches :
  map (@length _) (splitIntoBatches DEFAULT_CONFIG nineMessages) = [8; 1]%nat.
Proof. reflexivity. Qed.

Example nineMessages_calls :
  map (fun c => (callIndex c, existingSummary c))
      (fst (summarizeBatches (fun n => n) okUpstream
              (splitIntoBatches DEFAULT_CONFIG nineMessages)))
    = [(0%nat, None); (1%nat, Some [])]
  /\ snd (summarizeBatches (fun n => n) okUpstream
            (splitIntoBatches DEFAULT_CONFIG nineMessages))
     = [js "ok"; js "ok"].
Proof. vm_compute. split; reflexivity. Qed.

End Compressor.

(* ===================================================================== *)
(** ** Streaming thinking parser (stream) *)
(* ===================================================================== *)

Module ThinkingParser.

Definition THINKING_START_TAG : jsstring := js "<thinking>".
Definition THINKING_END_TAG : jsstring := js "</thinking>".
Definition THINKING_END_WITH_NL : jsstring := THINKING_END_TAG ++ [10; 10]%N.
Definition MAX_THINKING_CHARS : Z := 100000.
Definition SAFE_THRESHOLD : nat := 256.

(** Membership in [QUOTE_CHARS]. *)
Definition isQuoteChar (c : N) : bool :=
  existsb (N.eqb c)
    [96; 34; 39; 92; 35; 33; 64; 36; 37; 94; 38; 42; 40; 41; 45; 95; 61; 43;
     91; 93; 123; 125; 59; 58; 60; 62; 44; 46; 63; 47]%N.

(** [isPrecededByQuoteChar], with the character before the position. *)
Definition precededByQuote (prev : option N) : bool :=
  match prev with Some c => isQuoteChar c | None => false end.

(** [findRealThinkingStartTag]: the first occurrence of the start tag that
    no quote character precedes.  [s] is the buffer from position [pos] on,
    [prev] the character before it. *)
Fixpoint startTagFrom (s : jsstring) (prev : option N) (pos : nat) : option nat :=
  if Js.startsWith THINKING_START_TAG s && negb (precededByQuote prev) then Some pos
  else match s with
       | [] => None
       | c :: r => startTagFrom r (Some c) (S pos)
       end.

Definition findRealThinkingStartTag (buffer : jsstring) : option nat :=
  startTagFrom buffer None 0.

(** [findRealThinkingEndTag]: the first unquoted end tag followed by two
    line feeds; the search gives up at an unquoted end tag with fewer than
    two characters after it. *)
Fixpoint endTagFrom (s : jsstring) (prev : option N) (pos : nat) : option nat :=
  let here := Js.startsWith THINKING_END_TAG s && negb (precededByQuote prev) in
  let after := skipn (length THINKING_END_TAG) s in
  if here && Js.startsWith [10; 10]%N after then Some pos
  else if here && Nat.ltb (length after) 2 then None
  else match s with
       | [] => None
       | c :: r => endTagFrom r (Some c) (S pos)
       end.

Definition findRealThinkingEndTag (buffer : jsstring) : option nat :=
  endTagFrom buffer None 0.

(** [findRealThinkingEndTagAtBufferEnd] *)
Fixpoint endTagAtEndFrom (s : jsstring) (prev : option N) (pos : nat) : option nat :=
  let here := Js.startsWith THINKING_END_TAG s && negb (precededByQuote prev) in
  let after := skipn (length THINKING_END_TAG) s in
  if here && (negb (Js.truthy (Js.trim after)) || Js.startsWith [10%N] after) then Some pos
  else match s with
       | [] => None
       | c :: r => endTagAtEndFrom r (Some c) (S pos)
       end.

Definition findRealThinkingEndTagAtBufferEnd (buffer : jsstring) : option nat :=
  endTagAtEndFrom buffer None 0.

(** [pendingTagSuffix]: the greatest [n], at most [tag.length - 1], such
    that the last [n] characters of the buffer are the first [n] of the tag. *)
Fixpoint pendingFrom (n : nat) (buffer tag : jsstring) : nat :=
  match n with
  | O => O
  | S k =>
      if Js.eqb (skipn (length buffer - n) buffer) (firstn n tag) then n
      else pendingFrom k buffer tag
  end.

Definition pendingTagSuffix (buffer tag : jsstring) : nat :=
  pendingFrom (Nat.min (length buffer) (length tag - 1)) buffer tag.

(** [buffer.lastIndexOf(p, from)] *)
Fixpoint lastIndexOfFrom (p s : jsstring) (pos from : nat) (best : option nat) : option nat :=
  let best' := if Nat.leb pos from && Js.startsWith p s then Some pos else best in
  match s with
  | [] => best'
  | _ :: r => lastIndexOfFrom p r (S pos) from best'
  end.

Definition lastIndexOf (p s : jsstring) (from : nat) : option nat :=
  lastIndexOfFrom p s 0 from None.

Inductive ItemType := thinking | text.

Record Item := { type : ItemType; i_content : jsstring }.

(** The private fields of [ThinkingBufferParser]. *)
Record Parser := {
  buffer : jsstring;
  inThinkBlock : bool;
  pendingStartTagChars : nat;
  thinkingLength : Z;
  overflowWarned : bool
}.

Definition fresh : Parser :=
  {| buffer := []; inThinkBlock := false; pendingStartTagChars := 0;
     thinkingLength := 0; overflowWarned := false |}.

Definition item (t : ItemType) (s : jsstring) : list Item :=
  match s with [] => [] | _ => [{| type := t; i_content := s |}] end.

(** How an iteration of the [while] loop ends. *)
Inductive Flow := Break | Continue.

(** The body of the loop outside a thinking block. *)
Definition outsideBlock (p : Parser) : list Item * Parser * Flow :=
  let b := buffer p in
  match findRealThinkingStartTag b with
  | None =>
      let pending := pendingTagSuffix b THINKING_START_TAG in
      if Nat.eqb pending (length b) && Nat.ltb 0 pending then
        ([], {| buffer := []; inThinkBlock := true;
                pendingStartTagChars := length THINKING_START_TAG - pending;
                thinkingLength := 0; overflowWarned := overflowWarned p |}, Break)
      else
        let emitLen := (length b - pending)%nat in
        if Nat.eqb emitLen 0 then ([], p, Break)
        else
          ([{| type := text; i_content := firstn emitLen b |}],
           {| buffer := skipn emitLen b; inThinkBlock := false;
              pendingStartTagChars := pendingStartTagChars p;
              thinkingLength := thinkingLength p; overflowWarned := overflowWarned p |},
           Continue)
  | Some start =>
      let before := firstn start b in
      ((if Js.truthy (Js.trim before) then [{| type := text; i_content := before |}] else []),
       {| buffer := skipn (start + length THINKING_START_TAG) b; inThinkBlock := true;
          pendingStartTagChars := pendingStartTagChars p;
          thinkingLength := 0; overflowWarned := overflowWarned p |},
       Continue)
  end.

(** The body of the loop inside a thinking block, after the overflow and
    fast-path checks. *)
Definition scanForEnd (p : Parser) : list Item * Parser * Flow :=
  let b := buffer p in
  match findRealThinkingEndTag b with
  | None =>
      let pending := Nat.max (pendingTagSuffix b THINKING_END_TAG)
                             (pendingTagSuffix b THINKING_END_WITH_NL) in
      let emitLen := (length b - pending)%nat in
      if Nat.eqb emitLen 0 then ([], p, Break)
      else
        (item thinking (firstn emitLen b),
         {| buffer := skipn emitLen b; inThinkBlock := true;
            pendingStartTagChars := pendingStartTagChars p;
            thinkingLength := thinkingLength p + Z.of_nat emitLen;
            overflowWarned := overflowWarned p |},
         Continue)
  | Some e =>
      (item thinking (firstn e b),
       {| buffer := skipn (e + length THINKING_END_TAG) b; inThinkBlock := false;
          pendingStartTagChars := pendingStartTagChars p;
          thinkingLength := 0; overflowWarned := false |},
       Continue)
  end.

Definition insideBlock (p : Parser) : list Item * Parser * Flow :=
  let b := buffer p in
  if MAX_THINKING_CHARS <? thinkingLength p then
    (item thinking b,
     {| buffer := []; inThinkBlock := false; pendingStartTagChars := pendingStartTagChars p;
        thinkingLength := 0; overflowWarned := true |},
     Continue)
  else
    let safeLen := (length b - (length THINKING_END_TAG + 2))%nat in
    if Nat.ltb SAFE_THRESHOLD (length b)
       && match lastIndexOf (js "</") b safeLen with None => true | Some _ => false end
       && Nat.ltb 0 safeLen
    then
      ([{| type := thinking; i_content := firstn safeLen b |}],
       {| buffer := skipn safeLen b; inThinkBlock := true;
          pendingStartTagChars := pendingStartTagChars p;
          thinkingLength := thinkingLength p + Z.of_nat safeLen;
          overflowWarned := overflowWarned p |},
       Continue)
    else scanForEnd p.

(** One iteration of [while (this.buffer.length > 0)]. *)
Definition iteration (p : Parser) : list Item * Parser * Flow :=
  let skipPending :=
    if Nat.ltb 0 (pendingStartTagChars p) then
      if Nat.ltb (length (buffer p)) (pendingStartTagChars p) then
        inl {| buffer := []; inThinkBlock := inThinkBlock p;
               pendingStartTagChars := pendingStartTagChars p - length (buffer p);
               thinkingLength := thinkingLength p; overflowWarned := overflowWarned p |}
      else
        let p' := {| buffer := skipn (pendingStartTagChars p) (buffer p);
                     inThinkBlock := inThinkBlock p; pendingStartTagChars := 0;
                     thinkingLength := thinkingLength p;
                     overflowWarned := overflowWarned p |} in
        match buffer p' with [] => inl p' | _ => inr p' end
    else inr p in
  match skipPending with
  | inl stopped => ([], stopped, Break)
  | inr p' => if inThinkBlock p' then insideBlock p' else outsideBlock p'
  end.

(** The loop; every iteration that continues shortens the buffer, so
    [fuel] above the buffer length is never used up. *)
Fixpoint loop (fuel : nat) (p : Parser) : list Item * Parser :=
  match fuel with
  | O => ([], p)
  | S f =>
      match buffer p with
      | [] => ([], p)
      | _ =>
          let '(items, p', flow) := iteration p in
          match flow with
          | Break => (items, p')
          | Continue => let '(more, p'') := loop f p' in (items ++ more, p'')
          end
      end
  end.

Definition withBuffer (p : Parser) (b : jsstring) : Parser :=
  {| buffer := b; inThinkBlock := inThinkBlock p;
     pendingStartTagChars := pendingStartTagChars p;
     thinkingLength := thinkingLength p; overflowWarned := overflowWarned p |}.

(** [process(text)] *)
Definition process (chunk : jsstring) (p : Parser) : list Item * Parser :=
  let p0 := withBuffer p (buffer p ++ chunk) in
  loop (S (length (buffer p0))) p0.

(** [finish()] *)
Definition finish (p : Parser) : list Item * Parser :=
  let results :=
    match buffer p with
    | [] => []
    | b =>
        if inThinkBlock p then
          match findRealThinkingEndTagAtBufferEnd b with
          | Some e =>
              item thinking (firstn e b)
                ++ item text (Js.trim (skipn (e + length THINKING_END_TAG) b))
          | None => [{| type := thinking; i_content := b |}]
          end
        else [{| type := text; i_content := b |}]
    end in
  (results,
   {| buffer := []; inThinkBlock := false; pendingStartTagChars := pendingStartTagChars p;
      thinkingLength := 0; overflowWarned := false |}).

(** Feeding chunks in order, then [finish()]: everything emitted. *)
Fixpoint feed (chunks : list jsstring) (p : Parser) : list Item * Parser :=
  match chunks with
  | [] => ([], p)
  | c :: r =>
      let '(items, p1) := process c p in
      let '(more, p2) := feed r p1 in
      (items ++ more, p2)
  end.

Definition run (chunks : list jsstring) : list Item :=
  let '(items, p) := feed chunks fresh in
  items ++ fst (finish p).

Definition isThinking (i : Item) : bool :=
  match type i with thinking => true | text => false end.

(** The concatenated thinking output and the concatenated text output. *)
Definition thinkingOf (items : list Item) : jsstring :=
  concat (map i_content (List.filter isThinking items)).

Definition textOf (items : list Item) : jsstring :=
  concat (map i_content (List.filter (fun i => negb (isThinking i)) items)).

(** Scenario S2 of the specification. *)
Example scenario_S2 :
  let items := run [js "<think"; js "ing>secret</think"; js "ing>" ++ [10; 10]%N ++ js "answer"] in
  thinkingOf items = js "secret" /\ textOf items = [10; 10]%N ++ js "answer".
Proof. vm_compute. split; reflexivity. Qed.

(** *** The loop terminates within its fuel *)

Lemma skipn_shorter {A} (m : nat) (b : list A) :
  (0 < m)%nat -> b <> [] -> (length (skipn m b) < length b)%nat.
Proof.
  intros Hm Hb. rewrite length_skipn. destruct b; [congruence|]. cbn [length]. lia.
Qed.

Lemma outsideBlock_shrinks p items p' :
  buffer p <> [] -> outsideBlock p = (items, p', Continue) ->
  (length (buffer p') < length (buffer p))%nat.
Proof.
  intros Hb. unfold outsideBlock.
  destruct (findRealThinkingStartTag (buffer p)) as [start|].
  - intros [= _ <-]. cbn [buffer]. apply skipn_shorter; [cbn; lia | exact Hb].
  - destruct (_ && _); [discriminate|].
    destruct (Nat.eqb_spec (length (buffer p) - pendingTagSuffix (buffer p) THINKING_START_TAG) 0);
      [discriminate|].
    intros [= _ <-]. cbn [buffer]. apply skipn_shorter; [lia | exact Hb].
Qed.

Lemma scanForEnd_shrinks p items p' :
  buffer p <> [] -> scanForEnd p = (items, p', Continue) ->
  (length (buffer p') < length (buffer p))%nat.
Proof.
  intros Hb. unfold scanForEnd.
  destruct (findRealThinkingEndTag (buffer p)) as [e|].
  - intros [= _ <-]. cbn [buffer]. apply skipn_shorter; [cbn; lia | exact Hb].
  - match goal with |- context [Nat.eqb ?n 0] => destruct (Nat.eqb_spec n 0) end;
      [discriminate|].
    intros [= _ <-]. cbn [buffer]. apply skipn_shorter; [lia | exact Hb].
Qed.

Lemma insideBlock_shrinks p items p' :
  buffer p <> [] -> insideBlock p = (items, p', Continue) ->
  (length (buffer p') < length (buffer p))%nat.
Proof.
  intros Hb. unfold insideBlock.
  destruct (MAX_THINKING_CHARS <? thinkingLength p).
  - intros [= _ <-]. cbn [buffer length]. destruct (buffer p); [congruence | cbn; lia].
  - destruct (_ && _ && _) eqn:E.
    + intros [= _ <-]. cbn [buffer]. apply andb_true_iff in E. destruct E as [_ E].
      apply Nat.ltb_lt in E. apply skipn_shorter; [exact E | exact Hb].
    + apply scanForEnd_shrinks, Hb.
Qed.

Lemma iteration_shrinks p items p' :
  buffer p <> [] -> iteration p = (items, p', Continue) ->
  (length (buffer p') < length (buffer p))%nat.
Proof.
  intros Hb. unfold iteration.
  destruct (Nat.ltb 0 (pendingStartTagChars p)).
  - destruct (Nat.ltb (length (buffer p)) (pendingStartTagChars p)); [discriminate|].
    cbn [buffer].
    destruct (skipn (pendingStartTagChars p) (buffer p)) as [|c r] eqn:Hs; [discriminate|].
    set (q := {| buffer := c :: r; inThinkBlock := inThinkBlock p; pendingStartTagChars := 0;
                 thinkingLength := thinkingLength p; overflowWarned := overflowWarned p |}).
    assert (Hq : (length (buffer q) <= length (buffer p))%nat).
    { cbn [q buffer]. rewrite <- Hs, length_skipn. lia. }
    assert (Hqb : buffer q <> []) by discriminate.
    cbn [inThinkBlock q].
    destruct (inThinkBlock p); intros H;
      [apply insideBlock_shrinks in H | apply outsideBlock_shrinks in H]; try exact Hqb; lia.
  - destruct (inThinkBlock p); [apply insideBlock_shrinks | apply outsideBlock_shrinks]; exact Hb.
Qed.

(** Any fuel above the buffer length gives the same result. *)
Lemma loop_fuel (f1 : nat) :
  forall f2 p, (length (buffer p) < f1)%nat -> (length (buffer p) < f2)%nat ->
               loop f1 p = loop f2 p.
Proof.
  induction f1 as [|f1 IH]; intros f2 p H1 H2; [lia|].
  destruct f2 as [|f2]; [lia|]. cbn [loop].
  destruct (buffer p) as [|c r] eqn:Hb; [reflexivity|].
  destruct (iteration p) as [[items p'] flow] eqn:Hit.
  destruct flow; [reflexivity|].
  assert (Hlt : (length (buffer p') < length (buffer p))%nat).
  { apply (iteration_shrinks p items p'); [rewrite Hb; discriminate | exact Hit]. }
  rewrite Hb in Hlt. cbn [length] in *.
  rewrite (IH f2 p'); [reflexivity | lia | lia].
Qed.

(** [process] never runs out of fuel: more fuel gives the same result. *)
Lemma process_fuel (chunk : jsstring) (p : Parser) (fuel : nat) :
  (length (buffer p ++ chunk) < fuel)%nat ->
  loop fuel (withBuffer p (buffer p ++ chunk)) = process chunk p.
Proof.
  intros H. unfold process. apply loop_fuel; cbn [withBuffer buffer]; lia.
Qed.

(** *** Text without the character [<] *)

Definition noTagStart (s : jsstring) : Prop := Forall (fun c => c <> 60%N) s.

Lemma startsWith_tag_head tagTail c r :
  c <> 60%N -> Js.startsWith (60%N :: tagTail) (c :: r) = false.
Proof.
  intros Hc. cbn [Js.startsWith].
  rewrite (proj2 (N.eqb_neq 60 c)); [reflexivity | congruence].
Qed.

Lemma startTagFrom_noTagStart s :
  noTagStart s -> forall prev pos, startTagFrom s prev pos = None.
Proof.
  induction 1 as [|c r Hc Hr IH]; intros prev pos; cbn [startTagFrom].
  - reflexivity.
  - change THINKING_START_TAG with (60%N :: js "thinking>").
    rewrite (startsWith_tag_head _ c r Hc). cbn [andb]. apply IH.
Qed.

Lemma pendingFrom_noTagStart tagTail b :
  noTagStart b ->
  forall n, (n <= length b)%nat -> pendingFrom n b (60%N :: tagTail) = 0%nat.
Proof.
  intros Hb n. induction n as [|k IH]; intros Hn; [reflexivity|].
  cbn [pendingFrom firstn].
  destruct (skipn (length b - S k) b) as [|x xs] eqn:Hs.
  - apply (f_equal (@length _)) in Hs. rewrite length_skipn in Hs. cbn in Hs. lia.
  - assert (Hx : In x b).
    { rewrite <- (firstn_skipn (length b - S k) b), Hs.
      apply in_or_app. right. left. reflexivity. }
    unfold noTagStart in Hb. rewrite List.Forall_forall in Hb. specialize (Hb x Hx).
    unfold Js.eqb. rewrite bool_decide_eq_false_2; [apply IH; lia|].
    intros [= -> _]. congruence.
Qed.

Lemma pendingTagSuffix_noTagStart b :
  noTagStart b -> pendingTagSuffix b THINKING_START_TAG = 0%nat.
Proof.
  intros Hb. unfold pendingTagSuffix.
  change THINKING_START_TAG with (60%N :: js "thinking>").
  apply pendingFrom_noTagStart; [exact Hb | lia].
Qed.

(** A parser that holds nothing back and is outside a thinking block. *)
Definition idle (p : Parser) : Prop :=
  buffer p = [] /\ inThinkBlock p = false /\ pendingStartTagChars p = 0%nat.

Lemma outsideBlock_noTagStart b tl ow :
  b <> [] -> noTagStart b ->
  outsideBlock {| buffer := b; inThinkBlock := false; pendingStartTagChars := 0;
                  thinkingLength := tl; overflowWarned := ow |}
  = ([{| type := text; i_content := b |}],
     {| buffer := []; inThinkBlock := false; pendingStartTagChars := 0;
        thinkingLength := tl; overflowWarned := ow |}, Continue).
Proof.
  intros Hne Hb. unfold outsideBlock. cbn [buffer pendingStartTagChars thinkingLength overflowWarned].
  unfold findRealThinkingStartTag. rewrite (startTagFrom_noTagStart _ Hb).
  rewrite (pendingTagSuffix_noTagStart _ Hb).
  assert (Hl : Nat.eqb (length b) 0 = false).
  { apply Nat.eqb_neq. destruct b; [congruence | cbn; lia]. }
  rewrite Nat.eqb_sym, Hl. cbn [andb]. rewrite !Nat.sub_0_r, Hl.
  rewrite firstn_all, skipn_all. reflexivity.
Qed.

Lemma process_noTagStart chunk p :
  idle p -> noTagStart chunk -> process chunk p = (item text chunk, p).
Proof.
  intros (Hb & Hi & Hp) Hc. destruct p as [b i n tl ow]. cbn in Hb, Hi, Hp. subst.
  unfold process, withBuffer.
  cbn [buffer app inThinkBlock pendingStartTagChars thinkingLength overflowWarned].
  destruct chunk as [|c r]; [reflexivity|].
  change (loop (S ?f) ?q) with
    (match buffer q with
     | [] => ([], q)
     | _ => let '(items, p', flow) := iteration q in
            match flow with
            | Break => (items, p')
            | Continue => let '(more, p'') := loop f p' in (items ++ more, p'')
            end
     end).
  cbn [buffer]. unfold iteration. cbn [pendingStartTagChars inThinkBlock Nat.ltb Nat.leb].
  rewrite outsideBlock_noTagStart; [|discriminate | exact Hc].
  cbn [length loop buffer item app]. reflexivity.
Qed.

Lemma feed_noTagStart chunks :
  forall p, idle p -> noTagStart (concat chunks) ->
            feed chunks p = (concat (map (item text) chunks), p).
Proof.
  induction chunks as [|c r IH]; intros p Hp Hc; [reflexivity|].
  cbn [concat] in Hc. apply Forall_app in Hc. destruct Hc as [Hc Hr].
  cbn [feed]. rewrite (process_noTagStart c p Hp Hc), (IH p Hp Hr). reflexivity.
Qed.

Lemma textOf_items chunks : textOf (concat (map (item text) chunks)) = concat chunks.
Proof.
  unfold textOf. induction chunks as [|c r IH]; [reflexivity|].
  cbn [map concat]. rewrite List.filter_app, map_app, concat_app, IH.
  destruct c; [reflexivity|]. cbn. try rewrite app_nil_r. reflexivity.
Qed.

Lemma thinkingOf_items chunks : thinkingOf (concat (map (item text) chunks)) = [].
Proof.
  unfold thinkingOf. induction chunks as [|c r IH]; [reflexivity|].
  cbn [map concat]. rewrite List.filter_app, map_app, concat_app, IH.
  destruct c; [reflexivity|]. cbn. try rewrite app_nil_r. reflexivity.
Qed.

Lemma run_noTagStart chunks :
  noTagStart (concat chunks) ->
  thinkingOf (run chunks) = [] /\ textOf (run chunks) = concat chunks.
Proof.
  intros Hc. unfold run.
  rewrite (feed_noTagStart chunks fresh); [|repeat split | exact Hc].
  cbn [finish fresh buffer fst]. rewrite app_nil_r.
  split; [apply thinkingOf_items | apply textOf_items].
Qed.

(** The property claimed for the parser: splitting the input into chunks
    changes neither the thinking output nor the text output. *)
Definition chunkingInvariant (chunks : list jsstring) : Prop :=
  thinkingOf (run chunks) = thinkingOf (run [concat chunks])
  /\ textOf (run chunks) = textOf (run [concat chunks]).

(** Where no chunk can end inside a tag the property holds: on an input
    without the character [<], however it is split, the text output is the
    input and the thinking output is empty. *)
Theorem chunking_invariant_without_tag_start (chunks : list jsstring) :
  noTagStart (concat chunks) ->
  chunkingInvariant chunks
  /\ textOf (run chunks) = concat chunks
  /\ thinkingOf (run chunks) = [].
Proof.
  intros Hc. destruct (run_noTagStart chunks Hc) as [Ht Hx].
  assert (Hw : noTagStart (concat [concat chunks])).
  { cbn [concat]. rewrite app_nil_r. exact Hc. }
  destruct (run_noTagStart [concat chunks] Hw) as [Ht' Hx'].
  cbn [concat] in Hx'. rewrite app_nil_r in Hx'.
  unfold chunkingInvariant. rewrite Ht, Ht', Hx, Hx'. repeat split; reflexivity.
Qed.

Lemma chunking_invariant_without_tag_start_witness :
  chunkingInvariant [js "hel"; js "lo wor"; []; js "ld"]
  /\ textOf (run [js "hel"; js "lo wor"; []; js "ld"]) = js "hello world".
Proof.
  destruct (chunking_invariant_without_tag_start [js "hel"; js "lo wor"; []; js "ld"])
    as (H1 & H2 & _).
  - repeat constructor; discriminate.
  - split; [exact H1 | exact H2].
Defined.

(** C3 fails on the code, at the input [<b>hello] split after its first
    character.  The claim (and the pending-suffix rule it cites) has the
    parser hold a chunk that is a prefix of the start tag until the next
    chunk shows what follows.  [process] instead enters a thinking block at
    once and skips the characters that would complete the tag without
    comparing them: fed whole, [<b>hello] is emitted as text; split after
    [<], it produces no output at all. *)
Lemma chunk_boundary_swallows_text :
  concat [js "<"; js "b>hello"] = js "<b>hello"
  /\ textOf (run [js "<b>hello"]) = js "<b>hello"
  /\ textOf (run [js "<"; js "b>hello"]) = []
  /\ ~ chunkingInvariant [js "<"; js "b>hello"].
Proof.
  split; [reflexivity|]. split; [vm_compute; reflexivity|]. split; [vm_compute; reflexivity|].
  intros [_ H]. vm_compute in H. discriminate H.
Qed.

(** Two more ways a chunk boundary changes the output: a quote character
    before the tag is forgotten, and whitespace before the tag is dropped
    only when it arrives in the same chunk. *)
Example chunk_boundary_forgets_quote :
  thinkingOf (run [js "`<thinking>x"]) = []
  /\ thinkingOf (run [js "`"; js "<thinking>x"]) = js "x".
Proof. vm_compute. split; reflexivity. Qed.

Example chunk_boundary_keeps_blank :
  textOf (run [js " <thinking>x"]) = []
  /\ textOf (run [js " "; js "<thinking>x"]) = js " ".
Proof. vm_compute. split; reflexivity. Qed.

End ThinkingParser.

(* ===================================================================== *)
(** ** Anthropic SSE encoder (stream) and its driver (main) *)
(* ===================================================================== *)

Module Sse.

(** *** [SSEStateManager] *)

Inductive SSEState := initial | message_started | content_block | message_ended.

Record SSEStateManager := {
  state : SSEState;
  contentBlockOpen : bool;
  contentBlockIdx : Z
}.

Definition newStateManager : SSEStateManager :=
  {| state := initial; contentBlockOpen := false; contentBlockIdx := -1 |}.

Definition canSendMessageStart (m : SSEStateManager) : bool :=
  match state m with initial => true | _ => false end.

Definition onMessageStart (m : SSEStateManager) : SSEStateManager :=
  {| state := message_started; contentBlockOpen := contentBlockOpen m;
     contentBlockIdx := contentBlockIdx m |}.
Definition onContentBlockStart (m : SSEStateManager) : SSEStateManager :=
  {| state := state m; contentBlockOpen := true; contentBlockIdx := contentBlockIdx m + 1 |}.
Definition onContentBlockStop (m : SSEStateManager) : SSEStateManager :=
  {| state := state m; contentBlockOpen := false; contentBlockIdx := contentBlockIdx m |}.
Definition onMessageStop (m : SSEStateManager) : SSEStateManager :=
  {| state := message_ended; contentBlockOpen := contentBlockOpen m;
     contentBlockIdx := contentBlockIdx m |}.

(** *** The events of [claudeSSE]

    An event is kept as the object that [sseFormat] serialises; the fields
    with a constant value are left out. *)

Inductive BlockType := text | thinking | tool_use.
Inductive DeltaType := text_delta | thinking_delta | input_json_delta.

Inductive Event :=
| message_start (id model : jsstring) (input_tokens : Z)
                (cache_read_input_tokens cache_creation_input_tokens : option Z)
| content_block_start (index : Z) (blockType : BlockType) (id name : option jsstring)
| content_block_delta (index : Z) (deltaType : DeltaType) (content : jsstring)
| content_block_stop (index : Z)
| message_delta (stop_reason : jsstring) (output_tokens : Z) (input_tokens : option Z)
                (cache_read_input_tokens cache_creation_input_tokens : option Z)
| message_stop
| error (message : jsstring).

(** [if (n && n > 0) usage.field = n] *)
Definition whenPositive (n : option Z) : option Z :=
  match n with
  | Some v => if 0 <? v then Some v else None
  | None => None
  end.

Definition MAX_RESPONSE_BUFFER_CHARS : Z := 2 * 1024 * 1024.
Definition MAX_TOOL_INPUT_BUFFER_CHARS : Z := 1024 * 1024.

(** *** [ClaudeStreamHandler] *)

Record ClaudeStreamHandlerOptions := {
  model : jsstring;
  inputTokens : Z;
  messageId : jsstring;
  enableThinkingParsing : bool;
  cacheReadTokens : option Z;
  cacheWriteTokens : option Z
}.

Record ToolUseBuffer := {
  tu_id : jsstring;
  tu_name : jsstring;
  inputBuffer : list jsstring;
  inputBufferSize : Z
}.

Record Handler := {
  stateManager : SSEStateManager;
  thinkingParser : ThinkingParser.Parser;
  responseBuffer : list jsstring;
  thinkingBuffer : list jsstring;
  outputTokens : Z;
  responseBufferSize : Z;
  thinkingBufferSize : Z;
  bufferOverflowWarned : bool;
  currentBlockType : option BlockType;
  contentBlockIndex : Z;
  contentBlockStartSent : bool;
  currentToolUse : option ToolUseBuffer;
  processedToolUseIds : gset jsstring;
  toolCalls : list KiroApi.KiroToolUse;
  responseEnded : bool;
  stopReasonOverride : option jsstring
}.

Definition newHandler : Handler :=
  {| stateManager := newStateManager; thinkingParser := ThinkingParser.fresh;
     responseBuffer := []; thinkingBuffer := []; outputTokens := 0;
     responseBufferSize := 0; thinkingBufferSize := 0; bufferOverflowWarned := false;
     currentBlockType := None; contentBlockIndex := -1; contentBlockStartSent := false;
     currentToolUse := None; processedToolUseIds := ∅; toolCalls := [];
     responseEnded := false; stopReasonOverride := None |}.

(** A method of the handler: the events it passes to [onWrite], in order,
    and the handler afterwards. *)
Definition Action : Type := Handler -> list Event * Handler.

Definition skip : Action := fun h => ([], h).
Definition onWrite (e : Event) : Action := fun h => ([e], h).
Definition andThen (a b : Action) : Action := fun h =>
  let '(written, h1) := a h in
  let '(more, h2) := b h1 in
  (written ++ more, h2).

Declare Scope action_scope.
Delimit Scope action_scope with action.
Bind Scope action_scope with Action.
Notation "a ;; b" := (andThen a b)
  (at level 100, b at level 200, right associativity) : action_scope.
Local Open Scope action_scope.

(** Assignments to one field of the handler. *)
Definition set_stateManager (v : SSEStateManager) : Action := fun h =>
  ([],
    {| stateManager := v; thinkingParser := thinkingParser h;
       responseBuffer := responseBuffer h; thinkingBuffer := thinkingBuffer h;
       outputTokens := outputTokens h; responseBufferSize := responseBufferSize h;
       thinkingBufferSize := thinkingBufferSize h;
       bufferOverflowWarned := bufferOverflowWarned h;
       currentBlockType := currentBlockType h; contentBlockIndex := contentBlockIndex h;
       contentBlockStartSent := contentBlockStartSent h; currentToolUse := currentToolUse h;
       processedToolUseIds := processedToolUseIds h; toolCalls := toolCalls h;
       responseEnded := responseEnded h; stopReasonOverride := stopReasonOverride h |}).
Definition set_thinkingParser (v : ThinkingParser.Parser) : Action := fun h =>
  ([],
    {| stateManager := stateManager h; thinkingParser := v;
       responseBuffer := responseBuffer h; thinkingBuffer := thinkingBuffer h;
       outputTokens := outputTokens h; responseBufferSize := responseBufferSize h;
       thinkingBufferSize := thinkingBufferSize h;
       bufferOverflowWarned := bufferOverflowWarned h;
       currentBlockType := currentBlockType h; contentBlockIndex := contentBlockIndex h;
       contentBlockStartSent := contentBlockStartSent h; currentToolUse := currentToolUse h;
       processedToolUseIds := processedToolUseIds h; toolCalls := toolCalls h;
       responseEnded := responseEnded h; stopReasonOverride := stopReasonOverride h |}).
Definition set_responseBuffer (v : list jsstring) : Action := fun h =>
  ([],
    {| stateManager := stateManager h; thinkingParser := thinkingParser h;
       responseBuffer := v; thinkingBuffer := thinkingBuffer h;
       outputTokens := outputTokens h; responseBufferSize := responseBufferSize h;
       thinkingBufferSize := thinkingBufferSize h;
       bufferOverflowWarned := bufferOverflowWarned h;
       currentBlockType := currentBlockType h; contentBlockIndex := contentBlockIndex h;
       contentBlockStartSent := contentBlockStartSent h; currentToolUse := currentToolUse h;
       processedToolUseIds := processedToolUseIds h; toolCalls := toolCalls h;
       responseEnded := responseEnded h; stopReasonOverride := stopReasonOverride h |}).
Definition set_thinkingBuffer (v : list jsstring) : Action := fun h =>
  ([],
    {| stateManager := stateManager h; thinkingParser := thinkingParser h;
       responseBuffer := responseBuffer h; thinkingBuffer := v;
       outputTokens := outputTokens h; responseBufferSize := responseBufferSize h;
       thinkingBufferSize := thinkingBufferSize h;
       bufferOverflowWarned := bufferOverflowWarned h;
       currentBlockType := currentBlockType h; contentBlockIndex := contentBlockIndex h;
       contentBlockStartSent := contentBlockStartSent h; currentToolUse := currentToolUse h;
       processedToolUseIds := processedToolUseIds h; toolCalls := toolCalls h;
       responseEnded := responseEnded h; stopReasonOverride := stopReasonOverride h |}).
Definition set_outputTokens (v : Z) : Action := fun h =>
  ([],
    {| stateManager := stateManager h; thinkingParser := thinkingParser h;
       responseBuffer := responseBuffer h; thinkingBuffer := thinkingBuffer h;
       outputTokens := v; responseBufferSize := responseBufferSize h;
       thinkingBufferSize := thinkingBufferSize h;
       bufferOverflowWarned := bufferOverflowWarned h;
       currentBlockType := currentBlockType h; contentBlockIndex := contentBlockIndex h;
       contentBlockStartSent := contentBlockStartSent h; currentToolUse := currentToolUse h;
       processedToolUseIds := processedToolUseIds h; toolCalls := toolCalls h;
       responseEnded := responseEnded h; stopReasonOverride := stopReasonOverride h |}).
Definition set_responseBufferSize (v : Z) : Action := fun h =>
  ([],
    {| stateManager := stateManager h; thinkingParser := thinkingParser h;
       responseBuffer := responseBuffer h; thinkingBuffer := thinkingBuffer h;
       outputTokens := outputTokens h; responseBufferSize := v;
       thinkingBufferSize := thinkingBufferSize h;
       bufferOverflowWarned := bufferOverflowWarned h;
       currentBlockType := currentBlockType h; contentBlockIndex := contentBlockIndex h;
       contentBlockStartSent := contentBlockStartSent h; currentToolUse := currentToolUse h;
       processedToolUseIds := processedToolUseIds h; toolCalls := toolCalls h;
       responseEnded := responseEnded h; stopReasonOverride := stopReasonOverride h |}).
Definition set_thinkingBufferSize (v : Z) : Action := fun h =>
  ([],
    {| stateManager := stateManager h; thinkingParser := thinkingParser h;
       responseBuffer := responseBuffer h; thinkingBuffer := thinkingBuffer h;
       outputTokens := outputTokens h; responseBufferSize := responseBufferSize h;
       thinkingBufferSize := v; bufferOverflowWarned := bufferOverflowWarned h;
       currentBlockType := currentBlockType h; contentBlockIndex := contentBlockIndex h;
       contentBlockStartSent := contentBlockStartSent h; currentToolUse := currentToolUse h;
       processedToolUseIds := processedToolUseIds h; toolCalls := toolCalls h;
       responseEnded := responseEnded h; stopReasonOverride := stopReasonOverride h |}).
Definition set_bufferOverflowWarned (v : bool) : Action := fun h =>
  ([],
    {| stateManager := stateManager h; thinkingParser := thinkingParser h;
       responseBuffer := responseBuffer h; thinkingBuffer := thinkingBuffer h;
       outputTokens := outputTokens h; responseBufferSize := responseBufferSize h;
       thinkingBufferSize := thinkingBufferSize h; bufferOverflowWarned := v;
       currentBlockType := currentBlockType h; contentBlockIndex := contentBlockIndex h;
       contentBlockStartSent := contentBlockStartSent h; currentToolUse := currentToolUse h;
       processedToolUseIds := processedToolUseIds h; toolCalls := toolCalls h;
       responseEnded := responseEnded h; stopReasonOverride := stopReasonOverride h |}).
Definition set_currentBlockType (v : option BlockType) : Action := fun h =>
  ([],
    {| stateManager := stateManager h; thinkingParser := thinkingParser h;
       responseBuffer := responseBuffer h; thinkingBuffer := thinkingBuffer h;
       outputTokens := outputTokens h; responseBufferSize := responseBufferSize h;
       thinkingBufferSize := thinkingBufferSize h;
       bufferOverflowWarned := bufferOverflowWarned h; currentBlockType := v;
       contentBlockIndex := contentBlockIndex h;
       contentBlockStartSent := contentBlockStartSent h; currentToolUse := currentToolUse h;
       processedToolUseIds := processedToolUseIds h; toolCalls := toolCalls h;
       responseEnded := responseEnded h; stopReasonOverride := stopReasonOverride h |}).
Definition set_contentBlockIndex (v : Z) : Action := fun h =>
  ([],
    {| stateManager := stateManager h; thinkingParser := thinkingParser h;
       responseBuffer := responseBuffer h; thinkingBuffer := thinkingBuffer h;
       outputTokens := outputTokens h; responseBufferSize := responseBufferSize h;
       thinkingBufferSize := thinkingBufferSize h;
       bufferOverflowWarned := bufferOverflowWarned h;
       currentBlockType := currentBlockType h; contentBlockIndex := v;
       contentBlockStartSent := contentBlockStartSent h; currentToolUse := currentToolUse h;
       processedToolUseIds := processedToolUseIds h; toolCalls := toolCalls h;
       responseEnded := responseEnded h; stopReasonOverride := stopReasonOverride h |}).
Definition set_contentBlockStartSent (v : bool) : Action := fun h =>
  ([],
    {| stateManager := stateManager h; thinkingParser := thinkingParser h;
       responseBuffer := responseBuffer h; thinkingBuffer := thinkingBuffer h;
       outputTokens := outputTokens h; responseBufferSize := responseBufferSize h;
       thinkingBufferSize := thinkingBufferSize h;
       bufferOverflowWarned := bufferOverflowWarned h;
       currentBlockType := currentBlockType h; contentBlockIndex := contentBlockIndex h;
       contentBlockStartSent := v; currentToolUse := currentToolUse h;
       processedToolUseIds := processedToolUseIds h; toolCalls := toolCalls h;
       responseEnded := responseEnded h; stopReasonOverride := stopReasonOverride h |}).
Definition set_currentToolUse (v : option ToolUseBuffer) : Action := fun h =>
  ([],
    {| stateManager := stateManager h; thinkingParser := thinkingParser h;
       responseBuffer := responseBuffer h; thinkingBuffer := thinkingBuffer h;
       outputTokens := outputTokens h; responseBufferSize := responseBufferSize h;
       thinkingBufferSize := thinkingBufferSize h;
       bufferOverflowWarned := bufferOverflowWarned h;
       currentBlockType := currentBlockType h; contentBlockIndex := contentBlockIndex h;
       contentBlockStartSent := contentBlockStartSent h; currentToolUse := v;
       processedToolUseIds := processedToolUseIds h; toolCalls := toolCalls h;
       responseEnded := responseEnded h; stopReasonOverride := stopReasonOverride h |}).
Definition set_processedToolUseIds (v : gset jsstring) : Action := fun h =>
  ([],
    {| stateManager := stateManager h; thinkingParser := thinkingParser h;
       responseBuffer := responseBuffer h; thinkingBuffer := thinkingBuffer h;
       outputTokens := outputTokens h; responseBufferSize := responseBufferSize h;
       thinkingBufferSize := thinkingBufferSize h;
       bufferOverflowWarned := bufferOverflowWarned h;
       currentBlockType := currentBlockType h; contentBlockIndex := contentBlockIndex h;
       contentBlockStartSent := contentBlockStartSent h; currentToolUse := currentToolUse h;
       processedToolUseIds := v; toolCalls := toolCalls h; responseEnded := responseEnded h;
       stopReasonOverride := stopReasonOverride h |}).
Definition set_toolCalls (v : list KiroApi.KiroToolUse) : Action := fun h =>
  ([],
    {| stateManager := stateManager h; thinkingParser := thinkingParser h;
       responseBuffer := responseBuffer h; thinkingBuffer := thinkingBuffer h;
       outputTokens := outputTokens h; responseBufferSize := responseBufferSize h;
       thinkingBufferSize := thinkingBufferSize h;
       bufferOverflowWarned := bufferOverflowWarned h;
       currentBlockType := currentBlockType h; contentBlockIndex := contentBlockIndex h;
       contentBlockStartSent := contentBlockStartSent h; currentToolUse := currentToolUse h;
       processedToolUseIds := processedToolUseIds h; toolCalls := v;
       responseEnded := responseEnded h; stopReasonOverride := stopReasonOverride h |}).
Definition set_responseEnded (v : bool) : Action := fun h =>
  ([],
    {| stateManager := stateManager h; thinkingParser := thinkingParser h;
       responseBuffer := responseBuffer h; thinkingBuffer := thinkingBuffer h;
       outputTokens := outputTokens h; responseBufferSize := responseBufferSize h;
       thinkingBufferSize := thinkingBufferSize h;
       bufferOverflowWarned := bufferOverflowWarned h;
       currentBlockType := currentBlockType h; contentBlockIndex := contentBlockIndex h;
       contentBlockStartSent := contentBlockStartSent h; currentToolUse := currentToolUse h;
       processedToolUseIds := processedToolUseIds h; toolCalls := toolCalls h;
       responseEnded := v; stopReasonOverride := stopReasonOverride h |}).
Definition set_stopReasonOverride (v : option jsstring) : Action := fun h =>
  ([],
    {| stateManager := stateManager h; thinkingParser := thinkingParser h;
       responseBuffer := responseBuffer h; thinkingBuffer := thinkingBuffer h;
       outputTokens := outputTokens h; responseBufferSize := responseBufferSize h;
       thinkingBufferSize := thinkingBufferSize h;
       bufferOverflowWarned := bufferOverflowWarned h;
       currentBlockType := currentBlockType h; contentBlockIndex := contentBlockIndex h;
       contentBlockStartSent := contentBlockStartSent h; currentToolUse := currentToolUse h;
       processedToolUseIds := processedToolUseIds h; toolCalls := toolCalls h;
       responseEnded := responseEnded h; stopReasonOverride := v |}).

Definition isBlock (blockType : BlockType) (h : Handler) : bool :=
  match currentBlockType h, blockType with
  | Some text, text | Some thinking, thinking | Some tool_use, tool_use => true
  | _, _ => false
  end.

(** [claudeSSE.contentBlockStart]: the identifier and the name are written
    for a [tool_use] block only. *)
Definition contentBlockStart (index : Z) (blockType : BlockType)
    (toolUseId toolName : option jsstring) : Event :=
  match blockType with
  | tool_use => content_block_start index blockType toolUseId toolName
  | _ => content_block_start index blockType None None
  end.

(** The [toolInput] argument of [handleToolUse]: a string, or a value that
    is passed to [JSON.stringify]. *)
Inductive ToolInput :=
| Fragment (s : jsstring)
| Value (v : Json.t).

(** The fragment of a [toolInput] that is neither [undefined] nor [null]. *)
Definition fragmentOf (toolInput : option ToolInput) : option jsstring :=
  match toolInput with
  | None | Some (Value Json.JNull) => None
  | Some (Fragment s) => Some s
  | Some (Value v) => Some (Json.stringify v)
  end.

Definition truthyId (s : option jsstring) : bool :=
  match s with Some v => Js.truthy v | None => false end.

Section WithOptions.

Variable options : ClaudeStreamHandlerOptions.

Definition sendMessageStart : Action := fun h =>
  if canSendMessageStart (stateManager h) then
    (onWrite (message_start (messageId options) (model options) (inputTokens options)
                (whenPositive (cacheReadTokens options))
                (whenPositive (cacheWriteTokens options))) ;;
     set_stateManager (onMessageStart (stateManager h))) h
  else skip h.

Definition startContentBlock (blockType : BlockType)
    (toolUseId toolName : option jsstring) : Action := fun h =>
  (set_contentBlockIndex (contentBlockIndex h + 1) ;;
   set_currentBlockType (Some blockType) ;;
   set_contentBlockStartSent true ;;
   set_stateManager (onContentBlockStart (stateManager h)) ;;
   onWrite (contentBlockStart (contentBlockIndex h + 1) blockType toolUseId toolName)) h.

Definition closeCurrentBlock : Action := fun h =>
  match currentBlockType h with
  | Some _ =>
      if contentBlockStartSent h then
        (onWrite (content_block_stop (contentBlockIndex h)) ;;
         set_stateManager (onContentBlockStop (stateManager h)) ;;
         set_currentBlockType None ;;
         set_contentBlockStartSent false) h
      else skip h
  | None => skip h
  end.

(** [if (this.currentBlockType !== blockType) { this.closeCurrentBlock();
    this.startContentBlock(blockType) }] *)
Definition ensureBlock (blockType : BlockType) : Action := fun h =>
  if isBlock blockType h then skip h
  else (closeCurrentBlock ;; startContentBlock blockType None None) h.

(** [this.onWrite(claudeSSE.contentBlockDelta(this.contentBlockIndex, ...))] *)
Definition writeDelta (deltaType : DeltaType) (content : jsstring) : Action := fun h =>
  onWrite (content_block_delta (contentBlockIndex h) deltaType content) h.

Definition emitThinking (content : jsstring) : Action := fun h =>
  if negb (Js.truthy content) then skip h
  else if MAX_RESPONSE_BUFFER_CHARS <? thinkingBufferSize h + Js.len content then
    (set_bufferOverflowWarned true ;;
     ensureBlock thinking ;;
     writeDelta thinking_delta content) h
  else
    (ensureBlock thinking ;;
     set_thinkingBuffer (thinkingBuffer h ++ [content]) ;;
     set_thinkingBufferSize (thinkingBufferSize h + Js.len content) ;;
     writeDelta thinking_delta content) h.

Definition emitText (content : jsstring) : Action := fun h =>
  if negb (Js.truthy content) then skip h
  else if MAX_RESPONSE_BUFFER_CHARS <? responseBufferSize h + Js.len content then
    (set_bufferOverflowWarned true ;;
     ensureBlock text ;;
     writeDelta text_delta content) h
  else
    (ensureBlock text ;;
     set_responseBuffer (responseBuffer h ++ [content]) ;;
     set_responseBufferSize (responseBufferSize h + Js.len content) ;;
     writeDelta text_delta content) h.

Definition emitItem (i : ThinkingParser.Item) : Action :=
  match ThinkingParser.type i with
  | ThinkingParser.thinking => emitThinking (ThinkingParser.i_content i)
  | ThinkingParser.text => emitText (ThinkingParser.i_content i)
  end.

Fixpoint emitItems (items : list ThinkingParser.Item) : Action :=
  match items with
  | [] => skip
  | i :: rest => emitItem i ;; emitItems rest
  end.

Definition handleContent (content : jsstring) : Action := fun h =>
  if responseEnded h || negb (Js.truthy content) then skip h
  else
    (set_outputTokens (outputTokens h + TokenCount.countTokens content) ;;
     if enableThinkingParsing options then
       let '(items, parser) := ThinkingParser.process content (thinkingParser h) in
       set_thinkingParser parser ;; emitItems items
     else emitText content) h.

(** The local function [safeAdd] of [handleToolUse]. *)
Definition safeAdd (fragment : jsstring) : Action := fun h =>
  match currentToolUse h with
  | None => skip h
  | Some t =>
      if MAX_TOOL_INPUT_BUFFER_CHARS <? inputBufferSize t + Js.len fragment then
        writeDelta input_json_delta fragment h
      else
        (set_currentToolUse
           (Some {| tu_id := tu_id t; tu_name := tu_name t;
                    inputBuffer := inputBuffer t ++ [fragment];
                    inputBufferSize := inputBufferSize t + Js.len fragment |}) ;;
         writeDelta input_json_delta fragment) h
  end.

(** [if (toolInput !== undefined && toolInput !== null) { const frag = ...;
    if (frag) safeAdd(frag) }] *)
Definition addInput (toolInput : option ToolInput) : Action :=
  match fragmentOf toolInput with
  | Some frag => if Js.truthy frag then safeAdd frag else skip
  | None => skip
  end.

Definition parseFailure (fullInput : jsstring) : Json.t :=
  Json.JObject [(js "_error", Json.JString (js "Failed to parse tool input"));
                (js "_raw", Json.JString (firstn 500 fullInput))].

Definition finishToolUse : Action := fun h =>
  match currentToolUse h with
  | None => skip h
  | Some t =>
      let fullInput := concat (inputBuffer t) in
      let parsedInput :=
        if Js.truthy fullInput then
          match Json.parse fullInput with
          | Some v => v
          | None => parseFailure fullInput
          end
        else Json.emptyObject in
      (set_toolCalls
         (toolCalls h ++ [{| KiroApi.toolUseId := tu_id t; KiroApi.name := tu_name t;
                             KiroApi.input := parsedInput |}]) ;;
       closeCurrentBlock ;;
       set_currentToolUse None) h
  end.

Definition newToolUse (id name : jsstring) (toolInput : option ToolInput)
    (isStop : bool) : Action := fun h =>
  if bool_decide (id ∈ processedToolUseIds h) then skip h
  else
    (closeCurrentBlock ;;
     set_processedToolUseIds ({[id]} ∪ processedToolUseIds h) ;;
     startContentBlock tool_use (Some id) (Some name) ;;
     set_currentToolUse
       (Some {| tu_id := id; tu_name := name; inputBuffer := []; inputBufferSize := 0 |}) ;;
     addInput toolInput ;;
     (if isStop then finishToolUse else skip)) h.

Definition handleToolUse (toolUseId toolName : option jsstring)
    (toolInput : option ToolInput) (isStop : bool) : Action := fun h =>
  if responseEnded h then skip h
  else if negb (truthyId toolUseId) && negb (truthyId toolName) then
    match currentToolUse h with
    | Some _ => (addInput toolInput ;; (if isStop then finishToolUse else skip)) h
    | None => skip h
    end
  else
    match toolUseId, toolName, currentToolUse h with
    | Some id, Some name, None =>
        if Js.truthy id && Js.truthy name then newToolUse id name toolInput isStop h
        else skip h
    | _, _, Some _ => (addInput toolInput ;; (if isStop then finishToolUse else skip)) h
    | _, _, None => skip h
    end.

Definition stopReason (h : Handler) : jsstring :=
  match stopReasonOverride h with
  | Some (c :: r) => c :: r
  | _ => match toolCalls h with [] => js "end_turn" | _ => js "tool_use" end
  end.

Definition finalOutputTokens (h : Handler) : Z :=
  if 0 <? outputTokens h then outputTokens h
  else TokenCount.countTokens (concat (responseBuffer h)).

Definition finish (usage : KiroApi.Usage) : Action := fun h =>
  if responseEnded h then skip h
  else
    (set_responseEnded true ;;
     (if enableThinkingParsing options then
        let '(items, parser) := ThinkingParser.finish (thinkingParser h) in
        set_thinkingParser parser ;; emitItems items
      else skip) ;;
     closeCurrentBlock ;;
     (fun h' =>
        (onWrite (message_delta (stopReason h') (finalOutputTokens h')
                    (Some (KiroApi.inputTokens usage))
                    (whenPositive (Some (KiroApi.cacheReadTokens usage)))
                    (whenPositive (Some (KiroApi.cacheWriteTokens usage)))) ;;
         onWrite message_stop ;;
         set_stateManager (onMessageStop (stateManager h'))) h')) h.

Definition sendError (message : jsstring) : Action := onWrite (error message).

Definition handleContentLengthExceeded : Action :=
  set_stopReasonOverride (Some (js "max_tokens")).

Definition handleThinkingOverflow : Action := fun h =>
  ((if enableThinkingParsing options then set_thinkingParser ThinkingParser.fresh else skip) ;;
   (if isBlock thinking h then closeCurrentBlock else skip)) h.

End WithOptions.

(** *** [handleClaudeStream]

    The stream of the response: the handler, the events enqueued so far and
    whether the controller is closed.  [enqueue] on a closed controller
    throws, and [onWrite] catches it: the event is dropped. *)
Record Stream := {
  handler : Handler;
  enqueued : list Event;
  closed : bool
}.

Definition enqueue (events : list Event) (s : Stream) : Stream :=
  {| handler := handler s;
     enqueued := if closed s then enqueued s else enqueued s ++ events;
     closed := closed s |}.

Definition call (a : Action) (s : Stream) : Stream :=
  let '(written, h) := a (handler s) in
  enqueue written {| handler := h; enqueued := enqueued s; closed := closed s |}.

Definition close (s : Stream) : Stream :=
  {| handler := handler s; enqueued := enqueued s; closed := true |}.

Definition CONTENT_LENGTH_EXCEEDED : jsstring := js "__content_length_exceeded__".

Section Driver.

Variables (modelName : jsstring) (thinkingEnabled : bool) (uuid : jsstring).

Definition driverOptions : ClaudeStreamHandlerOptions :=
  {| model := modelName; inputTokens := 0; messageId := js "msg_" ++ uuid;
     enableThinkingParsing := thinkingEnabled;
     cacheReadTokens := None; cacheWriteTokens := None |}.

(** The [onChunk] callback. *)
Definition onChunk (chunkText : jsstring) (toolUse : option KiroApi.KiroToolUse)
    (toolUseStream : option KiroApi.KiroToolUseStream) : Action :=
  (if Js.truthy chunkText then handleContent driverOptions chunkText else skip) ;;
  (match toolUse with
   | Some tu =>
       if Js.eqb (KiroApi.toolUseId tu) CONTENT_LENGTH_EXCEEDED
       then handleContentLengthExceeded
       else handleToolUse (Some (KiroApi.toolUseId tu)) (Some (KiroApi.name tu))
              (Some (Value (KiroApi.input tu))) true
   | None => skip
   end) ;;
  (match toolUseStream with
   | Some s =>
       handleToolUse (Some (KiroApi.s_toolUseId s)) (KiroApi.s_name s)
         (option_map Fragment (KiroApi.s_inputFragment s)) (KiroApi.s_isStop s)
   | None => skip
   end).

(** One callback of [callKiroApiStream]. *)
Definition deliver (s : Stream) (c : KiroApi.Callback) : Stream :=
  match c with
  | KiroApi.OnChunk chunkText toolUse _ toolUseStream =>
      call (onChunk chunkText toolUse toolUseStream) s
  | KiroApi.OnComplete usage => close (call (finish driverOptions usage) s)
  | KiroApi.OnError message => close (enqueue [error message] s)
  end.

Definition opened : Stream :=
  call (sendMessageStart driverOptions)
       {| handler := newHandler; enqueued := []; closed := false |}.

(** The events of the response for the callbacks made by the upstream
    call, in order. *)
Definition handleClaudeStream (calls : list KiroApi.Callback) : list Event :=
  enqueued (fold_left deliver calls opened).

End Driver.

(** *** The protocol of an event trace

    An observer of the trace is before the message, inside it (knowing the
    last block index and the open block, if any) or after it.  [observe]
    is undefined for an event that the protocol does not allow; an [error]
    event may come anywhere before the end of the message. *)
Inductive Phase :=
| Before
| During (lastIndex : Z) (openBlock : option Z)
| After.

Definition observe (ph : Phase) (e : Event) : option Phase :=
  match ph, e with
  | Before, message_start _ _ _ _ _ => Some (During (-1) None)
  | During lastIndex None, content_block_start i _ _ _ =>
      if lastIndex <? i then Some (During i (Some i)) else None
  | During lastIndex (Some j), content_block_delta i _ _ =>
      if i =? j then Some ph else None
  | During lastIndex (Some j), content_block_stop i =>
      if i =? j then Some (During lastIndex None) else None
  | During lastIndex None, message_delta _ _ _ _ _ => Some ph
  | During lastIndex None, message_stop => Some After
  | Before, error _ | During _ _, error _ => Some ph
  | _, _ => None
  end.

Fixpoint observeAll (ph : Phase) (trace : list Event) : option Phase :=
  match trace with
  | [] => Some ph
  | e :: rest =>
      match observe ph e with
      | Some ph' => observeAll ph' rest
      | None => None
      end
  end.

Definition wellFormed (trace : list Event) : Prop :=
  observeAll Before trace = Some After.

Definition isMessageStart (e : Event) : bool :=
  match e with message_start _ _ _ _ _ => true | _ => false end.
Definition isMessageStop (e : Event) : bool :=
  match e with message_stop => true | _ => false end.
Definition isBlockStart (e : Event) : bool :=
  match e with content_block_start _ _ _ _ => true | _ => false end.
Definition isBlockStop (e : Event) : bool :=
  match e with content_block_stop _ => true | _ => false end.

Definition count (f : Event -> bool) (trace : list Event) : nat :=
  length (List.filter f trace).

(** The indices of the blocks started in a trace. *)
Fixpoint startedIndices (trace : list Event) : list Z :=
  match trace with
  | [] => []
  | content_block_start i _ _ _ :: rest => i :: startedIndices rest
  | _ :: rest => startedIndices rest
  end.

Fixpoint increasingFrom (lastIndex : Z) (indices : list Z) : Prop :=
  match indices with
  | [] => True
  | i :: rest => lastIndex < i /\ increasingFrom i rest
  end.

(** *** What a well-formed trace looks like *)

Lemma observeAll_app (a b : list Event) :
  forall ph, observeAll ph (a ++ b)
             = match observeAll ph a with
               | Some ph' => observeAll ph' b
               | None => None
               end.
Proof.
  induction a as [|e a IH]; intros ph; cbn [app observeAll]; [reflexivity|].
  destruct (observe ph e); [apply IH | reflexivity].
Qed.

Lemma observe_After (e : Event) : observe After e = None.
Proof. destruct e; reflexivity. Qed.

Ltac observed E :=
  match type of E with
  | observe ?ph ?e = Some _ =>
      destruct ph as [|? [?|]|]; destruct e; cbn in E; try discriminate E;
      repeat match type of E with
             | (if ?c then _ else _) = _ => destruct c eqn:?; try discriminate E
             end;
      try injection E as <-
  end.

Lemma protocol_counts (trace : list Event) :
  forall ph, observeAll ph trace = Some After ->
  count isMessageStart trace = match ph with Before => 1%nat | _ => 0%nat end
  /\ count isMessageStop trace = match ph with After => 0%nat | _ => 1%nat end.
Proof.
  unfold count. induction trace as [|e rest IH]; intros ph H; cbn [observeAll] in H.
  - injection H as ->. split; reflexivity.
  - destruct (observe ph e) as [ph'|] eqn:E; [|discriminate].
    specialize (IH ph' H). observed E; cbn in IH |- *; destruct IH as [-> ->];
      split; reflexivity.
Qed.

Lemma protocol_last (trace : list Event) :
  forall ph, observeAll ph trace = Some After -> ph <> After ->
  last trace = Some message_stop.
Proof.
  induction trace as [|e rest IH]; intros ph H Hph; cbn [observeAll] in H.
  - congruence.
  - destruct (observe ph e) as [ph'|] eqn:E; [|discriminate].
    destruct rest as [|e' rest'].
    + cbn in H. injection H as ->. observed E. reflexivity.
    + rewrite last_cons_cons. apply (IH ph' H). intros ->.
      cbn [observeAll] in H. rewrite observe_After in H. discriminate.
Qed.

Lemma protocol_blocks (trace : list Event) :
  forall ph, observeAll ph trace = Some After ->
  (count isBlockStart trace + match ph with During _ (Some _) => 1 | _ => 0 end)%nat
  = count isBlockStop trace.
Proof.
  unfold count. induction trace as [|e rest IH]; intros ph H; cbn [observeAll] in H.
  - injection H as ->. reflexivity.
  - destruct (observe ph e) as [ph'|] eqn:E; [|discriminate].
    specialize (IH ph' H). observed E; cbn in IH |- *; lia.
Qed.

Lemma protocol_increasing (trace : list Event) :
  forall ph, observeAll ph trace = Some After ->
  increasingFrom (match ph with During lastIndex _ => lastIndex | _ => -1 end)
                 (startedIndices trace).
Proof.
  induction trace as [|e rest IH]; intros ph H; cbn [observeAll] in H.
  - exact I.
  - destruct (observe ph e) as [ph'|] eqn:E; [|discriminate].
    specialize (IH ph' H). observed E; cbn in IH |- *; try exact IH.
    + split; [lia | exact IH].
    + destruct rest; cbn in H; [exact I | try rewrite observe_After in H; discriminate].
Qed.

(** A well-formed trace has one [message_start] and one [message_stop],
    ends with [message_stop], stops every block it starts, and starts
    blocks with strictly increasing indices. *)
Lemma wellFormed_spec (trace : list Event) :
  wellFormed trace ->
  count isMessageStart trace = 1%nat
  /\ count isMessageStop trace = 1%nat
  /\ last trace = Some message_stop
  /\ count isBlockStart trace = count isBlockStop trace
  /\ increasingFrom (-1) (startedIndices trace).
Proof.
  intros H. unfold wellFormed in H.
  destruct (protocol_counts trace Before H) as [H1 H2].
  pose proof (protocol_blocks trace Before H) as H3. rewrite Nat.add_0_r in H3.
  repeat split; try assumption.
  - apply (protocol_last trace Before H). discriminate.
  - apply (protocol_increasing trace Before H).
Qed.

(** A trace observed from inside the message that does not end the
    message has no [message_stop]. *)
Lemma protocol_unfinished (trace : list Event) :
  forall ph lastIndex o, observeAll ph trace = Some (During lastIndex o) ->
  count isMessageStop trace = 0%nat.
Proof.
  unfold count. induction trace as [|e rest IH]; intros ph l o H; cbn [observeAll] in H.
  - reflexivity.
  - destruct (observe ph e) as [ph'|] eqn:E; [|discriminate].
    pose proof (IH ph' l o H) as IH'. observed E; cbn in IH' |- *; try exact IH'.
    destruct rest; cbn in H; [discriminate | try rewrite observe_After in H; discriminate].
Qed.

(** *** The handler follows the protocol

    What the protocol sees of the handler: the block fields, whether a
    tool call is being accumulated and whether the response has ended. *)
Record View := {
  v_type : option BlockType;
  v_index : Z;
  v_sent : bool;
  v_tool : bool
}.

Definition viewOf (h : Handler) : View :=
  {| v_type := currentBlockType h; v_index := contentBlockIndex h;
     v_sent := contentBlockStartSent h;
     v_tool := match currentToolUse h with Some _ => true | None => false end |}.

Definition openOf (v : View) : option Z :=
  match v_type v with
  | Some _ => if v_sent v then Some (v_index v) else None
  | None => None
  end.

Definition phaseOf (v : View) : Phase := During (v_index v) (openOf v).

(** A block type is recorded only for a block whose start was sent. *)
Definition sound (v : View) : Prop := v_type v <> None -> v_sent v = true.
Definition noBlock (v : View) : Prop := v_type v = None.
Definition inBlock (v : View) : Prop := v_type v <> None /\ v_sent v = true.
(** A tool call is accumulated inside a block only. *)
Definition coherent (v : View) : Prop :=
  sound v /\ (v_tool v = true -> v_type v <> None).

Lemma inBlock_coherent v : inBlock v -> coherent v.
Proof. intros [H1 H2]. split; [intros _; exact H2 | intros _; exact H1]. Qed.
Lemma inBlock_sound v : inBlock v -> sound v.
Proof. intros [_ H] _. exact H. Qed.
Lemma coherent_sound v : coherent v -> sound v.
Proof. intros [H _]. exact H. Qed.
Lemma noBlock_sound v : noBlock v -> sound v.
Proof. intros H H'. contradiction. Qed.

(** From a handler that satisfies [P], the events of [a] are allowed by
    the protocol and lead to the phase of the handler afterwards, which
    satisfies [Q]; [a] does not end the response. *)
Definition tracks (P Q : View -> Prop) (a : Action) : Prop :=
  forall h, P (viewOf h) ->
    observeAll (phaseOf (viewOf h)) (fst (a h)) = Some (phaseOf (viewOf (snd (a h))))
    /\ Q (viewOf (snd (a h)))
    /\ (responseEnded h = false -> responseEnded (snd (a h)) = false).

(** The same for an action that ends the message. *)
Definition ends (P : View -> Prop) (a : Action) : Prop :=
  forall h, P (viewOf h) ->
    observeAll (phaseOf (viewOf h)) (fst (a h)) = Some After.

Lemma tracks_at P Q a h : P (viewOf h) -> tracks P Q a ->
  observeAll (phaseOf (viewOf h)) (fst (a h)) = Some (phaseOf (viewOf (snd (a h))))
  /\ Q (viewOf (snd (a h)))
  /\ (responseEnded h = false -> responseEnded (snd (a h)) = false).
Proof. intros Hp H. exact (H h Hp). Qed.

Lemma tracks_skip P : tracks P P skip.
Proof. intros h Hp. cbn. auto. Qed.

Lemma andThen_fst a b h : fst ((a ;; b) h) = fst (a h) ++ fst (b (snd (a h))).
Proof. unfold andThen. destruct (a h) as [e1 h1]. cbn. destruct (b h1). reflexivity. Qed.

Lemma andThen_snd a b h : snd ((a ;; b) h) = snd (b (snd (a h))).
Proof. unfold andThen. destruct (a h) as [e1 h1]. cbn. destruct (b h1). reflexivity. Qed.

Lemma tracks_andThen P Q R a b : tracks P Q a -> tracks Q R b -> tracks P R (a ;; b).
Proof.
  intros Ha Hb h Hp. destruct (Ha h Hp) as (H1 & H2 & H3).
  destruct (Hb _ H2) as (H4 & H5 & H6).
  rewrite andThen_fst, andThen_snd, observeAll_app, H1. auto.
Qed.

Lemma ends_andThen P Q a b : tracks P Q a -> ends Q b -> ends P (a ;; b).
Proof.
  intros Ha Hb h Hp. destruct (Ha h Hp) as (H1 & H2 & _).
  rewrite andThen_fst, observeAll_app, H1. exact (Hb _ H2).
Qed.

Lemma tracks_weaken (P P' Q Q' : View -> Prop) a :
  (forall v, P' v -> P v) -> (forall v, Q v -> Q' v) -> tracks P Q a -> tracks P' Q' a.
Proof.
  intros HP HQ H h Hp. destruct (H h (HP _ Hp)) as (H1 & H2 & H3). auto.
Qed.

Lemma tracks_if P Q (c : bool) a b : tracks P Q a -> tracks P Q b ->
  tracks P Q (if c then a else b).
Proof. destruct c; auto. Qed.

(** An assignment to a field that the protocol does not see. *)
Lemma tracks_silent P a :
  (forall h, fst (a h) = [] /\ viewOf (snd (a h)) = viewOf h
             /\ responseEnded (snd (a h)) = responseEnded h) ->
  tracks P P a.
Proof.
  intros H h Hp. destruct (H h) as (-> & -> & ->). cbn. auto.
Qed.

Ltac silent := apply tracks_silent; intros ?; repeat split; reflexivity.

Lemma ltb_next (z : Z) : (z <? z + 1) = true.
Proof. apply Z.ltb_lt. lia. Qed.

Section Tracking.

Variable options : ClaudeStreamHandlerOptions.

Lemma tracks_closeCurrentBlock : tracks sound noBlock closeCurrentBlock.
Proof.
  intros h Hp. unfold closeCurrentBlock, sound, noBlock in *.
  destruct h as [sm tp rb tb ot rbs tbs bow ty ix sent tool pids tcs ended sro].
  cbn in *. destruct ty as [ty|]; [|cbn; auto].
  rewrite (Hp ltac:(discriminate)). cbn. rewrite Z.eqb_refl. auto.
Qed.

Lemma tracks_startContentBlock blockType toolUseId toolName :
  tracks noBlock inBlock (startContentBlock blockType toolUseId toolName).
Proof.
  intros h Hp. unfold startContentBlock, noBlock, inBlock in *.
  destruct h as [sm tp rb tb ot rbs tbs bow ty ix sent tool pids tcs ended sro].
  cbn in *. subst ty. destruct blockType; cbn; rewrite ltb_next;
    repeat split; auto; discriminate.
Qed.

Lemma tracks_ensureBlock blockType : tracks sound inBlock (ensureBlock blockType).
Proof.
  intros h Hp. unfold ensureBlock. destruct (isBlock blockType h) eqn:E.
  - assert (Hb : inBlock (viewOf h)).
    { unfold isBlock in E. unfold inBlock, sound in *. cbn in *.
      destruct (currentBlockType h); [|discriminate].
      split; [discriminate | apply Hp; discriminate]. }
    cbn. auto.
  - apply (tracks_at sound inBlock _ h Hp).
    apply (tracks_andThen _ noBlock);
      [apply tracks_closeCurrentBlock | apply tracks_startContentBlock].
Qed.

Lemma tracks_writeDelta deltaType content :
  tracks inBlock inBlock (writeDelta deltaType content).
Proof.
  intros h [H1 H2]. unfold writeDelta, inBlock in *.
  destruct h as [sm tp rb tb ot rbs tbs bow ty ix sent tool pids tcs ended sro].
  cbn in *. subst sent. destruct ty; [|contradiction]. cbn. rewrite Z.eqb_refl.
  repeat split; auto.
Qed.

Lemma tracks_set_currentToolUse_Some t :
  tracks inBlock inBlock (set_currentToolUse (Some t)).
Proof.
  intros h Hp. unfold inBlock in *.
  destruct h as [sm tp rb tb ot rbs tbs bow ty ix sent tool pids tcs ended sro].
  cbn in *. auto.
Qed.

Lemma tracks_set_currentToolUse_None :
  tracks noBlock coherent (set_currentToolUse None).
Proof.
  intros h Hp. unfold noBlock, coherent, sound in *.
  destruct h as [sm tp rb tb ot rbs tbs bow ty ix sent tool pids tcs ended sro].
  cbn in *. subst ty. repeat split; auto; try contradiction; try discriminate.
Qed.

Lemma tracks_emitText_inBlock content :
  content <> [] -> tracks sound inBlock (emitText content).
Proof.
  intros Hc h Hp. unfold emitText.
  destruct content as [|c r]; [congruence|]. cbn [Js.truthy negb].
  destruct (_ <? _); apply (tracks_at sound inBlock _ h Hp).
  - apply (tracks_andThen _ sound); [silent|].
    apply (tracks_andThen _ inBlock); [apply tracks_ensureBlock | apply tracks_writeDelta].
  - apply (tracks_andThen _ inBlock); [apply tracks_ensureBlock|].
    apply (tracks_andThen _ inBlock); [silent|].
    apply (tracks_andThen _ inBlock); [silent | apply tracks_writeDelta].
Qed.

Lemma tracks_emitThinking_inBlock content :
  content <> [] -> tracks sound inBlock (emitThinking content).
Proof.
  intros Hc h Hp. unfold emitThinking.
  destruct content as [|c r]; [congruence|]. cbn [Js.truthy negb].
  destruct (_ <? _); apply (tracks_at sound inBlock _ h Hp).
  - apply (tracks_andThen _ sound); [silent|].
    apply (tracks_andThen _ inBlock); [apply tracks_ensureBlock | apply tracks_writeDelta].
  - apply (tracks_andThen _ inBlock); [apply tracks_ensureBlock|].
    apply (tracks_andThen _ inBlock); [silent|].
    apply (tracks_andThen _ inBlock); [silent | apply tracks_writeDelta].
Qed.

Lemma tracks_emitText content : tracks coherent coherent (emitText content).
Proof.
  destruct content as [|c r].
  - intros h Hp. cbn. auto.
  - apply (tracks_weaken sound _ inBlock _);
      [apply coherent_sound | apply inBlock_coherent|].
    apply tracks_emitText_inBlock. discriminate.
Qed.

Lemma tracks_emitThinking content : tracks coherent coherent (emitThinking content).
Proof.
  destruct content as [|c r].
  - intros h Hp. cbn. auto.
  - apply (tracks_weaken sound _ inBlock _);
      [apply coherent_sound | apply inBlock_coherent|].
    apply tracks_emitThinking_inBlock. discriminate.
Qed.

Lemma tracks_emitItems items : tracks coherent coherent (emitItems items).
Proof.
  induction items as [|i rest IH]; [apply tracks_skip|].
  cbn [emitItems]. apply (tracks_andThen _ coherent); [|exact IH].
  unfold emitItem. destruct (ThinkingParser.type i);
    [apply tracks_emitThinking | apply tracks_emitText].
Qed.

Lemma tracks_handleContent content :
  tracks coherent coherent (handleContent options content).
Proof.
  intros h Hp. unfold handleContent.
  destruct (_ || _); [exact (tracks_skip coherent h Hp)|].
  apply (tracks_at coherent coherent _ h Hp).
  apply (tracks_andThen _ coherent); [silent|].
  destruct (enableThinkingParsing options); [|apply tracks_emitText].
  destruct (ThinkingParser.process content (thinkingParser h)) as [items parser].
  apply (tracks_andThen _ coherent); [silent | apply tracks_emitItems].
Qed.

Lemma tracks_safeAdd fragment : tracks coherent coherent (safeAdd fragment).
Proof.
  intros h Hp. unfold safeAdd. destruct (currentToolUse h) as [t|] eqn:E.
  - assert (Hb : inBlock (viewOf h)).
    { destruct Hp as [Hs Ht]. unfold inBlock, sound in *. cbn in *. rewrite E in Ht.
      split; [apply Ht; reflexivity | apply Hs, Ht; reflexivity]. }
    destruct (_ <? _); apply (tracks_at inBlock coherent _ h Hb);
      apply (tracks_weaken inBlock _ inBlock _); auto using inBlock_coherent.
    + apply tracks_writeDelta.
    + apply (tracks_andThen _ inBlock);
        [apply tracks_set_currentToolUse_Some | apply tracks_writeDelta].
  - exact (tracks_skip coherent h Hp).
Qed.

Lemma tracks_addInput toolInput : tracks coherent coherent (addInput toolInput).
Proof.
  unfold addInput. destruct (fragmentOf toolInput) as [frag|]; [|apply tracks_skip].
  apply tracks_if; [apply tracks_safeAdd | apply tracks_skip].
Qed.

Lemma tracks_finishToolUse : tracks coherent coherent finishToolUse.
Proof.
  intros h Hp. unfold finishToolUse.
  destruct (currentToolUse h) as [t|]; [|exact (tracks_skip coherent h Hp)].
  cbv zeta. apply (tracks_at coherent coherent _ h Hp).
  apply (tracks_andThen _ coherent); [silent|].
  apply (tracks_andThen _ noBlock);
    [|apply tracks_set_currentToolUse_None].
  apply (tracks_weaken sound _ noBlock _); auto using coherent_sound.
  apply tracks_closeCurrentBlock.
Qed.

Lemma tracks_stop (isStop : bool) :
  tracks coherent coherent (if isStop then finishToolUse else skip).
Proof. apply tracks_if; [apply tracks_finishToolUse | apply tracks_skip]. Qed.

Lemma tracks_newToolUse id name toolInput isStop :
  tracks coherent coherent (newToolUse id name toolInput isStop).
Proof.
  intros h Hp. unfold newToolUse.
  destruct (bool_decide _); [exact (tracks_skip coherent h Hp)|].
  apply (tracks_at coherent coherent _ h Hp).
  apply (tracks_andThen _ noBlock).
  { apply (tracks_weaken sound _ noBlock _); auto using coherent_sound.
    apply tracks_closeCurrentBlock. }
  apply (tracks_andThen _ noBlock); [silent|].
  apply (tracks_andThen _ inBlock); [apply tracks_startContentBlock|].
  apply (tracks_andThen _ coherent).
  { apply (tracks_weaken inBlock _ inBlock _); auto using inBlock_coherent.
    apply tracks_set_currentToolUse_Some. }
  apply (tracks_andThen _ coherent); [apply tracks_addInput | apply tracks_stop].
Qed.

Lemma tracks_handleToolUse toolUseId toolName toolInput isStop :
  tracks coherent coherent (handleToolUse toolUseId toolName toolInput isStop).
Proof.
  assert (Hacc : tracks coherent coherent
                   (addInput toolInput ;; (if isStop then finishToolUse else skip))).
  { apply (tracks_andThen _ coherent); [apply tracks_addInput | apply tracks_stop]. }
  intros h Hp. unfold handleToolUse.
  destruct (responseEnded h) eqn:Hend.
  { cbn. split; [reflexivity | split; [exact Hp | discriminate]]. }
  assert (Hby : forall a, tracks coherent coherent a ->
            observeAll (phaseOf (viewOf h)) (fst (a h)) = Some (phaseOf (viewOf (snd (a h))))
            /\ coherent (viewOf (snd (a h)))
            /\ (false = false -> responseEnded (snd (a h)) = false)).
  { intros a Ha. destruct (Ha h Hp) as (A & B & C). auto. }
  destruct (_ && _).
  - destruct (currentToolUse h); [exact (Hby _ Hacc) | exact (Hby _ (tracks_skip coherent))].
  - destruct toolUseId as [id|], toolName as [name|], (currentToolUse h);
      try exact (Hby _ Hacc); try exact (Hby _ (tracks_skip coherent)).
    destruct (_ && _); [|exact (Hby _ (tracks_skip coherent))].
    exact (Hby _ (tracks_newToolUse id name toolInput isStop)).
Qed.

Lemma tracks_handleContentLengthExceeded :
  tracks coherent coherent handleContentLengthExceeded.
Proof. unfold handleContentLengthExceeded. silent. Qed.

(** [finish] on a response that has not ended closes the open block and
    ends the message. *)
Lemma ends_finish usage :
  forall h, coherent (viewOf h) -> responseEnded h = false ->
  observeAll (phaseOf (viewOf h)) (fst (finish options usage h)) = Some After.
Proof.
  intros h Hp Hlive. unfold finish. rewrite Hlive, andThen_fst.
  set (h1 := snd (set_responseEnded true h)).
  change (fst (set_responseEnded true h)) with (@nil Event). cbn [app].
  change (viewOf h) with (viewOf h1) in Hp |- *. clearbody h1.
  revert Hp. apply (ends_andThen coherent coherent).
  { destruct (enableThinkingParsing options); [|apply tracks_skip].
    destruct (ThinkingParser.finish (thinkingParser h)) as [items parser].
    apply (tracks_andThen _ coherent); [silent | apply tracks_emitItems]. }
  apply (ends_andThen coherent noBlock).
  { apply (tracks_weaken sound _ noBlock _); auto using coherent_sound.
    apply tracks_closeCurrentBlock. }
  intros h' Hn. unfold noBlock in Hn.
  destruct h' as [sm tp rb tb ot rbs tbs bow ty ix sent tool pids tcs ended sro].
  cbn in Hn. subst ty. reflexivity.
Qed.

End Tracking.

(** *** The response stream *)

Record Chunk := {
  c_text : jsstring;
  c_toolUse : option KiroApi.KiroToolUse;
  c_isThinking : option bool;
  c_toolUseStream : option KiroApi.KiroToolUseStream
}.

Definition chunkCall (c : Chunk) : KiroApi.Callback :=
  KiroApi.OnChunk (c_text c) (c_toolUse c) (c_isThinking c) (c_toolUseStream c).

Section Streams.

Variables (modelName : jsstring) (thinkingEnabled : bool) (uuid : jsstring).

Notation options := (driverOptions modelName thinkingEnabled uuid).
Notation deliver := (deliver modelName thinkingEnabled uuid).

Lemma tracks_onChunk chunkText toolUse toolUseStream :
  tracks coherent coherent
         (onChunk modelName thinkingEnabled uuid chunkText toolUse toolUseStream).
Proof.
  unfold onChunk. apply (tracks_andThen _ coherent).
  { apply tracks_if; [apply tracks_handleContent | apply tracks_skip]. }
  apply (tracks_andThen _ coherent).
  - destruct toolUse as [tu|]; [|apply tracks_skip].
    apply tracks_if; [apply tracks_handleContentLengthExceeded | apply tracks_handleToolUse].
  - destruct toolUseStream as [s|]; [apply tracks_handleToolUse | apply tracks_skip].
Qed.

(** The stream while the upstream call is delivering chunks. *)
Definition streaming (s : Stream) : Prop :=
  closed s = false
  /\ responseEnded (handler s) = false
  /\ coherent (viewOf (handler s))
  /\ observeAll Before (enqueued s) = Some (phaseOf (viewOf (handler s))).

Lemma streaming_opened : streaming (opened modelName thinkingEnabled uuid).
Proof.
  split; [reflexivity|]. split; [reflexivity|]. split; [|reflexivity].
  split; [intros H; contradiction H; reflexivity | discriminate].
Qed.

Lemma streaming_chunk (s : Stream) (c : Chunk) :
  streaming s -> streaming (deliver s (chunkCall c)).
Proof.
  intros (Hc & Hl & Hv & Ho). unfold chunkCall. cbn [Sse.deliver]. unfold call.
  destruct (tracks_onChunk (c_text c) (c_toolUse c) (c_toolUseStream c) (handler s) Hv)
    as (H1 & H2 & H3).
  destruct (onChunk _ _ _ _ _ _ (handler s)) as [written h]. cbn [fst snd] in *.
  unfold streaming, enqueue. cbn [closed handler enqueued]. rewrite Hc.
  split; [reflexivity|]. split; [exact (H3 Hl)|]. split; [exact H2|].
  rewrite observeAll_app, Ho. exact H1.
Qed.

Lemma streaming_chunks (chunks : list Chunk) :
  forall s, streaming s -> streaming (fold_left deliver (map chunkCall chunks) s).
Proof.
  induction chunks as [|c rest IH]; intros s Hs; [exact Hs|].
  cbn [map fold_left]. apply IH, streaming_chunk, Hs.
Qed.

(** When the upstream call completes, the trace of the response is
    well-formed, whatever chunks were delivered. *)
Theorem completed_stream_wellFormed (chunks : list Chunk) (usage : KiroApi.Usage) :
  wellFormed (handleClaudeStream modelName thinkingEnabled uuid
                (map chunkCall chunks ++ [KiroApi.OnComplete usage])).
Proof.
  unfold wellFormed, handleClaudeStream. rewrite fold_left_app. cbn [fold_left].
  destruct (streaming_chunks chunks _ streaming_opened) as (Hc & Hl & Hv & Ho).
  set (s := fold_left deliver (map chunkCall chunks) _) in *.
  cbn [Sse.deliver]. unfold close, call.
  pose proof (ends_finish options usage (handler s) Hv Hl) as He.
  destruct (finish options usage (handler s)) as [written h]. cbn [fst] in He.
  unfold enqueue. cbn [closed handler enqueued]. rewrite Hc.
  rewrite observeAll_app, Ho. exact He.
Qed.

(** C2.  When the upstream call fails, the trace of the response ends with
    the [error] event: no [message_stop] is written, whatever chunks were
    delivered, so the trace is not well-formed. *)
Theorem failed_stream_lacks_message_stop (chunks : list Chunk) (message : jsstring) :
  let trace := handleClaudeStream modelName thinkingEnabled uuid
                 (map chunkCall chunks ++ [KiroApi.OnError message]) in
  last trace = Some (error message)
  /\ count isMessageStop trace = 0%nat
  /\ ~ wellFormed trace.
Proof.
  cbv zeta. unfold wellFormed, handleClaudeStream. rewrite fold_left_app. cbn [fold_left].
  destruct (streaming_chunks chunks _ streaming_opened) as (Hc & Hl & Hv & Ho).
  set (s := fold_left deliver (map chunkCall chunks) _) in *.
  cbn [Sse.deliver]. unfold close, enqueue. cbn [closed handler enqueued]. rewrite Hc.
  assert (Hobs : observeAll Before (enqueued s ++ [error message])
                 = Some (phaseOf (viewOf (handler s)))).
  { rewrite observeAll_app, Ho. unfold phaseOf. destruct (openOf _); reflexivity. }
  split; [apply last_snoc|]. split.
  - exact (protocol_unfinished _ _ _ _ Hobs).
  - rewrite Hobs. discriminate.
Qed.

End Streams.

(** One text chunk, then a failure of the upstream call: the text block
    is left open and the message is not ended. *)
Example failed_stream_trace :
  handleClaudeStream (js "claude-sonnet-4") false (js "1")
    [KiroApi.OnChunk (js "hi") None None None; KiroApi.OnError (js "boom")]
  = [message_start (js "msg_1") (js "claude-sonnet-4") 0 None None;
     content_block_start 0 text None None;
     content_block_delta 0 text_delta (js "hi");
     error (js "boom")].
Proof. vm_compute. reflexivity. Qed.

(** The same chunk, then completion. *)
Example completed_stream_trace :
  handleClaudeStream (js "claude-sonnet-4") false (js "1")
    [KiroApi.OnChunk (js "hi") None None None;
     KiroApi.OnComplete (KiroApi.startUsage [])]
  = [message_start (js "msg_1") (js "claude-sonnet-4") 0 None None;
     content_block_start 0 text None None;
     content_block_delta 0 text_delta (js "hi");
     content_block_stop 0;
     message_delta (js "end_turn") 1 (Some 0) None None;
     message_stop].
Proof. vm_compute. reflexivity. Qed.

End Sse.

(* ===================================================================== *)
(** ** The response stream of a completed upstream call *)
(* ===================================================================== *)

Module SseFacts.

Import Sse.

(** The number of blocks open after a trace prefix: a trace allowed by the
    protocol never has two. *)
Definition openBlocks (ph : Phase) : nat :=
  match ph with During _ (Some _) => 1%nat | _ => 0%nat end.

Lemma observe_balance (ph ph' : Phase) (e : Event) :
  observe ph e = Some ph' ->
  (count isBlockStart [e] + openBlocks ph = count isBlockStop [e] + openBlocks ph')%nat.
Proof.
  intros E. destruct ph as [|l [j|]|]; destruct e; cbn in E; try discriminate E;
    repeat match type of E with
           | (if ?c then _ else _) = _ => destruct c; try discriminate E
           end;
    injection E as <-; reflexivity.
Qed.

Lemma observeAll_balance (trace : list Event) :
  forall ph ph', observeAll ph trace = Some ph' ->
  (count isBlockStart trace + openBlocks ph = count isBlockStop trace + openBlocks ph')%nat.
Proof.
  induction trace as [|e rest IH]; intros ph ph' H; cbn [observeAll] in H.
  - injection H as <-. reflexivity.
  - destruct (observe ph e) as [ph1|] eqn:E; [|discriminate].
    pose proof (observe_balance _ _ _ E) as H1. pose proof (IH _ _ H) as H2.
    unfold count in *. cbn [List.filter] in *.
    destruct (isBlockStart e), (isBlockStop e); cbn [length] in *; lia.
Qed.

Lemma observeAll_prefix (before after : list Event) (ph ph' : Phase) :
  observeAll ph (before ++ after) = Some ph' ->
  exists mid, observeAll ph before = Some mid.
Proof.
  rewrite observeAll_app. destruct (observeAll ph before) as [mid|]; [|discriminate].
  intros _. exists mid. reflexivity.
Qed.

Lemma deliver_appends modelName thinkingEnabled uuid (s : Stream) (c : KiroApi.Callback) :
  exists more, enqueued (deliver modelName thinkingEnabled uuid s c) = enqueued s ++ more.
Proof.
  destruct c as [chunkText toolUse isThinking toolUseStream | usage | message];
    cbn [deliver]; unfold call, close, enqueue;
    repeat match goal with |- context [let '(_, _) := ?a in _] => destruct a end;
    cbn [enqueued closed handler]; destruct (closed s);
    eauto using app_nil_r, eq_sym.
Qed.

Lemma handleClaudeStream_appends modelName thinkingEnabled uuid (calls : list KiroApi.Callback) :
  forall s, exists more,
    enqueued (fold_left (deliver modelName thinkingEnabled uuid) calls s) = enqueued s ++ more.
Proof.
  induction calls as [|c rest IH]; intros s; cbn [fold_left].
  - exists []. symmetry. apply app_nil_r.
  - destruct (IH (deliver modelName thinkingEnabled uuid s c)) as [more Hmore].
    destruct (deliver_appends modelName thinkingEnabled uuid s c) as [first Hfirst].
    exists (first ++ more). rewrite Hmore, Hfirst, app_assoc. reflexivity.
Qed.

Section Completed.

Variables (modelName : jsstring) (thinkingEnabled : bool) (uuid : jsstring).

(** Whatever chunks the upstream call delivers before it completes, the
    events of the response are: one [message_start], first; one
    [message_stop], last; in between, content blocks that are stopped
    before the next one starts (never two open at a time, none left
    open), with strictly increasing indices. *)
Theorem completed_stream_protocol (chunks : list Chunk) (usage : KiroApi.Usage) :
  let trace := handleClaudeStream modelName thinkingEnabled uuid
                 (map chunkCall chunks ++ [KiroApi.OnComplete usage]) in
  (exists i m t r w, head trace = Some (message_start i m t r w))
  /\ count isMessageStart trace = 1%nat
  /\ count isMessageStop trace = 1%nat
  /\ last trace = Some message_stop
  /\ count isBlockStart trace = count isBlockStop trace
  /\ (forall before after, trace = before ++ after ->
        (count isBlockStop before <= count isBlockStart before
                                  <= count isBlockStop before + 1)%nat)
  /\ increasingFrom (-1) (startedIndices trace).
Proof.
  intros trace.
  pose proof (completed_stream_wellFormed modelName thinkingEnabled uuid chunks usage) as Hw.
  fold trace in Hw. destruct (wellFormed_spec trace Hw) as (H1 & H2 & H3 & H4 & H5).
  split.
  { destruct (handleClaudeStream_appends modelName thinkingEnabled uuid
                (map chunkCall chunks ++ [KiroApi.OnComplete usage])
                (opened modelName thinkingEnabled uuid)) as [more Hmore].
    unfold trace, handleClaudeStream. rewrite Hmore. cbn. eauto 6. }
  split; [exact H1|]. split; [exact H2|]. split; [exact H3|]. split; [exact H4|].
  split; [|exact H5].
  intros before after Heq. unfold wellFormed in Hw. rewrite Heq in Hw.
  destruct (observeAll_prefix _ _ _ _ Hw) as [mid Hmid].
  pose proof (observeAll_balance _ _ _ Hmid) as Hb.
  destruct mid as [|l [j|]|]; cbn [openBlocks] in Hb; lia.
Qed.

End Completed.

(** *** No tool call is announced twice *)

(** The identifiers of the [tool_use] blocks started in a trace. *)
Fixpoint startedToolIds (trace : list Event) : list jsstring :=
  match trace with
  | [] => []
  | content_block_start _ tool_use (Some i) _ :: rest => i :: startedToolIds rest
  | _ :: rest => startedToolIds rest
  end.

Lemma startedToolIds_app (a b : list Event) :
  startedToolIds (a ++ b) = startedToolIds a ++ startedToolIds b.
Proof.
  induction a as [|e a IH]; [reflexivity|]. cbn [app startedToolIds].
  destruct e as [| ? [] [] ? | | | | |]; cbn [app]; rewrite IH; reflexivity.
Qed.

(** An action that starts no [tool_use] block and leaves
    [processedToolUseIds] alone. *)
Definition quiet (a : Action) : Prop :=
  forall h, startedToolIds (fst (a h)) = []
            /\ processedToolUseIds (snd (a h)) = processedToolUseIds h.

(** The blocks that an action starts carry identifiers that are new and
    pairwise distinct, and they are recorded in [processedToolUseIds]. *)
Definition announces (a : Action) : Prop :=
  forall h,
    NoDup (startedToolIds (fst (a h)))
    /\ (forall i, In i (startedToolIds (fst (a h))) -> i ∉ processedToolUseIds h)
    /\ (forall i, i ∈ processedToolUseIds (snd (a h))
                  <-> In i (startedToolIds (fst (a h))) \/ i ∈ processedToolUseIds h).

Lemma quiet_announces a : quiet a -> announces a.
Proof.
  intros H h. destruct (H h) as [-> ->]. split; [constructor|].
  split; [intros i []|]. intros i. cbn. tauto.
Qed.

Lemma quiet_andThen a b : quiet a -> quiet b -> quiet (a ;; b)%action.
Proof.
  intros Ha Hb h. rewrite andThen_fst, andThen_snd, startedToolIds_app.
  destruct (Ha h) as [-> <-]. destruct (Hb (snd (a h))) as [-> ->]. split; reflexivity.
Qed.

Lemma quiet_if (c : bool) a b : quiet a -> quiet b -> quiet (if c then a else b).
Proof. destruct c; auto. Qed.

Lemma quiet_skip : quiet skip.
Proof. intros h. split; reflexivity. Qed.

Lemma announces_andThen a b : announces a -> announces b -> announces (a ;; b)%action.
Proof.
  intros Ha Hb h. rewrite andThen_fst, andThen_snd, startedToolIds_app.
  destruct (Ha h) as (N1 & F1 & G1). destruct (Hb (snd (a h))) as (N2 & F2 & G2).
  split; [|split].
  - apply NoDup_app. split; [exact N1|]. split; [|exact N2].
    intros i Hi1 Hi2. apply list_elem_of_In in Hi1, Hi2.
    apply (F2 i Hi2). apply G1. left. exact Hi1.
  - intros i Hi. apply in_app_or in Hi. destruct Hi as [Hi|Hi]; [apply F1, Hi|].
    intros Hp. apply (F2 i Hi). apply G1. right. exact Hp.
  - intros i. rewrite G2, G1, in_app_iff. tauto.
Qed.

Ltac quiet_leaf :=
  intros [? ? ? ? ? ? ? ? ? ? ? ? ? ? ? ?];
  cbn; repeat match goal with
              | |- context [match ?x with _ => _ end] => destruct x; cbn
              end;
  split; reflexivity.

Section Announcing.

Variable options : ClaudeStreamHandlerOptions.

Lemma quiet_sendMessageStart : quiet (sendMessageStart options).
Proof.
  intros h. unfold sendMessageStart. destruct (canSendMessageStart _); [|apply quiet_skip].
  revert h. quiet_leaf.
Qed.

Lemma quiet_closeCurrentBlock : quiet closeCurrentBlock.
Proof. unfold closeCurrentBlock. quiet_leaf. Qed.

Lemma quiet_startContentBlock blockType : quiet (startContentBlock blockType None None).
Proof. unfold startContentBlock. destruct blockType; quiet_leaf. Qed.

Lemma quiet_ensureBlock blockType : quiet (ensureBlock blockType).
Proof.
  intros h. unfold ensureBlock. destruct (isBlock blockType h); [apply quiet_skip|].
  apply quiet_andThen; [apply quiet_closeCurrentBlock | apply quiet_startContentBlock].
Qed.

Lemma quiet_writeDelta deltaType content : quiet (writeDelta deltaType content).
Proof. unfold writeDelta. quiet_leaf. Qed.

Lemma quiet_emitText content : quiet (emitText content).
Proof.
  intros h. unfold emitText. destruct (negb _); [apply quiet_skip|].
  destruct (_ <? _); repeat (apply quiet_andThen);
    try apply quiet_ensureBlock; try apply quiet_writeDelta; quiet_leaf.
Qed.

Lemma quiet_emitThinking content : quiet (emitThinking content).
Proof.
  intros h. unfold emitThinking. destruct (negb _); [apply quiet_skip|].
  destruct (_ <? _); repeat (apply quiet_andThen);
    try apply quiet_ensureBlock; try apply quiet_writeDelta; quiet_leaf.
Qed.

Lemma quiet_emitItems items : quiet (emitItems items).
Proof.
  induction items as [|i rest IH]; [apply quiet_skip|].
  cbn [emitItems]. apply quiet_andThen; [|exact IH].
  unfold emitItem. destruct (ThinkingParser.type i);
    [apply quiet_emitThinking | apply quiet_emitText].
Qed.

Lemma quiet_handleContent content : quiet (handleContent options content).
Proof.
  intros h. unfold handleContent. destruct (_ || _); [apply quiet_skip|].
  apply quiet_andThen; [quiet_leaf|].
  destruct (enableThinkingParsing options); [|apply quiet_emitText].
  destruct (ThinkingParser.process content (thinkingParser h)) as [items parser].
  apply quiet_andThen; [quiet_leaf | apply quiet_emitItems].
Qed.

Lemma quiet_safeAdd fragment : quiet (safeAdd fragment).
Proof.
  intros h. unfold safeAdd. destruct (currentToolUse h) as [t|]; [|apply quiet_skip].
  destruct (_ <? _); [apply quiet_writeDelta|].
  apply quiet_andThen; [quiet_leaf | apply quiet_writeDelta].
Qed.

Lemma quiet_addInput toolInput : quiet (addInput toolInput).
Proof.
  unfold addInput. destruct (fragmentOf toolInput); [|apply quiet_skip].
  apply quiet_if; [apply quiet_safeAdd | apply quiet_skip].
Qed.

Lemma quiet_finishToolUse : quiet finishToolUse.
Proof.
  intros h. unfold finishToolUse. destruct (currentToolUse h) as [t|]; [|apply quiet_skip].
  cbv zeta. apply quiet_andThen; [quiet_leaf|].
  apply quiet_andThen; [apply quiet_closeCurrentBlock | quiet_leaf].
Qed.

Lemma quiet_accumulate toolInput (isStop : bool) :
  quiet (addInput toolInput ;; (if isStop then finishToolUse else skip))%action.
Proof.
  apply quiet_andThen; [apply quiet_addInput|].
  apply quiet_if; [apply quiet_finishToolUse | apply quiet_skip].
Qed.

Lemma quiet_finish usage : quiet (finish options usage).
Proof.
  intros h. unfold finish. destruct (responseEnded h); [apply quiet_skip|].
  apply quiet_andThen; [quiet_leaf|]. apply quiet_andThen.
  { destruct (enableThinkingParsing options); [|apply quiet_skip].
    destruct (ThinkingParser.finish (thinkingParser h)) as [items parser].
    apply quiet_andThen; [quiet_leaf | apply quiet_emitItems]. }
  apply quiet_andThen; [apply quiet_closeCurrentBlock|]. quiet_leaf.
Qed.

Lemma announces_newToolUse id name toolInput isStop :
  announces (newToolUse id name toolInput isStop).
Proof.
  intros h. unfold newToolUse.
  destruct (bool_decide (id ∈ processedToolUseIds h)) eqn:E;
    [exact (quiet_announces _ quiet_skip h)|].
  apply bool_decide_eq_false_1 in E.
  rewrite !andThen_fst, !andThen_snd, !startedToolIds_app.
  destruct (quiet_closeCurrentBlock h) as [-> Hp1].
  set (h1 := snd (closeCurrentBlock h)) in *.
  set (h2 := snd (set_processedToolUseIds ({[id]} ∪ processedToolUseIds h) h1)).
  assert (Hp2 : processedToolUseIds h2 = {[id]} ∪ processedToolUseIds h) by reflexivity.
  assert (Hs2 : startedToolIds
                  (fst (set_processedToolUseIds ({[id]} ∪ processedToolUseIds h) h1)) = [])
    by reflexivity.
  rewrite Hs2.
  set (h3 := snd (startContentBlock tool_use (Some id) (Some name) h2)).
  assert (Hs3 : startedToolIds (fst (startContentBlock tool_use (Some id) (Some name) h2))
                = [id]).
  { unfold startContentBlock. rewrite !andThen_fst. reflexivity. }
  assert (Hp3 : processedToolUseIds h3 = processedToolUseIds h2).
  { unfold h3, startContentBlock. destruct h2. reflexivity. }
  rewrite Hs3.
  set (a4 := set_currentToolUse _).
  assert (Hq4 : quiet a4) by (unfold a4; quiet_leaf).
  destruct (Hq4 h3) as [-> Hp4].
  destruct (quiet_accumulate toolInput isStop (snd (a4 h3))) as [Hs5 Hp5].
  rewrite andThen_fst, startedToolIds_app in Hs5. rewrite andThen_snd in Hp5.
  apply app_eq_nil in Hs5. destruct Hs5 as [-> ->].
  rewrite Hp5, Hp4, Hp3, Hp2. cbn [app].
  split; [apply NoDup_singleton|].
  split.
  - intros i [<-|[]]. exact E.
  - intros i. rewrite elem_of_union, elem_of_singleton. cbn. intuition congruence.
Qed.

Lemma announces_handleToolUse toolUseId toolName toolInput isStop :
  announces (handleToolUse toolUseId toolName toolInput isStop).
Proof.
  intros h. unfold handleToolUse.
  destruct (responseEnded h); [exact (quiet_announces _ quiet_skip h)|].
  destruct (_ && _).
  - destruct (currentToolUse h);
      [exact (quiet_announces _ (quiet_accumulate toolInput isStop) h)
      | exact (quiet_announces _ quiet_skip h)].
  - destruct toolUseId as [id|], toolName as [name|], (currentToolUse h);
      try exact (quiet_announces _ (quiet_accumulate toolInput isStop) h);
      try exact (quiet_announces _ quiet_skip h).
    destruct (_ && _); [|exact (quiet_announces _ quiet_skip h)].
    exact (announces_newToolUse id name toolInput isStop h).
Qed.

End Announcing.

Section Distinct.

Variables (modelName : jsstring) (thinkingEnabled : bool) (uuid : jsstring).

Lemma announces_onChunk chunkText toolUse toolUseStream :
  announces (onChunk modelName thinkingEnabled uuid chunkText toolUse toolUseStream).
Proof.
  unfold onChunk. apply announces_andThen.
  { apply quiet_announces, quiet_if; [apply quiet_handleContent | apply quiet_skip]. }
  apply announces_andThen.
  - destruct toolUse as [tu|]; [|apply quiet_announces, quiet_skip].
    destruct (Js.eqb _ _); [|apply announces_handleToolUse].
    apply quiet_announces. unfold handleContentLengthExceeded. quiet_leaf.
  - destruct toolUseStream as [s|];
      [apply announces_handleToolUse | apply quiet_announces, quiet_skip].
Qed.

(** The tool calls announced so far are distinct and are all recorded by
    the handler. *)
Definition distinctSoFar (s : Stream) : Prop :=
  NoDup (startedToolIds (enqueued s))
  /\ forall i, In i (startedToolIds (enqueued s)) -> i ∈ processedToolUseIds (handler s).

Lemma distinct_call (a : Action) (s : Stream) :
  announces a -> distinctSoFar s -> distinctSoFar (call a s).
Proof.
  intros Ha [Hn Hin]. unfold call. destruct (Ha (handler s)) as (N & F & G).
  destruct (a (handler s)) as [written h]. cbn [fst snd] in *.
  unfold distinctSoFar, enqueue. cbn [enqueued handler closed]. destruct (closed s).
  - split; [exact Hn|]. intros i Hi. apply G. right. apply Hin, Hi.
  - rewrite startedToolIds_app. split.
    + apply NoDup_app. split; [exact Hn|]. split; [|exact N].
      intros i Hi Hw. apply list_elem_of_In in Hi, Hw. exact (F i Hw (Hin i Hi)).
    + intros i Hi. apply G. apply in_app_or in Hi. destruct Hi as [Hi|Hi];
        [right; apply Hin, Hi | left; exact Hi].
Qed.

Lemma distinct_deliver (s : Stream) (c : KiroApi.Callback) :
  distinctSoFar s -> distinctSoFar (deliver modelName thinkingEnabled uuid s c).
Proof.
  intros Hs. destruct c as [chunkText toolUse isThinking toolUseStream | usage | message];
    cbn [deliver].
  - apply distinct_call; [apply announces_onChunk | exact Hs].
  - exact (distinct_call _ s
             (quiet_announces _
                (quiet_finish (driverOptions modelName thinkingEnabled uuid) usage)) Hs).
  - destruct Hs as [Hn Hin]. unfold distinctSoFar, close, enqueue.
    cbn [enqueued handler closed]. destruct (closed s); [split; assumption|].
    rewrite startedToolIds_app. cbn [startedToolIds]. rewrite app_nil_r. split; assumption.
Qed.

(** Whatever the upstream call delivers - also when it repeats a tool
    call, as the decoder does when it reports a tool call both as a
    stream of fragments and as a whole - every [tool_use] block of the
    response carries an identifier of its own. *)
Theorem tool_use_blocks_distinct (calls : list KiroApi.Callback) :
  NoDup (startedToolIds (handleClaudeStream modelName thinkingEnabled uuid calls)).
Proof.
  unfold handleClaudeStream.
  assert (H : forall s, distinctSoFar s ->
                distinctSoFar (fold_left (deliver modelName thinkingEnabled uuid) calls s)).
  { induction calls as [|c rest IH]; intros s Hs; [exact Hs|].
    cbn [fold_left]. apply IH, distinct_deliver, Hs. }
  apply H. unfold opened. apply distinct_call.
  - apply quiet_announces, quiet_sendMessageStart.
  - split; [constructor | intros i []].
Qed.

End Distinct.

End SseFacts.

(* ===================================================================== *)
(** ** Circuit breaker: reachable states *)
(* ===================================================================== *)

Module CircuitBreakerFacts.

Import CircuitBreaker.

Section WithConfig.

Variable cfg : Config.

Lemma step_failures (b : t) (o : op) :
  0 < failureThreshold cfg ->
  0 <= failureCount b /\ (state b = CLOSED -> failureCount b < failureThreshold cfg) ->
  0 <= failureCount (step cfg b o)
  /\ (state (step cfg b o) = CLOSED -> failureCount (step cfg b o) < failureThreshold cfg).
Proof.
  intros Hthr [Hpos Hclosed]. destruct o as [now| |now|]; cbn [step].
  - unfold canExecute. destruct (state b) eqn:Hs; cbn [snd].
    + rewrite Hs. auto.
    + destruct (_ <=? _); cbn [snd state failureCount].
      * split; [exact Hpos | discriminate].
      * rewrite Hs. split; [exact Hpos | discriminate].
    + rewrite Hs. split; [exact Hpos | discriminate].
  - unfold recordSuccess. destruct (state b) eqn:Hs.
    + cbn [state failureCount]. specialize (Hclosed eq_refl). lia.
    + rewrite Hs. split; [exact Hpos | discriminate].
    + destruct (_ <=? _); cbn [state failureCount]; split; try lia; discriminate.
  - unfold recordFailure. destruct (state b) eqn:Hs; cbn [state failureCount].
    + destruct (Z.leb_spec (failureThreshold cfg) (failureCount b + 1));
        split; try lia; discriminate.
    + split; [exact Hpos | discriminate].
    + split; [exact Hpos | discriminate].
  - cbn. lia.
Qed.

(** Whatever calls were made on a breaker with a positive threshold, its
    failure count is never negative, and while the breaker is CLOSED the
    count stays below the threshold: the breaker opens no later than the
    failure that reaches it. *)
Theorem closed_below_threshold (ops : list op) :
  0 < failureThreshold cfg ->
  0 <= failureCount (run cfg ops)
  /\ (state (run cfg ops) = CLOSED -> failureCount (run cfg ops) < failureThreshold cfg).
Proof.
  intros Hthr. unfold run. induction ops as [|o ops IH] using rev_ind.
  - cbn. split; [lia | intros _; exact Hthr].
  - rewrite fold_left_app. cbn [fold_left]. apply step_failures; assumption.
Qed.

(** The breaker after [n] failures in a row, starting fresh. *)
Lemma failures_in_a_row (times : list Z) :
  0 < failureThreshold cfg ->
  let b := run cfg (map OpRecordFailure times) in
  state b = (if failureThreshold cfg <=? Z.of_nat (length times) then OPEN else CLOSED)
  /\ failureCount b = Z.min (failureThreshold cfg) (Z.of_nat (length times)).
Proof.
  intros Hthr. unfold run. induction times as [|now times IH] using rev_ind.
  - cbn [map fold_left length init state failureCount].
    destruct (Z.leb_spec (failureThreshold cfg) (Z.of_nat 0)); split; lia || reflexivity.
  - rewrite map_app, fold_left_app, length_app. cbn [map fold_left length step].
    cbv zeta in IH. destruct IH as [Hs Hc].
    set (b := fold_left (step cfg) (map OpRecordFailure times) init) in *.
    unfold recordFailure. rewrite Hs.
    destruct (Z.leb_spec (failureThreshold cfg) (Z.of_nat (length times)));
      cbn [state failureCount]; rewrite Hc.
    + destruct (Z.leb_spec (failureThreshold cfg) (Z.of_nat (length times + 1)));
        split; try reflexivity; lia.
    + destruct (Z.leb_spec (failureThreshold cfg)
                  (Z.min (failureThreshold cfg) (Z.of_nat (length times)) + 1));
        destruct (Z.leb_spec (failureThreshold cfg) (Z.of_nat (length times + 1)));
        split; try reflexivity; lia.
Qed.

(** A fresh breaker opens exactly at the failure that reaches the
    threshold: after [n] failures in a row it is OPEN when [n] is at least
    the threshold and CLOSED otherwise, whatever the times of the
    failures. *)
Theorem opens_at_threshold (times : list Z) :
  0 < failureThreshold cfg ->
  state (run cfg (map OpRecordFailure times))
  = if failureThreshold cfg <=? Z.of_nat (length times) then OPEN else CLOSED.
Proof. intros Hthr. apply failures_in_a_row, Hthr. Qed.

(** [k] successes in a row. *)
Fixpoint successes (k : nat) (b : t) : t :=
  match k with
  | O => b
  | S k' => recordSuccess cfg (successes k' b)
  end.

Lemma successes_probing (k : nat) (b : t) :
  state b = HALF_OPEN ->
  successCount b + Z.of_nat k < halfOpenMaxAttempts cfg ->
  state (successes k b) = HALF_OPEN
  /\ successCount (successes k b) = successCount b + Z.of_nat k
  /\ failureCount (successes k b) = failureCount b.
Proof.
  intros Hs. induction k as [|k IH]; intros Hk.
  - cbn. repeat split; try assumption; lia.
  - destruct IH as (H1 & H2 & H3); [lia|].
    cbn [successes]. set (b' := successes k b) in *.
    unfold recordSuccess. rewrite H1, H2.
    destruct (Z.leb_spec (halfOpenMaxAttempts cfg) (successCount b + Z.of_nat k + 1)); [lia|].
    cbn [state successCount failureCount]. repeat split; try assumption; lia.
Qed.

(** A breaker that has just been let into HALF_OPEN by [canExecute] (so its
    success count is 0) stays HALF_OPEN through the first
    [halfOpenMaxAttempts - 1] successes and closes, with its failure count
    cleared, at success number [halfOpenMaxAttempts]. *)
Theorem probe_recovery (b : t) :
  state b = HALF_OPEN -> successCount b = 0 -> 0 < halfOpenMaxAttempts cfg ->
  let n := Z.to_nat (halfOpenMaxAttempts cfg) in
  (forall k, (k < n)%nat -> state (successes k b) = HALF_OPEN)
  /\ state (successes n b) = CLOSED
  /\ failureCount (successes n b) = 0.
Proof.
  intros Hs Hc Hn n. split.
  - intros k Hk. apply successes_probing; [exact Hs | lia].
  - destruct n as [|k] eqn:En; [lia|].
    destruct (successes_probing k b Hs) as (H1 & H2 & _); [lia|].
    cbn [successes]. set (b' := successes k b) in *.
    unfold recordSuccess. rewrite H1, H2.
    destruct (Z.leb_spec (halfOpenMaxAttempts cfg) (successCount b + Z.of_nat k + 1));
      [|lia].
    cbn [state failureCount]. split; reflexivity.
Qed.

End WithConfig.

Lemma closed_below_threshold_witness :
  let ops := [OpRecordFailure 1; OpRecordSuccess; OpRecordFailure 2; OpCanExecute 3] in
  0 <= failureCount (run defaultConfig ops)
  /\ (state (run defaultConfig ops) = CLOSED -> failureCount (run defaultConfig ops) < 5).
Proof.
  apply (closed_below_threshold defaultConfig
           [OpRecordFailure 1; OpRecordSuccess; OpRecordFailure 2; OpCanExecute 3]).
  reflexivity.
Defined.

Lemma opens_at_threshold_witness :
  state (run defaultConfig (map OpRecordFailure [10; 20; 30; 40])) = CLOSED
  /\ state (run defaultConfig (map OpRecordFailure [10; 20; 30; 40; 50; 60])) = OPEN.
Proof.
  split.
  - apply (opens_at_threshold defaultConfig [10; 20; 30; 40]). reflexivity.
  - apply (opens_at_threshold defaultConfig [10; 20; 30; 40; 50; 60]). reflexivity.
Defined.

Lemma probe_recovery_witness :
  let b := halfOpened (run defaultConfig fiveFailures) in
  (forall k, (k < 3)%nat -> state (successes defaultConfig k b) = HALF_OPEN)
  /\ state (successes defaultConfig 3 b) = CLOSED
  /\ failureCount (successes defaultConfig 3 b) = 0.
Proof.
  apply (probe_recovery defaultConfig (halfOpened (run defaultConfig fiveFailures)));
    reflexivity.
Defined.

End CircuitBreakerFacts.

(* ===================================================================== *)
(** ** Credential pool: inflight counters and error records *)
(* ===================================================================== *)

Module AccountPoolFacts.

Import AccountPool.

Inductive ErrorType := network | quota | auth | banned | other.

(** The notifications passed to the [onQuotaExhausted] callback, when one
    is set. *)
Inductive Exhausted := ExhaustedBanned (k : jsstring) | ExhaustedQuota (k : jsstring).

(** [{ ...stats, errors: stats.errors + 1, lastUsed: now }] *)
Definition countError (now : Z) (p : Pool) (k : jsstring) : Pool :=
  match accountStats p !! k with
  | Some st =>
      withStats p (<[k := {| requests := requests st; tokens := tokens st;
                             errors := errors st + 1; s_lastUsed := now;
                             totalResponseTime := totalResponseTime st;
                             avgResponseTime := avgResponseTime st |}]> (accountStats p))
  | None => p
  end.

(** [updateHealthOnError(accountId, decay)] *)
Definition updateHealthOnError (k : jsstring) (decay : Z) (p : Pool) : Pool :=
  match accountHealth p !! k with
  | Some h =>
      withHealth p (<[k := {| score := Z.max 0 (score h - decay); successRate := successRate h;
                              h_avgResponseTime := h_avgResponseTime h;
                              recentErrors := recentErrors h + 1;
                              lastSuccessTime := lastSuccessTime h |}]> (accountHealth p))
  | None => p
  end.

(** The account after an error that is not a network error:
    [{ ...account, errorCount, cooldownUntil, isAvailable, quotaExhausted,
    lastUsed: now }], with [disabled: true] for a ban. *)
Definition failed (a : ProxyAccount) (ec : Z) (cooldown : Z) (avail exhausted : bool)
    (ban : bool) (now : Z) : ProxyAccount :=
  {| id := id a; accessToken := accessToken a; subscriptionType := subscriptionType a;
     expiresAt := expiresAt a; lastUsed := Some now; requestCount := requestCount a;
     errorCount := Some ec; isAvailable := Some avail; cooldownUntil := Some cooldown;
     quotaExhausted := Some exhausted;
     disabled := if ban then Some true else disabled a |}.

Section WithConfig.

Variable config : AccountPoolConfig.
Variable smartDraw : Pool -> list ProxyAccount -> Z -> ProxyAccount.

(** [recordError(accountId, errorType)]: the notifications and the pool. *)
Definition recordError (accountId : jsstring) (errorType : ErrorType) (now : Z) (p : Pool)
  : list Exhausted * Pool :=
  let p0 := releaseAccount accountId p in
  match getAccount accountId (accounts p0) with
  | None => ([], p0)
  | Some account =>
      let ec := orZero (errorCount account) + 1 in
      let cooldown := orZero (cooldownUntil account) in
      let avail := match isAvailable account with Some false => false | _ => true end in
      let exhausted := truthyB (quotaExhausted account) in
      let store a q := withAccounts q (setAccount accountId a (accounts q)) in
      match errorType with
      | network => ([], countError now p0 accountId)
      | banned =>
          ([ExhaustedBanned accountId],
           countError now
             (updateHealthOnError accountId 50
                (store (failed account ec cooldown false true true now) p0))
             accountId)
      | quota =>
          ([ExhaustedQuota accountId],
           updateHealthOnError accountId 30
             (countError now (store (failed account ec cooldown false true false now) p0)
                accountId))
      | auth =>
          ([],
           updateHealthOnError accountId 40
             (countError now
                (store (failed account ec cooldown false exhausted false now) p0)
                accountId))
      | other =>
          let cooldown' :=
            if maxErrorCount config <=? ec then now + cooldownMs config else cooldown in
          ([],
           updateHealthOnError accountId (healthScoreDecay config)
             (countError now
                (store (failed account ec cooldown' avail exhausted false now) p0)
                accountId))
      end
  end.

(** *** Inflight counters *)

Lemma getInflight_acquire k k' now p :
  getInflight (acquireAccount k now p) k'
  = getInflight p k' + (if Js.eqb k k' then 1 else 0).
Proof.
  unfold acquireAccount, recordRequestToWindow, getInflight, Js.eqb. cbn.
  destruct (bool_decide_reflect (k = k')) as [->|Hne].
  - rewrite lookup_insert_eq. reflexivity.
  - rewrite lookup_insert_ne by exact Hne. lia.
Qed.

Lemma getInflight_release k k' p :
  getInflight (releaseAccount k p) k'
  = if Js.eqb k k' then Z.max 0 (getInflight p k' - 1) else getInflight p k'.
Proof.
  unfold releaseAccount, getInflight, Js.eqb. cbn.
  destruct (bool_decide_reflect (k = k')) as [->|Hne].
  - rewrite lookup_insert_eq. reflexivity.
  - rewrite lookup_insert_ne by exact Hne. reflexivity.
Qed.

Lemma getRecentRequestCount_inflight k now p :
  inflightRequests (snd (getRecentRequestCount k now p)) = inflightRequests p.
Proof.
  unfold getRecentRequestCount. destruct (recentRequestWindows p !! k) as [[|t w]|];
    try reflexivity. cbn [snd]. destruct (Nat.eqb _ _); reflexivity.
Qed.

Lemma leastUsedLoop_inflight avail now :
  forall p best selected,
    inflightRequests (snd (leastUsedLoop avail now p best selected)) = inflightRequests p.
Proof.
  induction avail as [|a r IH]; intros p best selected; [reflexivity|].
  cbn [leastUsedLoop]. pose proof (getRecentRequestCount_inflight (id a) now p) as H.
  destruct (getRecentRequestCount (id a) now p) as [recent p1]. cbn [snd] in H.
  destruct best as [b|]; [destruct (_ <? _)|]; rewrite IH; exact H.
Qed.

Lemma zeroDowntimeFallback_inflight l dflt now p :
  inflightRequests (snd (zeroDowntimeFallback config l dflt now p)) = inflightRequests p.
Proof. unfold zeroDowntimeFallback. destruct (fallbackChoice _ _ _ _); reflexivity. Qed.

Lemma getNextAccount_inflight model now p k :
  getInflight (snd (getNextAccount config smartDraw model now p)) k
  = getInflight p k
    + match fst (getNextAccount config smartDraw model now p) with
      | Some a => if Js.eqb (id a) k then 1 else 0
      | None => 0
      end.
Proof.
  unfold getNextAccount.
  destruct (values (accounts p)) as [|a1 [|a2 rest]]; cbn [fst snd].
  - lia.
  - destruct (available config a1 now); cbn [fst snd]; rewrite getInflight_acquire;
      reflexivity.
  - destruct (List.filter _ _) as [|a0 l].
    + pose proof (zeroDowntimeFallback_inflight (a1 :: a2 :: rest) a1 now
                    (checkAutoReset config now p)) as H.
      destruct (zeroDowntimeFallback _ _ _ _ _) as [fallback p2]. cbn [fst snd] in *.
      rewrite getInflight_acquire. unfold getInflight.
      rewrite H, checkAutoReset_inflight. reflexivity.
    + assert (H : forall sel p2,
                inflightRequests p2 = inflightRequests p ->
                getInflight (acquireAccount (id sel) now p2) k
                = getInflight p k + (if Js.eqb (id sel) k then 1 else 0)).
      { intros sel p2 Hp2. rewrite getInflight_acquire. unfold getInflight.
        rewrite Hp2. reflexivity. }
      destruct (loadBalancingMode _).
      * cbn [fst snd]. apply H, checkAutoReset_inflight.
      * pose proof (leastUsedLoop_inflight (a0 :: l) now (checkAutoReset config now p)
                      None (hd a0 (a0 :: l))) as Hl.
        unfold selectByLeastUsed.
        destruct (leastUsedLoop _ _ _ _ _) as [sel p2]. cbn [fst snd] in *.
        apply H. rewrite Hl. apply checkAutoReset_inflight.
      * cbn [fst snd]. apply H, checkAutoReset_inflight.
Qed.

(** What [getNextAccount] does to the inflight counters, in every branch
    (single account, normal selection in each load-balancing mode,
    zero-downtime fallback): the counter of the account it returns grows by
    one and no other counter changes. *)
Theorem getNextAccount_acquires_returned model now p :
  let r := getNextAccount config smartDraw model now p in
  forall k,
    getInflight (snd r) k
    = getInflight p k
      + match fst r with
        | Some a => if Js.eqb (id a) k then 1 else 0
        | None => 0
        end.
Proof. intros r k. apply getNextAccount_inflight. Qed.

Lemma countError_inflight now p k : inflightRequests (countError now p k) = inflightRequests p.
Proof. unfold countError. destruct (accountStats p !! k); reflexivity. Qed.

Lemma updateHealthOnError_inflight k decay p :
  inflightRequests (updateHealthOnError k decay p) = inflightRequests p.
Proof. unfold updateHealthOnError. destruct (accountHealth p !! k); reflexivity. Qed.

Lemma countError_accounts now p k : accounts (countError now p k) = accounts p.
Proof. unfold countError. destruct (accountStats p !! k); reflexivity. Qed.

Lemma updateHealthOnError_accounts k decay p :
  accounts (updateHealthOnError k decay p) = accounts p.
Proof. unfold updateHealthOnError. destruct (accountHealth p !! k); reflexivity. Qed.

Lemma recordError_inflight accountId errorType now p :
  inflightRequests (snd (recordError accountId errorType now p))
  = inflightRequests (releaseAccount accountId p).
Proof.
  unfold recordError. destruct (getAccount accountId _) as [account|]; [|reflexivity].
  destruct errorType; cbn [snd];
    rewrite ?updateHealthOnError_inflight, ?countError_inflight,
            ?updateHealthOnError_inflight; reflexivity.
Qed.

Lemma recordSuccess_inflight accountId tokens' responseTime now p :
  inflightRequests (recordSuccess config accountId tokens' responseTime now p)
  = inflightRequests (releaseAccount accountId p).
Proof.
  unfold recordSuccess.
  set (p0 := releaseAccount accountId p).
  set (p1 := match getAccount accountId (accounts p0) with Some _ => _ | None => _ end).
  assert (H1 : inflightRequests p1 = inflightRequests p0).
  { unfold p1. destruct (getAccount accountId (accounts p0)); reflexivity. }
  set (p2 := match accountStats p1 !! accountId with Some _ => _ | None => _ end).
  assert (H2 : inflightRequests p2 = inflightRequests p1).
  { unfold p2. destruct (accountStats p1 !! accountId); reflexivity. }
  destruct (accountHealth p2 !! accountId); cbn [withHealth inflightRequests];
    rewrite H2, H1; reflexivity.
Qed.

(** The calls that touch the inflight counters. *)
Inductive PoolOp :=
| Next (model : option jsstring) (now : Z)
| Release (accountId : jsstring)
| Success (accountId : jsstring) (tokens' responseTime now : Z)
| Failure (accountId : jsstring) (errorType : ErrorType) (now : Z).

Definition perform (p : Pool) (o : PoolOp) : Pool :=
  match o with
  | Next model now => snd (getNextAccount config smartDraw model now p)
  | Release accountId => releaseAccount accountId p
  | Success accountId tokens' responseTime now =>
      recordSuccess config accountId tokens' responseTime now p
  | Failure accountId errorType now => snd (recordError accountId errorType now p)
  end.

Definition nonNegative (p : Pool) : Prop := forall k, 0 <= getInflight p k.

Lemma nonNegative_release accountId p : nonNegative p -> nonNegative (releaseAccount accountId p).
Proof.
  intros H k. rewrite getInflight_release. destruct (Js.eqb accountId k); [lia | apply H].
Qed.

(** No sequence of [getNextAccount], [releaseAccount], [recordSuccess] and
    [recordError] calls drives an inflight counter below zero - also when
    an account is released more often than it was acquired, or was never
    in the pool. *)
Theorem inflight_never_negative (ops : list PoolOp) (p : Pool) :
  nonNegative p -> nonNegative (fold_left perform ops p).
Proof.
  revert p. induction ops as [|o ops IH]; intros p Hp; [exact Hp|].
  cbn [fold_left]. apply IH. destruct o as [model now|k|k tk rt now|k e now]; cbn [perform].
  - intros k. rewrite getNextAccount_inflight. specialize (Hp k).
    destruct (fst _) as [a|]; [destruct (Js.eqb (id a) k)|]; lia.
  - apply nonNegative_release, Hp.
  - intros k'. unfold getInflight. rewrite recordSuccess_inflight.
    apply (nonNegative_release k p Hp k').
  - intros k'. unfold getInflight. rewrite recordError_inflight.
    apply (nonNegative_release k p Hp k').
Qed.

(** *** Availability after an error *)

Lemma recordError_account accountId errorType now p account :
  getAccount accountId (accounts p) = Some account ->
  errorType <> network ->
  exists ec cooldown avail exhausted ban,
    getAccount accountId (accounts (snd (recordError accountId errorType now p)))
    = Some (failed account ec cooldown avail exhausted ban now)
    /\ ec = orZero (errorCount account) + 1
    /\ (errorType = banned -> ban = true /\ exhausted = true)
    /\ (errorType = other ->
          ban = false
          /\ exhausted = truthyB (quotaExhausted account)
          /\ avail = match isAvailable account with Some false => false | _ => true end
          /\ cooldown = if maxErrorCount config <=? ec then now + cooldownMs config
                        else orZero (cooldownUntil account)).
Proof.
  intros Hacc Hnet. unfold recordError.
  change (accounts (releaseAccount accountId p)) with (accounts p). rewrite Hacc.
  destruct errorType; [congruence| | | |]; cbn [snd];
    rewrite ?updateHealthOnError_accounts, ?countError_accounts,
            ?updateHealthOnError_accounts;
    cbn [withAccounts accounts]; rewrite getAccount_setAccount_eq;
    do 5 eexists; (split; [reflexivity|]); (split; [reflexivity|]);
    split; intros H; try discriminate H; repeat split; reflexivity.
Qed.

Lemma orZero_Some (x : Z) : orZero (Some x) = x.
Proof. reflexivity. Qed.

Lemma truthyB_Some (b : bool) : truthyB (Some b) = b.
Proof. reflexivity. Qed.

Lemma truthyZ_orZero (o : option Z) : truthyZ (Some (orZero o)) = truthyZ o.
Proof. destruct o; reflexivity. Qed.

Lemma available_failed_below (a : ProxyAccount) (now t : Z) (cooldown' : Z) :
  orZero (errorCount a) + 1 < maxErrorCount config ->
  available config
    (failed a (orZero (errorCount a) + 1)
       (if maxErrorCount config <=? orZero (errorCount a) + 1 then cooldown'
        else orZero (cooldownUntil a))
       match isAvailable a with Some false => false | _ => true end
       (truthyB (quotaExhausted a)) false now) t
  = available config a t.
Proof.
  intros Hlt. unfold available, failed.
  cbn [disabled quotaExhausted cooldownUntil errorCount expiresAt isAvailable].
  assert (E1 : (maxErrorCount config <=? orZero (errorCount a) + 1) = false)
    by (apply Z.leb_gt; lia).
  assert (E2 : (maxErrorCount config <=? orZero (errorCount a)) = false)
    by (apply Z.leb_gt; lia).
  rewrite !orZero_Some, !truthyB_Some, E1, E2, truthyZ_orZero.
  destruct (truthyB (disabled a)); [reflexivity|].
  destruct (truthyB (quotaExhausted a)); [reflexivity|].
  destruct (_ && _); [reflexivity|].
  destruct (_ && _); [reflexivity|].
  destruct (isAvailable a) as [[]|]; reflexivity.
Qed.

Lemma available_failed_reached (a : ProxyAccount) (now t : Z) (cooldown' : Z)
    (avail exhausted : bool) :
  maxErrorCount config <= orZero (errorCount a) + 1 ->
  available config
    (failed a (orZero (errorCount a) + 1) cooldown' avail exhausted false now) t
  = false.
Proof.
  intros Hge. unfold available, failed.
  cbn [disabled quotaExhausted cooldownUntil errorCount expiresAt isAvailable].
  assert (E1 : (maxErrorCount config <=? orZero (errorCount a) + 1) = true)
    by (apply Z.leb_le; lia).
  rewrite !orZero_Some, !truthyB_Some, E1.
  destruct (truthyB (disabled a)); [reflexivity|].
  destruct exhausted; [reflexivity|].
  destruct (_ && _); reflexivity.
Qed.

(** How [recordError] changes whether the account can be scheduled.
    A network error leaves every account record as it was.  An error of
    type [other] that keeps the error count below [maxErrorCount] changes
    the availability at no time; one that reaches [maxErrorCount] makes the
    account unavailable at every time - the end of the cooldown alone does
    not bring it back.  After a ban the account is unavailable at every
    time, whatever the configuration. *)
Theorem recordError_availability accountId now p account :
  getAccount accountId (accounts p) = Some account ->
  accounts (snd (recordError accountId network now p)) = accounts p
  /\ (exists after,
        getAccount accountId (accounts (snd (recordError accountId other now p))) = Some after
        /\ (orZero (errorCount account) + 1 < maxErrorCount config ->
              forall t, available config after t = available config account t)
        /\ (maxErrorCount config <= orZero (errorCount account) + 1 ->
              forall t, available config after t = false))
  /\ (exists after,
        getAccount accountId (accounts (snd (recordError accountId banned now p))) = Some after
        /\ forall cfg t, available cfg after t = false).
Proof.
  intros Hacc. split; [|split].
  - unfold recordError.
    change (accounts (releaseAccount accountId p)) with (accounts p). rewrite Hacc.
    cbn [snd]. rewrite countError_accounts. reflexivity.
  - destruct (recordError_account accountId other now p account Hacc)
      as (ec & cooldown & avail & exhausted & ban & Hget & Hec & _ & Hother);
      [discriminate|].
    destruct (Hother eq_refl) as (-> & -> & -> & ->). subst ec.
    eexists. split; [exact Hget|]. split.
    + intros Hlt t. apply available_failed_below, Hlt.
    + intros Hge t. apply available_failed_reached, Hge.
  - destruct (recordError_account accountId banned now p account Hacc)
      as (ec & cooldown & avail & exhausted & ban & Hget & _ & Hban & _); [discriminate|].
    destruct (Hban eq_refl) as [-> ->].
    eexists. split; [exact Hget|]. intros cfg t. reflexivity.
Qed.

End WithConfig.

(** An account with four errors in a pool of two, under the default
    configuration. *)
Definition worn : ProxyAccount := credential (js "a") 4.

Definition wornPool : Pool :=
  {| accounts := [(js "a", worn); (js "b", credB)];
     accountStats := ∅; accountHealth := ∅; inflightRequests := ∅;
     recentRequestWindows := ∅; lastAutoReset := 0; loadBalancingMode := priority |}.

Lemma inflight_never_negative_witness :
  nonNegative
    (fold_left (perform DEFAULT_CONFIG firstDraw)
       [Release (js "a"); Next None 1000; Failure (js "a") other 1001; Release (js "a")]
       wornPool).
Proof.
  apply (inflight_never_negative DEFAULT_CONFIG firstDraw
           [Release (js "a"); Next None 1000; Failure (js "a") other 1001; Release (js "a")]
           wornPool).
  intros k. unfold getInflight. cbn. rewrite lookup_empty. reflexivity.
Defined.

Lemma recordError_availability_witness :
  exists after,
    getAccount (js "a") (accounts (snd (recordError DEFAULT_CONFIG (js "a") other 1000 wornPool)))
    = Some after
    /\ forall t, available DEFAULT_CONFIG after t = false.
Proof.
  destruct (recordError_availability DEFAULT_CONFIG (js "a") 1000 wornPool worn eq_refl)
    as (_ & (after & Hget & _ & Hreach) & _).
  exists after. split; [exact Hget|]. apply Hreach. vm_compute. discriminate.
Defined.

End AccountPoolFacts.

(* ===================================================================== *)
(** ** Streaming thinking parser: a thinking block in one chunk *)
(* ===================================================================== *)

Module ThinkingParserFacts.

Import ThinkingParser.

Definition NL2 : jsstring := [10; 10]%N.

(** The text ends with a character of [QUOTE_CHARS]. *)
Definition endsQuoted (s : jsstring) : bool :=
  match last s with Some c => isQuoteChar c | None => false end.

Lemma startsWith_app (p rest : jsstring) : Js.startsWith p (p ++ rest) = true.
Proof.
  induction p as [|c p IH]; [reflexivity|]. cbn [app Js.startsWith].
  rewrite N.eqb_refl. exact IH.
Qed.

Lemma endTagFrom_found (s t : jsstring) :
  noTagStart s ->
  forall prev pos,
    precededByQuote (match last s with Some c => Some c | None => prev end) = false ->
    endTagFrom (s ++ THINKING_END_TAG ++ NL2 ++ t) prev pos = Some (pos + length s)%nat.
Proof.
  induction 1 as [|c r Hc Hr IH]; intros prev pos Hq.
  - cbn [app length last] in *. rewrite Nat.add_0_r.
    change (endTagFrom ?b ?v ?n) with
      (let here := Js.startsWith THINKING_END_TAG b && negb (precededByQuote v) in
       let after := skipn (length THINKING_END_TAG) b in
       if here && Js.startsWith [10; 10]%N after then Some n
       else if here && Nat.ltb (length after) 2 then None
       else match b with
            | [] => None
            | c :: r => endTagFrom r (Some c) (S n)
            end).
    cbv zeta. rewrite startsWith_app, Hq.
    rewrite (skipn_app (length THINKING_END_TAG)), skipn_all, Nat.sub_diag.
    unfold NL2. cbn [app skipn andb negb]. reflexivity.
  - cbn [app]. cbn [endTagFrom].
    assert (E : Js.startsWith THINKING_END_TAG (c :: r ++ THINKING_END_TAG ++ NL2 ++ t)
                = false)
      by exact (startsWith_tag_head (js "/thinking>") c _ Hc).
    rewrite !E. cbn [andb].
    rewrite IH.
    + apply (f_equal Some). cbn [length]. lia.
    + destruct r as [|c' r']; [exact Hq|].
      rewrite last_cons_cons in Hq.
      destruct (last (c' :: r')) eqn:El; [exact Hq|].
      apply last_None in El. discriminate El.
Qed.

Lemma lastIndexOfFrom_some (p s : jsstring) (from : nat) :
  forall pos i, lastIndexOfFrom p s pos from (Some i) <> None.
Proof.
  induction s as [|c r IH]; intros pos i; cbn [lastIndexOfFrom].
  - destruct (_ && _); discriminate.
  - destruct (_ && _); apply IH.
Qed.

Lemma lastIndexOfFrom_found (p pre post : jsstring) (from : nat) :
  forall pos best, (pos + length pre <= from)%nat ->
    lastIndexOfFrom p (pre ++ p ++ post) pos from best <> None.
Proof.
  induction pre as [|c r IH]; intros pos best Hle.
  - cbn [app length] in *.
    assert (E : Nat.leb pos from && Js.startsWith p (p ++ post) = true).
    { rewrite startsWith_app, andb_true_r. apply Nat.leb_le. lia. }
    destruct (p ++ post) as [|c r] eqn:Hp; cbn [lastIndexOfFrom]; rewrite E;
      [discriminate | apply lastIndexOfFrom_some].
  - cbn [app lastIndexOfFrom]. apply IH. cbn [length] in Hle. lia.
Qed.

Lemma loop_nonempty (f : nat) (p : Parser) :
  buffer p <> [] ->
  loop (S f) p
  = let '(items, p', flow) := iteration p in
    match flow with
    | Break => (items, p')
    | Continue => let '(more, p'') := loop f p' in (items ++ more, p'')
    end.
Proof. intros H. cbn [loop]. destruct (buffer p); [congruence | reflexivity]. Qed.

Lemma loop_empty (f : nat) (p : Parser) : buffer p = [] -> loop f p = ([], p).
Proof. intros H. destruct f; cbn [loop]; [reflexivity|]. rewrite H. reflexivity. Qed.

Lemma iteration_idle (p : Parser) :
  pendingStartTagChars p = 0%nat ->
  iteration p = if inThinkBlock p then insideBlock p else outsideBlock p.
Proof. intros H. unfold iteration. rewrite H. reflexivity. Qed.

(** The start tag at the head of the buffer opens a thinking block. *)
Lemma outsideBlock_start (rest : jsstring) (tl : Z) (ow : bool) :
  outsideBlock {| buffer := THINKING_START_TAG ++ rest; inThinkBlock := false;
                  pendingStartTagChars := 0; thinkingLength := tl; overflowWarned := ow |}
  = ([], {| buffer := rest; inThinkBlock := true; pendingStartTagChars := 0;
            thinkingLength := 0; overflowWarned := ow |}, Continue).
Proof.
  unfold outsideBlock, findRealThinkingStartTag.
  cbn [buffer pendingStartTagChars overflowWarned].
  assert (E : startTagFrom (THINKING_START_TAG ++ rest) None 0 = Some 0%nat).
  { destruct (THINKING_START_TAG ++ rest) eqn:Hb; cbn [startTagFrom];
      rewrite <- Hb, startsWith_app; reflexivity. }
  rewrite E. cbn [firstn Nat.add].
  rewrite (skipn_app (length THINKING_START_TAG)), skipn_all, Nat.sub_diag.
  reflexivity.
Qed.

(** Inside a block, a buffer that holds the text of the block, the end tag
    and two line feeds closes the block. *)
Lemma insideBlock_end (s t : jsstring) (ow : bool) :
  noTagStart s -> endsQuoted s = false ->
  insideBlock {| buffer := s ++ THINKING_END_TAG ++ NL2 ++ t; inThinkBlock := true;
                 pendingStartTagChars := 0; thinkingLength := 0; overflowWarned := ow |}
  = (item thinking s,
     {| buffer := NL2 ++ t; inThinkBlock := false; pendingStartTagChars := 0;
        thinkingLength := 0; overflowWarned := false |}, Continue).
Proof.
  intros Hs Hq. unfold insideBlock. cbn [buffer thinkingLength].
  change (MAX_THINKING_CHARS <? 0) with false. cbv beta iota zeta.
  set (b := s ++ THINKING_END_TAG ++ NL2 ++ t).
  assert (Hlen : length b = (length s + 13 + length t)%nat).
  { unfold b. rewrite !length_app. cbn. lia. }
  assert (Hquick : forall from, (length s <= from)%nat ->
                     lastIndexOf (js "</") b from <> None).
  { intros from Hfrom. unfold lastIndexOf, b.
    change THINKING_END_TAG with (js "</" ++ js "thinking>").
    rewrite <- (app_assoc (js "</")).
    apply lastIndexOfFrom_found. cbn. lia. }
  assert (Hfrom : (length s <= length b - (length THINKING_END_TAG + 2))%nat)
    by (rewrite Hlen; cbn; lia).
  specialize (Hquick _ Hfrom).
  destruct (lastIndexOf _ b _) as [i|]; [|congruence].
  rewrite andb_false_r, andb_false_l.
  unfold scanForEnd, findRealThinkingEndTag. cbn [buffer pendingStartTagChars].
  fold b. unfold b at 1.
  rewrite (endTagFrom_found s t Hs None 0).
  2:{ unfold endsQuoted in Hq. destruct (last s); [exact Hq | reflexivity]. }
  cbn [Nat.add]. unfold b.
  rewrite take_app_length.
  replace (s ++ THINKING_END_TAG ++ NL2 ++ t) with ((s ++ THINKING_END_TAG) ++ NL2 ++ t)
    by (rewrite <- app_assoc; reflexivity).
  rewrite <- length_app, drop_app_length. reflexivity.
Qed.

(** A response that starts with a thinking block, delivered in one chunk:
    the start tag, the text of the block, the end tag, two line feeds and
    the answer.  When neither the block nor the answer contains [<] and the
    block does not end with a character of [QUOTE_CHARS], the parser gives
    the text of the block as thinking output and the two line feeds with
    the answer as text output. *)
Theorem thinking_block_extracted (s t : jsstring) :
  noTagStart s -> noTagStart t -> endsQuoted s = false ->
  let items := run [THINKING_START_TAG ++ s ++ THINKING_END_TAG ++ NL2 ++ t] in
  thinkingOf items = s /\ textOf items = NL2 ++ t.
Proof.
  intros Hs Ht Hq.
  set (chunk := THINKING_START_TAG ++ s ++ THINKING_END_TAG ++ NL2 ++ t).
  assert (Hp : process chunk fresh
               = (item thinking s ++ [{| type := text; i_content := NL2 ++ t |}], fresh)).
  { unfold process, withBuffer, fresh.
    cbn [buffer app inThinkBlock pendingStartTagChars thinkingLength overflowWarned].
    rewrite (loop_fuel _ (4 + length chunk)); [|cbn [buffer]; lia|cbn [buffer]; lia].
    change (4 + length chunk)%nat with (S (S (S (S (length chunk))))).
    rewrite loop_nonempty.
    2:{ cbn [buffer]. unfold chunk. intros H. apply (f_equal (@length _)) in H.
        rewrite length_app in H. cbn in H. lia. }
    rewrite iteration_idle by reflexivity. cbn [inThinkBlock].
    unfold chunk at 1. rewrite outsideBlock_start.
    rewrite loop_nonempty.
    2:{ cbn [buffer]. intros H. apply (f_equal (@length _)) in H.
        rewrite !length_app in H. cbn in H. lia. }
    rewrite iteration_idle by reflexivity. cbn [inThinkBlock].
    rewrite (insideBlock_end s t false Hs Hq).
    rewrite loop_nonempty by (cbn [buffer]; discriminate).
    rewrite iteration_idle by reflexivity. cbn [inThinkBlock].
    rewrite outsideBlock_noTagStart.
    2:{ discriminate. }
    2:{ unfold NL2. repeat constructor; try discriminate. exact Ht. }
    rewrite loop_empty by reflexivity. cbn [app]. rewrite ?app_nil_r. reflexivity. }
  cbv zeta. unfold run. cbn [feed]. fold chunk. rewrite Hp. cbn [finish fresh buffer fst].
  rewrite !app_nil_r. unfold thinkingOf, textOf.
  destruct s as [|c r]; cbn; rewrite ?app_nil_r; split; reflexivity.
Qed.

Lemma thinking_block_extracted_witness :
  let items := run [js "<thinking>plan" ++ js "</thinking>" ++ NL2 ++ js "answer"] in
  thinkingOf items = js "plan" /\ textOf items = NL2 ++ js "answer".
Proof.
  apply (thinking_block_extracted (js "plan") (js "answer")).
  - repeat constructor; discriminate.
  - repeat constructor; discriminate.
  - reflexivity.
Defined.

(** [process] ends on every input: an iteration of its loop that continues
    leaves a strictly shorter buffer, so the loop makes at most as many
    iterations as the buffer has characters, and running it longer changes
    nothing. *)
Theorem process_terminates (chunk : jsstring) (p : Parser) :
  (forall q items q',
      buffer q <> [] -> iteration q = (items, q', Continue) ->
      (length (buffer q') < length (buffer q))%nat)
  /\ forall extra,
       loop (S (length (buffer p ++ chunk)) + extra) (withBuffer p (buffer p ++ chunk))
       = process chunk p.
Proof.
  split; [exact iteration_shrinks|]. intros extra. apply process_fuel. lia.
Qed.

End ThinkingParserFacts.

(* ===================================================================== *)
(** ** Context compressor: batches and truncation *)
(* ===================================================================== *)

Module CompressorFacts.

Import Translator Compressor.

(** The batch does not end in the middle of a tool call. *)
Definition closedBatch (batch : list ClaudeMessage) : Prop :=
  match last batch with
  | Some msg => endsWithToolUse msg = false
  | None => False
  end.

Section Batches.

Variable config : CompressorConfig.

Lemma splitLoop_concat (messages : list ClaudeMessage) :
  forall current chars,
    concat (splitLoop config messages current chars) = current ++ messages.
Proof.
  induction messages as [|msg rest IH]; intros current chars; cbn [splitLoop].
  - destruct current; cbn; rewrite ?app_nil_r; reflexivity.
  - destruct (_ && _); cbn [concat]; rewrite IH.
    + rewrite <- app_assoc. reflexivity.
    + rewrite <- app_assoc. reflexivity.
Qed.

Lemma splitLoop_nonempty (messages : list ClaudeMessage) :
  forall current chars,
    Forall (fun batch => batch <> []) (splitLoop config messages current chars).
Proof.
  induction messages as [|msg rest IH]; intros current chars; cbn [splitLoop].
  - destruct current; repeat constructor. discriminate.
  - destruct (_ && _); [|apply IH].
    constructor; [|apply IH]. destruct current; discriminate.
Qed.

Lemma splitLoop_closed (messages : list ClaudeMessage) :
  forall current chars,
    Forall closedBatch (removelast (splitLoop config messages current chars)).
Proof.
  induction messages as [|msg rest IH]; intros current chars; cbn [splitLoop].
  - destruct current; constructor.
  - destruct (_ && _) eqn:E; [|apply IH].
    apply andb_true_iff in E. destruct E as [_ E]. apply negb_true_iff in E.
    specialize (IH [] 0). cbn [removelast].
    destruct (splitLoop config rest [] 0) eqn:Hrest; [constructor|].
    constructor; [|exact IH].
    unfold closedBatch. rewrite last_snoc. exact E.
Qed.

(** [splitIntoBatches] cuts the messages into consecutive batches: joined
    in order the batches give the message list back, no batch is empty,
    and every batch but the last ends with a message that is not an
    assistant message with a [tool_use] block. *)
Theorem splitIntoBatches_partition (messages : list ClaudeMessage) :
  concat (splitIntoBatches config messages) = messages
  /\ Forall (fun batch => batch <> []) (splitIntoBatches config messages)
  /\ Forall closedBatch (removelast (splitIntoBatches config messages)).
Proof.
  unfold splitIntoBatches. split; [apply (splitLoop_concat messages [] 0)|].
  split; [apply splitLoop_nonempty | apply splitLoop_closed].
Qed.

End Batches.

(** *** [truncateToMaxMessages] *)

Section Truncation.

(** The fields [keepMessageCount], [toolLookback] and
    [maxMessagesPerSession] of the configuration. *)
Variables (keepMessageCount toolLookback maxMessagesPerSession : nat).

(** The loop of [findToolUseBoundary] on the messages from index [i] on. *)
Fixpoint boundaryFrom (messages : list ClaudeMessage) (i : nat) : option nat :=
  match messages with
  | [] => None
  | msg :: rest =>
      if endsWithToolUse msg then
        Some (match rest with [] => i + 1 | _ => i + 2 end)%nat
      else boundaryFrom rest (S i)
  end.

Definition findToolUseBoundary (messages : list ClaudeMessage) (startIdx : nat) : nat :=
  default startIdx (boundaryFrom (skipn startIdx messages) startIdx).

Definition findKeepBoundary (messages : list ClaudeMessage) (keepCount : nat) : nat :=
  let baseKeep := Nat.max keepMessageCount keepCount in
  let boundary := (length messages - baseKeep)%nat in
  let boundary' := findToolUseBoundary messages (boundary - toolLookback) in
  if Nat.leb boundary' 0 then (length messages - baseKeep)%nat else boundary'.

Definition truncateToMaxMessages (messages : list ClaudeMessage) : list ClaudeMessage :=
  if Nat.leb (length messages) maxMessagesPerSession then messages
  else skipn (findKeepBoundary messages keepMessageCount) messages.

Lemma boundaryFrom_none (messages : list ClaudeMessage) :
  Forall (fun msg => endsWithToolUse msg = false) messages ->
  forall i, boundaryFrom messages i = None.
Proof.
  induction 1 as [|msg rest Hm Hr IH]; intros i; cbn [boundaryFrom]; [reflexivity|].
  rewrite Hm. apply IH.
Qed.

(** The last [n] messages. *)
Definition lastMessages (n : nat) (messages : list ClaudeMessage) : list ClaudeMessage :=
  skipn (length messages - n) messages.

(** On a conversation in which no assistant message carries a [tool_use]
    block, [truncateToMaxMessages] returns the conversation when it has at
    most [maxMessagesPerSession] messages; else its last
    [keepMessageCount + toolLookback] messages when it has more than that
    many, and its last [keepMessageCount] messages otherwise. *)
Theorem truncate_without_tool_use (messages : list ClaudeMessage) :
  Forall (fun msg => endsWithToolUse msg = false) messages ->
  truncateToMaxMessages messages
  = if Nat.leb (length messages) maxMessagesPerSession then messages
    else if Nat.ltb (keepMessageCount + toolLookback) (length messages)
         then lastMessages (keepMessageCount + toolLookback) messages
         else lastMessages keepMessageCount messages.
Proof.
  intros Hno. unfold truncateToMaxMessages.
  destruct (Nat.leb (length messages) maxMessagesPerSession); [reflexivity|].
  unfold findKeepBoundary, findToolUseBoundary. cbv zeta.
  rewrite Nat.max_id.
  rewrite boundaryFrom_none.
  2:{ rewrite <- (firstn_skipn (length messages - keepMessageCount - toolLookback) messages)
        in Hno. apply Forall_app in Hno. apply Hno. }
  cbn [default]. unfold lastMessages.
  destruct (Nat.ltb_spec (keepMessageCount + toolLookback) (length messages)) as [Hlong|Hshort].
  - destruct (Nat.leb_spec (length messages - keepMessageCount - toolLookback) 0); [lia|].
    cbn. f_equal. lia.
  - destruct (Nat.leb_spec (length messages - keepMessageCount - toolLookback) 0); [|lia].
    reflexivity.
Qed.

End Truncation.

Definition plainMessage (s : jsstring) : ClaudeMessage :=
  {| c_role := c_user; c_content := CString s |}.

Lemma truncate_without_tool_use_witness :
  truncateToMaxMessages 2 1 4 (map plainMessage [js "a"; js "b"; js "c"; js "d"; js "e"])
  = map plainMessage [js "c"; js "d"; js "e"].
Proof.
  rewrite (truncate_without_tool_use 2 1 4
             (map plainMessage [js "a"; js "b"; js "c"; js "d"; js "e"])).
  - reflexivity.
  - repeat constructor.
Defined.

End CompressorFacts.

(* ===================================================================== *)
(** ** Request logs: the ring buffer (logger) and the metrics (main) *)
(* ===================================================================== *)

Module RequestLog.

(** The last [n] elements of a list. *)
Definition latest {T : Type} (n : nat) (l : list T) : list T := skipn (length l - n) l.

Lemma latest_length {T : Type} (n : nat) (l : list T) :
  length (latest n l) = Nat.min n (length l).
Proof. unfold latest. rewrite length_skipn. lia. Qed.

Lemma latest_snoc {T : Type} (n : nat) (l : list T) (x : T) :
  (length l < n)%nat -> latest n (l ++ [x]) = latest n l ++ [x].
Proof.
  intros H. unfold latest. rewrite length_app. cbn [length].
  replace (length l + 1 - n)%nat with 0%nat by lia.
  replace (length l - n)%nat with 0%nat by lia. reflexivity.
Qed.

Lemma tl_skipn {T : Type} (k : nat) : forall l : list T, tl (skipn k l) = skipn (S k) l.
Proof.
  induction k as [|k IH]; intros [|y l]; try reflexivity.
  - cbn [skipn]. rewrite IH. reflexivity.
Qed.

Lemma latest_snoc_full {T : Type} (n : nat) (l : list T) (x : T) :
  (1 <= n <= length l)%nat -> latest n (l ++ [x]) = tl (latest n l) ++ [x].
Proof.
  intros H. unfold latest. rewrite length_app. cbn [length].
  replace (length l + 1 - n)%nat with (S (length l - n)) by lia.
  rewrite skipn_app.
  replace (S (length l - n) - length l)%nat with 0%nat by lia. cbn [skipn].
  rewrite tl_skipn. reflexivity.
Qed.

(** *** [RingBuffer<T>] *)

Section RingBuffer.

Context {T : Type}.

(** The constructor argument. *)
Variable maxSize : Z.

(** [push(item)]: [shift()] on an empty array does nothing. *)
Definition push (buffer : list T) (item : T) : list T :=
  (if maxSize <=? Z.of_nat (length buffer) then tl buffer else buffer) ++ [item].

Definition getAll (buffer : list T) : list T := buffer.

(** [getRecent(count)] is [this.buffer.slice(-count)]: a negative start
    counts from the end, any other start from the beginning. *)
Definition getRecent (count : Z) (buffer : list T) : list T :=
  if 0 <? count then skipn (length buffer - Z.to_nat count) buffer
  else skipn (Z.to_nat (- count)) buffer.

Definition clear (_ : list T) : list T := [].

(** [getRequestLogs(count?)] *)
Definition getRequestLogs (count : option Z) (buffer : list T) : list T :=
  match count with
  | Some c => if c =? 0 then getAll buffer else getRecent c buffer
  | None => getAll buffer
  end.

Lemma push_latest (items : list T) (item : T) :
  1 <= maxSize ->
  push (latest (Z.to_nat maxSize) items) item = latest (Z.to_nat maxSize) (items ++ [item]).
Proof.
  intros Hmax. unfold push. rewrite latest_length.
  destruct (Z.leb_spec maxSize (Z.of_nat (Nat.min (Z.to_nat maxSize) (length items)))).
  - rewrite latest_snoc_full by lia. reflexivity.
  - rewrite latest_snoc by lia. reflexivity.
Qed.

(** A ring buffer of capacity [maxSize >= 1] that was empty and received
    the items [items] in order holds the last [maxSize] of them, in order
    (all of them when there are fewer); it never holds more than [maxSize]
    items, and [getRequestLogs(count)] with a positive [count] returns the
    last [count] of the items it holds. *)
Theorem ring_buffer_keeps_latest (items : list T) :
  1 <= maxSize ->
  let buffer := fold_left push items [] in
  getAll buffer = latest (Z.to_nat maxSize) items
  /\ Z.of_nat (length buffer) <= maxSize
  /\ forall count, 0 < count ->
       getRequestLogs (Some count) buffer = latest (Z.to_nat count) buffer.
Proof.
  intros Hmax buffer.
  assert (H : buffer = latest (Z.to_nat maxSize) items).
  { unfold buffer. induction items as [|item rest IH] using rev_ind; [reflexivity|].
    rewrite fold_left_app. cbn [fold_left]. rewrite IH. apply push_latest, Hmax. }
  split; [exact H|]. split.
  - rewrite H, latest_length. lia.
  - intros count Hc. unfold getRequestLogs, getRecent.
    destruct (Z.eqb_spec count 0); [lia|].
    destruct (Z.ltb_spec 0 count); [reflexivity | lia].
Qed.

End RingBuffer.

Lemma ring_buffer_keeps_latest_witness :
  getAll (fold_left (push 3) [1; 2; 3; 4; 5] []) = [3; 4; 5]
  /\ getRequestLogs (Some 2) (fold_left (push 3) [1; 2; 3; 4; 5] []) = [4; 5].
Proof.
  destruct (ring_buffer_keeps_latest 3 [1; 2; 3; 4; 5]) as (H1 & _ & H3); [lia|].
  split; [exact H1|]. apply (H3 2). lia.
Defined.

(** *** [recordRequest] *)

(** The fields of a log entry that [recordRequest] reads; [detail] stands
    for the others.  [tokens] is optional. *)
Record Entry := {
  status : Z;
  tokens : option Z;
  detail : jsstring
}.

(** The fields of [metrics] that [recordRequest] writes. *)
Record Metrics := {
  totalRequests : Z;
  successRequests : Z;
  errorRequests : Z;
  totalTokens : Z;
  requestLog : list Entry
}.

Definition initialMetrics : Metrics :=
  {| totalRequests := 0; successRequests := 0; errorRequests := 0; totalTokens := 0;
     requestLog := [] |}.

Definition recordRequest (m : Metrics) (entry : Entry) : Metrics :=
  let log := requestLog m ++ [entry] in
  {| totalRequests := totalRequests m + 1;
     successRequests := if status entry <? 400 then successRequests m + 1
                        else successRequests m;
     errorRequests := if status entry <? 400 then errorRequests m else errorRequests m + 1;
     totalTokens := match tokens entry with
                    | Some n => if n =? 0 then totalTokens m else totalTokens m + n
                    | None => totalTokens m
                    end;
     requestLog := if Nat.ltb 200 (length log) then tl log else log |}.

Definition succeeded (entry : Entry) : bool := status entry <? 400.

(** [metrics.totalRequests++] at the head of the two API routes
    ([/v1/chat/completions] and [/v1/messages]), before the request is
    handled. *)
Definition countArrival (m : Metrics) : Metrics :=
  {| totalRequests := totalRequests m + 1; successRequests := successRequests m;
     errorRequests := errorRequests m; totalTokens := totalTokens m;
     requestLog := requestLog m |}.

(** What the API routes do to [metrics]: a request arrives, or the
    response of a request is recorded.  Requests are handled
    concurrently, so arrivals and records interleave. *)
Inductive RouteStep :=
| Arrives
| Responds (entry : Entry).

Definition routeStep (m : Metrics) (s : RouteStep) : Metrics :=
  match s with
  | Arrives => countArrival m
  | Responds entry => recordRequest m entry
  end.

Definition responses (steps : list RouteStep) : list Entry :=
  flat_map (fun s => match s with Arrives => [] | Responds e => [e] end) steps.

Definition arrivals (steps : list RouteStep) : Z :=
  Z.of_nat (length (List.filter (fun s => match s with Arrives => true | _ => false end)
                                steps)).

(** After any interleaving of arrivals and recorded responses from the
    start: every response is counted once as a success (status below
    400) or as an error; [totalRequests] counts every arrival and every
    response, so that once each arrival has its response it is twice the
    number of requests; and the log holds the last 200 entries in
    order. *)
Theorem route_metrics_counts (steps : list RouteStep) :
  let m := fold_left routeStep steps initialMetrics in
  let entries := responses steps in
  successRequests m = Z.of_nat (length (List.filter succeeded entries))
  /\ successRequests m + errorRequests m = Z.of_nat (length entries)
  /\ totalRequests m = arrivals steps + Z.of_nat (length entries)
  /\ (arrivals steps = Z.of_nat (length entries) ->
      totalRequests m = 2 * (successRequests m + errorRequests m))
  /\ requestLog m = latest 200 entries.
Proof.
  cbv zeta.
  assert (H : let m := fold_left routeStep steps initialMetrics in
              successRequests m = Z.of_nat (length (List.filter succeeded (responses steps)))
              /\ successRequests m + errorRequests m = Z.of_nat (length (responses steps))
              /\ totalRequests m = arrivals steps + Z.of_nat (length (responses steps))
              /\ requestLog m = latest 200 (responses steps)).
  { cbv zeta. induction steps as [|step rest IH] using rev_ind.
    - repeat split; reflexivity.
    - rewrite fold_left_app. cbn [fold_left].
      destruct IH as (H1 & H2 & H3 & H4).
      set (m := fold_left routeStep rest initialMetrics) in *.
      unfold responses, arrivals in *. rewrite !flat_map_app, !List.filter_app, !length_app.
      destruct step as [|entry]; cbn [routeStep flat_map List.filter length app].
      + rewrite !app_nil_r. unfold countArrival.
        cbn [totalRequests successRequests errorRequests requestLog].
        repeat rewrite Nat.add_0_r.
        split; [exact H1|]. split; [exact H2|]. split; [|exact H4].
        rewrite H3. cbn [length]. lia.
      + unfold recordRequest. cbn [totalRequests successRequests errorRequests requestLog].
        unfold succeeded at 2. repeat rewrite Nat.add_0_r.
        rewrite H4. repeat split.
        * destruct (status entry <? 400); cbn [length]; lia.
        * destruct (status entry <? 400); lia.
        * lia.
        * rewrite length_app, latest_length. cbn [length].
          set (es := flat_map _ rest) in *.
          destruct (Nat.ltb_spec 200 (Nat.min 200 (length es) + 1)).
          -- rewrite latest_snoc_full by lia.
             destruct (latest 200 es) eqn:E; [|reflexivity].
             apply (f_equal (@length _)) in E. rewrite latest_length in E.
             cbn [length] in E. lia.
          -- rewrite latest_snoc by lia. reflexivity. }
  cbv zeta in H. destruct H as (H1 & H2 & H3 & H4).
  split; [exact H1|]. split; [exact H2|]. split; [exact H3|]. split; [|exact H4].
  intros E. lia.
Qed.

End RequestLog.

(* ===================================================================== *)
(** ** The in-memory LRU cache of the compressor *)
(* ===================================================================== *)

Module MemoryLRUCache.

Record MemoryCacheEntry := {
  value : jsstring;
  createdAt : Z;
  ttl : Z;
  size : Z
}.

(** The fields of the class; the [Map] keeps its insertion order, which
    the eviction follows. *)
Record t := {
  cache : list (jsstring * MemoryCacheEntry);
  currentSize : Z
}.

Definition empty : t := {| cache := []; currentSize := 0 |}.

(** [new TextEncoder().encode(value).length]: the length of the UTF-8
    encoding, in which a surrogate pair takes four bytes and a lone
    surrogate is replaced by U+FFFD (three bytes). *)
Definition isHighSurrogate (c : N) : bool := ((55296 <=? c) && (c <=? 56319))%N.
Definition isLowSurrogate (c : N) : bool := ((56320 <=? c) && (c <=? 57343))%N.

Fixpoint utf8Length (s : jsstring) : Z :=
  match s with
  | [] => 0
  | c :: r =>
      if (c <? 128)%N then 1 + utf8Length r
      else if (c <? 2048)%N then 2 + utf8Length r
      else if isHighSurrogate c then
        match r with
        | d :: r' => if isLowSurrogate d then 4 + utf8Length r' else 3 + utf8Length r
        | [] => 3
        end
      else 3 + utf8Length r
  end.

Fixpoint lookup (key : jsstring) (m : list (jsstring * MemoryCacheEntry))
  : option MemoryCacheEntry :=
  match m with
  | [] => None
  | (k, e) :: r => if Js.eqb key k then Some e else lookup key r
  end.

Definition delete (key : jsstring) (m : list (jsstring * MemoryCacheEntry))
  : list (jsstring * MemoryCacheEntry) :=
  List.filter (fun kv => negb (Js.eqb key (fst kv))) m.

Definition expired (now : Z) (e : MemoryCacheEntry) : bool := createdAt e + ttl e <? now.

Section WithLimits.

(** The constructor arguments. *)
Variables (maxSize maxEntries : Z).

(** [get(key)] at time [now]: a live entry moves to the end of the map. *)
Definition get (key : jsstring) (now : Z) (c : t) : option jsstring * t :=
  match lookup key (cache c) with
  | None => (None, c)
  | Some entry =>
      if expired now entry then
        (None, {| cache := delete key (cache c); currentSize := currentSize c - size entry |})
      else
        (Some (value entry),
         {| cache := delete key (cache c) ++ [(key, entry)]; currentSize := currentSize c |})
  end.

(** The eviction loop of [set]: the oldest entries go while the map is
    full or the new value does not fit. *)
Fixpoint evict (newSize : Z) (m : list (jsstring * MemoryCacheEntry)) (current : Z)
  : list (jsstring * MemoryCacheEntry) * Z :=
  match m with
  | [] => ([], current)
  | (_, first) :: rest =>
      if (maxEntries <=? Z.of_nat (length m)) || (maxSize <? current + newSize)
      then evict newSize rest (current - size first)
      else (m, current)
  end.

Definition set (key value' : jsstring) (ttl' now : Z) (c : t) : t :=
  let newSize := utf8Length value' in
  let '(m1, s1) :=
    match lookup key (cache c) with
    | Some existing => (delete key (cache c), currentSize c - size existing)
    | None => (cache c, currentSize c)
    end in
  let '(m2, s2) := evict newSize m1 s1 in
  {| cache := m2 ++ [(key, {| value := value'; createdAt := now; ttl := ttl';
                              size := newSize |})];
     currentSize := s2 + newSize |}.

Definition has (key : jsstring) (now : Z) (c : t) : bool :=
  match lookup key (cache c) with
  | None => false
  | Some entry => negb (expired now entry)
  end.

Definition clear (_ : t) : t := empty.

(** [cleanup()]: every expired entry goes. *)
Definition cleanup (now : Z) (c : t) : t :=
  {| cache := List.filter (fun kv => negb (expired now (snd kv))) (cache c);
     currentSize :=
       currentSize c
       - fold_right (fun kv acc => size (snd kv) + acc) 0
           (List.filter (fun kv => expired now (snd kv)) (cache c)) |}.

(** *** Reading back what was stored *)

Lemma lookup_delete (key : jsstring) (m : list (jsstring * MemoryCacheEntry)) :
  lookup key (delete key m) = None.
Proof.
  unfold delete. induction m as [|[k e] r IH]; [reflexivity|].
  cbn [List.filter fst]. destruct (Js.eqb key k) eqn:E; cbn [negb]; [exact IH|].
  cbn [lookup]. rewrite E. exact IH.
Qed.

Lemma lookup_snoc (key : jsstring) (e : MemoryCacheEntry)
    (m : list (jsstring * MemoryCacheEntry)) :
  lookup key m = None -> lookup key (m ++ [(key, e)]) = Some e.
Proof.
  induction m as [|[k e'] r IH]; cbn [app lookup].
  - intros _. unfold Js.eqb. rewrite bool_decide_eq_true_2; reflexivity.
  - destruct (Js.eqb key k); [discriminate | exact IH].
Qed.

Lemma evict_suffix (newSize : Z) (m : list (jsstring * MemoryCacheEntry)) :
  forall current, exists dropped, m = dropped ++ fst (evict newSize m current).
Proof.
  induction m as [|[k e] r IH]; intros current; cbn [evict].
  - exists []. reflexivity.
  - destruct (_ || _).
    + destruct (IH (current - size e)) as [dropped Hd].
      exists ((k, e) :: dropped). cbn [app]. rewrite <- Hd. reflexivity.
    + exists []. reflexivity.
Qed.

Lemma lookup_suffix (key : jsstring) (dropped kept : list (jsstring * MemoryCacheEntry)) :
  lookup key (dropped ++ kept) = None -> lookup key kept = None.
Proof.
  induction dropped as [|[k e] r IH]; cbn [app lookup]; [auto|].
  destruct (Js.eqb key k); [discriminate | exact IH].
Qed.

Lemma set_lookup (key value' : jsstring) (ttl' now : Z) (c : t) :
  lookup key (cache (set key value' ttl' now c))
  = Some {| value := value'; createdAt := now; ttl := ttl'; size := utf8Length value' |}.
Proof.
  unfold set.
  set (start := match lookup key (cache c) with Some _ => _ | None => _ end).
  assert (Hstart : lookup key (fst start) = None).
  { unfold start. destruct (lookup key (cache c)) eqn:E; cbn [fst];
      [apply lookup_delete | exact E]. }
  destruct start as [m1 s1]. cbn [fst] in Hstart.
  destruct (evict_suffix (utf8Length value') m1 s1) as [dropped Hd].
  destruct (evict (utf8Length value') m1 s1) as [m2 s2]. cbn [fst] in Hd. cbn [cache].
  apply lookup_snoc. apply (lookup_suffix key dropped). rewrite <- Hd. exact Hstart.
Qed.

(** What [set] stores can be read back until it expires, whatever the
    cache held and whatever had to be evicted - also a value larger than
    [maxSize].  From the first millisecond after [now + ttl] on, [get]
    answers null and [has] answers false. *)
Theorem set_then_get (key value' : jsstring) (ttl' now now' : Z) (c : t) :
  let c' := set key value' ttl' now c in
  (now' <= now + ttl' ->
     fst (get key now' c') = Some value' /\ has key now' c' = true)
  /\ (now + ttl' < now' ->
        fst (get key now' c') = None /\ has key now' c' = false).
Proof.
  intros c'. unfold get, has. unfold c'. rewrite set_lookup. unfold expired.
  cbn [createdAt ttl value].
  split; intros H.
  - destruct (Z.ltb_spec (now + ttl') now'); [lia|]. split; reflexivity.
  - destruct (Z.ltb_spec (now + ttl') now'); [|lia]. split; reflexivity.
Qed.

(** *** The bookkeeping of the cache *)

Definition total (m : list (jsstring * MemoryCacheEntry)) : Z :=
  fold_right (fun kv acc => size (snd kv) + acc) 0 m.

Definition keys (m : list (jsstring * MemoryCacheEntry)) : list jsstring := map fst m.

Record consistent (c : t) : Prop := {
  keys_distinct : NoDup (keys (cache c));
  size_is_total : currentSize c = total (cache c);
  sizes_nonnegative : Forall (fun kv => 0 <= size (snd kv)) (cache c)
}.

Lemma utf8Length_nonnegative (s : jsstring) : 0 <= utf8Length s.
Proof.
  remember (length s) as n eqn:Hn. revert s Hn.
  induction n as [n IH] using lt_wf_ind. intros s Hn.
  destruct s as [|c r]; cbn [utf8Length]; [lia|].
  assert (Hr : 0 <= utf8Length r) by (apply (IH (length r)); [subst n; cbn; lia | reflexivity]).
  destruct (c <? 128)%N; [lia|]. destruct (c <? 2048)%N; [lia|].
  destruct (isHighSurrogate c); [|lia].
  destruct r as [|d r']; [lia|]. destruct (isLowSurrogate d); [|lia].
  assert (0 <= utf8Length r') by (apply (IH (length r')); [subst n; cbn; lia | reflexivity]).
  lia.
Qed.

Lemma filter_keys_NoDup (f : jsstring * MemoryCacheEntry -> bool)
    (m : list (jsstring * MemoryCacheEntry)) :
  NoDup (keys m) -> NoDup (keys (List.filter f m)).
Proof.
  unfold keys. induction m as [|kv r IH]; cbn [List.filter map]; [auto|].
  intros H. apply NoDup_cons in H. destruct H as [Hn Hr].
  destruct (f kv); [|apply IH, Hr]. cbn [map]. apply NoDup_cons. split; [|apply IH, Hr].
  intros Hin. apply Hn. apply list_elem_of_In in Hin. apply list_elem_of_In.
  apply in_map_iff in Hin. destruct Hin as (x & Hx & Hin). apply filter_In in Hin.
  apply in_map_iff. exists x. tauto.
Qed.

Lemma lookup_None_keys (key : jsstring) (m : list (jsstring * MemoryCacheEntry)) :
  lookup key m = None <-> ~ In key (keys m).
Proof.
  unfold keys. induction m as [|[k e] r IH]; cbn [lookup map fst In]; [tauto|].
  unfold Js.eqb. destruct (bool_decide_reflect (key = k)) as [->|Hne].
  - split; [discriminate | intros H; exfalso; apply H; left; reflexivity].
  - rewrite IH. split; [intros H [E|Hin]; [congruence | tauto] | tauto].
Qed.

Lemma delete_absent (key : jsstring) (m : list (jsstring * MemoryCacheEntry)) :
  ~ In key (keys m) -> delete key m = m.
Proof.
  unfold delete, keys. induction m as [|[k e] r IH]; cbn [List.filter map fst In]; [auto|].
  intros H. assert (E : Js.eqb key k = false).
  { unfold Js.eqb. apply bool_decide_eq_false_2. intros ->. tauto. }
  rewrite E. cbn [negb]. rewrite IH by tauto. reflexivity.
Qed.

Lemma delete_found (key : jsstring) (e : MemoryCacheEntry)
    (m : list (jsstring * MemoryCacheEntry)) :
  NoDup (keys m) -> lookup key m = Some e ->
  total (delete key m) = total m - size e
  /\ (length (delete key m) + 1 = length m)%nat.
Proof.
  unfold keys. induction m as [|[k e'] r IH]; cbn [lookup map fst]; [discriminate|].
  intros Hnd Hl. apply NoDup_cons in Hnd. destruct Hnd as [Hn Hr].
  assert (Hstep : delete key ((k, e') :: r)
                  = if Js.eqb key k then delete key r else (k, e') :: delete key r).
  { unfold delete. cbn [List.filter fst]. destruct (Js.eqb key k); reflexivity. }
  rewrite Hstep. clear Hstep.
  unfold Js.eqb in *. destruct (bool_decide_reflect (key = k)) as [->|Hne].
  - injection Hl as ->. rewrite delete_absent.
    + cbn [total fold_right snd length]. fold (total r). split; lia.
    + intros Hin. apply Hn. apply list_elem_of_In. exact Hin.
  - destruct (IH Hr Hl) as [Ht Hlen]. cbn [total fold_right snd length].
    fold (total (delete key r)). fold (total r). split; lia.
Qed.

Lemma delete_keys (key : jsstring) (m : list (jsstring * MemoryCacheEntry)) :
  ~ In key (keys (delete key m)).
Proof. apply lookup_None_keys, lookup_delete. Qed.

Lemma snoc_keys_NoDup (key : jsstring) (e : MemoryCacheEntry)
    (m : list (jsstring * MemoryCacheEntry)) :
  NoDup (keys m) -> ~ In key (keys m) -> NoDup (keys (m ++ [(key, e)])).
Proof.
  intros Hnd Hn. unfold keys in *. rewrite map_app. cbn [map fst].
  apply NoDup_app. split; [exact Hnd|]. split; [|apply NoDup_singleton].
  intros x Hx Hk. apply list_elem_of_In in Hx, Hk. destruct Hk as [<-|[]]. tauto.
Qed.

Lemma total_app (a b : list (jsstring * MemoryCacheEntry)) : total (a ++ b) = total a + total b.
Proof. unfold total. induction a as [|kv r IH]; cbn [app fold_right]; lia. Qed.

Lemma total_filter (f : jsstring * MemoryCacheEntry -> bool)
    (m : list (jsstring * MemoryCacheEntry)) :
  total (List.filter (fun kv => negb (f kv)) m) = total m - total (List.filter f m).
Proof.
  unfold total. induction m as [|kv r IH]; cbn [List.filter fold_right]; [reflexivity|].
  destruct (f kv); cbn [negb fold_right]; lia.
Qed.

Lemma total_nonnegative (m : list (jsstring * MemoryCacheEntry)) :
  Forall (fun kv => 0 <= size (snd kv)) m -> 0 <= total m.
Proof. unfold total. induction 1; cbn [fold_right]; lia. Qed.

Lemma Forall_filter_sizes (f : jsstring * MemoryCacheEntry -> bool)
    (m : list (jsstring * MemoryCacheEntry)) :
  Forall (fun kv => 0 <= size (snd kv)) m ->
  Forall (fun kv => 0 <= size (snd kv)) (List.filter f m).
Proof.
  induction 1 as [|kv r Hkv Hr IH]; cbn [List.filter]; [constructor|].
  destruct (f kv); [constructor; assumption | exact IH].
Qed.

Lemma lookup_In (key : jsstring) (e : MemoryCacheEntry)
    (m : list (jsstring * MemoryCacheEntry)) :
  lookup key m = Some e -> In (key, e) m.
Proof.
  induction m as [|[k e'] r IH]; cbn [lookup In]; [discriminate|].
  unfold Js.eqb. destruct (bool_decide_reflect (key = k)) as [->|Hne].
  - intros [= ->]. apply in_eq.
  - intros H. apply in_cons, IH, H.
Qed.

(** What the eviction loop leaves. *)
Lemma evict_spec (newSize : Z) (m : list (jsstring * MemoryCacheEntry)) :
  forall current,
    NoDup (keys m) -> current = total m -> Forall (fun kv => 0 <= size (snd kv)) m ->
    let '(kept, remaining) := evict newSize m current in
    (exists dropped, m = dropped ++ kept)
    /\ NoDup (keys kept) /\ remaining = total kept
    /\ Forall (fun kv => 0 <= size (snd kv)) kept
    /\ (kept = [] \/ (Z.of_nat (length kept) < maxEntries /\ remaining + newSize <= maxSize)).
Proof.
  induction m as [|[k e] r IH]; intros current Hnd Hcur Hpos; cbn [evict].
  - split; [exists []; reflexivity|]. repeat split; auto.
  - destruct (_ || _) eqn:E.
    + apply NoDup_cons in Hnd. destruct Hnd as [_ Hr]. inversion Hpos as [|? ? He Hrest]; subst.
      specialize (IH (total ((k, e) :: r) - size e) Hr).
      destruct (evict newSize r (total ((k, e) :: r) - size e)) as [kept remaining].
      destruct IH as ((dropped & Hd) & H2 & H3 & H4 & H5);
        [cbn [total fold_right snd]; fold (total r); lia | exact Hrest |].
      split; [exists ((k, e) :: dropped); cbn [app]; rewrite <- Hd; reflexivity|].
      repeat split; assumption.
    + apply orb_false_iff in E. destruct E as [E1 E2].
      apply Z.leb_gt in E1. apply Z.ltb_ge in E2.
      split; [exists []; reflexivity|]. repeat split; try assumption.
      right. split; [exact E1 | lia].
Qed.

Inductive Op :=
| OpGet (key : jsstring) (now : Z)
| OpSet (key value' : jsstring) (ttl' now : Z)
| OpCleanup (now : Z)
| OpClear.

Definition step (c : t) (o : Op) : t :=
  match o with
  | OpGet key now => snd (get key now c)
  | OpSet key value' ttl' now => set key value' ttl' now c
  | OpCleanup now => cleanup now c
  | OpClear => clear c
  end.

(** The value of every [set] of the history fits the cache by itself. *)
Definition fits (o : Op) : Prop :=
  match o with
  | OpSet _ value' _ _ => utf8Length value' <= maxSize
  | _ => True
  end.

Definition bounded (c : t) : Prop :=
  consistent c /\ Z.of_nat (length (cache c)) <= maxEntries.

Lemma step_bounded (c : t) (o : Op) :
  1 <= maxEntries -> bounded c -> bounded (step c o).
Proof.
  intros Hmax [[Hnd Hsz Hpos] Hlen]. destruct o as [key now|key v ttl' now|now|]; cbn [step].
  - unfold get. destruct (lookup key (cache c)) as [entry|] eqn:El; cbn [snd];
      [|split; [split|]; assumption].
    destruct (delete_found key entry (cache c) Hnd El) as [Ht Hl].
    destruct (expired now entry); cbn [snd]; (split; [split|]); cbn [cache currentSize].
    + apply filter_keys_NoDup, Hnd.
    + lia.
    + apply Forall_filter_sizes, Hpos.
    + lia.
    + apply snoc_keys_NoDup; [apply filter_keys_NoDup, Hnd | apply delete_keys].
    + rewrite total_app. cbn [total fold_right snd]. lia.
    + apply Forall_app. split; [apply Forall_filter_sizes, Hpos|].
      constructor; [|constructor]. cbn [snd].
      rewrite List.Forall_forall in Hpos. apply (Hpos _ (lookup_In _ _ _ El)).
    + rewrite length_app. cbn [length]. lia.
  - unfold set.
    set (start := match lookup key (cache c) with Some _ => _ | None => _ end).
    assert (Hstart : NoDup (keys (fst start)) /\ snd start = total (fst start)
                     /\ Forall (fun kv => 0 <= size (snd kv)) (fst start)
                     /\ ~ In key (keys (fst start))).
    { unfold start. destruct (lookup key (cache c)) as [existing|] eqn:El; cbn [fst snd].
      - destruct (delete_found key existing (cache c) Hnd El) as [Ht _].
        split; [apply filter_keys_NoDup, Hnd|]. split; [lia|].
        split; [apply Forall_filter_sizes, Hpos | apply delete_keys].
      - split; [exact Hnd|]. split; [exact Hsz|]. split; [exact Hpos|].
        apply lookup_None_keys, El. }
    destruct start as [m1 s1]. cbn [fst snd] in Hstart.
    destruct Hstart as (H1 & H2 & H3 & H4).
    pose proof (evict_spec (utf8Length v) m1 s1 H1 H2 H3) as He.
    destruct (evict (utf8Length v) m1 s1) as [m2 s2].
    destruct He as ((dropped & Hd) & E2 & E3 & E4 & E5).
    assert (Hk : ~ In key (keys m2)).
    { intros Hin. apply H4. rewrite Hd. unfold keys in *. rewrite map_app.
      apply in_or_app. right. exact Hin. }
    split; [split|]; cbn [cache currentSize].
    + apply snoc_keys_NoDup; assumption.
    + rewrite total_app. cbn [total fold_right snd size]. lia.
    + apply Forall_app. split; [exact E4|]. constructor; [|constructor].
      cbn [snd size]. apply utf8Length_nonnegative.
    + rewrite length_app. cbn [length]. destruct E5 as [->|[E5 _]]; cbn [length]; lia.
  - unfold cleanup. split; [split|]; cbn [cache currentSize].
    + apply filter_keys_NoDup, Hnd.
    + rewrite (total_filter (fun kv => expired now (snd kv))). fold (total (List.filter (fun kv => expired now (snd kv)) (cache c))). lia.
    + apply Forall_filter_sizes, Hpos.
    + pose proof (filter_length_le (fun kv => negb (expired now (snd kv))) (cache c)). lia.
  - split; [split|]; cbn; try constructor. lia.
Qed.

(** After any history of [get], [set], [cleanup] and [clear] calls on a
    cache that started empty and allows at least one entry: every key is
    stored once, [currentSize] is the sum of the sizes of the entries
    held, and the number of entries never exceeds [maxEntries]. *)
Theorem cache_bookkeeping (ops : list Op) :
  1 <= maxEntries ->
  let c := fold_left step ops empty in
  NoDup (keys (cache c))
  /\ currentSize c = total (cache c)
  /\ Z.of_nat (length (cache c)) <= maxEntries.
Proof.
  intros Hmax.
  assert (H : bounded (fold_left step ops empty)).
  { induction ops as [|o rest IH] using rev_ind.
    - split; [split|]; cbn; try constructor. lia.
    - rewrite fold_left_app. cbn [fold_left]. apply step_bounded; assumption. }
  destruct H as [[H1 H2 _] H3]. cbv zeta. auto.
Qed.

Lemma step_size (c : t) (o : Op) :
  0 <= maxSize -> consistent c -> fits o ->
  currentSize c <= maxSize -> currentSize (step c o) <= maxSize.
Proof.
  intros Hmax [Hnd Hsz Hpos] Hfit Hle.
  destruct o as [key now|key v ttl' now|now|]; cbn [step].
  - unfold get. destruct (lookup key (cache c)) as [entry|] eqn:El; cbn [snd]; [|exact Hle].
    rewrite List.Forall_forall in Hpos. pose proof (Hpos _ (lookup_In _ _ _ El)) as He.
    cbn [snd] in He. destruct (expired now entry); cbn [snd currentSize]; lia.
  - cbn [fits] in Hfit. unfold set.
    set (start := match lookup key (cache c) with Some _ => _ | None => _ end).
    assert (Hstart : NoDup (keys (fst start)) /\ snd start = total (fst start)
                     /\ Forall (fun kv => 0 <= size (snd kv)) (fst start)).
    { unfold start. destruct (lookup key (cache c)) as [existing|] eqn:El; cbn [fst snd].
      - destruct (delete_found key existing (cache c) Hnd El) as [Ht _].
        split; [apply filter_keys_NoDup, Hnd|]. split; [lia|].
        apply Forall_filter_sizes, Hpos.
      - split; [exact Hnd|]. split; [exact Hsz | exact Hpos]. }
    destruct start as [m1 s1]. cbn [fst snd] in Hstart. destruct Hstart as (H1 & H2 & H3).
    pose proof (evict_spec (utf8Length v) m1 s1 H1 H2 H3) as He.
    destruct (evict (utf8Length v) m1 s1) as [m2 s2].
    destruct He as (_ & _ & E3 & _ & [->|[_ E5]]); cbn [currentSize]; [|exact E5].
    subst s2. cbn [total fold_right]. lia.
  - unfold cleanup. cbn [currentSize].
    pose proof (total_nonnegative _
      (Forall_filter_sizes (fun kv => expired now (snd kv)) _ Hpos)) as Ht.
    unfold total in Ht. lia.
  - cbn. exact Hmax.
Qed.

(** The memory cap holds as long as every value stored fits the cache by
    itself: after any history of calls on a cache that started empty,
    [currentSize] is at most [maxSize]. *)
Theorem cache_size_capped (ops : list Op) :
  0 <= maxSize -> 1 <= maxEntries -> Forall fits ops ->
  currentSize (fold_left step ops empty) <= maxSize.
Proof.
  intros Hsize Hmax Hfit.
  assert (H : bounded (fold_left step ops empty)
              /\ currentSize (fold_left step ops empty) <= maxSize).
  { induction ops as [|o rest IH] using rev_ind.
    - split; [split; [split|]|]; cbn; try constructor; lia.
    - apply Forall_app in Hfit. destruct Hfit as [Hrest Ho].
      apply Forall_inv in Ho. destruct (IH Hrest) as [Hb Hle].
      rewrite fold_left_app. cbn [fold_left]. split.
      + apply step_bounded; assumption.
      + apply step_size; [assumption | apply Hb | assumption | assumption]. }
  apply H.
Qed.

(** A value that does not fit by itself is stored all the same: the
    eviction loop stops at the empty map, and the cap is exceeded. *)
Theorem oversized_value_is_stored (key value' : jsstring) (ttl' now : Z) (c : t) :
  consistent c -> maxSize < utf8Length value' ->
  let c' := set key value' ttl' now c in
  keys (cache c') = [key] /\ currentSize c' = utf8Length value'.
Proof.
  intros [Hnd Hsz Hpos] Hbig. cbv zeta. unfold set.
  set (start := match lookup key (cache c) with Some _ => _ | None => _ end).
  assert (Hstart : snd start = total (fst start)
                   /\ Forall (fun kv => 0 <= size (snd kv)) (fst start)).
  { unfold start. destruct (lookup key (cache c)) as [existing|] eqn:El; cbn [fst snd].
    - destruct (delete_found key existing (cache c) Hnd El) as [Ht _].
      split; [lia | apply Forall_filter_sizes, Hpos].
    - split; [exact Hsz | exact Hpos]. }
  destruct start as [m1 s1]. cbn [fst snd] in Hstart. destruct Hstart as [H2 H3].
  assert (He : evict (utf8Length value') m1 s1 = ([], 0)).
  { clear - H2 H3 Hbig. revert s1 H2. induction H3 as [|[k e] r Hkv Hr IH]; intros s1 H2.
    - cbn [evict]. subst s1. reflexivity.
    - cbn [evict]. cbn [snd] in Hkv.
      pose proof (total_nonnegative _ Hr) as Ht.
      cbn [total fold_right snd] in H2. fold (total r) in H2.
      replace (maxSize <? s1 + utf8Length value') with true
        by (symmetry; apply Z.ltb_lt; lia).
      rewrite orb_true_r. apply IH. lia. }
  rewrite He. cbn. split; [reflexivity | lia].
Qed.

End WithLimits.

Lemma set_then_get_witness :
  fst (get (js "k") 1500 (set 10 2 (js "k") (js "a long summary") 1000 1000 empty))
  = Some (js "a long summary").
Proof.
  destruct (set_then_get 10 2 (js "k") (js "a long summary") 1000 1000 1500 empty) as [H _].
  apply H. lia.
Defined.

Lemma cache_bookkeeping_witness :
  let c := fold_left (step 100 2)
             [OpSet (js "a") (js "x") 10 0; OpSet (js "b") (js "y") 10 1;
              OpGet (js "a") 2; OpSet (js "c") (js "z") 10 3] empty in
  NoDup (keys (cache c)) /\ currentSize c = total (cache c)
  /\ Z.of_nat (length (cache c)) <= 2.
Proof.
  apply (cache_bookkeeping 100 2
           [OpSet (js "a") (js "x") 10 0; OpSet (js "b") (js "y") 10 1;
            OpGet (js "a") 2; OpSet (js "c") (js "z") 10 3]).
  lia.
Defined.

Lemma cache_size_capped_witness :
  currentSize (fold_left (step 2 5)
     [OpSet (js "a") (js "x") 10 0; OpSet (js "b") (js "yy") 10 1;
      OpSet (js "c") (js "z") 10 3] empty) <= 2.
Proof.
  apply (cache_size_capped 2 5); [lia | lia |].
  repeat (apply List.Forall_cons; [apply Z.leb_le; reflexivity|]). apply List.Forall_nil.
Defined.

Lemma oversized_value_is_stored_witness :
  let c' := set 2 5 (js "k") (js "abc") 10 0 empty in
  keys (cache c') = [js "k"] /\ currentSize c' = utf8Length (js "abc").
Proof.
  apply (oversized_value_is_stored 2 5 (js "k") (js "abc") 10 0 empty).
  - split; cbn; constructor.
  - apply Z.ltb_lt. reflexivity.
Defined.

End MemoryLRUCache.

(* ================================================================== *)
(** * Machine ids (src/lib/types.ts, [normalizeMachineId])             *)
(* ================================================================== *)

Module MachineId.

(** The character class [[0-9a-fA-F]]. *)
Definition isHex (c : N) : bool :=
  ((48 <=? c) && (c <=? 57) || (97 <=? c) && (c <=? 102) || (65 <=? c) && (c <=? 70))%N.

(** [/^[0-9a-fA-F]+$/.test(s)] *)
Definition allHex (s : jsstring) : bool :=
  match s with
  | [] => false
  | _ => forallb isHex s
  end.

(** [toLowerCase()] on the strings the function applies it to: they have
    passed the test above, so only the letters A-F change. *)
Definition lowerUnit (c : N) : N := if ((65 <=? c) && (c <=? 90))%N then (c + 32)%N else c.
Definition toLowerCase (s : jsstring) : jsstring := map lowerUnit s.

(** [s.replace(/-/g, '')] *)
Definition removeDashes (s : jsstring) : jsstring := List.filter (fun c => negb (c =? 45)%N) s.

Definition normalizeMachineId (machineId : jsstring) : option jsstring :=
  let trimmed := Js.trim machineId in
  if (length trimmed =? 64)%nat && allHex trimmed then Some (toLowerCase trimmed)
  else
    let noDashes := removeDashes trimmed in
    if (length noDashes =? 32)%nat && allHex noDashes
    then Some (toLowerCase (noDashes ++ noDashes))
    else None.

(** The form every result has: 64 digits of [0-9a-f]. *)
Definition isLowerHex (c : N) : bool :=
  ((48 <=? c) && (c <=? 57) || (97 <=? c) && (c <=? 102))%N.

Definition canonical (s : jsstring) : bool := (length s =? 64)%nat && forallb isLowerHex s.

Lemma isHex_small (c : N) : isHex c = true -> (c < 128)%N.
Proof.
  unfold isHex. intros H.
  destruct (N.leb_spec c 57); [lia|]. destruct (N.leb_spec c 102); [lia|].
  destruct (N.leb_spec c 70); [lia|].
  rewrite !andb_false_r in H. discriminate.
Qed.

Lemma small_units (P : N -> bool) :
  forallb P (map N.of_nat (seq 0 128)) = true -> forall c, (c < 128)%N -> P c = true.
Proof.
  intros H c Hc. rewrite forallb_forall in H. apply H.
  apply in_map_iff. exists (N.to_nat c). split; [lia|]. apply in_seq. lia.
Qed.

Lemma hex_unit (c : N) :
  isHex c = true ->
  isLowerHex (lowerUnit c) = true /\ Js.isWhitespace c = false
  /\ (isLowerHex c = true -> lowerUnit c = c).
Proof.
  intros H.
  assert (E : implb (isHex c)
                (isLowerHex (lowerUnit c) && negb (Js.isWhitespace c)
                 && implb (isLowerHex c) (lowerUnit c =? c)%N) = true).
  { apply (small_units (fun c => implb (isHex c)
                (isLowerHex (lowerUnit c) && negb (Js.isWhitespace c)
                 && implb (isLowerHex c) (lowerUnit c =? c)%N)));
      [vm_compute; reflexivity | apply isHex_small, H]. }
  rewrite H in E. cbn [implb] in E.
  apply andb_true_iff in E. destruct E as [E E3].
  apply andb_true_iff in E. destruct E as [E1 E2].
  split; [exact E1|]. split; [destruct (Js.isWhitespace c); [discriminate | reflexivity]|].
  intros Hl. rewrite Hl in E3. apply N.eqb_eq. exact E3.
Qed.

Lemma lowerHex_hex (c : N) : isLowerHex c = true -> isHex c = true.
Proof. unfold isHex, isLowerHex. intros ->. reflexivity. Qed.

Lemma toLowerCase_lowerHex (s : jsstring) :
  forallb isHex s = true -> forallb isLowerHex (toLowerCase s) = true.
Proof.
  unfold toLowerCase. induction s as [|c r IH]; cbn [forallb map]; [reflexivity|].
  intros H. apply andb_true_iff in H. destruct H as [Hc Hr].
  rewrite (proj1 (hex_unit c Hc)), (IH Hr). reflexivity.
Qed.

Lemma toLowerCase_fixed (s : jsstring) :
  forallb isLowerHex s = true -> toLowerCase s = s.
Proof.
  unfold toLowerCase. induction s as [|c r IH]; cbn [forallb map]; [reflexivity|].
  intros H. apply andb_true_iff in H. destruct H as [Hc Hr].
  rewrite (IH Hr). f_equal. apply (hex_unit c (lowerHex_hex c Hc)), Hc.
Qed.

Lemma trimStart_fixed (s : jsstring) :
  forallb (fun c => negb (Js.isWhitespace c)) s = true -> Js.trimStart s = s.
Proof.
  destruct s as [|c r]; cbn [forallb Js.trimStart]; [reflexivity|].
  intros H. apply andb_true_iff in H. destruct H as [Hc _].
  destruct (Js.isWhitespace c); [discriminate | reflexivity].
Qed.

Lemma trim_fixed (s : jsstring) :
  forallb (fun c => negb (Js.isWhitespace c)) s = true -> Js.trim s = s.
Proof.
  intros H. unfold Js.trim, Js.trimEnd. rewrite (trimStart_fixed s H).
  rewrite trimStart_fixed; [apply rev_involutive|].
  rewrite forallb_forall in *. intros c Hc. apply H. apply in_rev. exact Hc.
Qed.

Lemma lowerHex_no_space (s : jsstring) :
  forallb isLowerHex s = true -> forallb (fun c => negb (Js.isWhitespace c)) s = true.
Proof.
  rewrite !forallb_forall. intros H c Hc.
  rewrite (proj1 (proj2 (hex_unit c (lowerHex_hex c (H c Hc))))). reflexivity.
Qed.

Lemma canonical_fixed (s : jsstring) : canonical s = true -> normalizeMachineId s = Some s.
Proof.
  unfold canonical. intros H. apply andb_true_iff in H. destruct H as [Hlen Hhex].
  unfold normalizeMachineId. cbv zeta. rewrite (trim_fixed s (lowerHex_no_space s Hhex)).
  rewrite Hlen. cbn [andb].
  assert (Ha : allHex s = true).
  { unfold allHex. destruct s as [|c r]; [discriminate|].
    rewrite forallb_forall in *. intros x Hx. apply lowerHex_hex, Hhex, Hx. }
  rewrite Ha, (toLowerCase_fixed s Hhex). reflexivity.
Qed.

Lemma allHex_forallb (s : jsstring) : allHex s = true -> forallb isHex s = true.
Proof. destruct s; [discriminate | auto]. Qed.

(** Whatever [normalizeMachineId] accepts comes out as 64 digits of
    [0-9a-f], and normalising the result again changes nothing. *)
Theorem normalizeMachineId_canonical (machineId result : jsstring) :
  normalizeMachineId machineId = Some result ->
  length result = 64%nat
  /\ forallb isLowerHex result = true
  /\ normalizeMachineId result = Some result.
Proof.
  intros H.
  assert (Hc : canonical result = true).
  { unfold normalizeMachineId in H. cbv zeta in H. unfold canonical.
    destruct ((length (Js.trim machineId) =? 64)%nat && allHex (Js.trim machineId)) eqn:E1.
    - injection H as <-. apply andb_true_iff in E1. destruct E1 as [Hl Ha].
      unfold toLowerCase at 1. rewrite length_map, Hl. cbn [andb].
      apply toLowerCase_lowerHex, allHex_forallb, Ha.
    - destruct ((length (removeDashes (Js.trim machineId)) =? 32)%nat
                && allHex (removeDashes (Js.trim machineId))) eqn:E2; [|discriminate].
      injection H as <-. apply andb_true_iff in E2. destruct E2 as [Hl Ha].
      apply Nat.eqb_eq in Hl. unfold toLowerCase at 1.
      rewrite length_map, length_app, Hl. cbn [Nat.add Nat.eqb andb].
      apply toLowerCase_lowerHex. rewrite forallb_app.
      rewrite (allHex_forallb _ Ha). reflexivity. }
  split; [|split].
  - unfold canonical in Hc. apply andb_true_iff in Hc. apply Nat.eqb_eq, Hc.
  - unfold canonical in Hc. apply andb_true_iff in Hc. apply Hc.
  - apply canonical_fixed, Hc.
Qed.

Lemma normalizeMachineId_canonical_witness :
  let result := js "123e4567e89b12d3a456426614174abc123e4567e89b12d3a456426614174abc" in
  length result = 64%nat
  /\ forallb isLowerHex result = true
  /\ normalizeMachineId result = Some result.
Proof.
  apply (normalizeMachineId_canonical (js "  123E4567-e89b-12d3-A456-426614174ABC ")).
  vm_compute. reflexivity.
Defined.

End MachineId.

(* ================================================================== *)
(** * The tool uses the decoder reports (src/lib/types.ts)             *)
(* ================================================================== *)

Module KiroApiFacts.
Import KiroApi.

(** The tool-use id a callback announces with [isStart], and the one it
    delivers as a complete tool use. *)
Definition announcedBy (c : Callback) : option jsstring :=
  match c with
  | OnChunk _ _ _ (Some s) => if s_isStart s then Some (s_toolUseId s) else None
  | _ => None
  end.

Definition deliveredBy (c : Callback) : option jsstring :=
  match c with
  | OnChunk _ (Some tu) _ _ => Some (toolUseId tu)
  | _ => None
  end.

Definition announced (cbs : list Callback) : list jsstring := omap announcedBy cbs.
Definition delivered (cbs : list Callback) : list jsstring := omap deliveredBy cbs.

Definition keys (m : Buffers) : list jsstring := map fst m.

(** Each buffer sits under its own id, and no id has two buffers. *)
Definition tidy (m : Buffers) : Prop :=
  List.NoDup (keys m) /\ Forall (fun kv => b_toolUseId (snd kv) = fst kv) m.

Lemma NoDup_snoc (x : jsstring) (l : list jsstring) :
  List.NoDup l -> ~ In x l -> List.NoDup (l ++ [x]).
Proof.
  intros Hl Hx. apply List.NoDup_app; [exact Hl | constructor; [intros [] | constructor] |].
  intros y Hy [<-|[]]. exact (Hx Hy).
Qed.

Lemma eqb_true (a b : jsstring) : Js.eqb a b = true <-> a = b.
Proof. unfold Js.eqb. apply bool_decide_eq_true. Qed.

Lemma eqb_false (a b : jsstring) : Js.eqb a b = false <-> a <> b.
Proof. unfold Js.eqb. apply bool_decide_eq_false. Qed.

Lemma get_None (id : jsstring) (m : Buffers) : get id m = None <-> ~ In id (keys m).
Proof.
  induction m as [|[k v] r IH]; cbn [get keys map fst In]; [tauto|].
  destruct (Js.eqb id k) eqn:E.
  - apply eqb_true in E. subst. split; [discriminate | tauto].
  - apply eqb_false in E. unfold keys in IH. rewrite IH.
    split; [intros H [->|H']; tauto | tauto].
Qed.

Lemma get_Some (id : jsstring) (v : ToolUseState) (m : Buffers) :
  get id m = Some v -> In (id, v) m.
Proof.
  induction m as [|[k w] r IH]; cbn [get In]; [discriminate|].
  destruct (Js.eqb id k) eqn:E.
  - apply eqb_true in E. subst. intros [= ->]. apply in_eq.
  - intros H. apply in_cons, IH, H.
Qed.

Lemma get_Some_key (id : jsstring) (v : ToolUseState) (m : Buffers) :
  get id m = Some v -> In id (keys m).
Proof. intros H. apply get_Some in H. apply (in_map fst) in H. exact H. Qed.

Lemma keys_set (id : jsstring) (v : ToolUseState) (m : Buffers) :
  keys (set id v m) = if has id m then keys m else keys m ++ [id].
Proof.
  unfold has. induction m as [|[k w] r IH]; cbn [set get keys map fst app]; [reflexivity|].
  destruct (Js.eqb id k) eqn:E; cbn [map fst]; [reflexivity|].
  unfold keys in IH. rewrite IH. destruct (get id r); reflexivity.
Qed.

Lemma In_set (id : jsstring) (v : ToolUseState) (m : Buffers) (kv : jsstring * ToolUseState) :
  In kv (set id v m) -> fst kv = id /\ snd kv = v \/ In kv m.
Proof.
  induction m as [|[k w] r IH]; cbn [set In].
  - intros [<-|[]]. left. split; reflexivity.
  - destruct (Js.eqb id k) eqn:E.
    + apply eqb_true in E. subst. intros [<-|H]; [left; split; reflexivity | tauto].
    + intros [<-|H]; [tauto|]. destruct (IH H); tauto.
Qed.

Lemma tidy_set (id : jsstring) (v : ToolUseState) (m : Buffers) :
  b_toolUseId v = id -> tidy m -> tidy (set id v m).
Proof.
  intros Hv [Hnd Hall]. split.
  - rewrite keys_set. unfold has. destruct (get id m) eqn:E; [exact Hnd|].
    apply get_None in E. apply NoDup_snoc; assumption.
  - rewrite List.Forall_forall in *. intros kv Hin.
    destruct (In_set _ _ _ _ Hin) as [[-> ->]|H]; [exact Hv | apply Hall, H].
Qed.

Lemma tidy_lookup (id : jsstring) (st : ToolUseState) (m : Buffers) :
  tidy m -> get id m = Some st -> b_toolUseId st = id.
Proof.
  intros [_ Hall] H. rewrite List.Forall_forall in Hall.
  apply (Hall _ (get_Some _ _ _ H)).
Qed.

Lemma keys_kept (id : jsstring) (st v : ToolUseState) (m : Buffers) :
  get id m = Some st -> keys (set id v m) = keys m.
Proof. intros H. rewrite keys_set. unfold has. rewrite H. reflexivity. Qed.

Lemma appendInput_spec (id i : jsstring) (m : Buffers) :
  tidy m -> tidy (appendInput id i m) /\ keys (appendInput id i m) = keys m.
Proof.
  intros Ht. unfold appendInput. destruct (get id m) as [s|] eqn:E; [|tauto].
  destruct (_ <? _); [tauto|]. split.
  - apply tidy_set; [|exact Ht]. cbn. apply (tidy_lookup _ _ _ Ht E).
  - apply (keys_kept _ _ _ _ E).
Qed.

Lemma setInput_spec (id i : jsstring) (m : Buffers) :
  tidy m -> tidy (setInput id i m) /\ keys (setInput id i m) = keys m.
Proof.
  intros Ht. unfold setInput. destruct (get id m) as [s|] eqn:E; [|tauto]. split.
  - apply tidy_set; [|exact Ht]. cbn. apply (tidy_lookup _ _ _ Ht E).
  - apply (keys_kept _ _ _ _ E).
Qed.

Lemma getOrCreate_spec (now : Z) (id nm : jsstring) (m : Buffers) :
  tidy m ->
  tidy (getOrCreate now id nm m)
  /\ keys (getOrCreate now id nm m) = keys m ++ (if has id m then [] else [id]).
Proof.
  intros Ht. unfold getOrCreate, has. destruct (get id m) as [s|] eqn:E.
  - rewrite app_nil_r. tauto.
  - split; [apply tidy_set; [reflexivity | exact Ht]|].
    rewrite keys_set. unfold has. rewrite E. reflexivity.
Qed.

Lemma keys_delete (id k : jsstring) (m : Buffers) :
  In k (keys (delete id m)) <-> k <> id /\ In k (keys m).
Proof.
  unfold delete, keys. rewrite !in_map_iff. split.
  - intros (kv & <- & Hin). apply filter_In in Hin. destruct Hin as [Hin Hne].
    apply negb_true_iff, eqb_false in Hne. split; [congruence|]. exists kv. tauto.
  - intros (Hne & kv & <- & Hin). exists kv. split; [reflexivity|].
    apply filter_In. split; [exact Hin|]. apply negb_true_iff, eqb_false. congruence.
Qed.

Lemma tidy_delete (id : jsstring) (m : Buffers) : tidy m -> tidy (delete id m).
Proof.
  intros [Hnd Hall]. split.
  - unfold delete, keys in *. clear Hall. induction m as [|kv r IH]; cbn [List.filter map]; [constructor|].
    inversion Hnd as [|? ? Hn Hr]; subst.
    destruct (negb _); [|apply IH, Hr]. cbn [map]. constructor; [|apply IH, Hr].
    intros Hin. apply Hn. apply in_map_iff in Hin. destruct Hin as (x & Hx & Hin).
    apply filter_In in Hin. apply in_map_iff. exists x. tauto.
  - unfold delete. rewrite List.Forall_forall in *. intros kv Hin.
    apply filter_In in Hin. apply Hall, Hin.
Qed.

(** One [toolUseEvent] for an id not yet processed, in three parts: the
    buffers after the input was recorded, what was announced on the way,
    and the completion when [stop] is set. *)
Lemma onToolUseEvent_spec (now : Z) (tuId tuName : jsstring) (inp : ToolInput)
    (isStop : bool) (d : Decoder) :
  isProcessed d tuId = false -> tidy (toolBuffers d) ->
  let isNew := Js.truthy tuId && Js.truthy tuName && negb (has tuId (toolBuffers d)) in
  exists m3 pre,
    tidy m3
    /\ keys m3 = keys (toolBuffers d) ++ (if isNew then [tuId] else [])
    /\ announced pre = (if isNew then [tuId] else [])
    /\ delivered pre = []
    /\ onToolUseEvent now tuId tuName inp isStop d
       = match (if isStop && Js.truthy tuId then get tuId m3 else None) with
         | Some st =>
             (pre ++ [streamChunk (b_toolUseId st) None None false true;
                      toolChunk (b_toolUseId st) (b_name st) (stopInput (inputBuffer st))],
              markProcessed (withBuffers d (delete tuId m3)) (b_toolUseId st))
         | None => (pre, withBuffers d m3)
         end.
Proof.
  intros Hp Ht isNew. unfold onToolUseEvent. rewrite Hp.
  set (m1 := if Js.truthy tuId && Js.truthy tuName
             then getOrCreate now tuId tuName (toolBuffers d) else toolBuffers d).
  assert (H1 : tidy m1 /\ keys m1 = keys (toolBuffers d) ++ (if isNew then [tuId] else [])).
  { unfold m1, isNew. destruct (Js.truthy tuId && Js.truthy tuName); cbn [andb].
    - destruct (getOrCreate_spec now tuId tuName _ Ht) as [Ha Hb]. split; [exact Ha|].
      rewrite Hb. destruct (has tuId (toolBuffers d)); reflexivity.
    - rewrite app_nil_r. tauto. }
  destruct H1 as [Ht1 Hk1].
  set (c1 := if isNew then [streamChunk tuId (Some tuName) None true false] else []).
  assert (Hc1 : announced c1 = (if isNew then [tuId] else []) /\ delivered c1 = []).
  { unfold c1. destruct isNew; split; reflexivity. }
  destruct Hc1 as [Ha1 Hd1].
  set (frag := match inp with InputString f => f | _ => [] end).
  set (step2 := if Js.truthy tuId && Js.truthy frag
                then ([streamChunk tuId None (Some frag) false false], appendInput tuId frag m1)
                else ([], m1)).
  assert (H2 : tidy (snd step2) /\ keys (snd step2) = keys m1
               /\ announced (fst step2) = [] /\ delivered (fst step2) = []).
  { unfold step2. destruct (Js.truthy tuId && Js.truthy frag); cbn [fst snd].
    - destruct (appendInput_spec tuId frag m1 Ht1). (split; [|split; [|split]]; first [assumption | reflexivity]).
    - (split; [|split; [|split]]; first [assumption | reflexivity]). }
  destruct step2 as [c2 m2]. cbn [fst snd] in H2. destruct H2 as (Ht2 & Hk2 & Ha2 & Hd2).
  set (step3 := match match inp with InputObject o => Some o | _ => None end with
                | Some o =>
                    if Js.truthy tuId
                    then ([streamChunk tuId None (Some (Json.stringify o)) false false],
                          setInput tuId (Json.stringify o) m2)
                    else ([], m2)
                | None => ([], m2)
                end).
  assert (H3 : tidy (snd step3) /\ keys (snd step3) = keys m2
               /\ announced (fst step3) = [] /\ delivered (fst step3) = []).
  { unfold step3. destruct inp as [f|o|]; cbn [fst snd]; try ((split; [|split; [|split]]; first [assumption | reflexivity])).
    destruct (Js.truthy tuId); cbn [fst snd]; [|(split; [|split; [|split]]; first [assumption | reflexivity])].
    destruct (setInput_spec tuId (Json.stringify o) m2 Ht2). (split; [|split; [|split]]; first [assumption | reflexivity]). }
  destruct step3 as [c3 m3]. cbn [fst snd] in H3. destruct H3 as (Ht3 & Hk3 & Ha3 & Hd3).
  exists m3, (c1 ++ c2 ++ c3). split; [exact Ht3|]. split; [congruence|].
  split; [unfold announced in *; rewrite !omap_app, Ha1, Ha2, Ha3, !app_nil_r; reflexivity|].
  split; [unfold delivered in *; rewrite !omap_app, Hd1, Hd2, Hd3; reflexivity|].
  destruct (isStop && Js.truthy tuId); [|reflexivity].
  destruct (get tuId m3) as [st|]; [|reflexivity].
  rewrite <- !app_assoc. reflexivity.
Qed.

(** What holds between the decoder state and the ids announced and
    delivered so far. *)
Record inv (d : Decoder) (started finished : list jsstring) : Prop := {
  inv_tidy : tidy (toolBuffers d);
  inv_started : List.NoDup started;
  inv_finished : List.NoDup finished;
  inv_processed : forall id, In id finished <-> id ∈ processedIds d;
  inv_open : forall id, In id started <-> id ∈ processedIds d \/ In id (keys (toolBuffers d));
  inv_apart : forall id, In id (keys (toolBuffers d)) -> id ∉ processedIds d
}.

Lemma NoDup_snoc_if (b : bool) (x : jsstring) (l : list jsstring) :
  List.NoDup l -> (b = true -> ~ In x l) -> List.NoDup (l ++ (if b then [x] else [])).
Proof.
  intros Hl Hx. destruct b; [|rewrite app_nil_r; exact Hl].
  apply NoDup_snoc; [exact Hl | exact (Hx eq_refl)].
Qed.

Lemma onToolUseEvent_inv (now : Z) (tuId tuName : jsstring) (inp : ToolInput)
    (isStop : bool) (d : Decoder) (started finished : list jsstring) :
  inv d started finished ->
  inv (snd (onToolUseEvent now tuId tuName inp isStop d))
      (started ++ announced (fst (onToolUseEvent now tuId tuName inp isStop d)))
      (finished ++ delivered (fst (onToolUseEvent now tuId tuName inp isStop d))).
Proof.
  intros [Ht Hs Hf Hp Ho Ha].
  destruct (isProcessed d tuId) eqn:Epr.
  { unfold onToolUseEvent. rewrite Epr. cbn [fst snd announced delivered omap].
    rewrite !app_nil_r. split; assumption. }
  destruct (onToolUseEvent_spec now tuId tuName inp isStop d Epr Ht)
    as (m3 & pre & Ht3 & Hk3 & Hpa & Hpd & ->).
  unfold isProcessed in Epr. apply bool_decide_eq_false in Epr.
  set (isNew := Js.truthy tuId && Js.truthy tuName && negb (has tuId (toolBuffers d))) in *.
  assert (Hnew : isNew = true -> ~ In tuId started).
  { intros E. unfold isNew in E. apply andb_true_iff in E. destruct E as [_ E].
    apply negb_true_iff in E. unfold has in E.
    destruct (get tuId (toolBuffers d)) eqn:G; [discriminate|]. apply get_None in G.
    rewrite Ho. tauto. }
  assert (Hk : forall id, In id (keys m3) <-> In id (keys (toolBuffers d)) \/ (isNew = true /\ id = tuId)).
  { intros id. rewrite Hk3, in_app_iff. destruct isNew; cbn [In]; intuition congruence. }
  assert (Hs' : forall id, In id (started ++ announced pre) <-> id ∈ processedIds d \/ In id (keys m3)).
  { intros id. rewrite in_app_iff, Hpa, Ho, Hk. destruct isNew; cbn [In]; intuition congruence. }
  destruct (if isStop && Js.truthy tuId then get tuId m3 else None) as [st|] eqn:Eg.
  - assert (G : get tuId m3 = Some st) by (destruct (isStop && Js.truthy tuId); [exact Eg | discriminate]).
    pose proof (tidy_lookup _ _ _ Ht3 G) as Hid. rewrite Hid.
    cbn [fst snd]. unfold announced, delivered in *. rewrite !omap_app.
    fold (announced pre). fold (delivered pre).
    unfold announced, delivered in *. rewrite Hpa, Hpd.
    cbn [omap announcedBy deliveredBy streamChunk toolChunk s_isStart toolUseId app].
    cbn. rewrite app_nil_r.
    split; cbn [toolBuffers processedIds markProcessed withBuffers].
    + apply tidy_delete, Ht3.
    + apply NoDup_snoc_if; assumption.
    + apply NoDup_snoc; [exact Hf|]. intros Hy. apply Epr, Hp, Hy.
    + intros id. rewrite in_app_iff, Hp, elem_of_union, elem_of_singleton. cbn [In].
      intuition congruence.
    + intros id. rewrite keys_delete.
      assert (Hin : In tuId (keys m3)) by (apply (get_Some_key _ _ _ G)).
      specialize (Hs' id). unfold announced in Hs'. rewrite Hpa in Hs'. rewrite Hs'.
      rewrite elem_of_union, elem_of_singleton.
      destruct (decide (id = tuId)) as [->|Hne]; intuition.
    + intros id Hin. apply keys_delete in Hin. destruct Hin as [Hne Hin].
      apply Hk in Hin. destruct Hin as [Hin|[_ ->]]; [|congruence].
      specialize (Ha id Hin). rewrite elem_of_union, elem_of_singleton. intuition.
  - cbn [fst snd]. rewrite Hpd, app_nil_r. rewrite Hpa.
    split; cbn [toolBuffers processedIds withBuffers]; try assumption.
    + apply NoDup_snoc_if; assumption.
    + intros id. specialize (Hs' id). rewrite Hpa in Hs'. exact Hs'.
    + intros id Hin. apply Hk in Hin. destruct Hin as [Hin|[_ ->]]; [apply Ha, Hin | exact Epr].
Qed.

Lemma runToolEvents_inv (now : Z) (evs : list (jsstring * jsstring * ToolInput * bool)) :
  forall d started finished,
    inv d started finished ->
    inv (snd (runToolEvents now evs d))
        (started ++ announced (fst (runToolEvents now evs d)))
        (finished ++ delivered (fst (runToolEvents now evs d))).
Proof.
  induction evs as [|[[[id nm] inp] stop] r IH]; intros d started finished Hinv.
  - cbn. rewrite !app_nil_r. exact Hinv.
  - cbn [runToolEvents].
    pose proof (onToolUseEvent_inv now id nm inp stop d started finished Hinv) as H1.
    destruct (onToolUseEvent now id nm inp stop d) as [c d1]. cbn [fst snd] in H1.
    specialize (IH d1 _ _ H1).
    destruct (runToolEvents now r d1) as [cs d2]. cbn [fst snd] in *.
    unfold announced, delivered in *. rewrite !omap_app, !app_assoc. exact IH.
Qed.

Lemma flushIncomplete_delivers (states : list ToolUseState) :
  forall seen,
    List.NoDup (map b_toolUseId states) ->
    (forall st, In st states -> b_toolUseId st ∉ seen) ->
    delivered (flushIncomplete states seen) = map b_toolUseId states
    /\ announced (flushIncomplete states seen) = [].
Proof.
  induction states as [|st r IH]; intros seen Hnd Hout; cbn [flushIncomplete map].
  - split; reflexivity.
  - inversion Hnd as [|? ? Hn Hr]; subst.
    rewrite bool_decide_eq_false_2 by (apply Hout, in_eq).
    destruct (IH ({[b_toolUseId st]} ∪ seen) Hr) as [Hd Han].
    + intros st' Hin. specialize (Hout st' (in_cons _ _ _ Hin)).
      assert (b_toolUseId st' <> b_toolUseId st)
        by (intros E; apply Hn; rewrite <- E; apply in_map, Hin).
      rewrite elem_of_union, elem_of_singleton. intuition.
    + unfold delivered, announced in *. cbn. rewrite Hd, Han. split; reflexivity.
Qed.

Lemma tidy_ids (m : Buffers) : tidy m -> map b_toolUseId (getIncomplete m) = keys m.
Proof.
  intros [_ Hall]. unfold getIncomplete, keys. rewrite map_map.
  apply map_ext_in. rewrite List.Forall_forall in Hall. exact Hall.
Qed.

(** Over a stream of [toolUseEvent] frames followed by the end of the
    stream, whatever the frames hold (repeated ids, missing names, frames
    for an id after its [stop]): no tool-use id is announced twice, none
    is delivered as a complete tool use twice, and the ids delivered are
    exactly the ids announced. *)
Theorem tool_uses_delivered_once (now : Z)
    (evs : list (jsstring * jsstring * ToolInput * bool))
    (inputPayload : jsstring) (thinkingEnabled : bool) :
  let run := runToolEvents now evs (start inputPayload) in
  let calls := fst run ++ endOfStream thinkingEnabled (snd run) in
  List.NoDup (announced calls)
  /\ List.NoDup (delivered calls)
  /\ (forall id, In id (announced calls) <-> In id (delivered calls)).
Proof.
  cbv zeta.
  assert (H0 : inv (start inputPayload) [] []).
  { split; cbn [start toolBuffers processedIds keys map].
    - split; constructor.
    - constructor.
    - constructor.
    - intros id. split; [intros [] | intros H; apply elem_of_empty in H; exact H].
    - intros id. split; [intros [] | intros [H|[]]; apply elem_of_empty in H; exact H].
    - intros id []. }
  pose proof (runToolEvents_inv now evs _ _ _ H0) as [Ht Hs Hf Hp Ho Ha].
  cbn [app] in *.
  destruct (runToolEvents now evs (start inputPayload)) as [cbs d]. cbn [fst snd] in *.
  destruct (flushIncomplete_delivers (getIncomplete (toolBuffers d)) (processedIds d))
    as [Hd Han].
  { rewrite (tidy_ids _ Ht). apply Ht. }
  { intros st Hin. apply Ha. rewrite <- (tidy_ids _ Ht). apply in_map, Hin. }
  rewrite (tidy_ids _ Ht) in Hd.
  assert (Ea : announced (cbs ++ endOfStream thinkingEnabled d) = announced cbs).
  { unfold endOfStream, announced in *. rewrite !omap_app, Han.
    unfold flushThinking. destruct (Js.truthy _); cbn; rewrite app_nil_r; reflexivity. }
  assert (Ed : delivered (cbs ++ endOfStream thinkingEnabled d)
               = delivered cbs ++ keys (toolBuffers d)).
  { unfold endOfStream, delivered in *. rewrite !omap_app, Hd.
    unfold flushThinking. destruct (Js.truthy _); cbn; rewrite app_nil_r; reflexivity. }
  rewrite Ea, Ed. split; [exact Hs|]. split.
  - apply List.NoDup_app; [exact Hf | apply Ht |].
    intros id H1 H2. apply (Ha id H2), Hp, H1.
  - intros id. rewrite in_app_iff, Ho, Hp. tauto.
Qed.

End KiroApiFacts.

(* ================================================================== *)
(** * The OpenAI stream (src/lib/stream.ts, src/main.ts)               *)
(* ================================================================== *)

Module OpenAIStream.

(** *** The events of [openaiSSE]

    A chunk is kept as the arguments [openaiSSE.chunk] serialises; [id],
    [model] and [created] are left out.  The [toolCalls] argument is
    always an array of one element, of one of two forms. *)

Inductive ToolCallDelta :=
| callStart (index : Z) (id name : jsstring)
| callArguments (index : Z) (arguments : jsstring).

Record UsageInfo := {
  prompt_tokens : Z;
  completion_tokens : Z;
  total_tokens : Z;
  cached_tokens : option Z;
  reasoning_tokens : option Z
}.

Inductive Event :=
| chunk (content role : option jsstring) (toolCalls : option ToolCallDelta)
        (finishReason : option jsstring) (usage : option UsageInfo)
        (reasoningContent : option jsstring)
| done
| errorData (message : jsstring).

(** *** [OpenAIStreamHandler] *)

Record OpenAIStreamHandlerOptions := {
  model : jsstring;
  requestId : jsstring;
  enableThinkingParsing : bool
}.

Record ToolCall := { tc_id : jsstring; tc_name : jsstring; tc_arguments : jsstring }.

Record CurrentToolCall := {
  c_id : jsstring;
  c_name : jsstring;
  c_index : Z;
  argumentsBuffer : list jsstring;
  argumentsBufferSize : Z
}.

Record Handler := {
  thinkingParser : ThinkingParser.Parser;
  responseBuffer : list jsstring;
  thinkingBuffer : list jsstring;
  outputTokens : Z;
  started : bool;
  responseBufferSize : Z;
  thinkingBufferSize : Z;
  bufferOverflowWarned : bool;
  toolCalls : list ToolCall;
  currentToolCall : option CurrentToolCall;
  toolCallIndex : Z;
  processedToolUseIds : gset jsstring;
  responseEnded : bool;
  stopReasonOverride : option jsstring
}.

Definition newHandler : Handler :=
  {| thinkingParser := ThinkingParser.fresh; responseBuffer := []; thinkingBuffer := [];
     outputTokens := 0; started := false; responseBufferSize := 0; thinkingBufferSize := 0;
     bufferOverflowWarned := false; toolCalls := []; currentToolCall := None;
     toolCallIndex := 0; processedToolUseIds := ∅; responseEnded := false;
     stopReasonOverride := None |}.

(** A method of the handler: the events it passes to [onWrite], in order,
    and the handler afterwards. *)
Definition Action : Type := Handler -> list Event * Handler.

Definition skip : Action := fun h => ([], h).
Definition onWrite (e : Event) : Action := fun h => ([e], h).
Definition andThen (a b : Action) : Action := fun h =>
  let '(written, h1) := a h in
  let '(more, h2) := b h1 in
  (written ++ more, h2).

Declare Scope openai_scope.
Delimit Scope openai_scope with openai.
Bind Scope openai_scope with Action.
Notation "a ;; b" := (andThen a b)
  (at level 100, b at level 200, right associativity) : openai_scope.
Local Open Scope openai_scope.

(** Assignments to one field of the handler. *)
Definition set_thinkingParser (v : ThinkingParser.Parser) : Action := fun h =>
  ([],
    {| thinkingParser := v; responseBuffer := responseBuffer h; thinkingBuffer :=
       thinkingBuffer h; outputTokens := outputTokens h; started := started h;
       responseBufferSize := responseBufferSize h; thinkingBufferSize := thinkingBufferSize
       h; bufferOverflowWarned := bufferOverflowWarned h; toolCalls := toolCalls h;
       currentToolCall := currentToolCall h; toolCallIndex := toolCallIndex h;
       processedToolUseIds := processedToolUseIds h; responseEnded := responseEnded h;
       stopReasonOverride := stopReasonOverride h |}).
Definition set_responseBuffer (v : list jsstring) : Action := fun h =>
  ([],
    {| thinkingParser := thinkingParser h; responseBuffer := v; thinkingBuffer :=
       thinkingBuffer h; outputTokens := outputTokens h; started := started h;
       responseBufferSize := responseBufferSize h; thinkingBufferSize := thinkingBufferSize
       h; bufferOverflowWarned := bufferOverflowWarned h; toolCalls := toolCalls h;
       currentToolCall := currentToolCall h; toolCallIndex := toolCallIndex h;
       processedToolUseIds := processedToolUseIds h; responseEnded := responseEnded h;
       stopReasonOverride := stopReasonOverride h |}).
Definition set_thinkingBuffer (v : list jsstring) : Action := fun h =>
  ([],
    {| thinkingParser := thinkingParser h; responseBuffer := responseBuffer h;
       thinkingBuffer := v; outputTokens := outputTokens h; started := started h;
       responseBufferSize := responseBufferSize h; thinkingBufferSize := thinkingBufferSize
       h; bufferOverflowWarned := bufferOverflowWarned h; toolCalls := toolCalls h;
       currentToolCall := currentToolCall h; toolCallIndex := toolCallIndex h;
       processedToolUseIds := processedToolUseIds h; responseEnded := responseEnded h;
       stopReasonOverride := stopReasonOverride h |}).
Definition set_outputTokens (v : Z) : Action := fun h =>
  ([],
    {| thinkingParser := thinkingParser h; responseBuffer := responseBuffer h;
       thinkingBuffer := thinkingBuffer h; outputTokens := v; started := started h;
       responseBufferSize := responseBufferSize h; thinkingBufferSize := thinkingBufferSize
       h; bufferOverflowWarned := bufferOverflowWarned h; toolCalls := toolCalls h;
       currentToolCall := currentToolCall h; toolCallIndex := toolCallIndex h;
       processedToolUseIds := processedToolUseIds h; responseEnded := responseEnded h;
       stopReasonOverride := stopReasonOverride h |}).
Definition set_started (v : bool) : Action := fun h =>
  ([],
    {| thinkingParser := thinkingParser h; responseBuffer := responseBuffer h;
       thinkingBuffer := thinkingBuffer h; outputTokens := outputTokens h; started := v;
       responseBufferSize := responseBufferSize h; thinkingBufferSize := thinkingBufferSize
       h; bufferOverflowWarned := bufferOverflowWarned h; toolCalls := toolCalls h;
       currentToolCall := currentToolCall h; toolCallIndex := toolCallIndex h;
       processedToolUseIds := processedToolUseIds h; responseEnded := responseEnded h;
       stopReasonOverride := stopReasonOverride h |}).
Definition set_responseBufferSize (v : Z) : Action := fun h =>
  ([],
    {| thinkingParser := thinkingParser h; responseBuffer := responseBuffer h;
       thinkingBuffer := thinkingBuffer h; outputTokens := outputTokens h; started :=
       started h; responseBufferSize := v; thinkingBufferSize := thinkingBufferSize h;
       bufferOverflowWarned := bufferOverflowWarned h; toolCalls := toolCalls h;
       currentToolCall := currentToolCall h; toolCallIndex := toolCallIndex h;
       processedToolUseIds := processedToolUseIds h; responseEnded := responseEnded h;
       stopReasonOverride := stopReasonOverride h |}).
Definition set_thinkingBufferSize (v : Z) : Action := fun h =>
  ([],
    {| thinkingParser := thinkingParser h; responseBuffer := responseBuffer h;
       thinkingBuffer := thinkingBuffer h; outputTokens := outputTokens h; started :=
       started h; responseBufferSize := responseBufferSize h; thinkingBufferSize := v;
       bufferOverflowWarned := bufferOverflowWarned h; toolCalls := toolCalls h;
       currentToolCall := currentToolCall h; toolCallIndex := toolCallIndex h;
       processedToolUseIds := processedToolUseIds h; responseEnded := responseEnded h;
       stopReasonOverride := stopReasonOverride h |}).
Definition set_bufferOverflowWarned (v : bool) : Action := fun h =>
  ([],
    {| thinkingParser := thinkingParser h; responseBuffer := responseBuffer h;
       thinkingBuffer := thinkingBuffer h; outputTokens := outputTokens h; started :=
       started h; responseBufferSize := responseBufferSize h; thinkingBufferSize :=
       thinkingBufferSize h; bufferOverflowWarned := v; toolCalls := toolCalls h;
       currentToolCall := currentToolCall h; toolCallIndex := toolCallIndex h;
       processedToolUseIds := processedToolUseIds h; responseEnded := responseEnded h;
       stopReasonOverride := stopReasonOverride h |}).
Definition set_toolCalls (v : list ToolCall) : Action := fun h =>
  ([],
    {| thinkingParser := thinkingParser h; responseBuffer := responseBuffer h;
       thinkingBuffer := thinkingBuffer h; outputTokens := outputTokens h; started :=
       started h; responseBufferSize := responseBufferSize h; thinkingBufferSize :=
       thinkingBufferSize h; bufferOverflowWarned := bufferOverflowWarned h; toolCalls :=
       v; currentToolCall := currentToolCall h; toolCallIndex := toolCallIndex h;
       processedToolUseIds := processedToolUseIds h; responseEnded := responseEnded h;
       stopReasonOverride := stopReasonOverride h |}).
Definition set_currentToolCall (v : option CurrentToolCall) : Action := fun h =>
  ([],
    {| thinkingParser := thinkingParser h; responseBuffer := responseBuffer h;
       thinkingBuffer := thinkingBuffer h; outputTokens := outputTokens h; started :=
       started h; responseBufferSize := responseBufferSize h; thinkingBufferSize :=
       thinkingBufferSize h; bufferOverflowWarned := bufferOverflowWarned h; toolCalls :=
       toolCalls h; currentToolCall := v; toolCallIndex := toolCallIndex h;
       processedToolUseIds := processedToolUseIds h; responseEnded := responseEnded h;
       stopReasonOverride := stopReasonOverride h |}).
Definition set_toolCallIndex (v : Z) : Action := fun h =>
  ([],
    {| thinkingParser := thinkingParser h; responseBuffer := responseBuffer h;
       thinkingBuffer := thinkingBuffer h; outputTokens := outputTokens h; started :=
       started h; responseBufferSize := responseBufferSize h; thinkingBufferSize :=
       thinkingBufferSize h; bufferOverflowWarned := bufferOverflowWarned h; toolCalls :=
       toolCalls h; currentToolCall := currentToolCall h; toolCallIndex := v;
       processedToolUseIds := processedToolUseIds h; responseEnded := responseEnded h;
       stopReasonOverride := stopReasonOverride h |}).
Definition set_processedToolUseIds (v : gset jsstring) : Action := fun h =>
  ([],
    {| thinkingParser := thinkingParser h; responseBuffer := responseBuffer h;
       thinkingBuffer := thinkingBuffer h; outputTokens := outputTokens h; started :=
       started h; responseBufferSize := responseBufferSize h; thinkingBufferSize :=
       thinkingBufferSize h; bufferOverflowWarned := bufferOverflowWarned h; toolCalls :=
       toolCalls h; currentToolCall := currentToolCall h; toolCallIndex := toolCallIndex h;
       processedToolUseIds := v; responseEnded := responseEnded h; stopReasonOverride :=
       stopReasonOverride h |}).
Definition set_responseEnded (v : bool) : Action := fun h =>
  ([],
    {| thinkingParser := thinkingParser h; responseBuffer := responseBuffer h;
       thinkingBuffer := thinkingBuffer h; outputTokens := outputTokens h; started :=
       started h; responseBufferSize := responseBufferSize h; thinkingBufferSize :=
       thinkingBufferSize h; bufferOverflowWarned := bufferOverflowWarned h; toolCalls :=
       toolCalls h; currentToolCall := currentToolCall h; toolCallIndex := toolCallIndex h;
       processedToolUseIds := processedToolUseIds h; responseEnded := v; stopReasonOverride
       := stopReasonOverride h |}).
Definition set_stopReasonOverride (v : option jsstring) : Action := fun h =>
  ([],
    {| thinkingParser := thinkingParser h; responseBuffer := responseBuffer h;
       thinkingBuffer := thinkingBuffer h; outputTokens := outputTokens h; started :=
       started h; responseBufferSize := responseBufferSize h; thinkingBufferSize :=
       thinkingBufferSize h; bufferOverflowWarned := bufferOverflowWarned h; toolCalls :=
       toolCalls h; currentToolCall := currentToolCall h; toolCallIndex := toolCallIndex h;
       processedToolUseIds := processedToolUseIds h; responseEnded := responseEnded h;
       stopReasonOverride := v |}).

Section WithOptions.

Variable options : OpenAIStreamHandlerOptions.

Definition sendInitial : Action := fun h =>
  if started h then skip h
  else (set_started true ;;
        onWrite (chunk None (Some (js "assistant")) None None None None)) h.

Definition emitReasoning (content : jsstring) : Action := fun h =>
  if negb (Js.truthy content) then skip h
  else if Sse.MAX_RESPONSE_BUFFER_CHARS <? thinkingBufferSize h + Js.len content then
    (set_bufferOverflowWarned true ;;
     onWrite (chunk None None None None None (Some content))) h
  else
    (set_thinkingBuffer (thinkingBuffer h ++ [content]) ;;
     set_thinkingBufferSize (thinkingBufferSize h + Js.len content) ;;
     onWrite (chunk None None None None None (Some content))) h.

Definition emitContent (content : jsstring) : Action := fun h =>
  if negb (Js.truthy content) then skip h
  else if Sse.MAX_RESPONSE_BUFFER_CHARS <? responseBufferSize h + Js.len content then
    (set_bufferOverflowWarned true ;;
     onWrite (chunk (Some content) None None None None None)) h
  else
    (set_responseBuffer (responseBuffer h ++ [content]) ;;
     set_responseBufferSize (responseBufferSize h + Js.len content) ;;
     onWrite (chunk (Some content) None None None None None)) h.

Definition emitItem (i : ThinkingParser.Item) : Action :=
  match ThinkingParser.type i with
  | ThinkingParser.thinking => emitReasoning (ThinkingParser.i_content i)
  | ThinkingParser.text => emitContent (ThinkingParser.i_content i)
  end.

Fixpoint emitItems (items : list ThinkingParser.Item) : Action :=
  match items with
  | [] => skip
  | i :: rest => emitItem i ;; emitItems rest
  end.

Definition handleContent (content : jsstring) : Action := fun h =>
  if responseEnded h || negb (Js.truthy content) then skip h
  else
    ((if started h then skip else sendInitial) ;;
     set_outputTokens (outputTokens h + TokenCount.countTokens content) ;;
     if enableThinkingParsing options then
       let '(items, parser) := ThinkingParser.process content (thinkingParser h) in
       set_thinkingParser parser ;; emitItems items
     else emitContent content) h.

(** The local function [safeAdd] of [handleToolUse]. *)
Definition safeAdd (fragment : jsstring) : Action := fun h =>
  match currentToolCall h with
  | None => skip h
  | Some c =>
      if Sse.MAX_TOOL_INPUT_BUFFER_CHARS <? argumentsBufferSize c + Js.len fragment then
        onWrite (chunk None None (Some (callArguments (c_index c) fragment))
                   None None None) h
      else
        (set_currentToolCall
           (Some {| c_id := c_id c; c_name := c_name c; c_index := c_index c;
                    argumentsBuffer := argumentsBuffer c ++ [fragment];
                    argumentsBufferSize := argumentsBufferSize c + Js.len fragment |}) ;;
         onWrite (chunk None None (Some (callArguments (c_index c) fragment))
                    None None None)) h
  end.

(** [if (toolInput !== undefined && toolInput !== null) { const frag = ...;
    if (frag) safeAdd(frag) }] *)
Definition addInput (toolInput : option Sse.ToolInput) : Action :=
  match Sse.fragmentOf toolInput with
  | Some frag => if Js.truthy frag then safeAdd frag else skip
  | None => skip
  end.

Definition finishToolCall : Action := fun h =>
  match currentToolCall h with
  | None => skip h
  | Some c =>
      (set_toolCalls
         (toolCalls h ++ [{| tc_id := c_id c; tc_name := c_name c;
                             tc_arguments := concat (argumentsBuffer c) |}]) ;;
       set_toolCallIndex (toolCallIndex h + 1) ;;
       set_currentToolCall None) h
  end.

Definition newToolCall (id name : jsstring) (toolInput : option Sse.ToolInput)
    (isStop : bool) : Action := fun h =>
  if bool_decide (id ∈ processedToolUseIds h) then skip h
  else
    (set_processedToolUseIds ({[id]} ∪ processedToolUseIds h) ;;
     set_currentToolCall
       (Some {| c_id := id; c_name := name; c_index := toolCallIndex h;
                argumentsBuffer := []; argumentsBufferSize := 0 |}) ;;
     onWrite (chunk None None (Some (callStart (toolCallIndex h) id name)) None None None) ;;
     addInput toolInput ;;
     (if isStop then finishToolCall else skip)) h.

Definition handleToolUse (toolUseId toolName : option jsstring)
    (toolInput : option Sse.ToolInput) (isStop : bool) : Action := fun h =>
  if responseEnded h then skip h
  else if negb (Sse.truthyId toolUseId) && negb (Sse.truthyId toolName) then
    match currentToolCall h with
    | Some _ => (addInput toolInput ;; (if isStop then finishToolCall else skip)) h
    | None => skip h
    end
  else
    match toolUseId, toolName, currentToolCall h with
    | Some id, Some name, None =>
        if Js.truthy id && Js.truthy name then newToolCall id name toolInput isStop h
        else skip h
    | _, _, Some _ => (addInput toolInput ;; (if isStop then finishToolCall else skip)) h
    | _, _, None => skip h
    end.

Definition finishReason (h : Handler) : jsstring :=
  match stopReasonOverride h with
  | Some (c :: r) => c :: r
  | _ => match toolCalls h with [] => js "stop" | _ => js "tool_calls" end
  end.

Definition finalOutputTokens (h : Handler) : Z :=
  if 0 <? outputTokens h then outputTokens h
  else TokenCount.countTokens (concat (responseBuffer h)).

(** [usage.reasoningTokens || (this.thinkingBuffer.length > 0 ? ... : 0)] *)
Definition reasoningTokensOf (usage : KiroApi.Usage) (h : Handler) : Z :=
  if KiroApi.reasoningTokens usage =? 0 then
    match thinkingBuffer h with
    | [] => 0
    | _ => TokenCount.countTokens (concat (thinkingBuffer h))
    end
  else KiroApi.reasoningTokens usage.

Definition usageInfo (usage : KiroApi.Usage) (h : Handler) : UsageInfo :=
  {| prompt_tokens := KiroApi.inputTokens usage;
     completion_tokens := finalOutputTokens h;
     total_tokens := KiroApi.inputTokens usage + finalOutputTokens h;
     cached_tokens := Sse.whenPositive (Some (KiroApi.cacheReadTokens usage));
     reasoning_tokens := Sse.whenPositive (Some (reasoningTokensOf usage h)) |}.

Definition finish (usage : KiroApi.Usage) : Action := fun h =>
  if responseEnded h then skip h
  else
    (set_responseEnded true ;;
     (if enableThinkingParsing options then
        let '(items, parser) := ThinkingParser.finish (thinkingParser h) in
        set_thinkingParser parser ;; emitItems items
      else skip) ;;
     (fun h' =>
        (onWrite (chunk None None None (Some (finishReason h')) (Some (usageInfo usage h'))
                    None) ;;
         onWrite done) h')) h.

Definition handleContentLengthExceeded : Action :=
  set_stopReasonOverride (Some (js "length")).

Definition handleThinkingOverflow : Action :=
  if enableThinkingParsing options then set_thinkingParser ThinkingParser.fresh else skip.

End WithOptions.

(** *** [handleOpenAIStream]

    The stream of the response: the handler, the events enqueued so far and
    whether the controller is closed.  [enqueue] on a closed controller
    throws, and the callers catch it: the event is dropped. *)
Record Stream := {
  handler : Handler;
  enqueued : list Event;
  closed : bool
}.

Definition enqueue (events : list Event) (s : Stream) : Stream :=
  {| handler := handler s;
     enqueued := if closed s then enqueued s else enqueued s ++ events;
     closed := closed s |}.

Definition call (a : Action) (s : Stream) : Stream :=
  let '(written, h) := a (handler s) in
  enqueue written {| handler := h; enqueued := enqueued s; closed := closed s |}.

Definition close (s : Stream) : Stream :=
  {| handler := handler s; enqueued := enqueued s; closed := true |}.

Section Driver.

Variables (modelName : jsstring) (thinkingEnabled : bool) (uuid : jsstring).

Definition driverOptions : OpenAIStreamHandlerOptions :=
  {| model := modelName; requestId := js "chatcmpl-" ++ uuid;
     enableThinkingParsing := thinkingEnabled |}.

(** The [onChunk] callback. *)
Definition onChunk (chunkText : jsstring) (toolUse : option KiroApi.KiroToolUse)
    (toolUseStream : option KiroApi.KiroToolUseStream) : Action :=
  (if Js.truthy chunkText then handleContent driverOptions chunkText else skip) ;;
  (match toolUse with
   | Some tu =>
       if Js.eqb (KiroApi.toolUseId tu) Sse.CONTENT_LENGTH_EXCEEDED
       then handleContentLengthExceeded
       else handleToolUse (Some (KiroApi.toolUseId tu)) (Some (KiroApi.name tu))
              (Some (Sse.Value (KiroApi.input tu))) true
   | None => skip
   end) ;;
  (match toolUseStream with
   | Some s =>
       handleToolUse (Some (KiroApi.s_toolUseId s)) (KiroApi.s_name s)
         (option_map Sse.Fragment (KiroApi.s_inputFragment s)) (KiroApi.s_isStop s)
   | None => skip
   end).

(** One callback of [callKiroApiStream]; on an error the message and the
    end marker are enqueued in one [try]. *)
Definition deliver (s : Stream) (c : KiroApi.Callback) : Stream :=
  match c with
  | KiroApi.OnChunk chunkText toolUse _ toolUseStream =>
      call (onChunk chunkText toolUse toolUseStream) s
  | KiroApi.OnComplete usage => close (call (finish driverOptions usage) s)
  | KiroApi.OnError message => close (enqueue [errorData message; done] s)
  end.

Definition opened : Stream :=
  call sendInitial {| handler := newHandler; enqueued := []; closed := false |}.

(** The events of the response for the callbacks made by the upstream
    call, in order. *)
Definition handleOpenAIStream (calls : list KiroApi.Callback) : list Event :=
  enqueued (fold_left deliver calls opened).

End Driver.

(** *** The shape of the response *)

(** A chunk that carries content, reasoning or a tool-call delta: no role,
    no finish reason, no usage. *)
Definition isDelta (e : Event) : bool :=
  match e with
  | chunk _ None _ None None _ => true
  | _ => false
  end.

(** The tool-call deltas of a trace, read in order from the index of the
    last call started: a call starts with the next index, and arguments
    carry the index of the call started last. *)
Fixpoint scanTools (latest : Z) (trace : list Event) : option Z :=
  match trace with
  | [] => Some latest
  | chunk _ _ (Some (callStart i _ _)) _ _ _ :: rest =>
      if i =? latest + 1 then scanTools i rest else None
  | chunk _ _ (Some (callArguments i _)) _ _ _ :: rest =>
      if (i =? latest) && (0 <=? i) then scanTools latest rest else None
  | _ :: rest => scanTools latest rest
  end.

Lemma scanTools_app (latest : Z) (a b : list Event) :
  scanTools latest (a ++ b)
  = match scanTools latest a with Some l => scanTools l b | None => None end.
Proof.
  revert latest. induction a as [|e r IH]; intros latest; [reflexivity|].
  cbn [app scanTools]. destruct e as [c ro [[i id nm|i f]|] fr u rc| |]; try apply IH.
  - destruct (i =? latest + 1); [apply IH | reflexivity].
  - destruct ((i =? latest) && (0 <=? i)); [apply IH | reflexivity].
Qed.

(** What the handler knows about the calls it has started, [latest] being
    the index of the last one. *)
Record inv (latest : Z) (h : Handler) : Prop := {
  inv_started : started h = true;
  inv_calls : Z.of_nat (length (toolCalls h)) = toolCallIndex h;
  inv_index :
    match currentToolCall h with
    | Some c => c_index c = latest /\ toolCallIndex h = latest
    | None => toolCallIndex h = latest + 1
    end
}.

(** What a method does at handler [h]: it writes deltas only, leaves
    [responseEnded] alone, changes [stopReasonOverride] by [f], and its
    tool-call deltas continue the numbering. *)
Definition okAt (f : option jsstring -> option jsstring) (a : Action)
    (h : Handler) (latest : Z) : Prop :=
  Forall (fun e => isDelta e = true) (fst (a h))
  /\ responseEnded (snd (a h)) = responseEnded h
  /\ stopReasonOverride (snd (a h)) = f (stopReasonOverride h)
  /\ exists latest', scanTools latest (fst (a h)) = Some latest' /\ inv latest' (snd (a h)).

Definition tracks (f : option jsstring -> option jsstring) (a : Action) : Prop :=
  forall h latest, inv latest h -> okAt f a h latest.

Notation keeps := (tracks (fun o => o)).

Lemma okAt_andThen f g (a b : Action) (h : Handler) (latest : Z) :
  okAt f a h latest ->
  (forall l, inv l (snd (a h)) -> okAt g b (snd (a h)) l) ->
  okAt (fun o => g (f o)) (a ;; b) h latest.
Proof.
  intros (A1 & A2 & A3 & l1 & A4 & A5) Hb. unfold okAt, andThen in *.
  destruct (a h) as [w1 h1]. cbn [fst snd] in *.
  destruct (Hb l1 A5) as (B1 & B2 & B3 & l2 & B4 & B5).
  destruct (b h1) as [w2 h2]. cbn [fst snd] in *.
  split; [apply Forall_app; split; assumption|].
  split; [congruence|]. split; [congruence|].
  exists l2. split; [rewrite scanTools_app, A4; exact B4 | exact B5].
Qed.

Lemma tracks_sequence f g (a b : Action) :
  tracks f a -> tracks g b -> tracks (fun o => g (f o)) (a ;; b).
Proof.
  intros Ha Hb h latest Hinv. apply okAt_andThen; [apply Ha, Hinv|].
  intros l Hl. apply Hb, Hl.
Qed.

Lemma keeps_andThen (a b : Action) : keeps a -> keeps b -> keeps (a ;; b).
Proof. intros Ha Hb. exact (tracks_sequence (fun o => o) (fun o => o) a b Ha Hb). Qed.

Lemma keeps_skip : keeps skip.
Proof.
  intros h latest Hinv. unfold okAt, skip. cbn [fst snd].
  split; [constructor|]. split; [reflexivity|]. split; [reflexivity|].
  exists latest. split; [reflexivity | exact Hinv].
Qed.

Lemma keeps_if (b : bool) (x y : Action) : keeps x -> keeps y -> keeps (if b then x else y).
Proof. destruct b; auto. Qed.

Lemma okAt_guard f (g : Handler -> bool) (x y : Action) (h : Handler) (latest : Z) :
  (g h = true -> okAt f x h latest) ->
  (g h = false -> okAt f y h latest) ->
  okAt f (fun h0 => if g h0 then x h0 else y h0) h latest.
Proof. unfold okAt. destruct (g h); auto. Qed.

(** The goal at a handler, read again as a statement about the method. *)
Ltac refold :=
  match goal with
  | |- Forall _ (fst (?a ?h)) /\ _ /\ _ /\ (exists l, scanTools ?latest _ = _ /\ _) =>
      change (okAt (fun o => o) a h latest)
  end.

(** An assignment that leaves the inspected fields alone. *)
Ltac keeps_assignment :=
  intros h latest [H1 H2 H3]; unfold okAt; cbn [fst snd];
  split; [constructor|]; split; [reflexivity|]; split; [reflexivity|];
  exists latest; split; [reflexivity | split; assumption].

Lemma keeps_set_thinkingParser v : keeps (set_thinkingParser v).
Proof. keeps_assignment. Qed.
Lemma keeps_set_responseBuffer v : keeps (set_responseBuffer v).
Proof. keeps_assignment. Qed.
Lemma keeps_set_thinkingBuffer v : keeps (set_thinkingBuffer v).
Proof. keeps_assignment. Qed.
Lemma keeps_set_outputTokens v : keeps (set_outputTokens v).
Proof. keeps_assignment. Qed.
Lemma keeps_set_responseBufferSize v : keeps (set_responseBufferSize v).
Proof. keeps_assignment. Qed.
Lemma keeps_set_thinkingBufferSize v : keeps (set_thinkingBufferSize v).
Proof. keeps_assignment. Qed.
Lemma keeps_set_bufferOverflowWarned v : keeps (set_bufferOverflowWarned v).
Proof. keeps_assignment. Qed.
Lemma keeps_set_processedToolUseIds v : keeps (set_processedToolUseIds v).
Proof. keeps_assignment. Qed.

Lemma keeps_write (e : Event) :
  isDelta e = true ->
  (forall latest, scanTools latest [e] = Some latest) ->
  keeps (onWrite e).
Proof.
  intros He Hs h latest Hinv. unfold okAt, onWrite. cbn [fst snd].
  split; [constructor; [exact He | constructor]|]. split; [reflexivity|].
  split; [reflexivity|]. exists latest. split; [apply Hs | exact Hinv].
Qed.

Lemma keeps_emitReasoning content : keeps (emitReasoning content).
Proof.
  intros h latest Hinv. unfold okAt, emitReasoning.
  destruct (negb (Js.truthy content)); [refold; apply keeps_skip, Hinv|].
  destruct (_ <? _); refold.
  - apply keeps_andThen; [apply keeps_set_bufferOverflowWarned | | exact Hinv].
    apply keeps_write; reflexivity.
  - apply keeps_andThen; [apply keeps_set_thinkingBuffer | | exact Hinv].
    apply keeps_andThen; [apply keeps_set_thinkingBufferSize|].
    apply keeps_write; reflexivity.
Qed.

Lemma keeps_emitContent content : keeps (emitContent content).
Proof.
  intros h latest Hinv. unfold okAt, emitContent.
  destruct (negb (Js.truthy content)); [refold; apply keeps_skip, Hinv|].
  destruct (_ <? _); refold.
  - apply keeps_andThen; [apply keeps_set_bufferOverflowWarned | | exact Hinv].
    apply keeps_write; reflexivity.
  - apply keeps_andThen; [apply keeps_set_responseBuffer | | exact Hinv].
    apply keeps_andThen; [apply keeps_set_responseBufferSize|].
    apply keeps_write; reflexivity.
Qed.

Lemma keeps_emitItems items : keeps (emitItems items).
Proof.
  induction items as [|i rest IH]; cbn [emitItems]; [apply keeps_skip|].
  apply keeps_andThen; [|exact IH]. unfold emitItem.
  destruct (ThinkingParser.type i); [apply keeps_emitReasoning | apply keeps_emitContent].
Qed.

Lemma keeps_sendInitial : keeps sendInitial.
Proof.
  intros h latest Hinv. unfold okAt, sendInitial. rewrite (inv_started _ _ Hinv).
  refold. apply keeps_skip, Hinv.
Qed.

Section Methods.

Variable options : OpenAIStreamHandlerOptions.

Lemma keeps_handleContent content : keeps (handleContent options content).
Proof.
  intros h latest Hinv. unfold okAt, handleContent.
  destruct (responseEnded h || negb (Js.truthy content)); [refold; apply keeps_skip, Hinv|].
  refold. apply keeps_andThen; [apply keeps_if; [apply keeps_skip | apply keeps_sendInitial] | | exact Hinv].
  apply keeps_andThen; [apply keeps_set_outputTokens|].
  destruct (enableThinkingParsing options); [|apply keeps_emitContent].
  destruct (ThinkingParser.process content (thinkingParser h)) as [items parser].
  apply keeps_andThen; [apply keeps_set_thinkingParser | apply keeps_emitItems].
Qed.

Lemma keeps_safeAdd fragment : keeps (safeAdd fragment).
Proof.
  intros h latest Hinv. unfold okAt, safeAdd.
  destruct (currentToolCall h) as [c|] eqn:Ec; [|refold; apply keeps_skip, Hinv].
  destruct Hinv as [H1 H2 H3]. rewrite Ec in H3. destruct H3 as [H3 H4].
  assert (Hs : scanTools latest
                 [chunk None None (Some (callArguments (c_index c) fragment)) None None None]
               = Some latest).
  { cbn [scanTools]. rewrite H3, Z.eqb_refl.
    destruct (Z.leb_spec 0 latest) as [_|Hneg]; [reflexivity | lia]. }
  destruct (_ <? _); unfold andThen, onWrite, set_currentToolCall; cbn [fst snd app].
  - split; [repeat constructor|]. split; [reflexivity|]. split; [reflexivity|].
    exists latest. split; [exact Hs|]. split; [exact H1 | exact H2 |]. rewrite Ec. tauto.
  - split; [repeat constructor|]. split; [reflexivity|]. split; [reflexivity|].
    exists latest. split; [exact Hs|].
    split; cbn [started toolCalls toolCallIndex currentToolCall c_index]; tauto.
Qed.

Lemma keeps_addInput toolInput : keeps (addInput toolInput).
Proof.
  unfold addInput. destruct (Sse.fragmentOf toolInput) as [frag|]; [|apply keeps_skip].
  apply keeps_if; [apply keeps_safeAdd | apply keeps_skip].
Qed.

Lemma keeps_finishToolCall : keeps finishToolCall.
Proof.
  intros h latest Hinv. unfold okAt, finishToolCall.
  destruct (currentToolCall h) as [c|] eqn:Ec; [|refold; apply keeps_skip, Hinv].
  destruct Hinv as [H1 H2 H3]. rewrite Ec in H3. destruct H3 as [H3 H4].
  unfold andThen, set_toolCalls, set_toolCallIndex, set_currentToolCall.
  cbn [fst snd app].
  split; [constructor|]. split; [reflexivity|]. split; [reflexivity|].
  exists latest. split; [reflexivity|].
  split; cbn [started toolCalls toolCallIndex currentToolCall]; [exact H1 | | lia].
  rewrite length_app. cbn [length]. lia.
Qed.

Lemma keeps_continue toolInput (isStop : bool) :
  keeps (addInput toolInput ;; (if isStop then finishToolCall else skip)).
Proof.
  apply keeps_andThen; [apply keeps_addInput|].
  apply keeps_if; [apply keeps_finishToolCall | apply keeps_skip].
Qed.

Lemma andThen_assoc3 (a b c d : Action) (h : Handler) :
  (a ;; b ;; c ;; d) h = ((a ;; b ;; c) ;; d) h.
Proof.
  unfold andThen. destruct (a h) as [w1 h1]. destruct (b h1) as [w2 h2].
  destruct (c h2) as [w3 h3]. destruct (d h3) as [w4 h4].
  rewrite <- !app_assoc. reflexivity.
Qed.

Lemma newToolCall_okAt id name toolInput isStop (h : Handler) (latest : Z) :
  inv latest h -> currentToolCall h = None ->
  okAt (fun o => o) (newToolCall id name toolInput isStop) h latest.
Proof.
  intros Hinv Ec. unfold okAt, newToolCall.
  destruct (bool_decide _); [refold; apply keeps_skip, Hinv|].
  destruct Hinv as [H1 H2 H3]. rewrite Ec in H3.
  rewrite andThen_assoc3. refold.
  apply (okAt_andThen (fun o => o) (fun o => o)).
  - unfold okAt, andThen, set_processedToolUseIds, set_currentToolCall, onWrite.
    cbn [fst snd app].
    split; [repeat constructor|]. split; [reflexivity|]. split; [reflexivity|].
    exists (latest + 1). split.
    + cbn [scanTools]. rewrite H3, Z.eqb_refl. reflexivity.
    + split; cbn [started toolCalls toolCallIndex currentToolCall c_index]; tauto.
  - intros l Hl. apply keeps_continue, Hl.
Qed.

Lemma keeps_handleToolUse toolUseId toolName toolInput isStop :
  keeps (handleToolUse toolUseId toolName toolInput isStop).
Proof.
  intros h latest Hinv. unfold handleToolUse.
  apply okAt_guard; intros _; [apply keeps_skip, Hinv|]. unfold okAt.
  destruct (negb (Sse.truthyId toolUseId) && negb (Sse.truthyId toolName)).
  { destruct (currentToolCall h); refold;
      [apply keeps_continue, Hinv | apply keeps_skip, Hinv]. }
  destruct toolUseId as [id|], toolName as [name|], (currentToolCall h) as [c|] eqn:Ec;
    try (refold; apply keeps_continue, Hinv); try (refold; apply keeps_skip, Hinv).
  destruct (Js.truthy id && Js.truthy name); refold; [|apply keeps_skip, Hinv].
  apply newToolCall_okAt; assumption.
Qed.

End Methods.

(** *** The response stream *)

Definition roleChunk : Event := chunk None (Some (js "assistant")) None None None None.

(** The chunk carries the marker of an exceeded content length. *)
Definition lengthExceeded (c : Sse.Chunk) : bool :=
  match Sse.c_toolUse c with
  | Some tu => Js.eqb (KiroApi.toolUseId tu) Sse.CONTENT_LENGTH_EXCEEDED
  | None => false
  end.

(** The indices of the tool calls a trace starts. *)
Definition startedIndex (e : Event) : option Z :=
  match e with
  | chunk _ _ (Some (callStart i _ _)) _ _ _ => Some i
  | _ => None
  end.

Definition startIndices (trace : list Event) : list Z := omap startedIndex trace.

Lemma startIndices_cons (e : Event) (rest : list Event) :
  startIndices (e :: rest)
  = match startedIndex e with Some i => i :: startIndices rest | None => startIndices rest end.
Proof. reflexivity. Qed.

Lemma scanTools_indices (trace : list Event) :
  forall latest latest',
    scanTools latest trace = Some latest' ->
    startIndices trace
    = map (fun k => latest + 1 + Z.of_nat k) (seq 0 (length (startIndices trace)))
    /\ latest' = latest + Z.of_nat (length (startIndices trace)).
Proof.
  induction trace as [|e rest IH]; intros latest latest' H.
  - cbn in *. injection H as <-. split; [reflexivity | lia].
  - rewrite startIndices_cons.
    destruct e as [c ro [[i id nm|i f]|] fr u rc| |]; cbn [scanTools] in H;
      cbn [startedIndex]; try (exact (IH _ _ H)).
    + destruct (Z.eqb_spec i (latest + 1)) as [->|]; [|discriminate].
      destruct (IH _ _ H) as [E1 E2]. cbn [length seq map]. split; [|lia].
      f_equal; [lia|]. rewrite <- seq_shift, map_map. rewrite E1 at 1.
      apply map_ext. intros k. lia.
    + destruct ((i =? latest) && (0 <=? i)); [exact (IH _ _ H) | discriminate].
Qed.

Lemma tracks_lengthExceeded :
  tracks (fun _ => Some (js "length")) handleContentLengthExceeded.
Proof.
  intros h latest [H1 H2 H3]. unfold okAt, handleContentLengthExceeded. cbn [fst snd].
  split; [constructor|]. split; [reflexivity|]. split; [reflexivity|].
  exists latest. split; [reflexivity | split; assumption].
Qed.

Section Streams.

Variables (modelName : jsstring) (thinkingEnabled : bool) (uuid : jsstring).

Notation options := (driverOptions modelName thinkingEnabled uuid).
Notation deliver := (deliver modelName thinkingEnabled uuid).

Lemma tracks_callback (c : Sse.Chunk) :
  tracks (fun o => if lengthExceeded c then Some (js "length") else o)
         (onChunk modelName thinkingEnabled uuid
            (Sse.c_text c) (Sse.c_toolUse c) (Sse.c_toolUseStream c)).
Proof.
  unfold onChunk, lengthExceeded.
  assert (H1 : keeps (if Js.truthy (Sse.c_text c)
                      then handleContent options (Sse.c_text c) else skip))
    by (apply keeps_if; [apply keeps_handleContent | apply keeps_skip]).
  assert (H3 : keeps (match Sse.c_toolUseStream c with
                      | Some s =>
                          handleToolUse (Some (KiroApi.s_toolUseId s)) (KiroApi.s_name s)
                            (option_map Sse.Fragment (KiroApi.s_inputFragment s))
                            (KiroApi.s_isStop s)
                      | None => skip
                      end))
    by (destruct (Sse.c_toolUseStream c); [apply keeps_handleToolUse | apply keeps_skip]).
  destruct (Sse.c_toolUse c) as [tu|].
  - destruct (Js.eqb (KiroApi.toolUseId tu) Sse.CONTENT_LENGTH_EXCEEDED).
    + exact (tracks_sequence (fun o => o) (fun _ => Some (js "length")) _ _ H1
               (tracks_sequence (fun _ => Some (js "length")) (fun o => o) _ _
                  tracks_lengthExceeded H3)).
    + apply keeps_andThen; [exact H1|].
      apply keeps_andThen; [apply keeps_handleToolUse | exact H3].
  - apply keeps_andThen; [exact H1|]. apply keeps_andThen; [apply keeps_skip | exact H3].
Qed.

(** The stream while the upstream call is delivering chunks: the role
    chunk, then the deltas [middle]. *)
Record streaming (s : Stream) (middle : list Event) (latest : Z)
    (override : option jsstring) : Prop := {
  st_open : closed s = false;
  st_live : responseEnded (handler s) = false;
  st_inv : inv latest (handler s);
  st_trace : enqueued s = roleChunk :: middle;
  st_deltas : Forall (fun e => isDelta e = true) middle;
  st_scan : scanTools (-1) middle = Some latest;
  st_override : stopReasonOverride (handler s) = override
}.

Lemma streaming_initial : streaming opened [] (-1) None.
Proof.
  split; try reflexivity; [|constructor].
  split; reflexivity.
Qed.

Lemma streaming_delivered (s : Stream) (c : Sse.Chunk) middle latest override :
  streaming s middle latest override ->
  exists middle' latest',
    streaming (deliver s (Sse.chunkCall c)) middle' latest'
              (if lengthExceeded c then Some (js "length") else override).
Proof.
  intros [Ho Hl Hi Ht Hd Hs Hv]. unfold Sse.chunkCall. cbn [OpenAIStream.deliver]. unfold call.
  destruct (tracks_callback c (handler s) latest Hi) as (A1 & A2 & A3 & l' & A4 & A5).
  destruct (onChunk _ _ _ _ _ _ (handler s)) as [written h]. cbn [fst snd] in *.
  exists (middle ++ written), l'. unfold enqueue. cbn [closed handler enqueued].
  rewrite Ho. split; cbn [closed handler enqueued].
  - reflexivity.
  - congruence.
  - exact A5.
  - rewrite Ht. reflexivity.
  - apply Forall_app. split; assumption.
  - rewrite scanTools_app, Hs. exact A4.
  - rewrite A3, Hv. reflexivity.
Qed.

Definition overrideAfter (chunks : list Sse.Chunk) : option jsstring :=
  if existsb lengthExceeded chunks then Some (js "length") else None.

Lemma streaming_all_delivered (chunks : list Sse.Chunk) :
  forall s middle latest override,
    streaming s middle latest override ->
    exists middle' latest',
      streaming (fold_left deliver (map Sse.chunkCall chunks) s) middle' latest'
                (if existsb lengthExceeded chunks then Some (js "length") else override).
Proof.
  induction chunks as [|c rest IH]; intros s middle latest override Hs.
  - exists middle, latest. exact Hs.
  - cbn [map fold_left existsb].
    destruct (streaming_delivered s c _ _ _ Hs) as (m1 & l1 & H1).
    destruct (IH _ _ _ _ H1) as (m2 & l2 & H2). exists m2, l2.
    destruct (lengthExceeded c); cbn [orb]; [|exact H2].
    destruct (existsb lengthExceeded rest); exact H2.
Qed.

(** What [finish] writes on a handler that has not ended. *)
Lemma finish_spec (usage : KiroApi.Usage) (h : Handler) (latest : Z) :
  inv latest h -> responseEnded h = false ->
  exists flushed latest' h',
    finish options usage h
    = (flushed ++ [chunk None None None (Some (finishReason h'))
                     (Some (usageInfo usage h')) None;
                   done], h')
    /\ Forall (fun e => isDelta e = true) flushed
    /\ scanTools latest flushed = Some latest'
    /\ inv latest' h'
    /\ stopReasonOverride h' = stopReasonOverride h.
Proof.
  intros Hinv Hlive. unfold finish. rewrite Hlive.
  set (flush := if enableThinkingParsing options
                then let '(items, parser) := ThinkingParser.finish (thinkingParser h) in
                     set_thinkingParser parser ;; emitItems items
                else skip).
  assert (Hflush : keeps flush).
  { unfold flush. destruct (enableThinkingParsing options); [|apply keeps_skip].
    destruct (ThinkingParser.finish (thinkingParser h)) as [items parser].
    apply keeps_andThen; [apply keeps_set_thinkingParser | apply keeps_emitItems]. }
  clearbody flush. unfold andThen, set_responseEnded, onWrite.
  destruct (flush _) as [w h2] eqn:Ef.
  match type of Ef with
  | flush ?r = _ =>
      assert (H1 : inv latest r)
        by (destruct Hinv as [G1 G2 G3]; split; [exact G1 | exact G2 | exact G3]);
      destruct (Hflush r latest H1) as (A1 & _ & A3 & l' & A4 & A5)
  end.
  rewrite Ef in A1, A3, A4, A5. cbn [fst snd stopReasonOverride] in *.
  exists w, l', h2. split; [reflexivity|]. split; [exact A1|]. split; [exact A4|].
  split; [exact A5 | exact A3].
Qed.

(** When the upstream call completes, whatever chunks it delivered, the
    response is: the role chunk; content, reasoning and tool-call deltas;
    one chunk with the finish reason and the usage; the end marker.  The
    finish reason is [length] when a chunk carried the marker of an
    exceeded content length, else [tool_calls] or [stop], and [stop] when
    no tool call was started. *)
Theorem completed_stream_shape (chunks : list Sse.Chunk) (usage : KiroApi.Usage) :
  exists middle reason info,
    handleOpenAIStream modelName thinkingEnabled uuid
      (map Sse.chunkCall chunks ++ [KiroApi.OnComplete usage])
    = roleChunk :: middle ++ [chunk None None None (Some reason) (Some info) None; done]
    /\ Forall (fun e => isDelta e = true) middle
    /\ prompt_tokens info = KiroApi.inputTokens usage
    /\ total_tokens info = prompt_tokens info + completion_tokens info
    /\ (existsb lengthExceeded chunks = true -> reason = js "length")
    /\ (existsb lengthExceeded chunks = false ->
          (reason = js "tool_calls" \/ reason = js "stop")
          /\ (startIndices middle = [] -> reason = js "stop")).
Proof.
  unfold handleOpenAIStream. rewrite fold_left_app. cbn [fold_left].
  destruct (streaming_all_delivered chunks _ _ _ _ streaming_initial)
    as (middle & latest & [Ho Hl Hi Ht Hd Hs Hv]).
  set (s := fold_left deliver (map Sse.chunkCall chunks) opened) in *.
  cbn [OpenAIStream.deliver]. unfold close, call.
  destruct (finish_spec usage (handler s) latest Hi Hl)
    as (flushed & l' & h' & F1 & F2 & F3 & F4 & F5).
  rewrite F1. unfold enqueue. cbn [closed handler enqueued]. rewrite Ho, Ht.
  exists (middle ++ flushed), (finishReason h'), (usageInfo usage h').
  split; [cbn [app]; rewrite <- app_assoc; reflexivity|].
  split; [apply Forall_app; split; assumption|].
  split; [reflexivity|]. split; [reflexivity|].
  unfold finishReason. rewrite F5, Hv. split.
  - intros ->. reflexivity.
  - intros ->. split; [destruct (toolCalls h'); auto|].
    intros Hnone.
    assert (Hscan : scanTools (-1) (middle ++ flushed) = Some l')
      by (rewrite scanTools_app, Hs; exact F3).
    destruct (scanTools_indices _ _ _ Hscan) as [_ Hl'].
    rewrite Hnone in Hl'. cbn [length] in Hl'.
    destruct F4 as [_ G2 G3]. destruct (toolCalls h') as [|t r]; [reflexivity|].
    cbn [length] in G2. destruct (currentToolCall h'); lia.
Qed.

(** When the upstream call fails, whatever chunks it delivered, the
    response is: the role chunk; the deltas written so far; the error
    message; the end marker.  No finish reason is written. *)
Theorem failed_stream_shape (chunks : list Sse.Chunk) (message : jsstring) :
  exists middle,
    handleOpenAIStream modelName thinkingEnabled uuid
      (map Sse.chunkCall chunks ++ [KiroApi.OnError message])
    = roleChunk :: middle ++ [errorData message; done]
    /\ Forall (fun e => isDelta e = true) middle.
Proof.
  unfold handleOpenAIStream. rewrite fold_left_app. cbn [fold_left].
  destruct (streaming_all_delivered chunks _ _ _ _ streaming_initial)
    as (middle & latest & [Ho Hl Hi Ht Hd Hs Hv]).
  cbn [OpenAIStream.deliver]. unfold close, enqueue. cbn [closed handler enqueued].
  rewrite Ho, Ht. exists middle. split; [reflexivity | exact Hd].
Qed.

(** The stream after any callbacks: its tool-call deltas are numbered in
    order. *)
Definition numbered (s : Stream) : Prop :=
  (exists latest, scanTools (-1) (enqueued s) = Some latest)
  /\ (closed s = false -> exists middle latest override, streaming s middle latest override).

Lemma numbered_deliver (s : Stream) (c : KiroApi.Callback) :
  numbered s -> numbered (deliver s c).
Proof.
  intros [[l Hl] Hopen]. destruct (closed s) eqn:Ec.
  - assert (E : enqueued (deliver s c) = enqueued s /\ closed (deliver s c) = true).
    { destruct c as [t tu th tus|u|m]; cbn [OpenAIStream.deliver]; unfold call, close, enqueue.
      - destruct (onChunk _ _ _ _ _ _ (handler s)). cbn [closed enqueued]. rewrite Ec. tauto.
      - destruct (finish _ _ (handler s)). cbn [closed enqueued]. rewrite Ec. tauto.
      - cbn [closed enqueued]. rewrite Ec. tauto. }
    destruct E as [E1 E2]. split; [exists l; rewrite E1; exact Hl|].
    rewrite E2. discriminate.
  - destruct (Hopen eq_refl) as (middle & latest & override & Hs).
    destruct c as [t tu th tus|u|m].
    + destruct (streaming_delivered s {| Sse.c_text := t; Sse.c_toolUse := tu;
                                     Sse.c_isThinking := th; Sse.c_toolUseStream := tus |}
                  _ _ _ Hs) as (m' & l' & Hs').
      unfold Sse.chunkCall in Hs'. cbn [Sse.c_text Sse.c_toolUse Sse.c_isThinking
                                        Sse.c_toolUseStream] in Hs'.
      split; [|intros _; eauto].
      exists l'. rewrite (st_trace _ _ _ _ Hs').
      change (scanTools (-1) (roleChunk :: m')) with (scanTools (-1) m').
      apply (st_scan _ _ _ _ Hs').
    + destruct Hs as [Ho Hlive Hi Ht Hd Hsc Hv].
      cbn [OpenAIStream.deliver]. unfold close, call.
      destruct (finish_spec u (handler s) latest Hi Hlive)
        as (flushed & l' & h' & F1 & F2 & F3 & F4 & F5).
      rewrite F1. unfold numbered, enqueue. cbn [closed handler enqueued]. rewrite Ho, Ht.
      split; [|discriminate]. exists l'.
      rewrite scanTools_app.
      change (scanTools (-1) (roleChunk :: middle)) with (scanTools (-1) middle).
      rewrite Hsc, scanTools_app, F3. reflexivity.
    + destruct Hs as [Ho Hlive Hi Ht Hd Hsc Hv].
      cbn [OpenAIStream.deliver]. unfold numbered, close, enqueue.
      cbn [closed handler enqueued].
      rewrite Ho, Ht. split; [|discriminate]. exists latest.
      rewrite scanTools_app.
      change (scanTools (-1) (roleChunk :: middle)) with (scanTools (-1) middle).
      rewrite Hsc. reflexivity.
Qed.

Lemma numbered_calls (calls : list KiroApi.Callback) :
  forall s, numbered s -> numbered (fold_left deliver calls s).
Proof.
  induction calls as [|c rest IH]; intros s Hs; [exact Hs|].
  cbn [fold_left]. apply IH, numbered_deliver, Hs.
Qed.

(** Whatever callbacks the upstream call makes, in whatever order: the
    tool calls of the response start with the indices 0, 1, 2, ... in
    that order, and every arguments delta carries the index of the tool
    call started last before it. *)
Theorem tool_call_indices (calls : list KiroApi.Callback) :
  let trace := handleOpenAIStream modelName thinkingEnabled uuid calls in
  startIndices trace = map Z.of_nat (seq 0 (length (startIndices trace)))
  /\ (forall before after c ro i f fr u rc,
        trace = before ++ chunk c ro (Some (callArguments i f)) fr u rc :: after ->
        last (startIndices before) = Some i).
Proof.
  intros trace.
  assert (Hn : numbered (fold_left deliver calls opened)).
  { apply numbered_calls. split; [exists (-1); reflexivity|].
    intros _. exists [], (-1), None. apply streaming_initial. }
  destruct Hn as [[latest Hscan] _]. fold (handleOpenAIStream modelName thinkingEnabled uuid calls) in Hscan.
  fold trace in Hscan. split.
  - destruct (scanTools_indices _ _ _ Hscan) as [E _]. rewrite E at 1.
    apply map_ext. intros k. lia.
  - intros before after c ro i f fr u rc Heq. rewrite Heq, scanTools_app in Hscan.
    destruct (scanTools (-1) before) as [l1|] eqn:Eb; [|discriminate].
    cbn [scanTools] in Hscan.
    destruct (Z.eqb_spec i l1) as [->|]; [|discriminate].
    destruct (Z.leb_spec 0 l1) as [Hpos|]; [|discriminate].
    destruct (scanTools_indices _ _ _ Eb) as [E1 E2].
    rewrite E1. destruct (length (startIndices before)) as [|n]; [lia|].
    rewrite seq_S, map_app. cbn [map Nat.add]. rewrite last_snoc. f_equal. lia.
Qed.

End Streams.

End OpenAIStream.

(* ================================================================== *)
(** * Sanitizing a payload before a retry (src/lib/types.ts)           *)
(* ================================================================== *)

Module Sanitize.
Import Payload.

(** [!s?.trim()] *)
Definition blank (s : jsstring) : bool := negb (Js.truthy (Js.trim s)).

(** The assistant side of a history message. *)
Definition cleanAssistant (a : KiroAssistantResponseMessage) : KiroAssistantResponseMessage :=
  {| a_content := if blank (a_content a) then js "I understand." else a_content a;
     toolUses :=
       match toolUses a with
       | Some uses =>
           match List.filter (fun tu => negb (blank (toolUseId tu)) && negb (blank (name tu)))
                             uses with
           | [] => None
           | valid => Some valid
           end
       | None => None
       end |}.

(** [seen.set(r.toolUseId, r)] on a [Map] kept in insertion order. *)
Fixpoint setSeen (r : KiroToolResult) (seen : list KiroToolResult) : list KiroToolResult :=
  match seen with
  | [] => [r]
  | s :: rest =>
      if Js.eqb (r_toolUseId r) (r_toolUseId s) then r :: rest else s :: setSeen r rest
  end.

(** [Array.from(seen.values())] after the loop over [valid]. *)
Definition lastPerId (valid : list KiroToolResult) : list KiroToolResult :=
  fold_left (fun seen r => setSeen r seen) valid [].

Definition cleanResults (c : Context) : Context :=
  match toolResults c with
  | Some results =>
      match List.filter (fun r => negb (blank (r_toolUseId r))) results with
      | [] => {| toolResults := None; tools := tools c |}
      | valid => {| toolResults := Some (lastPerId valid); tools := tools c |}
      end
  | None => c
  end.

(** [if (!ctx.tools?.length && !ctx.toolResults?.length) delete ...] *)
Definition dropEmptyContext (c : Context) : option Context :=
  if negb (nonEmpty (tools c)) && negb (nonEmpty (toolResults c)) then None else Some c.

(** The user side of a history message. *)
Definition cleanUser (u : KiroUserInputMessage) : KiroUserInputMessage :=
  let results :=
    match userInputMessageContext u with Some c => toolResults c | None => None end in
  {| content := if blank (content u) && negb (nonEmpty results)
                then js "Continue" else content u;
     modelId := modelId u; origin := origin u; images := images u;
     userInputMessageContext :=
       match userInputMessageContext u with
       | Some c => dropEmptyContext (cleanResults c)
       | None => None
       end |}.

Definition cleanMessage (msg : KiroHistoryMessage) : KiroHistoryMessage :=
  {| userInputMessage := option_map cleanUser (userInputMessage msg);
     assistantResponseMessage := option_map cleanAssistant (assistantResponseMessage msg) |}.

(** One round of the loop that restores the alternation. *)
Definition alternateStep (alternated : list KiroHistoryMessage) (msg : KiroHistoryMessage)
  : list KiroHistoryMessage :=
  match last alternated with
  | Some prev =>
      if Bool.eqb (isUserInputMessage prev) (isUserInputMessage msg)
      then alternated
           ++ [if isUserInputMessage msg then UNDERSTOOD_MESSAGE else CONTINUE_MESSAGE]
           ++ [msg]
      else alternated ++ [msg]
  | None => alternated ++ [msg]
  end.

Definition startWithUser (alternated : list KiroHistoryMessage) : list KiroHistoryMessage :=
  match alternated with
  | first :: _ => if isUserInputMessage first then alternated else HELLO_MESSAGE :: alternated
  | [] => []
  end.

Definition endWithAssistant (alternated : list KiroHistoryMessage) : list KiroHistoryMessage :=
  match last alternated with
  | Some final => if isUserInputMessage final then alternated ++ [UNDERSTOOD_MESSAGE]
                  else alternated
  | None => alternated
  end.

Definition sanitizeHistory (hist : list KiroHistoryMessage) : option (list KiroHistoryMessage) :=
  match endWithAssistant (startWithUser (fold_left alternateStep (map cleanMessage hist) [])) with
  | [] => None
  | alternated => Some alternated
  end.

Definition withContent (u : KiroUserInputMessage) (text : jsstring) : KiroUserInputMessage :=
  {| content := text; modelId := modelId u; origin := origin u; images := images u;
     userInputMessageContext := userInputMessageContext u |}.

Definition deepSanitizePayload (payload : KiroPayload) : KiroPayload :=
  {| conversationId := conversationId payload;
     currentMessage :=
       if blank (content (currentMessage payload))
       then withContent (currentMessage payload) (js "Continue")
       else currentMessage payload;
     history :=
       match history payload with
       | Some (m :: r) => sanitizeHistory (m :: r)
       | other => other
       end |}.

(** One message of the text-only history; a message with neither side is
    left out. *)
Definition textOnlyMessage (msg : KiroHistoryMessage) : list KiroHistoryMessage :=
  match assistantResponseMessage msg, userInputMessage msg with
  | Some a, _ =>
      [assistantMsg {| a_content := Js.or_else (a_content a) (js "I understand.");
                       toolUses := None |}]
  | None, Some u =>
      [userMsg {| content := Js.or_else (Js.trim (content u)) (js "Continue");
                  modelId := None; origin := Js.or_else (origin u) (js "AI_EDITOR");
                  images := None; userInputMessageContext := None |}]
  | None, None => []
  end.

Definition withoutToolResults (u : KiroUserInputMessage) : KiroUserInputMessage :=
  {| content := content u; modelId := modelId u; origin := origin u; images := images u;
     userInputMessageContext :=
       match userInputMessageContext u with
       | Some c => Some {| toolResults := None; tools := tools c |}
       | None => None
       end |}.

Definition aggressiveSanitizePayload (payload : KiroPayload) : KiroPayload :=
  deepSanitizePayload
    {| conversationId := conversationId payload;
       currentMessage := withoutToolResults (currentMessage payload);
       history :=
         match history payload with
         | Some (m :: r) =>
             match flat_map textOnlyMessage (m :: r) with
             | [] => None
             | textOnly => Some textOnly
             end
         | other => other
         end |}.

(** *** What the sanitized history looks like *)

Definition userFirst (h : list KiroHistoryMessage) : Prop :=
  forall m, head h = Some m -> isUserInputMessage m = true.

Definition assistantLast (h : list KiroHistoryMessage) : Prop :=
  forall m, last h = Some m -> isUserInputMessage m = false.

Lemma alternateStep_alternates (alternated : list KiroHistoryMessage) (msg : KiroHistoryMessage) :
  alternates alternated = true -> alternates (alternateStep alternated msg) = true.
Proof.
  intros H. unfold alternateStep. destruct (last alternated) as [prev|] eqn:El.
  - destruct (Bool.eqb (isUserInputMessage prev) (isUserInputMessage msg)) eqn:E.
    + apply Bool.eqb_prop in E. rewrite app_assoc, !alternates_snoc, last_snoc, H, El.
      rewrite E. destruct (isUserInputMessage msg) eqn:Em; reflexivity.
    + rewrite alternates_snoc, H, El. apply Bool.eqb_false_iff in E.
      destruct (isUserInputMessage prev), (isUserInputMessage msg); try reflexivity;
        contradiction E; reflexivity.
  - rewrite alternates_snoc, H, El. reflexivity.
Qed.

Lemma alternateStep_nonempty (alternated : list KiroHistoryMessage) (msg : KiroHistoryMessage) :
  alternateStep alternated msg <> [].
Proof.
  unfold alternateStep. destruct (last alternated) as [prev|]; [destruct (Bool.eqb _ _)|];
    intros H; apply app_eq_nil in H; destruct H as [_ H];
    try (apply app_eq_nil in H; destruct H as [_ H]); discriminate.
Qed.

Lemma fold_alternates (msgs : list KiroHistoryMessage) :
  forall alternated,
    alternates alternated = true ->
    alternates (fold_left alternateStep msgs alternated) = true.
Proof.
  induction msgs as [|m r IH]; intros alternated H; [exact H|].
  cbn [fold_left]. apply IH, alternateStep_alternates, H.
Qed.

Lemma fold_nonempty (msgs : list KiroHistoryMessage) :
  forall alternated,
    alternated <> [] \/ msgs <> [] -> fold_left alternateStep msgs alternated <> [].
Proof.
  induction msgs as [|m r IH]; intros alternated H; cbn [fold_left].
  - destruct H as [H|H]; [exact H | contradiction H; reflexivity].
  - apply IH. left. apply alternateStep_nonempty.
Qed.

Lemma startWithUser_spec (alternated : list KiroHistoryMessage) :
  alternates alternated = true ->
  alternates (startWithUser alternated) = true
  /\ userFirst (startWithUser alternated)
  /\ (alternated <> [] -> startWithUser alternated <> []).
Proof.
  intros H. unfold startWithUser, userFirst. destruct alternated as [|first rest].
  - split; [reflexivity|]. split; [discriminate | auto].
  - destruct (isUserInputMessage first) eqn:E.
    + split; [exact H|]. split; [intros m [= <-]; exact E | discriminate].
    + split; [|split; [intros m [= <-]; reflexivity | discriminate]].
      change (alternates (HELLO_MESSAGE :: first :: rest))
        with (xorb (isUserInputMessage HELLO_MESSAGE) (isUserInputMessage first)
              && alternates (first :: rest)).
      rewrite E, H. reflexivity.
Qed.

Lemma head_snoc (l : list KiroHistoryMessage) (x : KiroHistoryMessage) :
  l <> [] -> head (l ++ [x]) = head l.
Proof. destruct l; [congruence | reflexivity]. Qed.

Lemma endWithAssistant_spec (alternated : list KiroHistoryMessage) :
  alternates alternated = true -> userFirst alternated ->
  alternates (endWithAssistant alternated) = true
  /\ userFirst (endWithAssistant alternated)
  /\ assistantLast (endWithAssistant alternated)
  /\ (alternated <> [] -> endWithAssistant alternated <> []).
Proof.
  intros H Hu. unfold endWithAssistant, assistantLast.
  destruct (last alternated) as [final|] eqn:El.
  - destruct (isUserInputMessage final) eqn:E.
    + split; [rewrite alternates_snoc, H, El, E; reflexivity|].
      split; [|split].
      * unfold userFirst. rewrite head_snoc; [exact Hu|]. intros ->. discriminate.
      * intros m. rewrite last_snoc. intros [= <-]. reflexivity.
      * intros _ Hnil. apply app_eq_nil in Hnil. destruct Hnil; discriminate.
    + split; [exact H|]. split; [exact Hu|]. split; [|auto].
      intros m. rewrite El. intros [= <-]. exact E.
  - split; [exact H|]. split; [exact Hu|]. split; [|auto].
    intros m. rewrite El. discriminate.
Qed.

Lemma sanitizeHistory_spec (hist : list KiroHistoryMessage) :
  hist <> [] ->
  exists h, sanitizeHistory hist = Some h /\ h <> []
            /\ alternates h = true /\ userFirst h /\ assistantLast h.
Proof.
  intros Hne. unfold sanitizeHistory.
  set (a := fold_left alternateStep (map cleanMessage hist) []).
  assert (Ha : alternates a = true) by (apply fold_alternates; reflexivity).
  assert (Hn : a <> []).
  { apply fold_nonempty. right. destruct hist; [congruence | discriminate]. }
  destruct (startWithUser_spec a Ha) as (S1 & S2 & S3).
  destruct (endWithAssistant_spec _ S1 S2) as (E1 & E2 & E3 & E4).
  specialize (E4 (S3 Hn)).
  destruct (endWithAssistant (startWithUser a)) as [|x r] eqn:E; [congruence|].
  exists (x :: r). split; [reflexivity|]. split; [discriminate|]. tauto.
Qed.

Lemma blank_Continue : blank (js "Continue") = false.
Proof. reflexivity. Qed.

(** Whatever the payload holds, after [deepSanitizePayload] a history
    that was not empty alternates between user and assistant turns,
    starts with a user turn and ends with an assistant turn; an empty or
    absent history stays as it is; and the current message has a content
    that is not blank. *)
Theorem deepSanitizePayload_alternates (payload : KiroPayload) :
  let h := default [] (history (deepSanitizePayload payload)) in
  alternates h = true
  /\ userFirst h
  /\ assistantLast h
  /\ (h = [] <-> default [] (history payload) = [])
  /\ blank (content (currentMessage (deepSanitizePayload payload))) = false.
Proof.
  cbv zeta. unfold deepSanitizePayload. cbn [history currentMessage].
  assert (Hcur : blank (content (if blank (content (currentMessage payload))
                                 then withContent (currentMessage payload) (js "Continue")
                                 else currentMessage payload)) = false).
  { destruct (blank (content (currentMessage payload))) eqn:E; [|exact E]. reflexivity. }
  destruct (history payload) as [[|m r]|].
  - cbn. repeat split; try discriminate; auto.
  - destruct (sanitizeHistory_spec (m :: r)) as (h & -> & Hn & H1 & H2 & H3); [discriminate|].
    cbn [default]. split; [exact H1|]. split; [exact H2|]. split; [exact H3|].
    split; [|exact Hcur]. split; [intros E; contradiction | discriminate].
  - cbn. repeat split; try discriminate; auto.
Qed.

(** *** The text-only history *)

(** A message without tool uses and without a context. *)
Definition plain (m : KiroHistoryMessage) : Prop :=
  usesOf m = None
  /\ match userInputMessage m with
     | Some u => userInputMessageContext u = None
     | None => True
     end.

Lemma plain_cleanMessage (m : KiroHistoryMessage) : plain m -> plain (cleanMessage m).
Proof.
  unfold plain, usesOf, cleanMessage. cbn [assistantResponseMessage userInputMessage].
  intros [H1 H2]. split.
  - destruct (assistantResponseMessage m) as [a|]; [|reflexivity].
    cbn [option_map cleanAssistant toolUses]. rewrite H1. reflexivity.
  - destruct (userInputMessage m) as [u|]; [|exact I].
    cbn [option_map cleanUser userInputMessageContext]. rewrite H2. reflexivity.
Qed.

Lemma plain_textOnly (m : KiroHistoryMessage) : Forall plain (textOnlyMessage m).
Proof.
  unfold textOnlyMessage.
  destruct (assistantResponseMessage m), (userInputMessage m);
    try apply List.Forall_nil;
    (apply List.Forall_cons; [split; reflexivity | apply List.Forall_nil]).
Qed.

Lemma plain_alternateStep (alternated : list KiroHistoryMessage) (msg : KiroHistoryMessage) :
  Forall plain alternated -> plain msg -> Forall plain (alternateStep alternated msg).
Proof.
  intros Ha Hm. unfold alternateStep.
  assert (Hf : plain (if isUserInputMessage msg then UNDERSTOOD_MESSAGE else CONTINUE_MESSAGE))
    by (destruct (isUserInputMessage msg); split; reflexivity).
  assert (Hlast : Forall plain [msg]) by (apply List.Forall_cons; [exact Hm | apply List.Forall_nil]).
  destruct (last alternated); [destruct (Bool.eqb _ _)|];
    apply Forall_app; split; try assumption.
  cbn [app]. apply List.Forall_cons; assumption.
Qed.

Lemma plain_fold (msgs : list KiroHistoryMessage) :
  forall alternated,
    Forall plain alternated -> Forall plain msgs ->
    Forall plain (fold_left alternateStep msgs alternated).
Proof.
  induction msgs as [|m r IH]; intros alternated Ha Hm; [exact Ha|].
  cbn [fold_left]. inversion Hm as [|? ? H1 H2]; subst.
  apply IH; [apply plain_alternateStep; assumption | exact H2].
Qed.

Lemma plain_sanitizeHistory (hist h : list KiroHistoryMessage) :
  Forall plain hist -> sanitizeHistory hist = Some h -> Forall plain h.
Proof.
  intros Hp. unfold sanitizeHistory.
  set (a := fold_left alternateStep (map cleanMessage hist) []).
  assert (Ha : Forall plain a).
  { apply plain_fold; [apply List.Forall_nil|]. apply List.Forall_forall. intros x Hx.
    apply in_map_iff in Hx. destruct Hx as (y & <- & Hy).
    rewrite List.Forall_forall in Hp. apply plain_cleanMessage, Hp, Hy. }
  assert (Hs : Forall plain (startWithUser a)).
  { unfold startWithUser. destruct a as [|first rest]; [constructor|].
    destruct (isUserInputMessage first); [exact Ha|].
    apply List.Forall_cons; [split; reflexivity | exact Ha]. }
  assert (He : Forall plain (endWithAssistant (startWithUser a))).
  { unfold endWithAssistant. destruct (last (startWithUser a)) as [final|]; [|exact Hs].
    destruct (isUserInputMessage final); [|exact Hs].
    apply Forall_app. split; [exact Hs|].
    apply List.Forall_cons; [split; reflexivity | apply List.Forall_nil]. }
  destruct (endWithAssistant (startWithUser a)); [discriminate|].
  intros [= <-]. exact He.
Qed.

(** After [aggressiveSanitizePayload] no message of the history carries a
    tool use, a tool result or a tool list, the current message carries
    no tool result, and the history alternates from a user turn to a
    final assistant turn. *)
Theorem aggressiveSanitizePayload_strips_tools (payload : KiroPayload) :
  let h := default [] (history (aggressiveSanitizePayload payload)) in
  Forall plain h
  /\ resultsOf (userMsg (currentMessage (aggressiveSanitizePayload payload))) = None
  /\ alternates h = true /\ userFirst h /\ assistantLast h.
Proof.
  cbv zeta. unfold aggressiveSanitizePayload, deepSanitizePayload.
  cbn [history currentMessage conversationId].
  split; [|split].
  - destruct (history payload) as [[|m r]|]; try (cbn; apply List.Forall_nil).
    assert (Hp : Forall plain (flat_map textOnlyMessage (m :: r))).
    { apply List.Forall_forall. intros x Hx. apply in_flat_map in Hx.
      destruct Hx as (y & _ & Hx). pose proof (plain_textOnly y) as Hy.
      rewrite List.Forall_forall in Hy. apply Hy, Hx. }
    destruct (flat_map textOnlyMessage (m :: r)) as [|t ts]; [cbn; apply List.Forall_nil|].
    destruct (sanitizeHistory (t :: ts)) as [h|] eqn:E; [|cbn; apply List.Forall_nil].
    cbn [default]. apply (plain_sanitizeHistory _ _ Hp E).
  - unfold resultsOf, userMsg. cbn [userInputMessage].
    destruct (blank _); unfold withContent, withoutToolResults;
      cbn [userInputMessageContext]; destruct (userInputMessageContext (currentMessage payload));
      reflexivity.
  - destruct (history payload) as [[|m r]|]; try (cbn; repeat split; discriminate).
    destruct (flat_map textOnlyMessage (m :: r)) as [|t ts];
      [cbn; repeat split; discriminate|].
    destruct (sanitizeHistory_spec (t :: ts)) as (h & -> & Hn & H1 & H2 & H3); [discriminate|].
    cbn [default]. tauto.
Qed.

End Sanitize.

(* ================================================================== *)
(** * Thinking tags in the decoder (src/lib/types.ts)                  *)
(* ================================================================== *)

Module DecoderThinking.
Import KiroApi.

Definition THINKING_START_TAG : jsstring := js "<thinking>".
Definition THINKING_END_TAG : jsstring := js "</thinking>".
Definition MAX_THINKING_CHARS : Z := 100000.

(** An element of the array [parseThinkingContent] returns. *)
Record Piece := { text : jsstring; isThinking : bool }.

(** [for (let len = ...; len > 0; len--) if (buffer.slice(-len) ===
    tag.slice(0, len)) { pending = len; break }] *)
Fixpoint pendingFrom (len : nat) (buffer tag : jsstring) : nat :=
  match len with
  | O => O
  | S k =>
      if Js.eqb (skipn (length buffer - len) buffer) (firstn len tag) then len
      else pendingFrom k buffer tag
  end.

Definition pendingPrefix (buffer tag : jsstring) : nat :=
  pendingFrom (Nat.min (length buffer) (length tag - 1)) buffer tag.

Definition withBuffer (st : ThinkingParserState) (b : jsstring) : ThinkingParserState :=
  {| inThinking := inThinking st; t_buffer := b; thinkingLength := thinkingLength st |}.

(** One round of the loop outside a thinking block: the pieces pushed,
    the state, and whether the loop goes on. *)
Definition outside (st : ThinkingParserState) : list Piece * ThinkingParserState * bool :=
  let b := t_buffer st in
  match Js.indexOf THINKING_START_TAG b 0 with
  | None =>
      let safeLen := (length b - pendingPrefix b THINKING_START_TAG)%nat in
      if (0 <? safeLen)%nat
      then ([{| text := firstn safeLen b; isThinking := false |}],
            withBuffer st (skipn safeLen b), false)
      else ([], st, false)
  | Some startIdx =>
      ((if (0 <? startIdx)%nat then [{| text := firstn startIdx b; isThinking := false |}]
        else []),
       {| inThinking := true;
          t_buffer := skipn (startIdx + length THINKING_START_TAG) b;
          thinkingLength := 0 |},
       true)
  end.

(** The pieces pushed under [if (n > 0 && thinkingEnabled)]. *)
Definition thought (thinkingEnabled : bool) (n : nat) (b : jsstring) : list Piece :=
  if (0 <? n)%nat && thinkingEnabled then [{| text := firstn n b; isThinking := true |}]
  else [].

(** A start tag inside a thinking block: what precedes it is pushed and
    the block starts again. *)
Definition restart (thinkingEnabled : bool) (st : ThinkingParserState) (newStartIdx : nat)
  : list Piece * ThinkingParserState * bool :=
  (thought thinkingEnabled newStartIdx (t_buffer st),
   {| inThinking := inThinking st;
      t_buffer := skipn (newStartIdx + length THINKING_START_TAG) (t_buffer st);
      thinkingLength := 0 |},
   true).

Definition close (thinkingEnabled : bool) (st : ThinkingParserState) (endIdx : nat)
  : list Piece * ThinkingParserState * bool :=
  (thought thinkingEnabled endIdx (t_buffer st),
   {| inThinking := false;
      t_buffer := skipn (endIdx + length THINKING_END_TAG) (t_buffer st);
      thinkingLength := 0 |},
   true).

(** One round of the loop inside a thinking block. *)
Definition inside (thinkingEnabled : bool) (st : ThinkingParserState)
  : list Piece * ThinkingParserState * bool :=
  let b := t_buffer st in
  let endIdx := Js.indexOf THINKING_END_TAG b 0 in
  let newStartIdx := Js.indexOf THINKING_START_TAG b 0 in
  match endIdx with
  | None =>
      if MAX_THINKING_CHARS <? thinkingLength st then
        ((if (0 <? length b)%nat && thinkingEnabled
          then [{| text := b; isThinking := true |}] else []),
         {| inThinking := false; t_buffer := []; thinkingLength := 0 |}, true)
      else
        match newStartIdx with
        | Some n => restart thinkingEnabled st n
        | None =>
            let safeLen := (length b - pendingPrefix b THINKING_END_TAG)%nat in
            if (0 <? safeLen)%nat && thinkingEnabled
            then ([{| text := firstn safeLen b; isThinking := true |}],
                  {| inThinking := inThinking st; t_buffer := skipn safeLen b;
                     thinkingLength := thinkingLength st + Z.of_nat safeLen |},
                  false)
            else ([], st, false)
        end
  | Some e =>
      match newStartIdx with
      | Some n => if (n <? e)%nat then restart thinkingEnabled st n
                  else close thinkingEnabled st e
      | None => close thinkingEnabled st e
      end
  end.

(** [while (state.buffer.length > 0) { ... }] *)
Fixpoint loop (fuel : nat) (thinkingEnabled : bool) (st : ThinkingParserState)
  : list Piece * ThinkingParserState :=
  match fuel with
  | O => ([], st)
  | S k =>
      match t_buffer st with
      | [] => ([], st)
      | _ =>
          let '(pushed, st1, goesOn) :=
            if inThinking st then inside thinkingEnabled st else outside st in
          if goesOn then
            let '(more, st2) := loop k thinkingEnabled st1 in (pushed ++ more, st2)
          else (pushed, st1)
      end
  end.

Definition parseThinkingContent (content : jsstring) (st : ThinkingParserState)
    (thinkingEnabled : bool) : list Piece * ThinkingParserState :=
  loop (S (length (t_buffer st ++ content))) thinkingEnabled
       (withBuffer st (t_buffer st ++ content)).

(** The [assistantResponseEvent] branch of [parseEventStream]: the
    callbacks made for one [content], and the parser state. *)
Definition onAssistantResponseEvent (thinkingEnabled : bool) (content : jsstring)
    (st : ThinkingParserState) : list Callback * ThinkingParserState :=
  if Js.truthy content then
    let '(chunks, st1) := parseThinkingContent content st thinkingEnabled in
    (map (fun c => OnChunk (text c) None (Some (isThinking c)) None)
         (List.filter (fun c => Js.truthy (text c)) chunks),
     st1)
  else ([], st).

Fixpoint runContents (thinkingEnabled : bool) (contents : list jsstring)
    (st : ThinkingParserState) : list Callback * ThinkingParserState :=
  match contents with
  | [] => ([], st)
  | c :: rest =>
      let '(calls, st1) := onAssistantResponseEvent thinkingEnabled c st in
      let '(more, st2) := runContents thinkingEnabled rest st1 in
      (calls ++ more, st2)
  end.

(** The text callbacks of a stream of [assistantResponseEvent] frames,
    with the flush that follows the last frame. *)
Definition textCallbacks (thinkingEnabled : bool) (contents : list jsstring) : list Callback :=
  let '(calls, st) := runContents thinkingEnabled contents (thinkingState (start [])) in
  calls ++ flushThinking thinkingEnabled st.

(** *** The loop ends *)

Lemma round_shrinks (thinkingEnabled : bool) (st st1 : ThinkingParserState)
    (pushed : list Piece) :
  t_buffer st <> [] ->
  (if inThinking st then inside thinkingEnabled st else outside st) = (pushed, st1, true) ->
  (length (t_buffer st1) < length (t_buffer st))%nat.
Proof.
  intros Hne. assert (Hlen : (0 < length (t_buffer st))%nat)
    by (destruct (t_buffer st); [congruence | cbn; lia]).
  destruct (inThinking st).
  - unfold inside, restart, close.
    destruct (Js.indexOf THINKING_END_TAG (t_buffer st) 0) as [e|].
    + destruct (Js.indexOf THINKING_START_TAG (t_buffer st) 0) as [n|];
        [destruct (n <? e)%nat|]; intros [= _ <-]; cbn [t_buffer];
        rewrite length_skipn; cbn; lia.
    + destruct (MAX_THINKING_CHARS <? thinkingLength st).
      * intros [= _ <-]. cbn [t_buffer length]. exact Hlen.
      * destruct (Js.indexOf THINKING_START_TAG (t_buffer st) 0) as [n|].
        -- intros [= _ <-]. cbn [t_buffer]. rewrite length_skipn. cbn. lia.
        -- destruct (_ && _); discriminate.
  - unfold outside. destruct (Js.indexOf THINKING_START_TAG (t_buffer st) 0) as [n|].
    + intros [= _ <-]. cbn [t_buffer]. rewrite length_skipn. cbn. lia.
    + destruct (0 <? _)%nat; discriminate.
Qed.

(** With a fuel above the length of the buffer the loop has run to its
    end: any more fuel gives the same result. *)
Lemma loop_enough_fuel (thinkingEnabled : bool) (fuel : nat) :
  forall st extra,
    (length (t_buffer st) < fuel)%nat ->
    loop (fuel + extra) thinkingEnabled st = loop fuel thinkingEnabled st.
Proof.
  induction fuel as [|k IH]; intros st extra Hlt; [lia|].
  cbn [Nat.add loop]. destruct (t_buffer st) as [|c r] eqn:Eb; [reflexivity|].
  destruct (if inThinking st then inside thinkingEnabled st else outside st)
    as [[pushed st1] goesOn] eqn:Er.
  destruct goesOn; [|reflexivity].
  assert (Hs : (length (t_buffer st1) < length (t_buffer st))%nat)
    by (apply (round_shrinks thinkingEnabled st st1 pushed); [rewrite Eb; discriminate | exact Er]).
  rewrite IH; [reflexivity|]. rewrite Eb in Hs. cbn [length] in *. lia.
Qed.

(** *** Thinking switched off *)

Definition unflagged (c : Callback) : Prop :=
  match c with
  | OnChunk _ _ isThinking _ => isThinking = Some false
  | _ => False
  end.

Lemma round_silent (st : ThinkingParserState) :
  Forall (fun p => isThinking p = false)
         (fst (fst (if inThinking st then inside false st else outside st))).
Proof.
  destruct (inThinking st).
  - unfold inside, restart, close, thought.
    destruct (Js.indexOf THINKING_END_TAG (t_buffer st) 0) as [e|].
    + destruct (Js.indexOf THINKING_START_TAG (t_buffer st) 0) as [n|];
        [destruct (n <? e)%nat|]; cbn [fst]; rewrite andb_false_r; apply List.Forall_nil.
    + destruct (MAX_THINKING_CHARS <? thinkingLength st);
        [cbn [fst]; rewrite andb_false_r; apply List.Forall_nil|].
      destruct (Js.indexOf THINKING_START_TAG (t_buffer st) 0);
        cbn [fst]; rewrite andb_false_r; apply List.Forall_nil.
  - unfold outside. destruct (Js.indexOf THINKING_START_TAG (t_buffer st) 0) as [n|];
      destruct (0 <? _)%nat; cbn [fst];
      try apply List.Forall_nil; (apply List.Forall_cons; [reflexivity | apply List.Forall_nil]).
Qed.

Lemma loop_silent (fuel : nat) :
  forall st, Forall (fun p => isThinking p = false) (fst (loop fuel false st)).
Proof.
  induction fuel as [|k IH]; intros st; cbn [loop]; [apply List.Forall_nil|].
  destruct (t_buffer st) as [|c r]; [apply List.Forall_nil|].
  pose proof (round_silent st) as Hr.
  destruct (if inThinking st then inside false st else outside st) as [[pushed st1] goesOn].
  cbn [fst] in Hr. destruct goesOn; [|exact Hr].
  specialize (IH st1). destruct (loop k false st1) as [more st2]. cbn [fst] in *.
  apply Forall_app. split; assumption.
Qed.

Lemma onAssistantResponseEvent_silent (content : jsstring) (st : ThinkingParserState) :
  Forall unflagged (fst (onAssistantResponseEvent false content st)).
Proof.
  unfold onAssistantResponseEvent. destruct (Js.truthy content); [|apply List.Forall_nil].
  unfold parseThinkingContent.
  pose proof (loop_silent (S (length (t_buffer st ++ content)))
                (withBuffer st (t_buffer st ++ content))) as H.
  destruct (loop _ false _) as [chunks st1]. cbn [fst] in *.
  apply List.Forall_forall. intros c Hc. apply in_map_iff in Hc.
  destruct Hc as (p & <- & Hp). apply filter_In in Hp.
  rewrite List.Forall_forall in H. cbn [unflagged]. rewrite (H p (proj1 Hp)). reflexivity.
Qed.

(** With thinking switched off, no text callback of a stream is flagged
    as thinking, whatever the frames hold and however the tags are split
    over them; the flush at the end of the stream included. *)
Theorem disabled_thinking_is_unflagged (contents : list jsstring) :
  Forall unflagged (textCallbacks false contents).
Proof.
  unfold textCallbacks. generalize (thinkingState (start [])).
  induction contents as [|c rest IH]; intros st; cbn [runContents].
  - cbn [app]. unfold flushThinking. destruct (Js.truthy _); [|apply List.Forall_nil].
    apply List.Forall_cons; [|apply List.Forall_nil]. cbn [unflagged].
    rewrite andb_false_r. reflexivity.
  - pose proof (onAssistantResponseEvent_silent c st) as H1.
    destruct (onAssistantResponseEvent false c st) as [calls st1]. cbn [fst] in H1.
    specialize (IH st1). destruct (runContents false rest st1) as [more st2].
    rewrite <- app_assoc. apply Forall_app. split; assumption.
Qed.

(** *** Text without a tag *)

Definition noTagStart (s : jsstring) : Prop := Forall (fun c => c <> 60%N) s.

Lemma startsWith_tag (tagTail s : jsstring) :
  noTagStart s -> Js.startsWith (60%N :: tagTail) s = false.
Proof.
  intros H. destruct s as [|c r]; [reflexivity|]. cbn [Js.startsWith].
  inversion H as [|? ? Hc Hr]; subst. rewrite (proj2 (N.eqb_neq 60 c)) by congruence.
  reflexivity.
Qed.

Lemma indexOfAux_absent (tagTail s : jsstring) :
  noTagStart s -> forall pos, Js.indexOfAux (60%N :: tagTail) s pos = None.
Proof.
  induction s as [|c r IH]; intros H pos.
  - reflexivity.
  - cbn [Js.indexOfAux]. rewrite (startsWith_tag tagTail (c :: r) H).
    inversion H; subst. apply IH. assumption.
Qed.

Lemma indexOf_absent (tagTail s : jsstring) :
  noTagStart s -> Js.indexOf (60%N :: tagTail) s 0 = None.
Proof.
  intros H. unfold Js.indexOf. cbn [Nat.ltb Nat.leb skipn].
  apply indexOfAux_absent, H.
Qed.

Lemma pendingFrom_absent (tagTail buffer : jsstring) (len : nat) :
  noTagStart buffer -> (len <= length buffer)%nat ->
  pendingFrom len buffer (60%N :: tagTail) = 0%nat.
Proof.
  intros H. induction len as [|k IH]; intros Hlen; [reflexivity|].
  cbn [pendingFrom]. rewrite IH by lia.
  destruct (skipn (length buffer - S k) buffer) as [|c r] eqn:E.
  - apply (f_equal (@length N)) in E. rewrite length_skipn in E. cbn in E. lia.
  - assert (Hc : In c buffer).
    { rewrite <- (firstn_skipn (length buffer - S k) buffer), E.
      apply in_or_app. right. apply in_eq. }
    unfold noTagStart in H. rewrite List.Forall_forall in H. specialize (H c Hc).
    unfold Js.eqb. rewrite bool_decide_eq_false_2; [reflexivity|].
    cbn [firstn]. congruence.
Qed.

Definition fresh : ThinkingParserState :=
  {| inThinking := false; t_buffer := []; thinkingLength := 0 |}.

Lemma plain_content (thinkingEnabled : bool) (content : jsstring) :
  noTagStart content ->
  onAssistantResponseEvent thinkingEnabled content fresh
  = ((if Js.truthy content then [OnChunk content None (Some false) None] else []), fresh).
Proof.
  intros H. unfold onAssistantResponseEvent. destruct content as [|c r]; [reflexivity|].
  cbn [Js.truthy]. unfold parseThinkingContent, fresh, withBuffer.
  cbn [t_buffer app inThinking thinkingLength loop].
  unfold outside. cbn [t_buffer inThinking thinkingLength].
  assert (Et : THINKING_START_TAG = 60%N :: js "thinking>") by reflexivity.
  rewrite Et, (indexOf_absent _ (c :: r) H).
  unfold pendingPrefix.
  rewrite (pendingFrom_absent _ (c :: r) _ H) by apply Nat.le_min_l.
  rewrite Nat.sub_0_r. cbn [length Nat.ltb Nat.leb].
  unfold withBuffer. cbn [inThinking thinkingLength].
  change (S (length r)) with (length (c :: r)). rewrite firstn_all, skipn_all.
  reflexivity.
Qed.

(** Contents without the character [<] reach the callbacks as they are:
    one unflagged text callback for each content that is not empty, and
    nothing is held back for the flush - with thinking switched on or
    off. *)
Theorem plain_text_passes (thinkingEnabled : bool) (contents : list jsstring) :
  Forall noTagStart contents ->
  textCallbacks thinkingEnabled contents
  = map (fun c => OnChunk c None (Some false) None) (List.filter Js.truthy contents).
Proof.
  intros H. unfold textCallbacks. change (thinkingState (start [])) with fresh.
  assert (E : runContents thinkingEnabled contents fresh
              = (map (fun c => OnChunk c None (Some false) None)
                     (List.filter Js.truthy contents), fresh)).
  { induction H as [|c rest Hc Hrest IH]; [reflexivity|].
    cbn [runContents]. rewrite (plain_content thinkingEnabled c Hc), IH.
    cbn [List.filter]. destruct (Js.truthy c); reflexivity. }
  rewrite E. cbn. apply app_nil_r.
Qed.


Lemma plain_text_passes_witness :
  textCallbacks true [js "Hello, "; js ""; js "world"]
  = [OnChunk (js "Hello, ") None (Some false) None; OnChunk (js "world") None (Some false) None].
Proof.
  apply (plain_text_passes true [js "Hello, "; js ""; js "world"]).
  repeat (apply List.Forall_cons; [apply List.Forall_forall; intros c Hc; vm_compute in Hc; intuition (subst; discriminate)|]).
  apply List.Forall_nil.
Defined.

(** A content that ends with a prefix of the start tag is held back until
    the next content shows what follows: split after its first character,
    [<b>hello] reaches the callbacks whole, as it does in one piece. *)
Example tag_prefix_is_held_back :
  textCallbacks true [js "<"; js "b>hello"]
  = [OnChunk (js "<b>hello") None (Some false) None]
  /\ textCallbacks true [js "<b>hello"]
     = [OnChunk (js "<b>hello") None (Some false) None].
Proof. vm_compute. split; reflexivity. Qed.

End DecoderThinking.

(* ================================================================== *)
(** * Converting tool definitions (src/lib/accountPool.ts)             *)
(* ================================================================== *)

Module ToolConversion.
Import Payload.

(** [tool.function] of an OpenAI tool; the description may be absent. *)
Record OpenAITool := {
  f_name : jsstring;
  f_description : option jsstring;
  f_parameters : Json.t
}.

Record ClaudeTool := {
  t_name : jsstring;
  t_description : jsstring;
  input_schema : Json.t
}.

Definition KIRO_MAX_TOOL_DESC_LEN : Z := 10237.
Definition TOOL_CACHE_MAX : nat := 8.
Definition TOOL_CACHE_TTL : Z := 300000.

(** [x | 0] *)
Definition toInt32 (z : Z) : Z := (z + 2 ^ 31) mod 2 ^ 32 - 2 ^ 31.

(** [hash = ((hash << 5) - hash + s.charCodeAt(i)) | 0] *)
Definition hashStep (hash : Z) (code : N) : Z :=
  toInt32 (toInt32 (hash * 32) - hash + Z.of_N code).

(** [t.function.name + (t.function.description?.length || 0)] *)
Definition fingerprintText (t : OpenAITool) : jsstring :=
  f_name t ++ Js.showZ (match f_description t with
                        | Some d => Js.len d
                        | None => 0
                        end).

Definition toolsFingerprint (tools : list OpenAITool) : jsstring :=
  let hash := fold_left (fun h t => fold_left hashStep (fingerprintText t) h) tools 0 in
  Js.showZ (Z.of_nat (length tools)) ++ js ":" ++ Js.showZ (hash mod 2 ^ 32).

Definition WRITE_TOOL_SUFFIX : jsstring :=
  10%N :: js "- IMPORTANT: If the content to write exceeds 150 lines, you MUST only write the first 50 lines using this tool, then use `Edit` tool to append the remaining content in chunks of no more than 50 lines each.".

Definition EDIT_TOOL_SUFFIX : jsstring :=
  10%N :: js "- IMPORTANT: If the `new_string` content exceeds 50 lines, you MUST split it into multiple Edit calls, each replacing no more than 50 lines at a time.".

(** [s.lastIndexOf(p)] *)
Fixpoint lastIndexOfAux (p s : jsstring) (pos : nat) (best : option nat) : option nat :=
  let best' := if Js.startsWith p s then Some pos else best in
  match s with
  | [] => best'
  | _ :: r => lastIndexOfAux p r (S pos) best'
  end.

Definition lastIndexOf (p s : jsstring) : option nat := lastIndexOfAux p s 0 None.

Definition shortenToolName (name : jsstring) : jsstring :=
  let limit := 64%nat in
  if (length name <=? limit)%nat then name
  else
    let cut := firstn limit name in
    if Js.startsWith (js "mcp__") name then
      match lastIndexOf (js "__") name with
      | Some lastIdx =>
          if (5 <? lastIdx)%nat then
            let shortened := js "mcp__" ++ skipn (lastIdx + 2) name in
            if (limit <? length shortened)%nat then firstn limit shortened else shortened
          else cut
      | None => cut
      end
    else cut.

Section WithLowerCase.

(** [String.prototype.toLowerCase] *)
Variable toLowerCase : jsstring -> jsstring.

Definition appendToolSizeLimits (name description : jsstring) : jsstring :=
  let lower := toLowerCase name in
  if Js.eqb lower (js "write") then description ++ WRITE_TOOL_SUFFIX
  else if Js.eqb lower (js "edit") then description ++ EDIT_TOOL_SUFFIX
  else description.

(** The body of the [map] callback of both converters. *)
Definition convertTool (name description : jsstring) (schema : Json.t) : KiroToolWrapper :=
  let described := appendToolSizeLimits name (Js.or_else description (js "Tool: " ++ name)) in
  {| spec_name := shortenToolName name;
     spec_description :=
       if KIRO_MAX_TOOL_DESC_LEN <? Js.len described
       then firstn (Z.to_nat KIRO_MAX_TOOL_DESC_LEN) described ++ js "..."
       else described;
     spec_schema := schema |}.

Definition convertClaudeTools (tools : option (list ClaudeTool)) : list KiroToolWrapper :=
  match tools with
  | None => []
  | Some ts => map (fun t => convertTool (t_name t) (t_description t) (input_schema t)) ts
  end.

(** [toolConvertCache], a [Map] in insertion order. *)
Definition Cache := list (jsstring * (list KiroToolWrapper * Z)).

Fixpoint lookup (key : jsstring) (c : Cache) : option (list KiroToolWrapper * Z) :=
  match c with
  | [] => None
  | (k, v) :: r => if Js.eqb key k then Some v else lookup key r
  end.

Fixpoint setEntry (key : jsstring) (v : list KiroToolWrapper * Z) (c : Cache) : Cache :=
  match c with
  | [] => [(key, v)]
  | (k, w) :: r => if Js.eqb key k then (k, v) :: r else (k, w) :: setEntry key v r
  end.

Definition convertAll (tools : list OpenAITool) : list KiroToolWrapper :=
  map (fun t => convertTool (f_name t) (default [] (f_description t)) (f_parameters t)) tools.

(** [convertOpenAITools(tools)] at time [now]: the tools returned and the
    cache afterwards. *)
Definition convertOpenAITools (now : Z) (tools : option (list OpenAITool)) (c : Cache)
  : list KiroToolWrapper * Cache :=
  match tools with
  | None | Some [] => ([], c)
  | Some ts =>
      let fp := toolsFingerprint ts in
      let fresh :=
        let result := convertAll ts in
        let c1 := if (TOOL_CACHE_MAX <=? length c)%nat then tl c else c in
        (result, setEntry fp (result, now) c1) in
      match lookup fp c with
      | Some (cachedTools, timestamp) =>
          if now - timestamp <? TOOL_CACHE_TTL then (cachedTools, c) else fresh
      | None => fresh
      end
  end.

End WithLowerCase.

(** *** The limits of a converted tool *)

Definition withinLimits (w : KiroToolWrapper) : Prop :=
  (length (spec_name w) <= 64)%nat
  /\ Js.len (spec_description w) <= KIRO_MAX_TOOL_DESC_LEN + 3.

Lemma shortenToolName_length (name : jsstring) : (length (shortenToolName name) <= 64)%nat.
Proof.
  unfold shortenToolName.
  destruct (Nat.leb_spec (length name) 64) as [H|H]; [exact H|].
  assert (Hcut : (length (firstn 64 name) <= 64)%nat) by (rewrite length_firstn; lia).
  destruct (Js.startsWith _ name); [|exact Hcut].
  destruct (lastIndexOf _ name) as [lastIdx|]; [|exact Hcut].
  destruct (5 <? lastIdx)%nat; [|exact Hcut].
  destruct (Nat.ltb_spec 64 (length (js "mcp__" ++ skipn (lastIdx + 2) name))) as [G|G];
    [rewrite length_firstn; lia | exact G].
Qed.

(** A name within the limit is left as it is. *)
Lemma shortenToolName_short (name : jsstring) :
  (length name <= 64)%nat -> shortenToolName name = name.
Proof.
  intros H. unfold shortenToolName.
  destruct (Nat.leb_spec (length name) 64); [reflexivity | lia].
Qed.

Section Limits.

Variable toLowerCase : jsstring -> jsstring.

Lemma convertTool_withinLimits (name description : jsstring) (schema : Json.t) :
  withinLimits (convertTool toLowerCase name description schema).
Proof.
  unfold withinLimits, convertTool. cbn [spec_name spec_description].
  split; [apply shortenToolName_length|].
  unfold KIRO_MAX_TOOL_DESC_LEN, Js.len.
  set (described := appendToolSizeLimits toLowerCase name _).
  destruct (Z.ltb_spec 10237 (Z.of_nat (length described))) as [H|H]; [|lia].
  rewrite length_app, length_firstn. cbn [length Js.lit]. lia.
Qed.

Definition cacheWithinLimits (c : Cache) : Prop :=
  (length c <= TOOL_CACHE_MAX)%nat
  /\ Forall (fun e => Forall withinLimits (fst (snd e))) c.

Lemma setEntry_length (key : jsstring) v (c : Cache) :
  (length (setEntry key v c) <= S (length c))%nat.
Proof.
  induction c as [|[k w] r IH]; cbn [setEntry length]; [lia|].
  destruct (Js.eqb key k); cbn [length]; lia.
Qed.

Lemma setEntry_Forall (P : jsstring * (list KiroToolWrapper * Z) -> Prop) key v (c : Cache) :
  (forall k, P (k, v)) -> Forall P c -> Forall P (setEntry key v c).
Proof.
  intros Hv. induction 1 as [|[k w] r Hk Hr IH]; cbn [setEntry].
  - apply List.Forall_cons; [apply Hv | apply List.Forall_nil].
  - destruct (Js.eqb key k); apply List.Forall_cons; auto.
Qed.

Lemma lookup_Forall (P : jsstring * (list KiroToolWrapper * Z) -> Prop) key v (c : Cache) :
  Forall P c -> lookup key c = Some v -> exists k, P (k, v).
Proof.
  induction 1 as [|[k w] r Hk Hr IH]; cbn [lookup]; [discriminate|].
  destruct (Js.eqb key k); [intros [= <-]; eauto | exact IH].
Qed.

Lemma convertAll_withinLimits (tools : list OpenAITool) :
  Forall withinLimits (convertAll toLowerCase tools).
Proof.
  unfold convertAll. apply List.Forall_forall. intros w Hw. apply in_map_iff in Hw.
  destruct Hw as (t & <- & _). apply convertTool_withinLimits.
Qed.

Lemma convertOpenAITools_withinLimits (now : Z) (tools : option (list OpenAITool)) (c : Cache) :
  cacheWithinLimits c ->
  Forall withinLimits (fst (convertOpenAITools toLowerCase now tools c))
  /\ cacheWithinLimits (snd (convertOpenAITools toLowerCase now tools c)).
Proof.
  intros [Hlen Hall]. unfold convertOpenAITools.
  destruct tools as [[|t ts]|]; cbn [fst snd];
    try (split; [apply List.Forall_nil | split; assumption]).
  set (fp := toolsFingerprint (t :: ts)).
  assert (Hfresh :
    Forall withinLimits (convertAll toLowerCase (t :: ts))
    /\ cacheWithinLimits
         (setEntry fp (convertAll toLowerCase (t :: ts), now)
            (if (TOOL_CACHE_MAX <=? length c)%nat then tl c else c))).
  { split; [apply convertAll_withinLimits|]. split.
    - pose proof (setEntry_length fp (convertAll toLowerCase (t :: ts), now)
                    (if (TOOL_CACHE_MAX <=? length c)%nat then tl c else c)) as Hs.
      unfold TOOL_CACHE_MAX in *.
      destruct (Nat.leb_spec 8 (length c)); [destruct c; cbn [tl length] in *; lia | lia].
    - apply setEntry_Forall; [intros k; apply convertAll_withinLimits|].
      destruct (TOOL_CACHE_MAX <=? length c)%nat; [|exact Hall].
      destruct c; [exact Hall | inversion Hall; assumption]. }
  destruct (lookup fp c) as [[cachedTools timestamp]|] eqn:El; [|exact Hfresh].
  destruct (now - timestamp <? TOOL_CACHE_TTL); [|exact Hfresh].
  cbn [fst snd]. split; [|split; assumption].
  destruct (lookup_Forall _ _ _ _ Hall El) as [k Hk]. exact Hk.
Qed.

(** The conversions made by a sequence of requests, from an empty cache. *)
Fixpoint convertEach (requests : list (Z * option (list OpenAITool))) (c : Cache)
  : list (list KiroToolWrapper) :=
  match requests with
  | [] => []
  | (now, tools) :: rest =>
      let '(result, c1) := convertOpenAITools toLowerCase now tools c in
      result :: convertEach rest c1
  end.

(** Every tool handed to the upstream has a name of at most 64 characters
    and a description of at most 10240: the tools converted from an
    Anthropic request, and the tools returned for any sequence of OpenAI
    requests, served from the conversion cache or not. *)
Theorem converted_tools_within_limits :
  (forall tools, Forall withinLimits (convertClaudeTools toLowerCase tools)
                 /\ length (convertClaudeTools toLowerCase tools)
                    = length (default [] tools))
  /\ (forall requests,
        Forall (Forall withinLimits) (convertEach requests [])).
Proof.
  split.
  - intros [ts|]; cbn [convertClaudeTools default]; [|split; [apply List.Forall_nil | reflexivity]].
    split; [|apply length_map]. apply List.Forall_forall. intros w Hw.
    apply in_map_iff in Hw. destruct Hw as (t & <- & _). apply convertTool_withinLimits.
  - intros requests.
    assert (H : forall c, cacheWithinLimits c ->
                          Forall (Forall withinLimits) (convertEach requests c)).
    { induction requests as [|[now tools] rest IH]; intros c Hc; cbn [convertEach].
      - apply List.Forall_nil.
      - destruct (convertOpenAITools_withinLimits now tools c Hc) as [H1 H2].
        destruct (convertOpenAITools toLowerCase now tools c) as [result c1].
        cbn [fst snd] in *. apply List.Forall_cons; [exact H1 | apply IH, H2]. }
    apply H. split; [cbn; unfold TOOL_CACHE_MAX; lia | apply List.Forall_nil].
Qed.

(** *** What the cache is keyed by *)

(** Two tool lists agree on the names and on the lengths of the
    descriptions, tool by tool. *)
Definition sameShape (a b : list OpenAITool) : Prop :=
  map fingerprintText a = map fingerprintText b.

Lemma toolsFingerprint_shape (a b : list OpenAITool) :
  sameShape a b -> toolsFingerprint a = toolsFingerprint b.
Proof.
  unfold sameShape, toolsFingerprint. intros H.
  assert (Hl : length a = length b)
    by (rewrite <- (length_map fingerprintText a), H; apply length_map).
  assert (Hh : forall h,
             fold_left (fun h t => fold_left hashStep (fingerprintText t) h) a h
             = fold_left (fun h t => fold_left hashStep (fingerprintText t) h) b h).
  { revert b H Hl. induction a as [|x r IH]; intros [|y s] H Hl h; try discriminate;
      [reflexivity|].
    cbn [map] in H. injection H as Hx Hr. cbn [fold_left]. rewrite Hx.
    apply IH; [exact Hr | cbn in Hl; lia]. }
  rewrite Hl, Hh. reflexivity.
Qed.

Lemma lookup_setEntry (key : jsstring) v (c : Cache) : lookup key (setEntry key v c) = Some v.
Proof.
  induction c as [|[k w] r IH]; cbn [setEntry lookup].
  - unfold Js.eqb. rewrite bool_decide_eq_true_2; reflexivity.
  - destruct (Js.eqb key k) eqn:E; cbn [lookup]; rewrite E; [reflexivity | exact IH].
Qed.

(** The conversion cache is keyed by the number of tools, their names and
    the lengths of their descriptions only.  After a request whose tools
    were converted afresh, a request made less than five minutes later
    with tools of the same shape is answered with that first conversion,
    whatever its own descriptions and parameter schemas are. *)
Theorem cached_conversion_is_reused (c : Cache) (now later : Z)
    (first second : list OpenAITool) :
  first <> [] ->
  lookup (toolsFingerprint first) c = None ->
  sameShape first second ->
  later - now < TOOL_CACHE_TTL ->
  let '(converted, c1) := convertOpenAITools toLowerCase now (Some first) c in
  converted = convertAll toLowerCase first
  /\ fst (convertOpenAITools toLowerCase later (Some second) c1) = converted.
Proof.
  intros Hne Hmiss Hshape Hfresh. unfold convertOpenAITools at 1.
  destruct first as [|t ts]; [congruence|]. rewrite Hmiss.
  split; [reflexivity|].
  unfold convertOpenAITools.
  destruct second as [|u us]; [discriminate Hshape|].
  rewrite <- (toolsFingerprint_shape _ _ Hshape), lookup_setEntry.
  destruct (Z.ltb_spec (later - now) TOOL_CACHE_TTL); [reflexivity | lia].
Qed.

End Limits.

Definition asciiLower (s : jsstring) : jsstring :=
  map (fun c => if ((65 <=? c) && (c <=? 90))%N then (c + 32)%N else c) s.

Definition readTool (schema : Json.t) : OpenAITool :=
  {| f_name := js "Read"; f_description := Some (js "Reads a file"); f_parameters := schema |}.

Lemma cached_conversion_is_reused_witness :
  fst (convertOpenAITools asciiLower 1000 (Some [readTool (Json.JString (js "new schema"))])
         (snd (convertOpenAITools asciiLower 0
                 (Some [readTool (Json.JString (js "old schema"))]) [])))
  = convertAll asciiLower [readTool (Json.JString (js "old schema"))].
Proof.
  pose proof (cached_conversion_is_reused asciiLower [] 0 1000
                [readTool (Json.JString (js "old schema"))]
                [readTool (Json.JString (js "new schema"))]) as H.
  destruct (convertOpenAITools asciiLower 0
              (Some [readTool (Json.JString (js "old schema"))]) []) as [converted c1].
  cbn [snd]. destruct H as [H1 H2].
  - discriminate.
  - reflexivity.
  - reflexivity.
  - reflexivity.
  - rewrite H2. exact H1.
Defined.

End ToolConversion.
